(* ===== verification/_CoqProject ===== *)
-Q . S2P
Prelude.v
Rust.v
Vte.v
PtyTerminal.v
HostTypes.v
Transcript.v
PtyIo.v
Sdk.v
PolicyLog.v
Pake.v
Server.v
WsAuth.v
WsRuntime.v
WsThreads.v
Float.v
Terminal.v
TerminalRows.v
TerminalSafety.v
TerminalSpec.v
Mcts.v
MctsSpec.v
MctsSearch.v
MctsDisk.v
Agent.v
AgentServer.v
AgentSession.v
Roster.v
StreamBridge.v
HostChild.v
HostTable.v
Runtime.v
Cli.v
SdkHttp.v
SdkFs.v
SdkFind.v
SdkGit.v
SdkTests.v
PakeBridge.v
AvFrames.v
Pipeline.v
Av.v
NumberGame.v
TreeSitter.v
Maintainability.v
Desktop.v
ServerMain.v
Eye.v
HostWindow.v
Build.v
PolicyHost.v
HostTests.v
