(* ===== verification/Prelude.v ===== *)
(** * Man-in-the-Box: a verification development

    Man-in-the-Box runs a terminal program under the control of a policy: a
    WebAssembly component that watches the program's output and types for the
    user.  The host opens a pseudo-terminal, answers the program's terminal
    requests, keeps a transcript, and polls the policy; an SDK helps writing
    policies; a rendezvous server lets a remote person ("zookeeper") find the
    host ("agent") after a password-authenticated key exchange; a desktop
    application shows the terminal.  This library models these programs as
    executable definitions, file by file, and proves what makes them correct.

    ** Conventions

    Rust's integers are [Z] or, for sizes and indices that only grow by the
    data, [nat], with wrapping, saturating and checked operations written out
    ([Rust.v]); bytes are [ascii], strings are [string] taken as their UTF-8
    bytes; floats are the standard library's executable IEEE 754 numbers
    ([Float.v]).  [Result] is [result]; stdpp's monad notation is the [?]
    operator.  [None] of an operation that returns an [option] of its outcome
    is a panic or, where a definition recurses on fuel, running out of it; the
    theorems show that neither occurs.  State is passed explicitly; locks held
    over a critical section make it one step, and between two critical sections
    other tasks may change the shared state.  A concurrent component is a step
    function over an interleaved list of operations.

    Code outside the repository is a parameter, given by a class with its
    documented laws: the escape sequence parser ([VteParser] in [Vte.v]), the
    writer and reader of the pseudo-terminal ([Device] in [PtyIo.v]), the
    OPAQUE and base64 crates ([Pake.v]), the message codecs ([WsAuth.v],
    [WsRuntime.v]), the width of characters and the colours of the toolkit
    ([Display] in [Terminal.v]), the file system, serde_json, and the
    platform's logarithm and power ([MctsEnv] in [Mcts.v]), the regex engine
    and process spawning ([Sdk.v]).  Each file that states a theorem under such
    laws also instantiates them.

    ** The files

    - [Prelude.v] (this file): results, tactics, the generic lemmas on lists and
      on runs of steps.  [Rust.v]: machine integers, durations, strings and
      UTF-8, trimming, chunks.  [Float.v]: floats and their order.
    - [Vte.v], [PtyTerminal.v]: [mitb-host/src/terminal_state.rs], the cursor
      tracker that answers position requests ([feed_all_reports]).
    - [HostTypes.v]: the host's errors, events and the types of the policy
      world.  [Transcript.v]: [mitb-host/src/transcript.rs], proved to refine
      the stream of output ([transcript_is_window], [bytes_since_segment]).
    - [PtyIo.v]: [mitb-host/src/pty_io.rs], typing a policy's inputs
      ([write_inputs_delivers], [write_inputs_prefix]) and the reader thread
      ([read_pty_output_spec]), against the interfaces of the two files above.
    - [Sdk.v]: [mitb-sdk/src/lib.rs] without its HTTP client: back-off, idle
      detection, log lines, shuffling, truncation, processes and the session
      that runs a policy ([session_refines_history], [run_process_outcome],
      [truncate_spec], [backoff_sequence], [pseudo_shuffle_permutes]).
    - [PolicyLog.v]: [mitb-host/src/policy_log.rs]; the log the SDK writes is the
      log the host reads ([log_records_are_lines], [sdk_log_reaches_host]).
    - [Pake.v]: the sessions of [mitb-pake/src/lib.rs]
      ([pake_handshake_completes]).
    - [Server.v]: [mitb-server/src/lib.rs] and [app_state.rs]: rooms, quotas,
      rate limits, routing ([server_invariant], [register_joins],
      [unregister_undoes_register], [signal_delivered_iff],
      [auth_limit_is_sliding_window]).
    - [WsAuth.v]: [mitb-server/src/ws_auth.rs], the handshake of a socket as a
      program with early returns over socket and shared state
      ([authenticated_after_login], [room_created_only_by_agent_login],
      [normalize_room_handle_spec]).
    - [WsRuntime.v]: [mitb-server/src/ws_runtime.rs], any number of connections
      with bounded queues, interleaved from one [select!] to the next as one
      worker thread runs them ([members_are_connections],
      [slow_client_is_disconnected]).  [WsThreads.v] cuts the same tasks at each
      access to the shared state or a queue, as several threads run them
      ([members_are_registered], [one_thread_is_a_schedule]).
    - [Terminal.v]: [mitb-box/src/terminal.rs], the emulator of the desktop
      application.  [TerminalRows.v] (the pairing of wide cells in a row) and
      [TerminalSafety.v] (every handler keeps the invariant) carry
      [TerminalSpec.v]: [terminal_never_panics], [alternate_screen_roundtrip],
      [scrolling_shifts_rows], [lines_show_cells], [sgr_colors_in_range].
    - [Mcts.v]: [mitb-sdk/src/search/mcts.rs], the tree search of policies.
      [MctsSpec.v] holds its invariant, validation, selection and
      backpropagation ([persisted_roundtrip], [best_child_is_argmax],
      [select_path_walks_down], [backpropagation_credits_path]);
      [MctsSearch.v] the builders and whole runs ([build_is_well_formed],
      [search_invariant], [reward_credited_once], [normalize_reward_range]);
      [MctsDisk.v] a search stopped and built again from its file
      ([restart_resumes]).
    - [Agent.v]: [mitb-host/src/agent.rs] and [agent/]: the agent's messages,
      its handshake, peers and reports, one session and the loop that reconnects
      ([reconnects_with_backoff], in [AgentSession.v]).  [AgentServer.v] runs it
      against [WsAuth.v] ([agent_creates_room]); [AgentSession.v] interleaves the
      session with data channels and publishers ([reports_reach_zookeepers],
      [handle_messages_tracks]).  [Roster.v] composes it with the server: what a
      client is told is who is in its room ([client_is_told_who_is_there],
      [agent_peers_are_room]) on one worker thread; on more an announcement can
      overtake a [Connected] and end the agent ([announcement_ends_agent]).
    - [StreamBridge.v]: [mitb-host/src/stream_bridge.rs], channels as component
      streams ([poll_produce_spec], [poll_consume_spec]).  [HostChild.v]: the
      children a policy spawns, in [mitb-host/src/lib.rs], with the tasks that
      move their input and output ([waits_agree], [child_output_arrives],
      [child_input_arrives]).  [HostTable.v]: the guest's handles of them
      ([no_child_is_lost]).
    - [Runtime.v]: [mitb-host/src/runtime.rs], the polling loop and the
      capabilities of a policy ([run_types_until_it_ends],
      [capabilities_follow_options]).  [PolicyHost.v] puts it together with the
      reader thread, the transcript and the SDK's session: what a policy sees of
      the output and what is typed for it ([policy_types_on_settled_screen]).
      [Cli.v]: [src/main.rs], the arguments and options ([cli_is_consistent],
      [parse_options_spec], [agent_options_spec]).
    - [SdkHttp.v]: the [http] module of [mitb-sdk/src/lib.rs] ([send_spec],
      [parse_url_roundtrip]).  [SdkFs.v] with [SdkFind.v]:
      [mitb-sdk/src/fs.rs], searching the guest's files ([find_spec],
      [grep_spec], [count_lines_spec], [path_is_ignored_last]).  [SdkGit.v]:
      [mitb-sdk/src/git.rs] ([commit_all_spec], [snapshot_spec]).
    - [PakeBridge.v]: the [wasm_bridge] of [mitb-pake/src/lib.rs], sessions
      behind handles and calls through linear memory
      ([bridge_refines_session], [sessions_independent], [page_call_balanced]).
    - [AvFrames.v]: pictures to textures, [mitb-av/src/yuv.rs], [program.rs]
      and the plane copying of [lib.rs] ([pixels_reach_texture],
      [nv12_planes]).  [Pipeline.v]: [program/pipeline.rs] with its uniforms,
      instance and shader: textures, draws, resources, geometry and sampling
      ([player_shows_newest_frame], [pixel_centres_exact],
      [picture_fills_bounds], [device_accepts_resources]).  [Av.v]: the player of [mitb-av/src/lib.rs]
      ([audio_stream_spec], [audio_track_bounds], [frame_due]).
    - [NumberGame.v], [TreeSitter.v], [Maintainability.v]: the policies and the
      provider under [mitb-examples/], the last one over the SDK's models
      ([game_ends_when_guessed], [point_is_position], [query_exec_matches],
      [best_is_first_maximum], [act_commits_before_checkout]).
    - [Desktop.v]: [mitb-box/src/lib.rs] and [av.rs], the application and its
      streams among host, player and user ([window_follows_host],
      [session_end_reaches_window]); [HostWindow.v] runs the host of [Runtime.v]
      against it ([window_follows_run]).  [Eye.v]: [mitb-box/src/animated_eye.rs],
      its cursor ([drawn_is_current], [changes_are_redrawn],
      [fear_steps_partition], [rays_in_range]).
    - [ServerMain.v]: [mitb-server/src/main.rs] and the routes
      ([main_serves], [worker_threads_range], [routes]).  [Build.v]:
      [mitb-wit/src/lib.rs], [mitb-sdk/src/build_support.rs] and the build
      scripts ([bindgen_written], [written_files_are_watched]).
    - [SdkTests.v], [HostTests.v]: the repository's unit tests, one definition a
      test, evaluated on the models.

    ** Fuel

    Recursion follows the data except for loops whose bound is on a counter:
    the loop over graphic rendition parameters takes as many rounds as there
    are parameters, [select_loop] as many as the depth asked for
    ([select_path_walks_down] shows it enough), the search for a free client
    identifier one more than there are clients ([register_joins]), trimming as
    many as there are bytes.  [find] takes one round per directory:
    [find_spec] shows that a finite tree has a fuel that is enough and that more
    changes nothing.  Draining the video decoder takes one round per picture
    that is ready, and one ([drain_sends_ready]).  The player's worker and file
    loop have no bound of their own, they end when the file or the application
    does; [None] there is fuel, or an index the theorems show is in range.

    ** What the models leave out

    Timing other than the delays and timeouts the code computes; tokio's
    scheduling beyond the interleaving of critical sections; rasterisation by
    the GPU between the vertices and fragments of [Pipeline.v], whose geometry
    and sampling are stated in exact arithmetic, and what the toolkit does with
    widgets and strokes; logging set-up; which names the [policy!] macros
    declare; that a future is dropped when its race with a timeout is lost; [mitb-server/src/ws_public.rs], which is not a
    module of its crate.

    ** Divergences found

    [tracked_size_differs]: the tracker and the child's terminal have different
    sizes.  [one_column_panics]: a terminal of one column panics on a wide
    character.  [reward_sum_overflows]: finite rewards can sum to infinity, and
    the tree saved then cannot be loaded.  [policy_error_skips_shutdown]: an
    error of the policy ends the run without terminating the child.
    [report_sent_twice]: a report published while a channel is opening is sent
    on it twice.  [fragment_is_sent]: a fragment after a path goes to the
    server.  [absolute_path_passes]: an absolute path behind [./] passes for a
    relative one.  [odd_picture_refused]: pictures of odd size cannot be shown.
    [redraw_uses_first_size]: a redraw without a new frame uses the sizes of the
    first.  [chroma_edge_bleeds]: the last column of a 4:2:0 picture takes a
    quarter of its colour from texels no frame writes.
    [random_failure_gives_zeros]: without randomness the key exchange
    gets zeros.  [silent_end_goes_unseen]: a host that
    fails without an event leaves the window open.  [rays_never_miss]: a missed
    ray is said to hit at the largest number.  The guessing game's README names
    a variable it never reads. *)

From stdpp Require Export base option list gmap strings pretty.
From Stdlib Require Export ZArith Lia.

#[global] Open Scope Z_scope.

#[global] Arguments Nat.ltb : simpl never.
#[global] Arguments Nat.leb : simpl never.
#[global] Arguments Nat.eqb : simpl never.
#[global] Arguments Z.ltb : simpl never.
#[global] Arguments Z.leb : simpl never.
#[global] Arguments Z.eqb : simpl never.

(** ** Results

    Rust's [Result<A, E>].  The error type comes first so that [result E] is a
    monad and stdpp's [x ← e; k] notation is the [?] operator. *)
Inductive result (E A : Type) : Type :=
| Ok (a : A)
| Err (e : E).
Arguments Ok {E A} a.
Arguments Err {E A} e.

#[export] Instance result_ret E : MRet (result E) := fun A a => Ok a.
#[export] Instance result_bind E : MBind (result E) :=
  fun A B f r => match r with Ok a => f a | Err e => Err e end.
#[export] Instance result_fmap E : FMap (result E) :=
  fun A B f r => match r with Ok a => Ok (f a) | Err e => Err e end.

#[export] Instance result_eq_dec E A `{EqDecision E, EqDecision A} :
  EqDecision (result E A).
Proof. solve_decision. Defined.

Declare Scope mitb_scope.
Delimit Scope mitb_scope with mitb.
#[global] Open Scope mitb_scope.

(** [ok_or e o]: Rust's [Option::ok_or]. *)
Definition ok_or {E A} (e : E) (o : option A) : result E A :=
  match o with Some a => Ok a | None => Err e end.

(** [map_err f r]: Rust's [Result::map_err]. *)
Definition map_err {E F A} (f : E → F) (r : result E A) : result F A :=
  match r with Ok a => Ok a | Err e => Err (f e) end.

Definition is_ok {E A} (r : result E A) : bool :=
  match r with Ok _ => true | Err _ => false end.

Lemma bind_Ok {E A B} (r : result E A) (f : A → result E B) (b : B) :
  r ≫= f = Ok b ↔ ∃ a, r = Ok a ∧ f a = Ok b.
Proof. destruct r; cbn; naive_solver. Qed.

Lemma bind_Err {E A B} (r : result E A) (f : A → result E B) (e : E) :
  r ≫= f = Err e ↔ r = Err e ∨ ∃ a, r = Ok a ∧ f a = Err e.
Proof. destruct r; cbn; naive_solver. Qed.

(** Inverts every successful monadic step of a hypothesis. *)
Ltac inv_ok :=
  repeat match goal with
  | H : _ ≫= _ = Ok _ |- _ =>
      let a := fresh "a" in let Ha := fresh "Hok" in
      apply bind_Ok in H as (a & Ha & H)
  | H : mret _ = Ok _ |- _ => cbn in H
  | H : Ok _ = Ok _ |- _ => injection H as H; try subst
  | H : Err _ = Ok _ |- _ => discriminate H
  | H : Ok _ = Err _ |- _ => discriminate H
  end.

(** Case analysis on the boolean and [decide] tests of the goal and the
    hypotheses, with the arithmetic they carry reflected. *)
Ltac split_ifs :=
  repeat (match goal with
  | |- context [if ?b then _ else _] => let E := fresh "E" in destruct b eqn:E
  | H : context [if ?b then _ else _] |- _ =>
      let E := fresh "E" in destruct b eqn:E
  end; try discriminate; simplify_eq).

Ltac zb := repeat match goal with
  | H : (_ <? _)%Z = true |- _ => apply Z.ltb_lt in H
  | H : (_ <? _)%Z = false |- _ => apply Z.ltb_ge in H
  | H : (_ <=? _)%Z = true |- _ => apply Z.leb_le in H
  | H : (_ <=? _)%Z = false |- _ => apply Z.leb_gt in H
  | H : (_ =? _)%Z = true |- _ => apply Z.eqb_eq in H
  | H : (_ =? _)%Z = false |- _ => apply Z.eqb_neq in H
  | H : (_ <? _)%nat = true |- _ => apply Nat.ltb_lt in H
  | H : (_ <? _)%nat = false |- _ => apply Nat.ltb_ge in H
  | H : (_ <=? _)%nat = true |- _ => apply Nat.leb_le in H
  | H : (_ <=? _)%nat = false |- _ => apply Nat.leb_gt in H
  | H : (_ =? _)%nat = true |- _ => apply Nat.eqb_eq in H
  | H : (_ =? _)%nat = false |- _ => apply Nat.eqb_neq in H
  | H : (_ && _) = true |- _ => apply andb_true_iff in H as [? ?]
  | H : (_ || _) = false |- _ => apply orb_false_iff in H as [? ?]
  | H : negb _ = true |- _ => apply negb_true_iff in H
  | H : negb _ = false |- _ => apply negb_false_iff in H
  | H : bool_decide _ = true |- _ => apply bool_decide_eq_true in H
  | H : bool_decide _ = false |- _ => apply bool_decide_eq_false in H
  end.

(** ** Lists *)

(** The last [n] elements of [l]. *)
Definition last_n {A} (n : nat) (l : list A) : list A := drop (length l - n) l.

Lemma length_last_n {A} n (l : list A) : length (last_n n l) = Nat.min n (length l).
Proof. unfold last_n. rewrite length_drop. lia. Qed.

Lemma last_n_all {A} n (l : list A) : (length l ≤ n)%nat → last_n n l = l.
Proof. intros. unfold last_n. replace (length l - n)%nat with 0%nat by lia. done. Qed.

Lemma last_n_app {A} n (l k : list A) :
  last_n n (last_n n l ++ k) = last_n n (l ++ k).
Proof.
  unfold last_n. rewrite !length_app, length_drop.
  destruct (decide (n ≤ length l)%nat).
  - rewrite <- (drop_app_le l) by lia. rewrite drop_drop. f_equal. lia.
  - replace (length l - n)%nat with 0%nat by lia. cbn. f_equal. lia.
Qed.

Lemma drop_last_n {A} n (l : list A) : ∃ p, l = p ++ last_n n l ∧ length p = (length l - n)%nat.
Proof.
  exists (take (length l - n) l). split.
  - unfold last_n. by rewrite take_drop.
  - rewrite length_take. lia.
Qed.

(** [foldr]-free iteration of an option-valued step over a list. *)
Fixpoint run_steps {S A} (f : S → A → option S) (s : S) (l : list A) : option S :=
  match l with
  | [] => Some s
  | a :: l' => match f s a with Some s' => run_steps f s' l' | None => None end
  end.

Lemma run_steps_app {S A} (f : S → A → option S) s l k :
  run_steps f s (l ++ k) = run_steps f s l ≫= (fun s' => run_steps f s' k).
Proof. revert s. induction l as [|a l IH]; intros s; cbn; [done|]. destruct (f s a); [apply IH|done]. Qed.

(** A total invariant of the step is a total invariant of the run. *)
Lemma run_steps_inv {S A} (f : S → A → option S) (P : S → Prop) l :
  (∀ s a, P s → a ∈ l → ∃ s', f s a = Some s' ∧ P s') →
  ∀ s, P s → ∃ s', run_steps f s l = Some s' ∧ P s'.
Proof.
  induction l as [|a l IH]; intros Hf s Hs; cbn; [by eauto|].
  destruct (Hf s a Hs) as (s' & -> & Hs'); [set_solver|].
  apply IH; [|done]. intros ????. apply Hf; set_solver.
Qed.

(** What every step preserves when it succeeds, the run preserves. *)
Lemma run_steps_preserve {S A} (f : S → A → option S) (P : S → Prop) l :
  (∀ s a s', f s a = Some s' → P s → P s') →
  ∀ s s', run_steps f s l = Some s' → P s → P s'.
Proof.
  intros Hf. induction l as [|a l IH]; intros s s'; cbn; [by intros [= <-]|].
  destruct (f s a) eqn:E; [|done]. intros Hr Hs. eauto.
Qed.

Create HintDb mitb.
Create Rewrite HintDb mitb.
#[export] Hint Rewrite @length_app @length_take @length_drop @length_replicate
  @length_insert @length_fmap @length_last_n : mitb.
#[export] Hint Resolve last_n_all : mitb.

(** Length arithmetic. *)
Ltac list_lia := autorewrite with mitb in *; lia.
