(* ===== verification/Rust.v ===== *)
(** * The parts of the Rust standard library the program uses

    Machine integers as [Z] with their saturation and wrap-around written out,
    [Instant] and [Duration] as nanoseconds, strings as the byte strings they
    are (one [ascii] per UTF-8 byte), [str::trim], [split_once],
    [strip_prefix], [str::parse], [String::from_utf8] and
    [String::from_utf8_lossy]. *)

From Stdlib Require Export Ascii.
From Stdlib Require String.
From S2P Require Export Prelude.

(** ** Machine integers *)

Definition U16_MAX : Z := 2 ^ 16 - 1.
Definition U32_MAX : Z := 2 ^ 32 - 1.
Definition U64_MAX : Z := 2 ^ 64 - 1.
Definition I64_MAX : Z := 2 ^ 63 - 1.

Definition in_u64 (x : Z) : Prop := 0 ≤ x ≤ U64_MAX.

Definition wrap_u16 (x : Z) : Z := x mod 2 ^ 16.
Definition wrap_u32 (x : Z) : Z := x mod 2 ^ 32.
Definition wrap_u64 (x : Z) : Z := x mod 2 ^ 64.

(** [u64::saturating_add], [u64::saturating_sub], [u64::saturating_mul]. *)
Definition sat_add_u64 (a b : Z) : Z := Z.min (a + b) U64_MAX.
Definition sat_sub (a b : Z) : Z := Z.max 0 (a - b).
Definition sat_mul_u64 (a b : Z) : Z := Z.min (a * b) U64_MAX.

(** ** Time: nanoseconds *)

Definition NANOS_PER_SEC : Z := 10 ^ 9.
Definition from_secs (s : Z) : Z := s * NANOS_PER_SEC.
Definition from_millis (ms : Z) : Z := ms * 10 ^ 6.

(** [Duration::MAX]: [u64::MAX] seconds and 999999999 nanoseconds. *)
Definition DURATION_MAX : Z := U64_MAX * NANOS_PER_SEC + 999999999.

(** [Duration::checked_mul] and [Duration::saturating_mul]. *)
Definition duration_checked_mul (d k : Z) : option Z :=
  if d * k <=? DURATION_MAX then Some (d * k) else None.
Definition duration_saturating_mul (d k : Z) : Z := Z.min (d * k) DURATION_MAX.

(** [Instant::saturating_duration_since]. *)
Definition saturating_duration_since (now earlier : Z) : Z := Z.max 0 (now - earlier).

(** ** Bytes *)

Notation byte := ascii (only parsing).
Notation bytes := (list ascii) (only parsing).

Definition code (b : byte) : Z := Z.of_N (N_of_ascii b).
Definition chr (z : Z) : byte := ascii_of_N (Z.to_N z).

Lemma code_range b : 0 ≤ code b < 256.
Proof. unfold code. pose proof (N_ascii_bounded b). lia. Qed.

Lemma chr_code b : chr (code b) = b.
Proof. unfold chr, code. rewrite N2Z.id. apply ascii_N_embedding. Qed.

Lemma code_chr z : 0 ≤ z < 256 → code (chr z) = z.
Proof. intros. unfold chr, code. rewrite N_ascii_embedding by lia. lia. Qed.

Lemma code_inj a b : code a = code b → a = b.
Proof. intros H. rewrite <- (chr_code a), <- (chr_code b). by rewrite H. Qed.

(** [from_le_bytes] of an unsigned integer of as many bytes. *)
Fixpoint from_le_bytes (l : bytes) : Z :=
  match l with [] => 0 | b :: l => code b + 256 * from_le_bytes l end.

Lemma from_le_bytes_range l : 0 ≤ from_le_bytes l < 256 ^ Z.of_nat (length l).
Proof.
  induction l as [|b l IH]; [cbn; lia|]. cbn [from_le_bytes length]. pose proof (code_range b).
  rewrite Nat2Z.inj_succ, Z.pow_succ_r by lia. lia.
Qed.

Definition between (lo hi : Z) (b : byte) : bool := (lo <=? code b) && (code b <=? hi).

Definition is_ascii_upper (b : byte) : bool := between 65 90 b.
Definition is_ascii_lower (b : byte) : bool := between 97 122 b.
Definition is_ascii_digit (b : byte) : bool := between 48 57 b.
Definition is_ascii_alphanumeric (b : byte) : bool :=
  is_ascii_upper b || is_ascii_lower b || is_ascii_digit b.
(** [(byte as i8) < -0x40]: a UTF-8 continuation byte. *)
Definition is_utf8_cont (b : byte) : bool := between 128 191 b.

Definition to_ascii_lower (b : byte) : byte :=
  if is_ascii_upper b then chr (code b + 32) else b.

(** ** Strings as bytes *)

Notation str_bytes := Stdlib.Strings.String.list_ascii_of_string (only parsing).
Notation bytes_str := Stdlib.Strings.String.string_of_list_ascii (only parsing).

Definition str_len (s : string) : nat := Stdlib.Strings.String.length s.

Lemma bytes_str_bytes s : bytes_str (str_bytes s) = s.
Proof. apply Stdlib.Strings.String.string_of_list_ascii_of_string. Qed.

Lemma str_bytes_str l : str_bytes (bytes_str l) = l.
Proof. apply Stdlib.Strings.String.list_ascii_of_string_of_list_ascii. Qed.

Lemma str_bytes_app s t : str_bytes (s +:+ t) = str_bytes s ++ str_bytes t.
Proof. induction s as [|c s IH]; cbn; [done|]. by rewrite <- IH. Qed.

Lemma str_bytes_inj s t : str_bytes s = str_bytes t → s = t.
Proof. intros H. rewrite <- (bytes_str_bytes s), <- (bytes_str_bytes t). by rewrite H. Qed.

Lemma str_len_bytes s : str_len s = length (str_bytes s).
Proof. unfold str_len. induction s; cbn; auto. Qed.

Definition str_is_empty (s : string) : bool := (str_len s =? 0)%nat.

Definition to_ascii_lowercase (s : string) : string :=
  bytes_str (to_ascii_lower <$> str_bytes s).

Definition eq_ignore_ascii_case (s t : string) : bool :=
  bool_decide (to_ascii_lowercase s = to_ascii_lowercase t).

(** *** [char::is_whitespace], on the UTF-8 encoding

    Byte length of the White_Space character at the head of a byte list, 0 when
    there is none: U+0009-D, U+0020, U+0085, U+00A0, U+1680, U+2000-A, U+2028,
    U+2029, U+202F, U+205F, U+3000. *)
Definition ws1 (a : Z) : bool := ((9 <=? a) && (a <=? 13)) || (a =? 32).
Definition ws2 (a b : Z) : bool := (a =? 194) && ((b =? 133) || (b =? 160)).
Definition ws3 (a b c : Z) : bool :=
  ((a =? 225) && (b =? 154) && (c =? 128)) ||
  ((a =? 226) && (b =? 128) &&
     (((128 <=? c) && (c <=? 138)) || (c =? 168) || (c =? 169) || (c =? 175))) ||
  ((a =? 226) && (b =? 129) && (c =? 159)) ||
  ((a =? 227) && (b =? 128) && (c =? 128)).

Definition ws_head (l : bytes) : nat :=
  match l with
  | [] => 0
  | a :: l1 =>
    if ws1 (code a) then 1
    else match l1 with
    | [] => 0
    | b :: l2 =>
      if ws2 (code a) (code b) then 2
      else match l2 with
      | [] => 0
      | c :: _ => if ws3 (code a) (code b) (code c) then 3 else 0
      end
    end
  end%nat.

(** The same at the end; the argument is the reversed byte list. *)
Definition ws_last (l : bytes) : nat :=
  match l with
  | [] => 0
  | a :: l1 =>
    if ws1 (code a) then 1
    else match l1 with
    | [] => 0
    | b :: l2 =>
      if ws2 (code b) (code a) then 2
      else match l2 with
      | [] => 0
      | c :: _ => if ws3 (code c) (code b) (code a) then 3 else 0
      end
    end
  end%nat.

(** Drops whole whitespace characters as long as [ws] finds one; the length of
    the list is enough fuel, as each round drops at least one byte. *)
Fixpoint trim_loop (ws : bytes → nat) (fuel : nat) (l : bytes) : bytes :=
  match fuel with
  | O => l
  | S fuel =>
    match ws l with
    | O => l
    | n => trim_loop ws fuel (drop n l)
    end
  end.

Definition trim_start_bytes (l : bytes) : bytes := trim_loop ws_head (length l) l.
Definition trim_end_bytes (l : bytes) : bytes :=
  rev (trim_loop ws_last (length l) (rev l)).
Definition trim_bytes (l : bytes) : bytes := trim_end_bytes (trim_start_bytes l).

Definition trim (s : string) : string := bytes_str (trim_bytes (str_bytes s)).
Definition trim_end (s : string) : string := bytes_str (trim_end_bytes (str_bytes s)).

(** *** Searching and splitting *)

Fixpoint strip_prefix_bytes (p l : bytes) : option bytes :=
  match p, l with
  | [], _ => Some l
  | a :: p, b :: l => if decide (a = b) then strip_prefix_bytes p l else None
  | _ :: _, [] => None
  end.

Definition strip_prefix (s p : string) : option string :=
  (fun l => bytes_str l) <$> strip_prefix_bytes (str_bytes p) (str_bytes s).

Definition starts_with (s p : string) : bool := bool_decide (is_Some (strip_prefix s p)).

Definition strip_suffix_bytes (p l : bytes) : option bytes :=
  (fun r => rev r) <$> strip_prefix_bytes (rev p) (rev l).

(** [str::find] for a pattern given as bytes: the first offset it occurs at. *)
Fixpoint find_bytes (p l : bytes) : option nat :=
  match strip_prefix_bytes p l with
  | Some _ => Some 0%nat
  | None => match l with [] => None | _ :: l => S <$> find_bytes p l end
  end.

Definition str_contains (s p : string) : bool :=
  bool_decide (is_Some (find_bytes (str_bytes p) (str_bytes s))).

(** Offset of the first, and of the last, byte satisfying [f]. *)
Fixpoint position (f : byte → bool) (l : bytes) : option nat :=
  match l with
  | [] => None
  | b :: l => if f b then Some 0%nat else S <$> position f l
  end.

Fixpoint rposition (f : byte → bool) (l : bytes) : option nat :=
  match l with
  | [] => None
  | b :: l =>
    match rposition f l with
    | Some i => Some (S i)
    | None => if f b then Some 0%nat else None
    end
  end.

(** [str::split_once] with a string pattern. *)
Definition split_once_bytes (p l : bytes) : option (bytes * bytes) :=
  (fun i => (take i l, drop (i + length p) l)) <$> find_bytes p l.

(** [str::rsplit_once] with a one-byte pattern. *)
Definition rsplit_once_byte (c : byte) (l : bytes) : option (bytes * bytes) :=
  (fun i => (take i l, drop (S i) l)) <$> rposition (fun b => bool_decide (b = c)) l.

Lemma strip_prefix_bytes_Some p l r : strip_prefix_bytes p l = Some r ↔ l = p ++ r.
Proof.
  revert l. induction p as [|a p IH]; intros l; cbn.
  - naive_solver.
  - destruct l as [|b l]; [naive_solver|]. case_decide as E; [subst b; rewrite IH|]; naive_solver.
Qed.

Lemma strip_prefix_Some s p r : strip_prefix s p = Some r ↔ s = p +:+ r.
Proof.
  unfold strip_prefix. rewrite fmap_Some. split.
  - intros (l & Hl & ->). apply strip_prefix_bytes_Some in Hl. apply str_bytes_inj.
    by rewrite str_bytes_app, str_bytes_str.
  - intros ->. exists (str_bytes r). rewrite strip_prefix_bytes_Some, str_bytes_app, bytes_str_bytes.
    done.
Qed.

Lemma find_bytes_Some p l i :
  find_bytes p l = Some i → l = take i l ++ p ++ drop (i + length p) l ∧ (i + length p ≤ length l)%nat.
Proof.
  revert i. induction l as [|b l IH]; intros i; cbn.
  - destruct (strip_prefix_bytes p []) eqn:E; [|done]. intros [= <-].
    apply strip_prefix_bytes_Some in E. symmetry in E. apply app_nil in E as [-> ->]. done.
  - destruct (strip_prefix_bytes p (b :: l)) eqn:E.
    + intros [= <-]. apply strip_prefix_bytes_Some in E.
      pose proof (f_equal length E) as Hl. rewrite length_app in Hl. cbn in Hl.
      split; [|cbn; lia]. rewrite E. cbn [take app Nat.add]. by rewrite drop_app_length.
    + intros (j & Hj & ->)%fmap_Some. apply IH in Hj as [Hj ?]. cbn. split; [congruence|lia].
Qed.

Lemma position_Some f l i :
  position f l = Some i →
  ∃ b, l !! i = Some b ∧ f b = true ∧ Forall (fun c => f c = false) (take i l).
Proof.
  revert i. induction l as [|b l IH]; intros i; cbn; [done|].
  destruct (f b) eqn:E.
  - intros [= <-]. exists b. cbn. auto.
  - intros (j & Hj & ->)%fmap_Some. apply IH in Hj as (c & ? & ? & ?).
    exists c. cbn. auto.
Qed.

Lemma position_None f l : position f l = None ↔ Forall (fun c => f c = false) l.
Proof.
  induction l as [|b l IH]; cbn; [naive_solver|].
  destruct (f b) eqn:E; rewrite Forall_cons; [naive_solver congruence|].
  rewrite fmap_None, IH. naive_solver.
Qed.

Lemma rposition_Some f l i :
  rposition f l = Some i →
  ∃ b, l !! i = Some b ∧ f b = true ∧ Forall (fun c => f c = false) (drop (S i) l).
Proof.
  revert i. induction l as [|b l IH]; intros i; cbn; [done|].
  destruct (rposition f l) as [j|] eqn:E.
  - intros [= <-]. destruct (IH j eq_refl) as (c & ? & ? & ?). exists c. cbn. auto.
  - destruct (f b) eqn:Eb; [|done]. intros [= <-]. exists b. cbn. rewrite drop_0. split_and!; [done..|].
    clear IH. induction l as [|c l IHl]; [done|]. cbn in E.
    destruct (rposition f l) eqn:E'; [done|]. destruct (f c) eqn:?; [done|]. auto.
Qed.

Lemma rposition_None f l : rposition f l = None → Forall (fun c => f c = false) l.
Proof.
  induction l as [|b l IH]; cbn; [done|]. destruct (rposition f l); [done|]. destruct (f b) eqn:?; [done|]. auto.
Qed.

(** *** [str::lines] and [str::split('\n')] *)

Definition LF : byte := chr 10.
Definition CR : byte := chr 13.

(** Splits at every newline; a list with [n] newlines gives [n + 1] pieces. *)
Fixpoint split_lf (l : bytes) : list bytes :=
  match l with
  | [] => [[]]
  | b :: l =>
    match split_lf l with
    | [] => [[b]]
    | h :: t => if decide (b = LF) then [] :: h :: t else (b :: h) :: t
    end
  end.

Definition strip_cr (l : bytes) : bytes :=
  match rev l with
  | b :: r => if decide (b = CR) then rev r else l
  | [] => l
  end.

(** [str::lines]: an empty last piece is not a line, and one carriage return
    before the newline is dropped. A last piece without a newline keeps it. *)
Definition lines (l : bytes) : list bytes :=
  match rev (split_lf l) with
  | [] => []
  | last :: front =>
    (strip_cr <$> rev front) ++ (if decide (last = []) then [] else [last])
  end.

(** *** [str::parse] for unsigned integers

    An optional plus sign and at least one digit; [None] on overflow. *)
Fixpoint parse_digits (max acc : Z) (l : bytes) : option Z :=
  match l with
  | [] => Some acc
  | b :: l =>
    if is_ascii_digit b then
      let acc := acc * 10 + (code b - 48) in
      if acc <=? max then parse_digits max acc l else None
    else None
  end.

Definition parse_uint (max : Z) (s : string) : option Z :=
  match str_bytes s with
  | [] => None
  | b :: l =>
    let digits := if decide (b = chr 43) then l else b :: l in
    match digits with [] => None | _ => parse_digits max 0 digits end
  end.

Lemma parse_digits_range max acc l z :
  0 ≤ acc ≤ max → parse_digits max acc l = Some z → 0 ≤ z ≤ max.
Proof.
  revert acc. induction l as [|b l IH]; intros acc Hacc; cbn; [naive_solver|].
  destruct (is_ascii_digit b) eqn:E; [|done]. unfold is_ascii_digit, between in E.
  destruct (_ <=? max) eqn:E2; [|done]. intros H. apply IH in H; zb; lia.
Qed.

Lemma parse_uint_range max s z : 0 ≤ max → parse_uint max s = Some z → 0 ≤ z ≤ max.
Proof.
  unfold parse_uint. intros ?. destruct (str_bytes s) as [|b l]; [done|].
  destruct (if decide _ then _ else _) eqn:E; [done|]. apply parse_digits_range. lia.
Qed.

(** *** UTF-8

    [utf8_step l]: the length of the well-formed character at the head of [l]
    ([inl]), or of the ill-formed sequence a decoder replaces ([inr]), as
    [core::str] delimits them. *)
Definition utf8_second (a b : byte) : bool :=
  let a := code a in let b := code b in
  ((a =? 224) && (160 <=? b) && (b <=? 191)) ||
  ((225 <=? a) && (a <=? 236) && (128 <=? b) && (b <=? 191)) ||
  ((a =? 237) && (128 <=? b) && (b <=? 159)) ||
  ((238 <=? a) && (a <=? 239) && (128 <=? b) && (b <=? 191)) ||
  ((a =? 240) && (144 <=? b) && (b <=? 191)) ||
  ((241 <=? a) && (a <=? 243) && (128 <=? b) && (b <=? 191)) ||
  ((a =? 244) && (128 <=? b) && (b <=? 143)).

Definition utf8_width (a : byte) : nat :=
  let a := code a in
  if a <? 128 then 1
  else if (194 <=? a) && (a <=? 223) then 2
  else if (224 <=? a) && (a <=? 239) then 3
  else if (240 <=? a) && (a <=? 244) then 4
  else 0.

Definition utf8_step (l : bytes) : nat + nat :=
  match l with
  | [] => inr 0%nat
  | a :: l =>
    match utf8_width a, l with
    | 1%nat, _ => inl 1%nat
    | 2%nat, b :: _ => if is_utf8_cont b then inl 2%nat else inr 1%nat
    | 3%nat, b :: l =>
      if utf8_second a b then
        match l with
        | c :: _ => if is_utf8_cont c then inl 3%nat else inr 2%nat
        | [] => inr 2%nat
        end
      else inr 1%nat
    | 4%nat, b :: l =>
      if utf8_second a b then
        match l with
        | c :: l =>
          if is_utf8_cont c then
            match l with
            | d :: _ => if is_utf8_cont d then inl 4%nat else inr 3%nat
            | [] => inr 3%nat
            end
          else inr 2%nat
        | [] => inr 2%nat
        end
      else inr 1%nat
    | _, _ => inr 1%nat
    end
  end.

Fixpoint utf8_valid_loop (fuel : nat) (l : bytes) : bool :=
  match l, fuel with
  | [], _ => true
  | _, O => false
  | _, S fuel =>
    match utf8_step l with inl n => utf8_valid_loop fuel (drop n l) | inr _ => false end
  end.

Definition utf8_valid (l : bytes) : bool := utf8_valid_loop (length l) l.

(** U+FFFD. *)
Definition REPLACEMENT : bytes := [chr 239; chr 191; chr 189].

Fixpoint from_utf8_lossy_loop (fuel : nat) (l : bytes) : bytes :=
  match l, fuel with
  | [], _ => []
  | _, O => []
  | _, S fuel =>
    match utf8_step l with
    | inl n => take n l ++ from_utf8_lossy_loop fuel (drop n l)
    | inr n => REPLACEMENT ++ from_utf8_lossy_loop fuel (drop n l)
    end
  end.

Definition from_utf8_lossy (l : bytes) : string :=
  bytes_str (from_utf8_lossy_loop (length l) l).

(** [String::from_utf8]: the bytes themselves, when they are valid. *)
Definition from_utf8 (l : bytes) : option string :=
  if utf8_valid l then Some (bytes_str l) else None.

(** [str::is_char_boundary]. *)
Definition is_char_boundary (l : bytes) (i : nat) : bool :=
  if (i =? 0)%nat then true
  else match l !! i with
       | Some b => negb (is_utf8_cont b)
       | None => (i =? length l)%nat
       end.

(** ** Well-formed UTF-8 *)

Lemma boundary_cont l i b :
  l !! S i = Some b → is_utf8_cont b = true → is_char_boundary l (S i) = false.
Proof. intros Hl Hb. unfold is_char_boundary. rewrite Hl, Hb. done. Qed.

(** The bytes after the first of a well-formed character are continuation
    bytes, and the character is one whatever follows it. *)
Lemma utf8_step_inl l n :
  utf8_step l = inl n →
  (1 ≤ n ≤ length l)%nat ∧ (∀ k, utf8_step (take n l ++ k) = inl n) ∧
  (∀ i, (0 < i < n)%nat → is_char_boundary l i = false).
Proof.
  unfold utf8_step. destruct l as [|a l]; [done|].
  destruct (utf8_width a) as [|[|[|[|[|w]]]]] eqn:Ew; try done.
  - intros [= <-]. cbn. split_and!; [lia|lia|by rewrite Ew|lia].
  - destruct l as [|b l]; [done|]. destruct (is_utf8_cont b) eqn:Eb; [|done]. intros [= <-].
    cbn. rewrite Ew, Eb. split_and!; [lia|lia|done|].
    intros i Hi. assert (i = 1%nat) as -> by lia. by rewrite (boundary_cont _ 0 b).
  - destruct l as [|b l]; [done|]. destruct (utf8_second a b) eqn:Eb; [|done].
    destruct l as [|c l]; [done|]. destruct (is_utf8_cont c) eqn:Ec; [|done]. intros [= <-].
    cbn. rewrite Ew, Eb, Ec. split_and!; [lia|lia|done|].
    assert (is_utf8_cont b = true).
    { unfold utf8_second, is_utf8_cont, between in *. lia. }
    intros i Hi. assert (i = 1 ∨ i = 2)%nat as [-> | ->] by lia;
      [by apply (boundary_cont _ 0 b)|by apply (boundary_cont _ 1 c)].
  - destruct l as [|b l]; [done|]. destruct (utf8_second a b) eqn:Eb; [|done].
    destruct l as [|c l]; [done|]. destruct (is_utf8_cont c) eqn:Ec; [|done].
    destruct l as [|d l]; [done|]. destruct (is_utf8_cont d) eqn:Ed; [|done]. intros [= <-].
    cbn. rewrite Ew, Eb, Ec, Ed. split_and!; [lia|lia|done|].
    assert (is_utf8_cont b = true).
    { unfold utf8_second, is_utf8_cont, between in *. lia. }
    intros i Hi. assert (i = 1 ∨ i = 2 ∨ i = 3)%nat as [-> |[-> | ->]] by lia;
      [by apply (boundary_cont _ 0 b)|by apply (boundary_cont _ 1 c)|by apply (boundary_cont _ 2 d)].
Qed.

(** Well-formed UTF-8: a concatenation of well-formed characters. *)
Inductive utf8 : bytes → Prop :=
| utf8_nil : utf8 []
| utf8_char c l : utf8_step c = inl (length c) → utf8 l → utf8 (c ++ l).

Lemma utf8_valid_loop_fuel f l : (length l ≤ f)%nat → utf8_valid_loop f l = true ↔ utf8 l.
Proof.
  revert l. induction f as [|f IH]; intros l Hl.
  - destruct l; [|cbn in Hl; lia]. cbn. split; [constructor|done].
  - split.
    + destruct l as [|a l]; [constructor|]. cbn [utf8_valid_loop].
      destruct (utf8_step (a :: l)) as [n|n] eqn:E; [|done]. intros H.
      destruct (utf8_step_inl _ _ E) as (Hn & Hk & _).
      rewrite IH in H by (rewrite length_drop; lia).
      rewrite <- (take_drop n (a :: l)). constructor; [|done].
      rewrite length_take, Nat.min_l by lia. specialize (Hk []). by rewrite app_nil_r in Hk.
    + intros Hu. revert Hl. destruct Hu as [|c l' Hc Hl']; intros Hl; [done|].
      destruct (utf8_step_inl _ _ Hc) as (Hn & Hk & _).
      rewrite take_ge in Hk by lia. specialize (Hk l').
      rewrite length_app in Hl.
      destruct c as [|a c]; [done|]. cbn [app] in *. cbn [utf8_valid_loop]. rewrite Hk.
      change (a :: c ++ l') with ((a :: c) ++ l'). rewrite drop_app_length. apply IH; [lia|done].
Qed.

Lemma utf8_valid_iff l : utf8_valid l = true ↔ utf8 l.
Proof. by apply utf8_valid_loop_fuel. Qed.

Lemma utf8_app l k : utf8 l → utf8 k → utf8 (l ++ k).
Proof. induction 1 as [|c l Hc Hl IH]; intros Hk; [done|]. rewrite <- app_assoc. constructor; auto. Qed.

Lemma utf8_ascii b l : code b < 128 → utf8 l → utf8 (b :: l).
Proof.
  intros Hb Hl. apply (utf8_char [b]); [|done]. cbn. unfold utf8_width.
  destruct (Z.ltb_spec (code b) 128); [done|lia].
Qed.

Lemma from_utf8_lossy_loop_valid f l : (length l ≤ f)%nat → utf8 l → from_utf8_lossy_loop f l = l.
Proof.
  revert l. induction f as [|f IH]; intros l Hl Hu.
  - destruct l; [done|cbn in Hl; lia].
  - revert Hl. destruct Hu as [|c l Hc Hl']; intros Hl; [done|].
    destruct (utf8_step_inl _ _ Hc) as (Hn & Hk & _).
    rewrite take_ge in Hk by lia. specialize (Hk l). rewrite length_app in Hl.
    destruct c as [|a c]; [cbn in Hn; lia|]. cbn [app] in *. cbn [from_utf8_lossy_loop]. rewrite Hk.
    change (a :: c ++ l) with ((a :: c) ++ l). rewrite take_app_length, drop_app_length.
    rewrite IH by (done || lia). done.
Qed.

(** Decoding well-formed text replaces nothing. *)
Lemma from_utf8_lossy_valid l : utf8 l → from_utf8_lossy l = bytes_str l.
Proof. intros. unfold from_utf8_lossy. by rewrite from_utf8_lossy_loop_valid. Qed.

(** ** Trimming *)

Lemma ws_last_bound l : (ws_last l ≤ length l)%nat.
Proof.
  destruct l as [|a [|b [|c l]]]; cbn; repeat case_match; cbn; lia.
Qed.

Lemma trim_loop_fuel f g l :
  (length l ≤ f)%nat → (length l ≤ g)%nat → trim_loop ws_last f l = trim_loop ws_last g l.
Proof.
  revert g l. induction f as [|f IH]; intros g l Hf Hg.
  - destruct l; [|cbn in Hf; lia]. by destruct g.
  - destruct g as [|g]; [destruct l; [done|cbn in Hg; lia]|]. cbn.
    pose proof (ws_last_bound l). destruct (ws_last l) as [|n] eqn:E; [done|].
    apply IH; rewrite length_drop; lia.
Qed.

(** [c] neither is white space nor takes part in a longer white-space
    character. *)
Definition solid (c : byte) : bool :=
  negb (ws1 (code c)) && (code c <? 128).

Lemma ws_last_solid r c s :
  solid c = true → ws_last (r ++ c :: s) = ws_last (r ++ [c]) ∧ (ws_last (r ++ [c]) ≤ length r)%nat.
Proof.
  intros Hc. unfold solid in Hc. zb.
  assert (∀ a, ws2 (code c) a = false) as H2 by (intros; unfold ws2; lia).
  assert (∀ b, ws2 b (code c) = false) as H2' by (intros; unfold ws2; lia).
  assert (∀ a b, ws3 (code c) a b = false) as H3 by (intros; unfold ws3; lia).
  assert (∀ a b, ws3 a (code c) b = false) as H3' by (intros; unfold ws3; lia).
  assert (∀ a b, ws3 a b (code c) = false) as H3'' by (intros; unfold ws3; lia).
  destruct r as [|x [|y [|z r]]]; cbn [app ws_last length].
  - destruct (ws1 (code c)); [done|]. split; [|done].
    destruct s as [|b [|d s]]; rewrite ?H2', ?H3''; done.
  - destruct (ws1 (code x)); [done|]. rewrite H2. split; [|lia].
    destruct s; rewrite ?H3'; done.
  - destruct (ws1 (code x)); [split; [done|lia]|]. destruct (ws2 _ _); [split; [done|lia]|].
    rewrite H3. split; [done|lia].
  - split; [done|]. repeat case_match; cbn; lia.
Qed.

Lemma trim_loop_solid f r c s :
  solid c = true → (length r < f)%nat →
  trim_loop ws_last f (r ++ c :: s) = trim_loop ws_last f (r ++ [c]) ++ s.
Proof.
  intros Hc. revert r. induction f as [|f IH]; intros r Hf; [lia|]. cbn.
  destruct (ws_last_solid r c s Hc) as [-> Hb].
  destruct (ws_last (r ++ [c])) as [|n] eqn:E.
  - by rewrite <- app_assoc.
  - rewrite !drop_app_le by lia. apply IH. rewrite length_drop. lia.
Qed.

(** Trailing white space is trimmed back to a solid character at most. *)
Lemma trim_end_solid p c q :
  solid c = true → trim_end_bytes (p ++ c :: q) = p ++ trim_end_bytes (c :: q).
Proof.
  intros Hc. unfold trim_end_bytes. rewrite rev_app_distr. cbn [rev]. rewrite <- app_assoc. cbn [app].
  rewrite trim_loop_solid by (rewrite ?length_app; cbn; rewrite ?length_rev; done || lia).
  rewrite rev_app_distr, rev_involutive. f_equal. f_equal. apply trim_loop_fuel;
    rewrite ?length_app, ?length_rev; cbn; rewrite ?length_app, ?length_rev; cbn; lia.
Qed.

(** A carriage return at the end is white space. *)
Lemma trim_end_strip_cr l : trim_end_bytes (strip_cr l) = trim_end_bytes l.
Proof.
  unfold strip_cr. destruct (rev l) as [|b r] eqn:E; [done|].
  destruct (decide (b = CR)) as [->|]; [|done].
  unfold trim_end_bytes. rewrite E, rev_involutive. f_equal.
  pose proof (f_equal length E) as Hl. rewrite length_rev in Hl. rewrite Hl. cbn.
  apply trim_loop_fuel; cbn; rewrite ?length_rev, ?drop_0; lia.
Qed.

(** *** A carriage return after lossily decoded bytes *)

Lemma utf8_step_CR l : l ≠ [] → utf8_step (l ++ [CR]) = utf8_step l.
Proof.
  assert (∀ a, utf8_second a CR = false) as H2 by (intros a; unfold utf8_second; change (code CR) with 13; lia).
  assert (is_utf8_cont CR = false) as Hc by done.
  destruct l as [|a l]; [done|]. intros _. cbn [app utf8_step].
  destruct (utf8_width a) as [|[|[|[|[|w]]]]]; try done.
  - destruct l; cbn; rewrite ?Hc; done.
  - destruct l as [|b [|c l]]; cbn; rewrite ?H2, ?Hc; done.
  - destruct l as [|b [|c [|d l]]]; cbn; rewrite ?H2, ?Hc; done.
Qed.

Lemma utf8_step_bound l n :
  l ≠ [] → utf8_step l = inl n ∨ utf8_step l = inr n → (1 ≤ n ≤ length l)%nat.
Proof.
  unfold utf8_step. destruct l as [|a l]; [done|]. intros _ H.
  destruct l as [|b [|c [|d l]]]; destruct (utf8_width a) as [|[|[|[|[|w]]]]];
    repeat case_match; destruct H; simplify_eq; cbn; lia.
Qed.

Lemma lossy_loop_CR f l :
  (length l ≤ f)%nat → from_utf8_lossy_loop (S f) (l ++ [CR]) = from_utf8_lossy_loop f l ++ [CR].
Proof.
  revert l. induction f as [|f IH]; intros l Hf.
  - by destruct l; [|cbn in Hf; lia].
  - destruct l as [|a l]; [done|].
    assert (utf8_step ((a :: l) ++ [CR]) = utf8_step (a :: l)) as E by by apply utf8_step_CR.
    pose proof (utf8_step_bound (a :: l)) as Hb.
    remember (S f) as g. cbn [app from_utf8_lossy_loop]. cbn [app] in E. rewrite E. subst g.
    cbn [from_utf8_lossy_loop].
    destruct (utf8_step (a :: l)) as [n|n]; specialize (Hb n ltac:(done) ltac:(auto));
      change (a :: l ++ [CR]) with ((a :: l) ++ [CR]);
      rewrite ?take_app_le, drop_app_le by lia;
      rewrite <- app_assoc; f_equal; apply IH; rewrite length_drop; cbn in *; lia.
Qed.

Lemma trim_end_lossy_strip_cr l :
  trim_end (from_utf8_lossy (strip_cr l)) = trim_end (from_utf8_lossy l).
Proof.
  unfold strip_cr. destruct (rev l) as [|b r] eqn:E; [done|].
  destruct (decide (b = CR)) as [->|]; [|done].
  assert (l = rev r ++ [CR]) as -> by by rewrite <- (rev_involutive l), E.
  unfold trim_end, from_utf8_lossy. rewrite !str_bytes_str. f_equal.
  rewrite length_app, Nat.add_1_r, lossy_loop_CR by lia.
  set (k := from_utf8_lossy_loop _ _). rewrite <- (trim_end_strip_cr (k ++ [CR])). f_equal.
  unfold strip_cr. rewrite rev_app_distr. cbn. by rewrite rev_involutive.
Qed.

(** ** Trimming twice *)

Lemma ws_head_prefix p q : ws_head (p ++ q) = 0%nat → ws_head p = 0%nat.
Proof.
  destruct p as [|a [|b [|c p]]]; cbn; try done.
  - by case_match.
  - case_match; [done|]. by case_match.
Qed.

Lemma ws_head_bound l : (ws_head l ≤ length l)%nat.
Proof. destruct l as [|a [|b [|c l]]]; cbn; repeat case_match; cbn; lia. Qed.

(** The loop stops where [ws] finds nothing. *)
Lemma trim_loop_stops ws f : (∀ l, (ws l ≤ length l)%nat) → ∀ l, (length l ≤ f)%nat →
  ws [] = 0%nat → ws (trim_loop ws f l) = 0%nat.
Proof.
  intros Hb. induction f as [|f IH]; intros l Hl He; cbn.
  { by destruct l; [|cbn in Hl; lia]. }
  destruct (ws l) as [|n] eqn:E; [done|]. apply IH; [|done]. pose proof (Hb l). rewrite length_drop. lia.
Qed.

Lemma trim_loop_suffix ws f : ∀ l, ∃ p, l = p ++ trim_loop ws f l.
Proof.
  induction f as [|f IH]; intros l; cbn; [by exists []|].
  destruct (ws l) as [|n]; [by exists []|]. destruct (IH (drop (S n) l)) as [p Hp].
  exists (take (S n) l ++ p). by rewrite <- app_assoc, <- Hp, take_drop.
Qed.

Lemma trim_loop_done ws f l : ws l = 0%nat → trim_loop ws f l = l.
Proof. destruct f; cbn; [done|]. by intros ->. Qed.

Lemma trim_trim s : trim (trim s) = trim s.
Proof.
  unfold trim. rewrite str_bytes_str. f_equal. set (l := str_bytes s).
  unfold trim_bytes at 2. set (m := trim_start_bytes l).
  assert (ws_head m = 0%nat) as Hm by (apply trim_loop_stops; [apply ws_head_bound|done|done]).
  unfold trim_end_bytes. destruct (trim_loop_suffix ws_last (length m) (rev m)) as [p Hp].
  assert (ws_last (trim_loop ws_last (length m) (rev m)) = 0%nat) as He.
  { apply trim_loop_stops; [apply ws_last_bound|by rewrite length_rev|done]. }
  set (k := trim_loop ws_last (length m) (rev m)) in *.
  assert (m = rev k ++ rev p) as Hk by (by rewrite <- rev_app_distr, <- Hp, rev_involutive).
  rewrite Hk in Hm. apply ws_head_prefix in Hm.
  unfold trim_bytes, trim_start_bytes. rewrite (trim_loop_done _ _ _ Hm).
  unfold trim_end_bytes. by rewrite (trim_loop_done _ _ (rev (rev k))), rev_involutive by (by rewrite rev_involutive).
Qed.

(** [Path::join] and [PathBuf::push] on Unix: an absolute path replaces; else a
    separator goes between, unless the first path is empty or ends with one. *)
Definition path_join (path file : string) : string :=
  match head (str_bytes file), last (str_bytes path) with
  | Some b, _ =>
    if bool_decide (code b = 47) then file
    else match last (str_bytes path) with
         | Some b => path +:+ (if bool_decide (code b = 47) then "" else "/") +:+ file
         | None => file
         end
  | None, Some b => path +:+ (if bool_decide (code b = 47) then "" else "/")
  | None, None => ""
  end.
