(* ===== verification/Vte.v ===== *)
(** * The interface of the escape-sequence parser

    [vte::Parser] is a third-party crate: the two terminal emulators of the
    program ([mitb-host/src/terminal_state.rs], [mitb-box/src/terminal.rs]) see
    it as a state machine that turns bytes into calls of the [Perform] trait.
    The calls are the constructors of [vte_event]; the parser is a parameter,
    given by a class.  [param_at] and [param_count], which both emulators
    declare with the same body, are here. *)

From S2P Require Export Rust.

(** A Unicode scalar value. *)
Notation char := Z (only parsing).

(** [char::is_control]: general category Cc. *)
Definition is_control (c : char) : bool :=
  (c <=? 31) || ((127 <=? c) && (c <=? 159)).

Definition is_ascii_char (c : char) : bool := c <=? 127.

(** [char::len_utf8]. *)
Definition len_utf8 (c : char) : nat :=
  if c <? 128 then 1 else if c <? 2048 then 2 else if c <? 65536 then 3 else 4.

(** [vte::Params]: groups of sub-parameters, each a [u16]. *)
Notation vte_params := (list (list nat)) (only parsing).

Inductive vte_event : Type :=
| Print (c : char)
| Execute (byte : Z)
| Hook (params : vte_params) (intermediates : list Z) (ignore : bool) (action : char)
| Put (byte : Z)
| Unhook
| OscDispatch (params : list (list Z)) (bell_terminated : bool)
| CsiDispatch (params : vte_params) (intermediates : list Z) (ignore : bool) (action : char)
| EscDispatch (intermediates : list Z) (ignore : bool) (byte : Z).

(** [Parser::new] and [Parser::advance]. *)
Class VteParser : Type := {
  vte_state : Type;
  vte_new : vte_state;
  vte_advance : vte_state → bytes → vte_state * list vte_event;
}.

(** The parser keeps what it needs of an unfinished sequence between calls, so
    splitting the input changes no event. *)
Class VteIncremental `{VteParser} : Prop := {
  vte_advance_app p a b :
    vte_advance p (a ++ b) =
    (let '(p1, ea) := vte_advance p a in
     let '(p2, eb) := vte_advance p1 b in (p2, ea ++ eb));
  vte_advance_nil p : vte_advance p [] = (p, []);
}.

(** The first sub-parameter of the parameter at [index]; a missing or zero one
    is the default. *)
Definition param_at (params : vte_params) (index default : nat) : nat :=
  let value :=
    match params !! index with
    | Some param => match param with v :: _ => v | [] => default end
    | None => default
    end in
  if (value =? 0)%nat then default else value.

Definition param_count (params : vte_params) (default : nat) : nat :=
  param_at params 0 default.

(** Code points of the characters the dispatchers match on. *)
Definition ch (b : byte) : Z := code b.

Lemma param_at_pos params i d : (0 < d)%nat → (0 < param_at params i d)%nat.
Proof. intros. unfold param_at. destruct (_ =? 0)%nat eqn:E; zb; lia. Qed.

(** A parser of plain text, to instantiate the interface: every printable byte
    is printed, every other one executed. *)
Definition plain_event (b : byte) : vte_event :=
  if is_control (code b) then Execute (code b) else Print (code b).

#[export] Instance plain_parser : VteParser := {|
  vte_state := unit;
  vte_new := tt;
  vte_advance := fun _ l => (tt, plain_event <$> l);
|}.

#[export] Instance plain_incremental : VteIncremental (H := plain_parser).
Proof. split; [|by intros []]. intros [] a b. cbn. by rewrite fmap_app. Qed.
