(* ===== verification/PtyTerminal.v ===== *)
(** * The cursor tracker of the host: [mitb-host/src/terminal_state.rs]

    The host answers the cursor position requests (CSI 6 n) of the child
    process itself, from a cursor it tracks through the escape sequences.
    [cursor] is the part of [PtyTerminalState] the performer borrows. *)

From S2P Require Export Vte.

(** The fields [PtyTerminalPerformer] borrows. *)
Record cursor := Cursor {
  cursor_row : nat;
  cursor_col : nat;
  rows : nat;
  cols : nat;
  saved_cursor : nat * nat;
  pending_responses : list string;
}.

Definition set_pos (c : cursor) (row col : nat) : cursor :=
  Cursor row col (rows c) (cols c) (saved_cursor c) (pending_responses c).
Definition set_row (c : cursor) (row : nat) : cursor := set_pos c row (cursor_col c).
Definition set_col (c : cursor) (col : nat) : cursor := set_pos c (cursor_row c) col.
Definition save_cursor (c : cursor) : cursor :=
  Cursor (cursor_row c) (cursor_col c) (rows c) (cols c)
    (cursor_row c, cursor_col c) (pending_responses c).
Definition restore_cursor (c : cursor) : cursor :=
  set_pos c (Nat.min (saved_cursor c).1 (rows c - 1)) (Nat.min (saved_cursor c).2 (cols c - 1)).

Definition linefeed (c : cursor) : cursor :=
  set_row c (Nat.min (cursor_row c + 1) (rows c - 1)).

Definition char_is_wide (c : char) : bool :=
  negb (is_ascii_char c) && (1 <? len_utf8 c)%nat.

Definition put_char (t : cursor) (c : char) : cursor :=
  if is_control c then t
  else
    let t := set_col t (cursor_col t + (if char_is_wide c then 2 else 1)) in
    if (cols t <=? cursor_col t)%nat then linefeed (set_col t 0) else t.

(** The escape character, [\x1b]. *)
Definition ESC : string := String (chr 27) "".

(** [format!("\x1b[{row};{col}R")] *)
Definition cursor_report (row col : nat) : string :=
  ESC +:+ "[" +:+ pretty row +:+ ";" +:+ pretty col +:+ "R".

Definition enqueue_cursor_report (t : cursor) : cursor :=
  Cursor (cursor_row t) (cursor_col t) (rows t) (cols t) (saved_cursor t)
    (pending_responses t ++ [cursor_report (cursor_row t + 1) (cursor_col t + 1)]).

Definition execute (t : cursor) (byte : Z) : cursor :=
  match byte with
  | 10 => linefeed t
  | 13 => set_col t 0
  | 9 =>
    let next_tab := ((cursor_col t + 8) / 8 * 8)%nat in
    set_col t (Nat.min next_tab (cols t - 1))
  | 8 => set_col t (cursor_col t - 1)
  | _ => t
  end.

Definition csi_dispatch (t : cursor) (params : vte_params) (intermediates : list Z)
    (action : char) : cursor :=
  let n := param_count params 1 in
  let down r := Nat.min r (rows t - 1) in
  let right c := Nat.min c (cols t - 1) in
  if decide (action = ch "A") then set_row t (cursor_row t - n)
  else if decide (action = ch "B") then set_row t (down (cursor_row t + n)%nat)
  else if decide (action = ch "C") then set_col t (right (cursor_col t + n)%nat)
  else if decide (action = ch "D") then set_col t (cursor_col t - n)
  else if decide (action = ch "E") then set_pos t (down (cursor_row t + n)%nat) 0
  else if decide (action = ch "F") then set_pos t (cursor_row t - n) 0
  else if decide (action = ch "G") then set_col t (right (param_at params 0 1 - 1)%nat)
  else if decide (action = ch "H" ∨ action = ch "f") then
    set_pos t (down (param_at params 0 1 - 1)%nat) (right (param_at params 1 1 - 1)%nat)
  else if decide (action = ch "d") then set_row t (down (param_at params 0 1 - 1)%nat)
  else if decide (action = ch "n") then
    if decide (intermediates = [] ∧ param_at params 0 0 = 6%nat)
    then enqueue_cursor_report t else t
  else if decide (action = ch "s") then save_cursor t
  else if decide (action = ch "u") then restore_cursor t
  else t.

Definition esc_dispatch (t : cursor) (intermediates : list Z) (byte : Z) : cursor :=
  match intermediates with
  | [] =>
    if decide (byte = ch "7") then save_cursor t
    else if decide (byte = ch "8") then restore_cursor t
    else if decide (byte = ch "D") then linefeed t
    else if decide (byte = ch "E") then set_col (linefeed t) 0
    else t
  | _ => t
  end.

(** The [Perform] implementation; hooks, strings and OSC sequences are ignored. *)
Definition perform (t : cursor) (e : vte_event) : cursor :=
  match e with
  | Print c => put_char t c
  | Execute b => execute t b
  | CsiDispatch params intermediates _ action => csi_dispatch t params intermediates action
  | EscDispatch intermediates _ b => esc_dispatch t intermediates b
  | Hook _ _ _ _ | Put _ | Unhook | OscDispatch _ _ => t
  end.

Section State.
Context `{VteParser}.

Record PtyTerminalState := {
  parser : vte_state;
  tracked : cursor;
}.

Definition new (cols rows : nat) : PtyTerminalState := {|
  parser := vte_new;
  tracked := Cursor 0 0 (Nat.max rows 1) (Nat.max cols 1) (0, 0)%nat [];
|}.

(** [std::mem::take(&mut self.pending_responses)] *)
Definition take_responses (t : cursor) : cursor * list string :=
  (Cursor (cursor_row t) (cursor_col t) (rows t) (cols t) (saved_cursor t) [],
   pending_responses t).

Definition feed (t : PtyTerminalState) (input : bytes) : PtyTerminalState * list string :=
  let '(p, events) := vte_advance (parser t) input in
  let '(c, responses) := take_responses (foldl perform (tracked t) events) in
  ({| parser := p; tracked := c |}, responses).

(** Feeding a sequence of chunks, the responses of each in order. *)
Fixpoint feed_all (t : PtyTerminalState) (chunks : list bytes) : PtyTerminalState * list string :=
  match chunks with
  | [] => (t, [])
  | l :: chunks =>
    let '(t, r) := feed t l in
    let '(t, rs) := feed_all t chunks in (t, r ++ rs)
  end.

End State.

(** ** The cursor stays on the screen *)

Definition in_bounds (c : cursor) : Prop :=
  (cursor_row c < rows c ∧ cursor_col c < cols c)%nat.

Definition same_size (c d : cursor) : Prop := rows c = rows d ∧ cols c = cols d.

#[export] Instance same_size_equiv : Equivalence same_size.
Proof. split; repeat intros []; split; congruence. Qed.

(** A step of the performer: it keeps the size and the bounds. *)
Definition good_step (c d : cursor) : Prop := same_size c d ∧ (in_bounds c → in_bounds d).

Create HintDb cursor.
#[export] Hint Unfold good_step same_size in_bounds set_row set_col set_pos save_cursor
  restore_cursor linefeed enqueue_cursor_report : cursor.

Ltac cursor_bounds :=
  repeat autounfold with cursor; cbn; repeat split; try intros [? ?]; cbn in *; try lia.

Lemma linefeed_good c : good_step c (linefeed c).
Proof. cursor_bounds. Qed.

Lemma put_char_good t c : good_step t (put_char t c).
Proof.
  unfold put_char. destruct (is_control c); [cursor_bounds|]. cbn.
  destruct (_ <=? _)%nat eqn:E; zb; cursor_bounds.
Qed.

Lemma execute_good t b : good_step t (execute t b).
Proof.
  unfold execute. repeat case_match; cursor_bounds.
Qed.

Lemma csi_dispatch_good t ps is_ a : good_step t (csi_dispatch t ps is_ a).
Proof. unfold csi_dispatch. repeat case_decide; cursor_bounds. Qed.

Lemma esc_dispatch_good t is_ b : good_step t (esc_dispatch t is_ b).
Proof. unfold esc_dispatch. destruct is_; [repeat case_decide|]; cursor_bounds. Qed.

Lemma perform_good t e : good_step t (perform t e).
Proof.
  destruct e; cbn; auto using put_char_good, execute_good, csi_dispatch_good, esc_dispatch_good;
    cursor_bounds.
Qed.

(** ** What is reported *)

(** A request for the cursor position: CSI 6 n without intermediates. *)
Definition is_report_request (e : vte_event) : bool :=
  match e with
  | CsiDispatch params [] _ action =>
    bool_decide (action = ch "n") && (param_at params 0 0 =? 6)%nat
  | _ => false
  end.

(** The reports a run of events asks for, computed from the cursor alone. *)
Fixpoint reports (t : cursor) (events : list vte_event) : list string :=
  match events with
  | [] => []
  | e :: events =>
    (if is_report_request e
     then [cursor_report (cursor_row t + 1) (cursor_col t + 1)] else [])
    ++ reports (perform t e) events
  end.

Lemma perform_pending t e :
  pending_responses (perform t e) =
  pending_responses t ++
  (if is_report_request e then [cursor_report (cursor_row t + 1) (cursor_col t + 1)] else []).
Proof.
  destruct e; cbn; rewrite ?app_nil_r; try done.
  - unfold put_char. repeat case_match; done.
  - unfold execute. repeat case_match; done.
  - unfold csi_dispatch, ch.
    destruct (decide (action = code "n")) as [->|Hn].
    + repeat (rewrite decide_False by (vm_compute; intuition discriminate)).
      destruct intermediates; cbn.
      * rewrite bool_decide_eq_true_2 by done. cbn.
        destruct (param_at params 0 0 =? 6)%nat eqn:E; zb.
        -- by rewrite decide_True.
        -- rewrite decide_False by naive_solver. by rewrite app_nil_r.
      * rewrite decide_False by naive_solver. by rewrite app_nil_r.
    + assert ((match intermediates with [] => bool_decide (action = code "n") && (param_at params 0 0 =? 6)%nat | _ => false end) = false) as ->.
      { destruct intermediates; [|done]. by rewrite bool_decide_eq_false_2. }
      rewrite app_nil_r. repeat case_decide; done.
  - unfold esc_dispatch. destruct intermediates; [repeat case_decide|]; done.
Qed.

Lemma foldl_pending t events :
  pending_responses (foldl perform t events) = pending_responses t ++ reports t events.
Proof.
  revert t. induction events as [|e events IH]; intros t; cbn; [by rewrite app_nil_r|].
  rewrite IH, perform_pending. by rewrite <- (assoc_L (++)).
Qed.

Lemma foldl_good t events : good_step t (foldl perform t events).
Proof.
  revert t. induction events as [|e events IH]; intros t; cbn; [cursor_bounds|].
  destruct (IH (perform t e)) as [Hs Hb]. destruct (perform_good t e) as [Hs' Hb'].
  split; [by etrans|auto].
Qed.

(** A well-formed report for a screen of the size of [t]. *)
Definition report_on (t : cursor) (s : string) : Prop :=
  ∃ row col, s = cursor_report row col ∧ (1 ≤ row ≤ rows t)%nat ∧ (1 ≤ col ≤ cols t)%nat.

Lemma reports_on t events : in_bounds t → Forall (report_on t) (reports t events).
Proof.
  revert t. induction events as [|e events IH]; intros t Hb; cbn; [done|].
  destruct (perform_good t e) as [[Hr Hc] Hb'].
  apply Forall_app. split.
  - destruct (is_report_request e); [|done]. repeat constructor.
    destruct Hb. do 2 eexists. split_and!; [done| lia..].
  - eapply Forall_impl; [apply IH; auto|]. intros s (r & c & -> & ? & ?).
    exists r, c. rewrite Hr, Hc. auto.
Qed.

(** ** Equality up to what is pending *)

Definition forget (t : cursor) : cursor :=
  Cursor (cursor_row t) (cursor_col t) (rows t) (cols t) (saved_cursor t) [].

Definition same_cursor (t u : cursor) : Prop := forget t = forget u.

#[export] Instance same_cursor_equiv : Equivalence same_cursor.
Proof. unfold same_cursor. split; repeat intros ?; congruence. Qed.

Lemma perform_forget t e : forget (perform t e) = forget (perform (forget t) e).
Proof.
  destruct e; cbn; try done.
  - unfold put_char. cbn. destruct (is_control c); [done|]. case_match; done.
  - unfold execute. repeat case_match; done.
  - unfold csi_dispatch. repeat case_decide; done.
  - unfold esc_dispatch. destruct intermediates; [repeat case_decide|]; done.
Qed.

#[export] Instance perform_proper : Proper (same_cursor ==> eq ==> same_cursor) perform.
Proof.
  intros t u Htu e ? <-. unfold same_cursor in *.
  rewrite (perform_forget t), (perform_forget u). by rewrite Htu.
Qed.

#[export] Instance foldl_perform_proper :
  Proper (same_cursor ==> eq ==> same_cursor) (foldl perform).
Proof.
  intros t u Htu events ? <-. revert t u Htu.
  induction events as [|e events IH]; intros t u Htu; cbn; [done|]. apply IH. by rewrite Htu.
Qed.

#[export] Instance reports_proper : Proper (same_cursor ==> eq ==> eq) reports.
Proof.
  intros t u Htu events ? <-. revert t u Htu.
  induction events as [|e events IH]; intros t u Htu; cbn; [done|].
  f_equal; [|apply IH; by rewrite Htu]. by injection Htu as -> -> _ _ _.
Qed.

Section Properties.
Context `{VteParser}.

(** The events of a sequence of chunks, parsed from state [p]. *)
Fixpoint parse_all (p : vte_state) (chunks : list bytes) : list vte_event :=
  match chunks with
  | [] => []
  | l :: chunks => let '(p, ev) := vte_advance p l in ev ++ parse_all p chunks
  end.

Lemma reports_app t e1 e2 :
  reports t (e1 ++ e2) = reports t e1 ++ reports (foldl perform t e1) e2.
Proof.
  revert t. induction e1 as [|e e1 IH]; intros t; cbn; [done|]. by rewrite IH, (assoc_L (++)).
Qed.

Lemma feed_all_spec t chunks :
  pending_responses (tracked t) = [] →
  let '(t', rs) := feed_all t chunks in
  rs = reports (tracked t) (parse_all (parser t) chunks) ∧ good_step (tracked t) (tracked t').
Proof.
  revert t. induction chunks as [|l chunks IH]; intros t Hp; cbn; [cursor_bounds|].
  unfold feed. destruct (vte_advance (parser t) l) as [p ev]. cbn.
  set (c := foldl perform (tracked t) ev).
  specialize (IH {| parser := p; tracked := forget c |} eq_refl). cbn in IH.
  unfold take_responses. fold (forget c). destruct (feed_all _ chunks) as [t' rs].
  destruct IH as (-> & [Hs Hb]). pose proof (foldl_good (tracked t) ev) as [Hs' Hb']. split.
  - rewrite reports_app. unfold c at 1. rewrite foldl_pending, Hp. cbn. f_equal.
    apply reports_proper; done.
  - split; [etrans; [exact Hs'|exact Hs]|]. intros Hi. apply Hb. apply Hb' in Hi. exact Hi.
Qed.

Lemma feed_app `{!VteIncremental} t a b :
  feed t (a ++ b) =
  (let '(t1, r1) := feed t a in let '(t2, r2) := feed t1 b in (t2, r1 ++ r2)).
Proof.
  unfold feed. rewrite vte_advance_app. destruct (vte_advance (parser t) a) as [p1 e1]. cbn.
  destruct (vte_advance p1 b) as [p2 e2]. unfold take_responses. cbn. rewrite foldl_app.
  set (c := foldl perform (tracked t) e1). fold (forget c).
  assert (same_cursor c (forget c)) as Hc by done.
  assert (same_cursor (foldl perform c e2) (foldl perform (forget c) e2)) as He by (by apply foldl_perform_proper).
  injection He as -> -> -> -> ->. rewrite !foldl_pending. cbn. do 2 f_equal.
  by apply reports_proper.
Qed.

(** From a fresh tracker of any size, whatever output is fed in whatever
    chunks, the host answers exactly the cursor position requests of the parsed
    output, in order, each with the one-based position of the tracked cursor at
    that point, and every answer and the cursor lie on the screen. *)
Theorem feed_all_reports cols rows chunks :
  let t0 := new cols rows in
  let '(t, rs) := feed_all t0 chunks in
  rs = reports (tracked t0) (parse_all (parser t0) chunks) ∧
  Forall (report_on (tracked t0)) rs ∧ in_bounds (tracked t).
Proof.
  cbn zeta. pose proof (feed_all_spec (new cols rows) chunks eq_refl) as Hf.
  destruct (feed_all _ chunks) as [t rs]. destruct Hf as (-> & [_ Hb]).
  assert (in_bounds (tracked (new cols rows))) as H0 by (unfold in_bounds; cbn; lia).
  split_and!; [done|by apply reports_on|by apply Hb].
Qed.

(** The answers do not depend on how the output is split into chunks: feeding
    the chunks one by one gives the answers and the final state of feeding their
    concatenation at once. *)
Theorem feed_all_concat `{!VteIncremental} t chunks :
  chunks ≠ [] → feed_all t chunks = feed t (concat chunks).
Proof.
  destruct chunks as [|l chunks]; [done|]. intros _.
  revert t l. induction chunks as [|m chunks IH]; intros t l.
  - cbn. rewrite app_nil_r. destruct (feed t l) as [t' r]. by rewrite app_nil_r.
  - change (concat (l :: m :: chunks)) with (l ++ concat (m :: chunks)). rewrite feed_app.
    cbn [feed_all]. destruct (feed t l) as [t1 r1]. by rewrite <- IH.
Qed.
End Properties.

Lemma feed_all_concat_witness :
  feed_all (H := plain_parser) (new 80 24) [str_bytes "ab"; str_bytes "c"] =
  feed (new 80 24) (str_bytes "abc").
Proof. exact (feed_all_concat (H := plain_parser) _ [str_bytes "ab"; str_bytes "c"] ltac:(discriminate)). Defined.

(** The request of the program's own test: CUP to row 12, column 34, then a
    report. *)
Example report_after_cup :
  reports (Cursor 0 0 24 80 (0, 0)%nat [])
    [CsiDispatch [[12%nat]; [34%nat]] [] false (ch "H"); CsiDispatch [[6%nat]] [] false (ch "n")]
  = [cursor_report 12 34].
Proof. reflexivity. Qed.
