(* ===== verification/HostTypes.v ===== *)
(** * The types the host modules share

    [mitb-host/src/error.rs], the [HostEvent]s and constants of
    [mitb-host/src/lib.rs], and the host types of [mitb-wit/wit/world.wit]. *)

From S2P Require Export Rust.

(** [std::io::ErrorKind]: the kinds the program tells apart, and the others. *)
Inductive io_kind : Type :=
| NotFound
| PermissionDeniedKind
| InvalidInput
| Interrupted
| OtherKind
| AnotherKind (n : nat).

#[export] Instance io_kind_eq_dec : EqDecision io_kind.
Proof. solve_decision. Defined.

(** [std::io::Error]: a kind and a message. *)
Record io_error := IoError { kind : io_kind; io_message : string }.

#[export] Instance io_error_eq_dec : EqDecision io_error.
Proof. solve_decision. Defined.

Inductive HostError : Type :=
| Io (e : io_error)
| Wasmtime (message : string)
| Join (message : string)
| Policy (message : string)
| Agent (message : string)
| PoisonedLock (name : string)
| MissingExport (name : string).

Inductive HostEvent : Type :=
| TerminalOutput (data : bytes)
| SessionEnded (reason : string)
| Disconnected.

Inductive key : Type :=
| Enter | Tab | Backspace | Escape
| ArrowUp | ArrowDown | ArrowLeft | ArrowRight
| CtrlC | CtrlD.

#[export] Instance key_eq_dec : EqDecision key.
Proof. solve_decision. Defined.

Inductive input : Type :=
| Text (text : string)
| Key (k : key).

Inductive action : Type :=
| Perturb (inputs : list input)
| Wait.

Inductive spawn_error_kind : Type :=
| SpawnInvalidCommand
| SpawnNotFound
| SpawnPermissionDenied
| SpawnIo
| SpawnOther.

Record spawn_error := SpawnError { spawn_kind : spawn_error_kind; spawn_message : string }.

Record exit_status := ExitStatus { success : bool; status_code : option Z }.

#[export] Instance exit_status_eq_dec : EqDecision exit_status.
Proof. solve_decision. Defined.

(** The size the child's terminal is opened with. *)
Definition PTY_COLS : nat := 72.
Definition PTY_ROWS : nat := 27.

(** [std::sync::Mutex::lock] of a mutex that may be poisoned. *)
Definition lock {A} (name : string) (poisoned : bool) (a : A) : result HostError A :=
  if poisoned then Err (PoisonedLock name) else Ok a.
