(* ===== verification/Transcript.v ===== *)
(** * The retained terminal output: [mitb-host/src/transcript.rs]

    The transcript is the last [max_bytes] bytes of the terminal's output and
    the stream offset of the first of them.  A policy reads it by snapshot or,
    with a cursor, incrementally. *)

From S2P Require Export HostTypes.

Record TranscriptBuffer := Transcript { start : Z; tbytes : bytes }.

Definition empty_transcript : TranscriptBuffer := Transcript 0 [].

(** [Arc<Mutex<TranscriptBuffer>>] *)
Record SharedTranscript := Shared { poisoned : bool; contents : TranscriptBuffer }.

Definition lock_transcript (t : SharedTranscript) : result HostError TranscriptBuffer :=
  lock "transcript" (poisoned t) (contents t).

Definition len64 (l : bytes) : Z := Z.of_nat (length l).

Definition transcript_head (t : SharedTranscript) : result HostError Z :=
  t ← lock_transcript t;
  Ok (sat_add_u64 (start t) (len64 (tbytes t))).

Definition transcript_snapshot_bytes (t : SharedTranscript) (max_bytes : nat)
    : result HostError bytes :=
  t ← lock_transcript t;
  let keep := Nat.min (length (tbytes t)) max_bytes in
  let start_index := (length (tbytes t) - keep)%nat in
  Ok (drop start_index (tbytes t)).

Definition transcript_bytes_since (t : SharedTranscript) (cursor : Z) (max_bytes : nat)
    : result HostError (Z * bytes) :=
  t ← lock_transcript t;
  let available_start := start t in
  let available_end := sat_add_u64 (start t) (len64 (tbytes t)) in
  let start := Z.min (Z.max cursor available_start) available_end in
  let offset := Z.to_nat (sat_sub start available_start) in
  let keep := Nat.min (length (tbytes t) - offset) max_bytes in
  let bytes := take keep (drop offset (tbytes t)) in
  Ok (sat_add_u64 start (len64 bytes), bytes).

(** [trim_transcript] of [pty_io.rs]. *)
Definition trim_transcript (t : TranscriptBuffer) (max_bytes : nat) : TranscriptBuffer :=
  if (max_bytes <? length (tbytes t))%nat then
    let overflow := (length (tbytes t) - max_bytes)%nat in
    Transcript (sat_add_u64 (start t) (Z.of_nat overflow)) (drop overflow (tbytes t))
  else t.

(** [transcript.bytes.extend_from_slice(..); trim_transcript(..)] *)
Definition append_chunk (max_bytes : nat) (t : TranscriptBuffer) (chunk : bytes) : TranscriptBuffer :=
  trim_transcript (Transcript (start t) (tbytes t ++ chunk)) max_bytes.

(** ** The stream a transcript is a window of *)

(** [t] is the window of the last [max] bytes of [stream]. *)
Definition window_of (max : nat) (stream : bytes) (t : TranscriptBuffer) : Prop :=
  tbytes t = last_n max stream ∧ start t = len64 stream - len64 (tbytes t).

Lemma window_empty max : window_of max [] empty_transcript.
Proof. split; [|done]. unfold last_n. by rewrite drop_nil. Qed.

Lemma append_chunk_window max stream t chunk :
  len64 (stream ++ chunk) ≤ U64_MAX →
  window_of max stream t → window_of max (stream ++ chunk) (append_chunk max t chunk).
Proof.
  unfold window_of, append_chunk, trim_transcript, len64, sat_add_u64.
  intros Hlen [Hb Hs]. cbn. rewrite Hb in Hs |- *. rewrite <- (last_n_app max stream chunk).
  destruct (_ <? _)%nat eqn:E; zb; cbn.
  - split; [done|]. list_lia.
  - rewrite (last_n_all max (_ ++ _)) by done. split; [done|]. list_lia.
Qed.

(** ** Reading *)

(** The stream a transcript of [max] bytes holds after a run of chunks. *)
Definition transcript_after (max : nat) (chunks : list bytes) : TranscriptBuffer :=
  foldl (append_chunk max) empty_transcript chunks.

Lemma foldl_window max chunks stream t :
  len64 (stream ++ concat chunks) ≤ U64_MAX →
  window_of max stream t →
  window_of max (stream ++ concat chunks) (foldl (append_chunk max) t chunks).
Proof.
  revert stream t. induction chunks as [|c chunks IH]; intros stream t Hlen Hw; cbn.
  - by rewrite app_nil_r.
  - rewrite (assoc_L (++)). apply IH.
    + cbn in Hlen. by rewrite <- (assoc_L (++)).
    + apply append_chunk_window; [|done]. unfold len64 in *. cbn in Hlen. list_lia.
Qed.

Lemma window_snapshot max stream t n :
  window_of max stream (contents t) → poisoned t = false →
  transcript_snapshot_bytes t n = Ok (last_n (Nat.min max n) stream).
Proof.
  intros [Hb _] Hp. unfold transcript_snapshot_bytes, lock_transcript, lock. rewrite Hp. cbn. rewrite Hb.
  f_equal. unfold last_n. rewrite drop_drop. f_equal. list_lia.
Qed.

(** C19. Refinement of the stream: after any run of output chunks (of fewer than
    2^64 bytes together) the transcript holds exactly the last [max] bytes of
    everything that was output, [head] is the number of bytes output so far, a
    snapshot is a suffix of the output of the requested length (as far as it is
    retained), and nothing depends on how the output was chunked. *)
Theorem transcript_is_window max chunks maxb :
  let stream := concat chunks in
  let t := Shared false (transcript_after max chunks) in
  len64 stream ≤ U64_MAX →
  window_of max stream (contents t) ∧
  transcript_head t = Ok (len64 stream) ∧
  transcript_snapshot_bytes t maxb = Ok (last_n (Nat.min max maxb) stream).
Proof.
  intros stream t Hlen.
  assert (window_of max stream (contents t)) as Hw
    by (apply (foldl_window max chunks [] empty_transcript); [done|apply window_empty]).
  split; [done|]. split; [|by apply window_snapshot]. destruct Hw as [Hb Hs].
  unfold transcript_head, lock_transcript, lock, t. cbn in *.
  rewrite Hs, Hb. unfold sat_add_u64, len64 in *. f_equal; lia.
Qed.

Lemma transcript_is_window_witness :
  transcript_snapshot_bytes
    (Shared false (transcript_after 4 [str_bytes "abc"; str_bytes "def"])) 3 =
  Ok (last_n 3 (str_bytes "abcdef")).
Proof.
  apply (transcript_is_window 4 [str_bytes "abc"; str_bytes "def"] 3). by vm_compute.
Defined.

(** Reading from a cursor: with the transcript a window of [stream], the
    bytes returned are the consecutive bytes of the stream from the cursor (moved
    into the retained window, which is the documented skip) to the next cursor,
    at most the requested number of them; the call never goes past the head, and
    it makes progress whenever something is retained after the cursor and at
    least one byte is asked for. *)
Theorem bytes_since_segment max stream t cursor maxb :
  window_of max stream t → len64 stream ≤ U64_MAX → 0 ≤ cursor →
  ∃ next out,
    transcript_bytes_since (Shared false t) cursor maxb = Ok (next, out) ∧
    let from := Z.min (Z.max cursor (start t)) (len64 stream) in
    stream = take (Z.to_nat from) stream ++ out ++ drop (Z.to_nat next) stream ∧
    next = from + len64 out ∧ (length out ≤ maxb)%nat ∧
    (cursor < len64 stream → (0 < maxb)%nat → (0 < max)%nat → cursor < next).
Proof.
  intros [Hb Hs] Hlen Hcur. unfold transcript_bytes_since, lock_transcript, lock. cbn.
  do 2 eexists. split; [reflexivity|].
  destruct (drop_last_n max stream) as (pre & Hpre & Hlpre).
  assert (len64 stream = start t + len64 (tbytes t)) as Hend by lia.
  assert (0 ≤ start t) as Hst by (unfold len64 in *; rewrite Hb in Hs; list_lia).
  unfold sat_add_u64, sat_sub. rewrite (Z.min_l (start t + _)) by lia. rewrite <- Hend.
  set (from := Z.min (Z.max cursor (start t)) (len64 stream)).
  set (offset := Z.to_nat (Z.max 0 (from - start t))).
  set (keep := Nat.min (length (tbytes t) - offset) maxb).
  set (out := take keep (drop offset (tbytes t))).
  assert (Hlo : length out = keep) by (unfold out, keep; list_lia).
  assert (Hfrom : start t ≤ from ≤ len64 stream) by (unfold from, len64 in *; lia).
  assert (Hoff : Z.of_nat offset = from - start t) by lia.
  assert (Hkeep : (keep ≤ length (tbytes t) - offset)%nat) by (unfold keep; lia).
  rewrite Z.min_l by (unfold len64 in *; lia).
  assert (Hdrop : ∀ n, (offset ≤ n)%nat → drop (n - offset) (drop offset (tbytes t)) =
      drop (Z.to_nat (start t) + n) stream).
  { intros n Hn. rewrite drop_drop, Hb. unfold last_n. rewrite drop_drop. f_equal.
    rewrite Hb in Hs. unfold len64 in Hs. list_lia. }
  split_and!; [|done|unfold keep in Hlo; lia|].
  - rewrite <- (take_drop (Z.to_nat from) stream) at 1. f_equal.
    pose proof (Hdrop offset ltac:(lia)) as Hd. rewrite Nat.sub_diag, drop_0 in Hd.
    replace (Z.to_nat from) with (Z.to_nat (start t) + offset)%nat by lia. rewrite <- Hd.
    rewrite <- (take_drop keep (drop offset (tbytes t))) at 1. f_equal.
    pose proof (Hdrop (offset + keep)%nat ltac:(lia)) as Hd2.
    replace (offset + keep - offset)%nat with keep in Hd2 by lia. rewrite Hd2.
    f_equal. unfold len64. lia.
  - intros Hlt Hmb Hmx. unfold len64 in *.
    assert (length (tbytes t) = Nat.min max (length stream)) by (rewrite Hb; apply length_last_n).
    unfold keep in Hlo. lia.
Qed.

Lemma bytes_since_segment_witness :
  ∃ next out, transcript_bytes_since
    (Shared false (transcript_after 4 [str_bytes "abc"; str_bytes "def"])) 1 8 = Ok (next, out).
Proof.
  destruct (bytes_since_segment 4 (str_bytes "abcdef")
    (transcript_after 4 [str_bytes "abc"; str_bytes "def"]) 1 8) as (n & o & H & _).
  - split; by vm_compute.
  - by vm_compute.
  - lia.
  - by exists n, o.
Defined.
