(* ===== verification/PtyIo.v ===== *)
(** * Input and output of the child's terminal: [mitb-host/src/pty_io.rs]

    The writer end of the terminal is a device (a parameter); what the host does
    to it is recorded as a trace of payloads written and delays slept. *)

From S2P Require Export HostTypes Transcript PtyTerminal.

Definition TEXT_CHUNK_BYTES : nat := 96.
Definition TEXT_CHUNK_DELAY : Z := from_millis 20.
Definition KEY_DELAY_AFTER_TEXT : Z := from_millis 250.
Definition ENTER_DELAY_AFTER_TEXT : Z := from_millis 700.
Definition KEY_DELAY_BETWEEN_KEYS : Z := from_millis 120.

(** [dyn Write + Send]: [write_all] and [flush] of the device. *)
Class Device : Type := {
  device : Type;
  write_all : device → bytes → device * result io_error ();
  flush : device → device * result io_error ();
}.

(** A device on which every write succeeds. *)
Class Reliable `{Device} : Prop := {
  write_all_ok d l : (write_all d l).2 = Ok ();
  flush_ok d : (flush d).2 = Ok ();
}.

Inductive effect : Type :=
| Written (payload : bytes)
| Slept (duration : Z).

Definition key_bytes (k : key) : bytes :=
  match k with
  | Enter => [chr 13]
  | Tab => [chr 9]
  | Backspace => [chr 127]
  | Escape => [chr 27]
  | ArrowUp => chr 27 :: str_bytes "[A"
  | ArrowDown => chr 27 :: str_bytes "[B"
  | ArrowLeft => chr 27 :: str_bytes "[D"
  | ArrowRight => chr 27 :: str_bytes "[C"
  | CtrlC => [chr 3]
  | CtrlD => [chr 4]
  end.

(** [slice::chunks]: consecutive pieces of [n] bytes, the last one shorter. *)
Fixpoint chunks_loop (fuel n : nat) (l : bytes) : list bytes :=
  match fuel, l with
  | _, [] => []
  | O, _ => []
  | S fuel, _ => take n l :: chunks_loop fuel n (drop n l)
  end.

Definition chunks (n : nat) (l : bytes) : list bytes := chunks_loop (length l) n l.

Section Io.
Context `{Device}.

(** The shared writer: the device behind its mutex, and the trace so far. *)
Record writer := Writer { wpoisoned : bool; dev : device; trace : list effect }.

(** The monad of the functions that may fail while they write. *)
Definition io (A : Type) : Type := writer → writer * result HostError A.

#[export] Instance io_ret : MRet io := fun A a w => (w, Ok a).
#[export] Instance io_bind : MBind io := fun A B f m w =>
  let '(w, r) := m w in match r with Ok a => f a w | Err e => (w, Err e) end.

Definition sleep (d : Z) : io () := fun w =>
  (Writer (wpoisoned w) (dev w) (trace w ++ [Slept d]), Ok ()).

(** Runs a device operation, an [io::Error] becoming [HostError::Io]. *)
Definition on_device (f : device → device * result io_error ()) : io () := fun w =>
  let '(d, r) := f (dev w) in
  (Writer (wpoisoned w) d (trace w), match r with Ok _ => Ok () | Err e => Err (Io e) end).

Definition record_write (payload : bytes) : io () := fun w =>
  (Writer (wpoisoned w) (dev w) (trace w ++ [Written payload]), Ok ()).

Definition lock_writer : io () := fun w => (w, lock "writer" (wpoisoned w) ()).

Definition write_payload_blocking (payload : bytes) : io () :=
  _ ← lock_writer;
  _ ← on_device (fun d => write_all d payload);
  _ ← record_write payload;
  on_device flush.

Definition write_payload (payload : bytes) : io () :=
  match payload with [] => mret () | _ => write_payload_blocking payload end.

Fixpoint write_chunks (l : list bytes) : io () :=
  match l with
  | [] => mret ()
  | chunk :: l =>
    _ ← write_payload chunk;
    _ ← sleep TEXT_CHUNK_DELAY;
    write_chunks l
  end.

Definition write_text_streamed (text : string) : io () :=
  match str_bytes text with
  | [] => mret ()
  | l => write_chunks (chunks TEXT_CHUNK_BYTES l)
  end.

(** The delay before [i], given the input before it. *)
Definition delay_before (previous : option input) (i : input) : option Z :=
  match previous, i with
  | Some (Text _), Key Enter => Some ENTER_DELAY_AFTER_TEXT
  | Some (Text _), Key _ => Some KEY_DELAY_AFTER_TEXT
  | Some (Key _), Key _ => Some KEY_DELAY_BETWEEN_KEYS
  | _, _ => None
  end.

Definition write_input (i : input) : io () :=
  match i with
  | Text text => write_text_streamed text
  | Key k => write_payload (key_bytes k)
  end.

Fixpoint write_inputs_from (previous : option input) (inputs : list input) : io () :=
  match inputs with
  | [] => mret ()
  | i :: inputs =>
    _ ← match delay_before previous i with Some d => sleep d | None => mret () end;
    _ ← write_input i;
    write_inputs_from (Some i) inputs
  end.

Definition write_inputs (inputs : list input) : io () := write_inputs_from None inputs.

(** *** The reader thread *)

Context `{VteParser}.

(** What one [reader.read] returns: a chunk (empty at the end of the file), or
    an error. *)
Inductive read_outcome : Type :=
| ReadOk (chunk : bytes)
| ReadErr (e : io_error).

Record reader_state := Reader {
  terminal : PtyTerminalState;
  pty_writer : writer;
  transcript : SharedTranscript;
  event_sender : option (list HostEvent);
}.

Fixpoint write_responses (responses : list string) : io () :=
  match responses with
  | [] => mret ()
  | r :: responses => _ ← write_payload_blocking (str_bytes r); write_responses responses
  end.

Definition send_event (tx : option (list HostEvent)) (e : HostEvent) : option (list HostEvent) :=
  (fun sent => sent ++ [e]) <$> tx.

(** The body of the loop for a chunk that was read. *)
Definition handle_chunk (max_bytes : nat) (s : reader_state) (chunk : bytes)
    : reader_state * result HostError () :=
  let '(t, responses) := feed (terminal s) chunk in
  let '(w, r) := write_responses responses (pty_writer s) in
  match r with
  | Err e => (Reader t w (transcript s) (event_sender s), Err e)
  | Ok _ =>
    let events := send_event (event_sender s) (TerminalOutput chunk) in
    match lock_transcript (transcript s) with
    | Err e => (Reader t w (transcript s) events, Err e)
    | Ok buffer =>
      (Reader t w
        (Shared (poisoned (transcript s)) (append_chunk max_bytes buffer chunk)) events, Ok ())
    end
  end.

(** [read_pty_output] on the outcomes of its successive reads; [None] when it is
    still reading after the last of them. *)
Fixpoint read_pty_output (max_bytes : nat) (s : reader_state) (reads : list read_outcome)
    : reader_state * option (result HostError ()) :=
  match reads with
  | [] => (s, None)
  | ReadOk [] :: _ => (s, Some (Ok ()))
  | ReadOk chunk :: reads =>
    let '(s, r) := handle_chunk max_bytes s chunk in
    match r with
    | Ok _ => read_pty_output max_bytes s reads
    | Err e => (s, Some (Err e))
    end
  | ReadErr e :: reads =>
    if decide (kind e = Interrupted) then read_pty_output max_bytes s reads
    else (s, Some (Err (Io e)))
  end.

(** The state the reader thread starts in. *)
Definition initial_reader (w : writer) (t : SharedTranscript) (tx : option (list HostEvent))
    : reader_state :=
  Reader (new 80 24) w t tx.

End Io.

(** ** What is written *)

Section Emits.
Context `{Device}.

(** [m] does the effects [es]: all of them when it succeeds, a prefix of them
    otherwise; it succeeds on a reliable device whose mutex is not poisoned. *)
Definition emits {A} (m : io A) (es : list effect) : Prop := ∀ w, ∃ d rest,
  es = d ++ rest ∧ trace (m w).1 = trace w ++ d ∧ wpoisoned (m w).1 = wpoisoned w ∧
  (is_ok (m w).2 = true → rest = []) ∧
  (Reliable → wpoisoned w = false → is_ok (m w).2 = true).

Lemma emits_ret {A} (a : A) : emits (mret a) [].
Proof. intros w. exists [], []. cbn. rewrite app_nil_r. naive_solver. Qed.

Lemma emits_bind {A B} (m : io A) (f : A → io B) es fs :
  emits m es → (∀ a, emits (f a) fs) → emits (m ≫= f) (es ++ fs).
Proof.
  intros Hm Hf w. destruct (Hm w) as (d & rest & -> & Ht & Hp & Hok & Hr).
  unfold mbind, io_bind. destruct (m w) as [w1 r]. cbn in *. destruct r as [a|e].
  - specialize (Hok eq_refl) as ->. rewrite app_nil_r.
    destruct (Hf a w1) as (d2 & rest2 & -> & Ht2 & Hp2 & Hok2 & Hr2).
    exists (d ++ d2), rest2. rewrite Ht2, Ht, <- !(assoc_L (++)). split_and!; try done.
    + congruence.
    + intros ? Hw. apply Hr2; [done|congruence].
  - exists d, (rest ++ fs). cbn. rewrite <- (assoc_L (++)). split_and!; try done.
Qed.

Lemma emits_sleep t : emits (sleep t) [Slept t].
Proof. intros w. exists [Slept t], []. naive_solver. Qed.

Lemma emits_lock : emits lock_writer [].
Proof.
  intros w. exists [], []. cbn. rewrite app_nil_r. split_and!; try done.
  intros _ ->. done.
Qed.

Lemma emits_device f : (Reliable → ∀ d, (f d).2 = Ok ()) → emits (on_device f) [].
Proof.
  intros Hf w. exists [], []. unfold on_device. destruct (f (dev w)) as [d r] eqn:E. cbn.
  rewrite app_nil_r. split_and!; try done.
  intros Hr _. specialize (Hf Hr (dev w)). rewrite E in Hf. cbn in Hf. by rewrite Hf.
Qed.

Lemma emits_record p : emits (record_write p) [Written p].
Proof. intros w. exists [Written p], []. naive_solver. Qed.

Lemma emits_blocking p : emits (write_payload_blocking p) [Written p].
Proof.
  unfold write_payload_blocking. change [Written p] with ([] ++ [] ++ [Written p] ++ []).
  apply emits_bind; [apply emits_lock|intros _].
  apply emits_bind; [apply emits_device; intros Hr d; apply write_all_ok|intros _].
  apply emits_bind; [apply emits_record|intros _].
  apply emits_device. intros Hr d. apply flush_ok.
Qed.

(** The effects an input calls for. *)
Definition chunk_effects (l : list bytes) : list effect :=
  l ≫= (fun chunk => [Written chunk; Slept TEXT_CHUNK_DELAY]).

Definition input_effects (i : input) : list effect :=
  match i with
  | Text text => chunk_effects (chunks TEXT_CHUNK_BYTES (str_bytes text))
  | Key k => [Written (key_bytes k)]
  end.

Fixpoint plan (previous : option input) (inputs : list input) : list effect :=
  match inputs with
  | [] => []
  | i :: inputs =>
    match delay_before previous i with Some d => [Slept d] | None => [] end
    ++ input_effects i ++ plan (Some i) inputs
  end.

Lemma emits_chunks l : Forall (fun c => c ≠ []) l → emits (write_chunks l) (chunk_effects l).
Proof.
  induction 1 as [|c l Hc _ IH]; cbn [write_chunks]; [apply emits_ret|].
  change (chunk_effects (c :: l)) with ([Written c] ++ [Slept TEXT_CHUNK_DELAY] ++ chunk_effects l).
  apply emits_bind; [|intros _].
  - unfold write_payload. destruct c; [done|]. apply emits_blocking.
  - apply emits_bind; [apply emits_sleep|done].
Qed.

Lemma chunks_loop_spec fuel n l :
  (0 < n)%nat → (length l ≤ fuel)%nat →
  concat (chunks_loop fuel n l) = l ∧
  Forall (fun c => c ≠ [] ∧ (length c ≤ n)%nat) (chunks_loop fuel n l).
Proof.
  intros Hn. revert l. induction fuel as [|fuel IH]; intros l Hl.
  - destruct l; [done|cbn in Hl; lia].
  - destruct l as [|b l]; [done|]. cbn [chunks_loop concat].
    destruct (IH (drop n (b :: l))) as [Hc Hf].
    { rewrite length_drop. cbn in *. lia. }
    rewrite Hc, take_drop. split; [done|]. constructor; [|done].
    rewrite length_take. split; [|lia]. destruct n; [lia|done].
Qed.

Lemma chunks_spec n l :
  (0 < n)%nat →
  concat (chunks n l) = l ∧ Forall (fun c => c ≠ [] ∧ (length c ≤ n)%nat) (chunks n l).
Proof. intros. by apply chunks_loop_spec. Qed.

Lemma emits_input i : emits (write_input i) (input_effects i).
Proof.
  destruct i as [text|k]; cbn.
  - unfold write_text_streamed. destruct (str_bytes text) as [|b l]; [apply emits_ret|].
    apply emits_chunks. eapply Forall_impl; [apply chunks_spec; unfold TEXT_CHUNK_BYTES; lia|].
    naive_solver.
  - unfold write_payload. destruct k; apply emits_blocking.
Qed.

Lemma emits_inputs previous inputs : emits (write_inputs_from previous inputs) (plan previous inputs).
Proof.
  revert previous. induction inputs as [|i inputs IH]; intros previous; [apply emits_ret|].
  cbn [write_inputs_from plan]. apply emits_bind; [|intros _].
  - destruct (delay_before previous i); [apply emits_sleep|apply emits_ret].
  - apply emits_bind; [apply emits_input|intros _; apply IH].
Qed.

(** The payloads of a trace. *)
Definition written (es : list effect) : list bytes :=
  omap (fun e => match e with Written p => Some p | Slept _ => None end) es.

Definition input_bytes (i : input) : bytes :=
  match i with Text text => str_bytes text | Key k => key_bytes k end.

Lemma written_chunks l : written (chunk_effects l) = l.
Proof. induction l as [|c l IH]; cbn; [done|]. f_equal. exact IH. Qed.

Lemma written_app a b : written (a ++ b) = written a ++ written b.
Proof. apply omap_app. Qed.

Lemma input_effects_written i :
  concat (written (input_effects i)) = input_bytes i ∧
  Forall (fun p => p ≠ [] ∧ (length p ≤ TEXT_CHUNK_BYTES)%nat) (written (input_effects i)).
Proof.
  destruct i as [text|k]; cbn.
  - rewrite written_chunks. apply chunks_spec. unfold TEXT_CHUNK_BYTES. lia.
  - unfold TEXT_CHUNK_BYTES. destruct k; cbn; (split; [done|repeat constructor; done || lia]).
Qed.

Lemma plan_written previous inputs :
  concat (written (plan previous inputs)) = concat (input_bytes <$> inputs) ∧
  Forall (fun p => p ≠ [] ∧ (length p ≤ TEXT_CHUNK_BYTES)%nat) (written (plan previous inputs)).
Proof.
  revert previous. induction inputs as [|i inputs IH]; intros previous; [done|].
  cbn [plan fmap list_fmap]. rewrite !written_app, !concat_app.
  destruct (IH (Some i)) as [Hc Hf]. destruct (input_effects_written i) as [Hc' Hf'].
  rewrite Hc, Hc'. split.
  - by destruct (delay_before previous i).
  - rewrite !Forall_app. split_and!; [by destruct (delay_before previous i)|done|done].
Qed.

(** C21. Writing a policy's inputs on a reliable terminal succeeds, and the bytes
    that reach the terminal are exactly the bytes of the inputs in order, in
    non-empty payloads of at most 96 bytes, with the prescribed delays between
    them. *)
Theorem write_inputs_delivers `{!Reliable} inputs w :
  wpoisoned w = false →
  (write_inputs inputs w).2 = Ok () ∧
  trace (write_inputs inputs w).1 = trace w ++ plan None inputs ∧
  concat (written (plan None inputs)) = concat (input_bytes <$> inputs) ∧
  Forall (fun p => p ≠ [] ∧ (length p ≤ TEXT_CHUNK_BYTES)%nat) (written (plan None inputs)).
Proof.
  intros Hw. destruct (emits_inputs None inputs w) as (d & rest & Hd & Ht & _ & Hok & Hr).
  specialize (Hr _ Hw). rewrite (Hok Hr), app_nil_r in Hd. fold (write_inputs inputs) in *.
  split; [by destruct (write_inputs inputs w).2 as [[]|]|].
  split; [by rewrite Ht, Hd|]. apply plan_written.
Qed.

(** Whatever the device does, writing a policy's inputs never writes anything
    out of order or twice: what reached the terminal is a prefix of the planned
    effects, and all of them when the call reports success. *)
Theorem write_inputs_prefix inputs w :
  ∃ d rest, plan None inputs = d ++ rest ∧
    trace (write_inputs inputs w).1 = trace w ++ d ∧
    (is_ok (write_inputs inputs w).2 = true → rest = []).
Proof.
  destruct (emits_inputs None inputs w) as (d & rest & Hd & Ht & _ & Hok & _). eauto.
Qed.

End Emits.

(** A device that accepts everything, and one that stops after [n] writes. *)
Definition sink : Device := {|
  device := ();
  write_all := fun d _ => (d, Ok ());
  flush := fun d => (d, Ok ());
|}.

#[export] Instance sink_reliable : Reliable (H := sink).
Proof. by split. Qed.

Lemma write_inputs_delivers_witness :
  (write_inputs (H := sink) [Text "hi"; Key Enter] (Writer (H := sink) false () [])).2 = Ok ().
Proof.
  exact (proj1 (write_inputs_delivers (H := sink) [Text "hi"; Key Enter]
    (Writer (H := sink) false () []) eq_refl)).
Defined.

Example prompt_plan :
  plan None [Text "hi"; Key Enter] =
  [Written (str_bytes "hi"); Slept TEXT_CHUNK_DELAY;
   Slept ENTER_DELAY_AFTER_TEXT; Written [chr 13]].
Proof. reflexivity. Qed.

(** ** The reader thread *)

Section ReaderThread.
Context `{Device} `{VteParser}.

Lemma emits_responses responses :
  emits (write_responses responses) ((fun r => Written (str_bytes r)) <$> responses).
Proof.
  induction responses as [|r rs IH]; [apply emits_ret|].
  change ((λ r0, Written (str_bytes r0)) <$> (r :: rs))
    with ([Written (str_bytes r)] ++ ((λ r0, Written (str_bytes r0)) <$> rs)).
  apply emits_bind; [apply emits_blocking|done].
Qed.

(** The chunks among the outcomes of a run of reads that neither ends the file nor
    fails. *)
Definition chunks_read (reads : list read_outcome) : list bytes :=
  omap (fun r => match r with ReadOk c => Some c | ReadErr _ => None end) reads.

Definition benign (r : read_outcome) : Prop :=
  match r with ReadOk c => c ≠ [] | ReadErr e => kind e = Interrupted end.

(** On a reliable terminal a chunk is handled to the end. *)
Lemma handle_chunk_reliable `{!Reliable} max_bytes s c :
  wpoisoned (pty_writer s) = false → poisoned (transcript s) = false →
  let '(t, responses) := feed (terminal s) c in
  ∃ w, handle_chunk max_bytes s c =
      (Reader t w (Shared false (append_chunk max_bytes (contents (transcript s)) c))
         (send_event (event_sender s) (TerminalOutput c)), Ok ()) ∧
    trace w = trace (pty_writer s) ++ ((fun r => Written (str_bytes r)) <$> responses) ∧ wpoisoned w = false.
Proof.
  intros Hw Hp. unfold handle_chunk. destruct (feed (terminal s) c) as [t resp].
  destruct (emits_responses resp (pty_writer s)) as (d & rest & Hd & Ht & Hwp & Hok & Hrel).
  specialize (Hrel _ Hw). destruct (write_responses resp (pty_writer s)) as [w rr]. cbn in *.
  destruct rr as [[]|]; [|done]. specialize (Hok eq_refl) as ->. rewrite app_nil_r in Hd. subst d.
  unfold lock_transcript, lock. rewrite Hp. exists w. split_and!; [done|done|congruence].
Qed.

(** C12. As long as the child's terminal delivers output (interrupted reads
    included), the reader thread keeps going, answers exactly the position
    requests of the output, forwards every chunk to the window in order, and the
    transcript is the one those chunks produce. *)
Theorem read_pty_output_spec `{!Reliable} max_bytes s reads :
  Forall benign reads →
  wpoisoned (pty_writer s) = false → poisoned (transcript s) = false →
  let '(s', r) := read_pty_output max_bytes s reads in
  let '(t, responses) := feed_all (terminal s) (chunks_read reads) in
  r = None ∧ terminal s' = t ∧
  trace (pty_writer s') =
    trace (pty_writer s) ++ ((fun r => Written (str_bytes r)) <$> responses) ∧
  transcript s' =
    Shared false (foldl (append_chunk max_bytes) (contents (transcript s)) (chunks_read reads)) ∧
  event_sender s' =
    (fun sent => sent ++ (TerminalOutput <$> chunks_read reads)) <$> event_sender s.
Proof.
  intros Hb. revert s. induction Hb as [|r reads Hr _ IH]; intros s Hw Hp.
  - cbn. rewrite app_nil_r. split_and!; try done.
    + destruct (transcript s). cbn in *. by subst.
    + destruct (event_sender s); cbn; [by rewrite app_nil_r|done].
  - destruct r as [c|e]; cbn in Hr.
    2:{ cbn. rewrite decide_True by done. by apply IH. }
    cbn [read_pty_output]. destruct c as [|b c]; [done|].
    change (chunks_read (ReadOk (b :: c) :: reads)) with ((b :: c) :: chunks_read reads).
    cbn [feed_all]. pose proof (handle_chunk_reliable max_bytes s (b :: c) Hw Hp) as Hc.
    destruct (feed (terminal s) (b :: c)) as [t resp]. destruct Hc as (w & -> & Ht & Hw').
    match goal with |- context [read_pty_output max_bytes ?s1 reads] =>
      specialize (IH s1 ltac:(cbn; congruence) eq_refl) end.
    cbn in IH. destruct (read_pty_output _ _ _) as [s' r']. destruct (feed_all t _) as [t' rs].
    destruct IH as (-> & -> & -> & -> & ->). split_and!; try done.
    + rewrite Ht, fmap_app. by rewrite (assoc_L (++)).
    + destruct (event_sender s); cbn; [|done]. by rewrite <- (assoc_L (++)).
Qed.

End ReaderThread.

Lemma read_pty_output_spec_witness :
  (read_pty_output (H := sink) (H0 := plain_parser) 4
    (initial_reader (H := sink) (Writer (H := sink) false () []) (Shared false empty_transcript) (Some []))
    [ReadOk (str_bytes "abc"); ReadErr (IoError Interrupted ""); ReadOk (str_bytes "de")]).2 = None.
Proof.
  pose proof (read_pty_output_spec (H := sink) (H0 := plain_parser) 4
    (initial_reader (H := sink) (Writer (H := sink) false () []) (Shared false empty_transcript) (Some []))
    [ReadOk (str_bytes "abc"); ReadErr (IoError Interrupted ""); ReadOk (str_bytes "de")]
    ltac:(repeat constructor; discriminate) eq_refl eq_refl) as Hs.
  destruct (read_pty_output _ _ _) as [s' r].
  destruct (feed_all _ _) as [t rs]. exact (proj1 Hs).
Defined.

(** The tracker of the reader thread has 80 columns while the child's terminal
    is opened with 72: a child that moves to the last column it can address and
    asks for its position is told a column its terminal does not have. *)
Theorem tracked_size_differs `{Device} `{VteParser} w t tx :
  reports (tracked (terminal (initial_reader w t tx)))
    [CsiDispatch [[27%nat]; [999%nat]] [] false (ch "H");
     CsiDispatch [[6%nat]] [] false (ch "n")]
  = [cursor_report 24 80] ∧ (PTY_COLS < 80)%nat ∧ (24 < PTY_ROWS)%nat.
Proof. split_and!; [reflexivity|unfold PTY_COLS; lia|unfold PTY_ROWS; lia]. Qed.
