(* ===== verification/Sdk.v ===== *)
(** * The policy SDK: [mitb-sdk/src/lib.rs]

    Retry back-off, idle detection, the guest environment, logging, shuffling,
    truncation, regex helpers, child processes, and the session that runs a
    policy.  What the WASI host and the regex crate do is a parameter. *)

From S2P Require Export HostTypes.

(** ** Exponential back-off *)

Record ExponentialBackoff := Backoff {
  initial_interval : Z;
  backoff_current : Z;
  max_interval : Z;
  multiplier : Z;
}.

Definition backoff_new (initial max : Z) : ExponentialBackoff := Backoff initial initial max 2.

Definition with_multiplier (b : ExponentialBackoff) (k : Z) : ExponentialBackoff :=
  Backoff (initial_interval b) (backoff_current b) (max_interval b) (Z.max k 1).

Definition next_backoff (b : ExponentialBackoff) : ExponentialBackoff * Z :=
  let backoff := Z.min (backoff_current b) (max_interval b) in
  let factor := Z.max (multiplier b) 1 in
  let current :=
    Z.min (default (max_interval b) (duration_checked_mul backoff (wrap_u32 factor)))
      (max_interval b) in
  (Backoff (initial_interval b) current (max_interval b) (multiplier b), backoff).

Definition reset (b : ExponentialBackoff) : ExponentialBackoff :=
  Backoff (initial_interval b) (initial_interval b) (max_interval b) (multiplier b).

Definition current_interval (b : ExponentialBackoff) : Z :=
  Z.min (backoff_current b) (max_interval b).

Definition duration_to_nanos_u64 (d : Z) : Z := Z.min d U64_MAX.

(** ** Racing a future against a timeout

    Each poll of the pair gives what the future and the timeout return if they
    are polled; the future is polled first. *)
Inductive TimeoutOutcome (T : Type) : Type :=
| Completed (value : T)
| TimedOut.
Arguments Completed {T} value.
Arguments TimedOut {T}.

Fixpoint with_timeout {T U} (polls : list (option T * option U)) : option (TimeoutOutcome T) :=
  match polls with
  | [] => None
  | (Some value, _) :: _ => Some (Completed value)
  | (None, Some _) :: _ => Some TimedOut
  | (None, None) :: polls => with_timeout polls
  end.

(** ** The guest environment *)

Notation environment := (list (string * string)) (only parsing).

Definition MITB_HOME_DIR_ENV : string := "MITB_HOME_DIR".
Definition MITB_ALIAS_ENV : string := "MITB_ALIAS".

Fixpoint env_value (env : environment) (key : string) : option string :=
  match env with
  | [] => None
  | (candidate, value) :: env =>
    if bool_decide (candidate = key) && negb (str_is_empty value)
    then Some value else env_value env key
  end.

Definition home_dir_from_environment (env : environment) : result string string :=
  match env_value env MITB_HOME_DIR_ENV with
  | Some home => Ok home
  | None =>
    match env_value env "HOME" with
    | Some home => Ok home
    | None =>
      match env_value env "USERPROFILE" with
      | Some user_profile => Ok user_profile
      | None =>
        match env_value env "HOMEDRIVE", env_value env "HOMEPATH" with
        | Some home_drive, Some home_path => Ok (home_drive +:+ home_path)
        | _, _ => Err "could not determine home directory from MITB_HOME_DIR, HOME, USERPROFILE, or HOMEDRIVE/HOMEPATH"
        end
      end
    end
  end.

Definition alias (env : environment) : option string := env_value env MITB_ALIAS_ENV.

(** ** Idle detection *)

Record IdleTracker := Tracker {
  previous_contents : option string;
  startup_grace_until_ns : option Z;
}.

Definition idle_default : IdleTracker := Tracker None None.

Definition detect_idle_at (t : IdleTracker) (contents : string) (now_ns startup_grace_ns : Z)
    : IdleTracker * bool :=
  let idle := match previous_contents t with
              | Some previous => bool_decide (previous = contents)
              | None => false
              end in
  let grace := match startup_grace_until_ns t with
               | None => Some (sat_add_u64 now_ns startup_grace_ns)
               | Some g => Some g
               end in
  let t := Tracker (Some contents) grace in
  if negb idle then (t, false)
  else (t, match grace with Some grace_until_ns => grace_until_ns <=? now_ns | None => true end).

Definition STARTUP_GRACE : Z := duration_to_nanos_u64 (from_secs 5).

Definition detect_idle (t : IdleTracker) (contents : string) (now_ns : Z) : IdleTracker * bool :=
  detect_idle_at t contents now_ns STARTUP_GRACE.

(** ** Log levels *)

Inductive LogLevel : Type := LError | LWarn | LInfo | LDebug | LTrace.

#[export] Instance LogLevel_eq_dec : EqDecision LogLevel.
Proof. solve_decision. Defined.

(** [level as u8] *)
Definition level_u8 (l : LogLevel) : Z :=
  match l with LError => 0 | LWarn => 1 | LInfo => 2 | LDebug => 3 | LTrace => 4 end.

(** The static [MAX_LOG_LEVEL] is the state of the logging functions. *)
Definition initial_max_log_level : Z := level_u8 LInfo.
Definition set_max_log_level (max : Z) (l : LogLevel) : Z := level_u8 l.
Definition log_enabled (max : Z) (l : LogLevel) : bool := level_u8 l <=? max.

Definition level_str (l : LogLevel) : string :=
  match l with
  | LError => "ERROR"
  | LWarn => " WARN"
  | LInfo => " INFO"
  | LDebug => "DEBUG"
  | LTrace => "TRACE"
  end.

Definition EQUALS : byte := chr 61.

Definition parse_log_level (value : string) : option LogLevel :=
  let level_part :=
    match rsplit_once_byte EQUALS (str_bytes value) with
    | Some (_, tail) => bytes_str tail
    | None => value
    end in
  let normalized := to_ascii_lowercase (trim level_part) in
  if decide (normalized = "error") then Some LError
  else if decide (normalized = "warn" ∨ normalized = "warning") then Some LWarn
  else if decide (normalized = "info") then Some LInfo
  else if decide (normalized = "debug") then Some LDebug
  else if decide (normalized = "trace") then Some LTrace
  else None.

(** [init_logging] of [policy!]: only the first [RUST_LOG] counts. *)
Fixpoint init_logging (max : Z) (env : environment) : Z :=
  match env with
  | [] => max
  | (key, value) :: env =>
    if decide (key = "RUST_LOG") then
      match parse_log_level value with
      | Some level => set_max_log_level max level
      | None => max
      end
    else init_logging max env
  end.

(** [_sdk_log]: the bytes it hands to [write_stderr], if any. *)
Definition NEWLINE : string := String LF "".

Definition sdk_log_line (level : LogLevel) (scope message : string) : string :=
  level_str level +:+ " [" +:+ scope +:+ "] " +:+ message +:+ NEWLINE.

Definition sdk_log (max : Z) (level : LogLevel) (scope message : string) : option bytes :=
  if negb (log_enabled max level) then None
  else Some (str_bytes (sdk_log_line level scope message)).

(** The functions and macros [policy!] gives a policy, on the bytes written; a
    macro logs under the policy's own scope and drops the result. *)
Definition log_error (max : Z) : string → string → option bytes := sdk_log max LError.
Definition log_warn (max : Z) : string → string → option bytes := sdk_log max LWarn.
Definition log_info (max : Z) : string → string → option bytes := sdk_log max LInfo.
Definition log_debug (max : Z) : string → string → option bytes := sdk_log max LDebug.
Definition log_trace (max : Z) : string → string → option bytes := sdk_log max LTrace.

Definition policy_log (level : LogLevel) (POLICY_LOG_SCOPE : string) (max : Z) (message : string) : bytes :=
  default [] (sdk_log max level POLICY_LOG_SCOPE message).
Definition policy_log_error := policy_log LError.
Definition policy_log_warn := policy_log LWarn.
Definition policy_log_info := policy_log LInfo.
Definition policy_log_debug := policy_log LDebug.
Definition policy_log_trace := policy_log LTrace.

Definition print_line (message : string) : bytes := str_bytes (message +:+ NEWLINE).

(** ** Shuffling

    [items.swap i j] panics out of range: [None]. *)
Definition swap {T} (items : list T) (i j : nat) : option (list T) :=
  match items !! i, items !! j with
  | Some x, Some y => Some (<[j := x]> (<[i := y]> items))
  | _, _ => None
  end.

Definition LCG_MUL : Z := 6364136223846793005.
Definition LCG_ADD : Z := 1442695040888963407.

Definition lcg_next (state : Z) : Z := wrap_u64 (wrap_u64 (state * LCG_MUL) + LCG_ADD).

(** The loop body for [i], ..., 1. *)
Fixpoint shuffle_loop {T} (i : nat) (state : Z) (items : list T) : option (list T) :=
  match i with
  | O => Some items
  | S i' =>
    let state := lcg_next state in
    let j := Z.to_nat (Z.shiftr state 33 mod Z.of_nat (i + 1)) in
    match swap items i j with
    | Some items => shuffle_loop i' state items
    | None => None
    end
  end.

Definition pseudo_shuffle {T} (items : list T) (seed : Z) : option (list T) :=
  let n := length items in
  if (n <=? 1)%nat then Some items else shuffle_loop (n - 1) seed items.

(** ** Truncation *)

(** [while end > 0 && !text.is_char_boundary(end) { end -= 1; }] *)
Fixpoint boundary_before (text : bytes) (e : nat) : nat :=
  match e with
  | O => O
  | S e' => if is_char_boundary text e then e else boundary_before text e'
  end.

Definition truncate (text : string) (max_len : nat) : string :=
  if (str_len text <=? max_len)%nat then text
  else
    let e := boundary_before (str_bytes text) max_len in
    bytes_str (take e (str_bytes text)) +:+ "...".

(** ** Regex helpers *)

(** The [regex] crate: compiling a pattern, and the captures of each match in
    order (group 0 first; a group that did not take part is [None]). *)
Class RegexCrate : Type := {
  regex : Type;
  regex_new : string → result string regex;
  captures_iter : regex → string → list (list (option string));
}.

Section Regex.
Context `{RegexCrate}.

Definition compile (pattern : string) : result string regex :=
  map_err (fun error => "invalid regex pattern `" +:+ pattern +:+ "`: " +:+ error)
    (regex_new pattern).

Definition regex_captures (text pattern : string) (capture_index : nat)
    : result string (list string) :=
  re ← compile pattern;
  Ok (omap (fun captures => mjoin (captures !! capture_index)) (captures_iter re text)).

Fixpoint first_capture (l : list (list (option string))) (capture_index : nat) : option string :=
  match l with
  | [] => None
  | captures :: l =>
    match captures !! capture_index with
    | Some (Some matched) => Some matched
    | _ => first_capture l capture_index
    end
  end.

Definition regex_capture_first (text pattern : string) (capture_index : nat)
    : result string (option string) :=
  re ← compile pattern;
  Ok (first_capture (captures_iter re text) capture_index).

Definition regex_capture (text pattern : string) (capture_index : nat)
    : result string (option string) :=
  l ← regex_captures text pattern capture_index;
  Ok (last l).

(** The macros of [policy!]: the first group if none is given. *)
Definition policy_regex_capture (text pattern : string) (capture_index : option nat) : result string (option string) :=
  regex_capture text pattern (default 1%nat capture_index).
Definition policy_regex_capture_first (text pattern : string) (capture_index : option nat) : result string (option string) :=
  regex_capture_first text pattern (default 1%nat capture_index).
Definition policy_regex_captures (text pattern : string) (capture_index : option nat) : result string (list string) :=
  regex_captures text pattern (default 1%nat capture_index).

End Regex.

(** ** Child processes

    What the host's process interface answers for one spawned child: its two
    streams with their completion futures, and [wait_timeout] as a function of
    the time it is given.  [spawn_error_string] is the generated [Display] of
    the host's spawn error. *)
Record guest_child := GuestChild {
  child_stdout : bytes;
  child_stdout_done : result string unit;
  child_stderr : bytes;
  child_stderr_done : result string unit;
  child_wait_timeout : Z → result string (option exit_status);
}.

Definition DEFAULT_PROCESS_TIMEOUT : Z := from_secs (5 * 60).
Definition DEFAULT_TERMINAL_MAX_BYTES : Z := 512 * 1024.

Section Process.
Context (spawn : string → list string → result spawn_error guest_child).
Context (spawn_error_string : spawn_error → string).

Definition status_text (status : exit_status) : string :=
  match status_code status with
  | Some code => pretty code
  | None => "terminated by signal"
  end.

(** [wait_fut]: the answer, and whether the child was killed. *)
Definition wait_fut (child : guest_child) (timeout : Z)
    : bool * result string (option exit_status) :=
  match child_wait_timeout child (duration_to_nanos_u64 timeout) with
  | Err e => (false, Err e)
  | Ok (Some r) => (false, Ok (Some r))
  | Ok None => (true, Ok None)
  end.

Definition process_outcome (name : string) (child : guest_child)
    (wait_result : result string (option exit_status)) : result string (TimeoutOutcome bytes) :=
  wait_result ← wait_result;
  match wait_result with
  | None => Ok TimedOut
  | Some wait_result =>
    _ ← child_stdout_done child;
    _ ← child_stderr_done child;
    if negb (success wait_result) then
      Err ("process `" +:+ name +:+ "` exited with status " +:+ status_text wait_result
           +:+ ": " +:+ from_utf8_lossy (child_stderr child))
    else Ok (Completed (child_stdout child))
  end.

(** Whether the child was killed, and the result. *)
Definition run_process_with_timeout (name : string) (args : list string) (timeout : Z)
    : bool * result string (TimeoutOutcome bytes) :=
  match map_err spawn_error_string (spawn name args) with
  | Err e => (false, Err e)
  | Ok child =>
    let '(killed, wait_result) := wait_fut child timeout in
    (killed, process_outcome name child wait_result)
  end.

Definition run_process (name : string) (args : list string) : bool * result string bytes :=
  let '(killed, r) := run_process_with_timeout name args DEFAULT_PROCESS_TIMEOUT in
  (killed,
   outcome ← r;
   match outcome with
   | Completed stdout => Ok stdout
   | TimedOut => Err ("process `" +:+ name +:+ "` timed out after "
                      +:+ pretty (DEFAULT_PROCESS_TIMEOUT / NANOS_PER_SEC) +:+ " seconds")
   end).

End Process.

(** ** Terminal access and standard streams *)

Definition terminal_snapshot_text (snapshot : result string bytes) : result string string :=
  bytes ← snapshot; Ok (from_utf8_lossy bytes).

Definition terminal_read_since_text (read : result string (Z * bytes))
    : result string (Z * string) :=
  '(next_cursor, bytes) ← read; Ok (next_cursor, from_utf8_lossy bytes).

(** [write_stdout] and [write_stderr]: the host's answer for the stream and the
    bytes the writer was left with. *)
Definition write_stream (stream_result : result unit unit) (remaining : bytes)
    : result unit unit :=
  if negb (is_ok stream_result) || negb (bool_decide (remaining = [])) then Err () else Ok ().

(** ** Policy sessions: [policy_guest!]

    [act] is the policy: its state, what it is shown, its new state and what
    it answers. *)
Definition prompt (message : string) : result string action :=
  Ok (Perturb [Text message; Key Enter]).

Section Session.
Context {T : Type} (act : T → string → T * result string action).

Record PolicySessionState := Session { idle : IdleTracker; policy : T }.

Definition session_new (policy : T) : PolicySessionState := Session idle_default policy.

(** [snapshot] is the host's answer and [now_ns] the monotonic clock. *)
Definition poll (s : PolicySessionState) (snapshot : result string bytes) (now_ns : Z)
    : PolicySessionState * result string action :=
  match terminal_snapshot_text snapshot with
  | Err e => (s, Err e)
  | Ok contents =>
    let '(tracker, is_idle) := detect_idle (idle s) contents now_ns in
    if negb is_idle then (Session tracker (policy s), Ok Wait)
    else
      let '(p, r) := act (policy s) contents in
      (Session tracker p, r)
  end.

(** A session polled over and over. *)
Fixpoint poll_all (s : PolicySessionState) (polls : list (result string bytes * Z))
    : PolicySessionState * list (result string action) :=
  match polls with
  | [] => (s, [])
  | (snapshot, now_ns) :: polls =>
    let '(s, r) := poll s snapshot now_ns in
    let '(s, rs) := poll_all s polls in
    (s, r :: rs)
  end.

End Session.
Arguments Session {T}.
Arguments idle {T}.
Arguments policy {T}.

(** ** Back-off: closed form *)

(** The intervals [n] successive calls of [next_backoff] return. *)
Fixpoint backoffs (n : nat) (b : ExponentialBackoff) : list Z :=
  match n with
  | O => []
  | S n => let '(b, d) := next_backoff b in d :: backoffs n b
  end.

Lemma min_absorb a m p : 0 ≤ a → 0 ≤ m → 1 ≤ p → Z.min (Z.min a m * p) m = Z.min (a * p) m.
Proof. intros. destruct (Z.le_ge_cases a m); [by rewrite (Z.min_l a m)|]. rewrite (Z.min_r a m) by lia. nia. Qed.

Lemma backoff_step c k m :
  0 ≤ c → 0 ≤ m → 1 ≤ k → m ≤ DURATION_MAX →
  Z.min (default m (duration_checked_mul (Z.min c m) k)) m = Z.min (c * k) m.
Proof.
  intros. unfold duration_checked_mul. destruct (Z.leb_spec (Z.min c m * k) DURATION_MAX); cbn.
  - by apply min_absorb.
  - rewrite <- (min_absorb c m k) by lia. nia.
Qed.

Lemma backoffs_from n b :
  0 ≤ backoff_current b → 0 ≤ max_interval b ≤ DURATION_MAX →
  1 ≤ multiplier b ≤ U32_MAX →
  backoffs n b =
  (fun i => Z.min (backoff_current b * multiplier b ^ Z.of_nat i) (max_interval b)) <$> seq 0 n.
Proof.
  revert b. induction n as [|n IH]; intros b Hc Hm Hk; [done|].
  cbn [backoffs next_backoff seq fmap list_fmap].
  f_equal; [rewrite Z.pow_0_r; lia|].
  assert (wrap_u32 (Z.max (multiplier b) 1) = multiplier b) as ->.
  { unfold wrap_u32, U32_MAX in *. rewrite Z.max_l, Z.mod_small; lia. }
  rewrite backoff_step by lia.
  rewrite IH; cbn [backoff_current max_interval multiplier]; [|nia|lia|lia].
  rewrite <- fmap_S_seq, <- list_fmap_compose. apply list_fmap_ext. intros i j _. cbn.
  assert (1 ≤ multiplier b ^ Z.of_nat j) by (apply Z.lt_pred_le, Z.pow_pos_nonneg; lia).
  rewrite min_absorb by nia. f_equal.
  replace (Z.of_nat (S j)) with (Z.of_nat j + 1) by lia.
  rewrite Z.pow_add_r, Z.pow_1_r by lia. ring.
Qed.

(** A fresh back-off with multiplier [k] waits
    [min (initial * k^n) max] the [n]-th time it is asked, for every [n]:
    the checked multiplication that falls back to the maximum on overflow
    never yields anything else, and the sequence restarts after [reset]. *)
Theorem backoff_sequence (initial max k : Z) (n m : nat)
    (Hi : 0 ≤ initial ≤ DURATION_MAX) (Hm : 0 ≤ max ≤ DURATION_MAX) (Hk : 0 ≤ k ≤ U32_MAX) :
  let b := with_multiplier (backoff_new initial max) k in
  let nth i := Z.min (initial * Z.max k 1 ^ Z.of_nat i) max in
  backoffs n b = nth <$> seq 0 n ∧
  backoffs m (reset (Nat.iter n (fun b => fst (next_backoff b)) b)) = nth <$> seq 0 m.
Proof.
  intros b nth. assert (Hreset : ∀ n b', initial_interval b' = initial → max_interval b' = max →
    multiplier b' = Z.max k 1 →
    let b'' := reset (Nat.iter n (fun b => fst (next_backoff b)) b') in
    backoff_current b'' = initial ∧ max_interval b'' = max ∧ multiplier b'' = Z.max k 1).
  { intros i b' ? ? ?. assert (∀ i, let c := Nat.iter i (fun b => fst (next_backoff b)) b' in
      initial_interval c = initial ∧ max_interval c = max ∧ multiplier c = Z.max k 1) as Hit.
    { induction i0 as [|j IH]; cbn; [done|]. destruct IH as (? & ? & ?). by cbn. }
    destruct (Hit i) as (? & ? & ?). by cbn. }
  split.
  - unfold b. rewrite backoffs_from; cbn; [done|lia|lia|unfold U32_MAX in *; lia].
  - destruct (Hreset n b eq_refl eq_refl eq_refl) as (E1 & E2 & E3).
    rewrite backoffs_from; rewrite ?E1, ?E2, ?E3; [done|lia|lia|unfold U32_MAX in *; lia].
Qed.

Lemma backoff_sequence_witness :
  backoffs 8 (with_multiplier (backoff_new (from_millis 10) (from_secs 1)) 2)
  = [from_millis 10; from_millis 20; from_millis 40; from_millis 80; from_millis 160;
     from_millis 320; from_millis 640; from_secs 1].
Proof.
  rewrite (proj1 (backoff_sequence (from_millis 10) (from_secs 1) 2 8 0
    ltac:(vm_compute; intuition discriminate) ltac:(vm_compute; intuition discriminate)
    ltac:(vm_compute; intuition discriminate))).
  reflexivity.
Defined.

(** ** Shuffling *)

Lemma swap_Some {T} (l : list T) i j :
  (i < length l)%nat → (j < length l)%nat → ∃ l', swap l i j = Some l' ∧ l' ≡ₚ l ∧ length l' = length l.
Proof.
  intros [x Hx]%lookup_lt_is_Some [y Hy]%lookup_lt_is_Some. unfold swap. rewrite Hx, Hy.
  eexists. split; [done|]. split; [|by rewrite !length_insert].
  assert (length l = length (<[j:=x]> (<[i:=y]> l))) as Hl by by rewrite !length_insert.
  destruct (decide (i = j)) as [->|Hij].
  - rewrite list_insert_insert_eq. rewrite Hx in Hy. simplify_eq. by rewrite list_insert_id.
  - apply Permutation_inj. split; [done|].
    exists (fun k => if decide (k = i) then j else if decide (k = j) then i else k).
    split.
    + intros a b. repeat case_decide; naive_solver.
    + intros k. repeat case_decide; subst.
      * rewrite list_lookup_insert_ne by done.
        rewrite list_lookup_insert_eq; [done|]. by eapply lookup_lt_Some.
      * rewrite list_lookup_insert_eq; [done|]. rewrite length_insert. by eapply lookup_lt_Some.
      * by rewrite !list_lookup_insert_ne.
Qed.

(** [pseudo_shuffle] never indexes out of range, whatever the seed, and
    what it leaves is a permutation of the items. *)
Theorem pseudo_shuffle_permutes {T} (items : list T) (seed : Z) :
  ∃ items', pseudo_shuffle items seed = Some items' ∧ items' ≡ₚ items.
Proof.
  assert (∀ i state (l : list T), (i < length l)%nat →
    ∃ l', shuffle_loop i state l = Some l' ∧ l' ≡ₚ l) as Hloop.
  { induction i as [|i IH]; intros state l Hl; cbn; [by eauto|].
    set (j := Z.to_nat _). assert (j < length l)%nat.
    { subst j. pose proof (Z.mod_pos_bound (Z.shiftr (lcg_next state) 33) (Z.of_nat (S i + 1))).
      cbn [Nat.add] in *. lia. }
    destruct (swap_Some l (S i) j) as (l1 & E & Hp & Hn); [lia..|]. cbn in E. rewrite E.
    destruct (IH (lcg_next state) l1) as (l2 & -> & Hp2); [lia|].
    exists l2. split; [done|]. by rewrite Hp2. }
  unfold pseudo_shuffle. destruct (_ <=? 1)%nat eqn:E; zb; [by eauto|].
  destruct (Hloop (length items - 1)%nat seed items) as (l' & ? & ?); [lia|]. eauto.
Qed.

(** ** Truncation *)

Lemma boundary_before_spec t e :
  (boundary_before t e ≤ e)%nat ∧ is_char_boundary t (boundary_before t e) = true ∧
  ∀ i, (boundary_before t e < i ≤ e)%nat → is_char_boundary t i = false.
Proof.
  induction e as [|e IH]; cbn; [split_and!; [done|done|lia]|].
  destruct (is_char_boundary t (S e)) eqn:E; [split_and!; [done|done|lia]|].
  destruct IH as (? & ? & IH). split_and!; [lia|done|].
  intros i Hi. destruct (decide (i = S e)) as [->|]; [done|]. apply IH. lia.
Qed.

(** Cutting well-formed text at a character boundary leaves well-formed text. *)
Lemma utf8_take l i : utf8 l → is_char_boundary l i = true → utf8 (take i l).
Proof.
  intros Hl. revert i. induction Hl as [|c l Hc Hl IH]; intros i Hi; [destruct i; constructor|].
  destruct (decide (i < length c)%nat).
  - destruct (decide (i = 0)%nat) as [->|Hi0]; [constructor|].
    destruct (utf8_step_inl _ _ Hc) as (_ & _ & Hb).
    exfalso. specialize (Hb i ltac:(lia)). unfold is_char_boundary in *.
    destruct (i =? 0)%nat eqn:E; zb; [lia|]. rewrite lookup_app_l in Hi by lia.
    destruct (c !! i) eqn:Ec; [congruence|]. apply lookup_ge_None in Ec. lia.
  - rewrite take_app_ge by lia. constructor; [done|]. apply IH.
    unfold is_char_boundary in *. destruct (i - length c =? 0)%nat eqn:E; [done|]; zb.
    destruct (i =? 0)%nat eqn:E0; zb; [lia|].
    rewrite lookup_app_r in Hi by lia. destruct (l !! (i - length c)%nat); [done|].
    rewrite length_app in Hi. zb. apply Nat.eqb_eq. lia.
Qed.

(** [truncate] keeps at most [max_len] bytes of the text, the longest such
    prefix that ends at a character boundary, followed by an ellipsis; a text
    that fits is left alone; and of well-formed UTF-8 it makes well-formed
    UTF-8, so the slice it takes never splits a character. *)
Theorem truncate_spec (text : string) (max_len : nat) :
  (truncate text max_len = text ∧ (str_len text ≤ max_len)%nat ∨
   ∃ e, truncate text max_len = bytes_str (take e (str_bytes text)) +:+ "..." ∧
     (e ≤ max_len < str_len text)%nat ∧ is_char_boundary (str_bytes text) e = true ∧
     ∀ i, (e < i ≤ max_len)%nat → is_char_boundary (str_bytes text) i = false) ∧
  (utf8 (str_bytes text) → utf8 (str_bytes (truncate text max_len))).
Proof.
  unfold truncate. destruct (_ <=? max_len)%nat eqn:E; zb; [by auto|].
  destruct (boundary_before_spec (str_bytes text) max_len) as (? & ? & ?).
  split; [right; eexists; split_and!; [done|done|lia|done|done]|].
  intros Hu. rewrite str_bytes_app, str_bytes_str.
  apply utf8_app; [by apply utf8_take|]. cbn.
  repeat (apply utf8_ascii; [by vm_compute|]). constructor.
Qed.

Example truncate_splits_no_character :
  truncate (bytes_str [chr 104; chr 195; chr 169; chr 108]) 2 = "h...".
Proof. reflexivity. Qed.

(** ** Log levels *)

Lemma rsplit_once_byte_last (c : byte) p t :
  Forall (fun b => b ≠ c) t → rsplit_once_byte c (p ++ c :: t) = Some (p, t).
Proof.
  intros Ht. unfold rsplit_once_byte.
  assert (rposition (fun b => bool_decide (b = c)) t = None) as Hn.
  { induction Ht as [|b t Hb Ht IH]; cbn; [done|]. by rewrite IH, bool_decide_eq_false_2. }
  assert (rposition (fun b => bool_decide (b = c)) (p ++ c :: t) = Some (length p)) as ->.
  { induction p as [|b p IH]; cbn; [by rewrite Hn, bool_decide_eq_true_2|by rewrite IH]. }
  cbn. rewrite take_app_length, <- Nat.add_1_r, <- drop_drop, drop_app_length. done.
Qed.

(** A level written as the SDK prints it, alone or as the level of any
    target ([target=level]), parses back to itself, in either case of its
    letters. *)
Theorem parse_log_level_roundtrip (target : string) (l : LogLevel) :
  parse_log_level (level_str l) = Some l ∧
  parse_log_level (target +:+ "=" +:+ level_str l) = Some l ∧
  parse_log_level (target +:+ "=" +:+ to_ascii_lowercase (level_str l)) = Some l.
Proof.
  assert (∀ s, Forall (fun b => b ≠ EQUALS) (str_bytes s) →
    parse_log_level (target +:+ "=" +:+ s) = parse_log_level ("=" +:+ s)) as Hp.
  { intros s Hs. unfold parse_log_level. rewrite str_bytes_app.
    change (str_bytes ("=" +:+ s)) with (EQUALS :: str_bytes s).
    rewrite rsplit_once_byte_last by done.
    pose proof (rsplit_once_byte_last EQUALS [] _ Hs) as E. cbn [app] in E. by rewrite E. }
  split; [by destruct l|]. split; rewrite Hp; [by destruct l| |by destruct l|];
    destruct l; repeat constructor; vm_compute; intuition discriminate.
Qed.

(** ** Sessions: the tracker against the history of the polls *)

Section SessionSpec.
Context {T : Type} (act : T → string → T * result string action).

(** The abstract session keeps the whole history of what it was shown, and
    when; the tracker only has its last text and one deadline. *)
Notation history := (list (string * Z)).

Definition settled (seen : history) (contents : string) (now_ns : Z) : bool :=
  match last seen, head seen with
  | Some (previous, _), Some (_, first_ns) =>
    bool_decide (previous = contents) && (sat_add_u64 first_ns STARTUP_GRACE <=? now_ns)
  | _, _ => false
  end.

Fixpoint session_spec (p : T) (seen : history) (polls : list (result string bytes * Z))
    : list (result string action) :=
  match polls with
  | [] => []
  | (snapshot, now_ns) :: polls =>
    match terminal_snapshot_text snapshot with
    | Err e => Err e :: session_spec p seen polls
    | Ok contents =>
      if settled seen contents now_ns then
        let '(p, r) := act p contents in
        r :: session_spec p (seen ++ [(contents, now_ns)]) polls
      else Ok Wait :: session_spec p (seen ++ [(contents, now_ns)]) polls
    end
  end.

Definition tracker_of (seen : history) : IdleTracker :=
  Tracker (fst <$> last seen) ((fun x => sat_add_u64 (snd x) STARTUP_GRACE) <$> head seen).

Lemma detect_idle_tracker seen contents now_ns :
  detect_idle (tracker_of seen) contents now_ns =
  (tracker_of (seen ++ [(contents, now_ns)]), settled seen contents now_ns).
Proof.
  destruct seen as [|[c t] seen _] using rev_ind; [done|].
  unfold detect_idle, detect_idle_at, settled, tracker_of.
  assert (head ((seen ++ [(c, t)]) ++ [(contents, now_ns)]) = head (seen ++ [(c, t)])) as ->
    by by destruct seen.
  rewrite !last_snoc. destruct (head (seen ++ [(c, t)])) as [[c0 t0]|] eqn:E; [|by destruct seen].
  cbn. by case_bool_decide.
Qed.

(** One poll, of the session and of the history. *)
Lemma poll_history (p : T) seen snapshot now_ns :
  ∃ p' seen' a, poll act (Session (tracker_of seen) p) snapshot now_ns = (Session (tracker_of seen') p', a) ∧
    ∀ polls, session_spec p seen ((snapshot, now_ns) :: polls) = a :: session_spec p' seen' polls.
Proof.
  unfold poll. cbn [session_spec idle policy].
  destruct (terminal_snapshot_text snapshot) as [contents|e]; cbn; [|by exists p, seen, (Err e)].
  rewrite detect_idle_tracker. destruct (settled seen contents now_ns); cbn.
  - destruct (act p contents) as [p' r]. by exists p', (seen ++ [(contents, now_ns)]), r.
  - by exists p, (seen ++ [(contents, now_ns)]), (Ok Wait).
Qed.

(** A policy session hands the terminal to its policy exactly when the
    snapshot is the one the previous successful poll saw and the start-up grace
    period, counted from the first successful poll, is over; otherwise it
    answers [Wait]; and a failed snapshot changes nothing.  The incremental
    tracker implements this specification over the whole history, for every
    sequence of polls. *)
Theorem session_refines_history (p : T) (polls : list (result string bytes * Z)) :
  snd (poll_all act (session_new p) polls) = session_spec p [] polls.
Proof.
  change (session_new p) with (Session (tracker_of []) p). generalize (@nil (string * Z)).
  revert p. induction polls as [|[snapshot now_ns] polls IH]; intros p seen; cbn [poll_all]; [done|].
  destruct (poll_history p seen snapshot now_ns) as (p' & seen' & a & -> & ->). specialize (IH p' seen').
  destruct (poll_all _ _ _). cbn in *. by f_equal.
Qed.

End SessionSpec.

(** ** Child processes *)

(** [run_process_with_timeout] returns [Completed stdout] exactly when the
    child could be spawned, exited successfully within the timeout and both of
    its streams finished without an error; and the child is killed exactly when
    the wait timed out, in which case the outcome is [TimedOut] whatever the
    streams did. *)
Theorem run_process_outcome spawn err_str (name : string) (args : list string) (timeout : Z) :
  let r := run_process_with_timeout spawn err_str name args timeout in
  (∀ stdout, snd r = Ok (Completed stdout) ↔
    ∃ child code, spawn name args = Ok child ∧ stdout = child_stdout child ∧
      child_wait_timeout child (duration_to_nanos_u64 timeout) = Ok (Some (ExitStatus true code)) ∧
      child_stdout_done child = Ok () ∧ child_stderr_done child = Ok ()) ∧
  (fst r = true ↔ snd r = Ok TimedOut) ∧
  (snd r = Ok TimedOut ↔ ∃ child, spawn name args = Ok child ∧
    child_wait_timeout child (duration_to_nanos_u64 timeout) = Ok None).
Proof.
  unfold run_process_with_timeout, wait_fut, process_outcome.
  destruct (spawn name args) as [[out od err ed w]|e]; cbn; [|naive_solver].
  destruct (w _) as [[[ok code]|]|e] eqn:Ew; cbn;
    [destruct od as [[]|], ed as [[]|], ok|..]; cbn; (split_and!; [intros stdout| |]); split; intros H;
    repeat match goal with H : ∃ _, _ |- _ => destruct H | H : _ ∧ _ |- _ => destruct H end;
    simplify_eq; cbn in *; try congruence; repeat eexists; eauto.
Qed.

(** ** The home directory *)

(** The home directory is the first of [MITB_HOME_DIR], [HOME],
    [USERPROFILE] and the concatenation of [HOMEDRIVE] and [HOMEPATH] that the
    environment sets to something non-empty, an error when there is none, and
    is itself never empty. *)
Theorem home_dir_is_first_set (env : list (string * string)) :
  match home_dir_from_environment env with
  | Ok home =>
    home ≠ "" ∧
    ((∃ key rest, [MITB_HOME_DIR_ENV; "HOME"; "USERPROFILE"] = rest ++ key :: drop (S (length rest))
        [MITB_HOME_DIR_ENV; "HOME"; "USERPROFILE"] ∧
      env_value env key = Some home ∧ Forall (fun k => env_value env k = None) rest) ∨
     (∃ drive path, home = drive +:+ path ∧
      env_value env "HOMEDRIVE" = Some drive ∧ env_value env "HOMEPATH" = Some path ∧
      Forall (fun k => env_value env k = None) [MITB_HOME_DIR_ENV; "HOME"; "USERPROFILE"]))
  | Err _ =>
    Forall (fun k => env_value env k = None) [MITB_HOME_DIR_ENV; "HOME"; "USERPROFILE"] ∧
    (env_value env "HOMEDRIVE" = None ∨ env_value env "HOMEPATH" = None)
  end.
Proof.
  assert (∀ k v, env_value env k = Some v → v ≠ "") as Hne.
  { intros k v. induction env as [|[c w] env' IH]; cbn; [done|].
    destruct (bool_decide (c = k) && negb (str_is_empty w)) eqn:E; [|done].
    intros [= <-]. zb. intros ->. by cbn in *. }
  unfold home_dir_from_environment.
  destruct (env_value env MITB_HOME_DIR_ENV) eqn:E1.
  { split; [by eapply Hne|]. left. exists MITB_HOME_DIR_ENV, []. by repeat constructor. }
  destruct (env_value env "HOME") eqn:E2.
  { split; [by eapply Hne|]. left. exists "HOME", [MITB_HOME_DIR_ENV]. by repeat constructor. }
  destruct (env_value env "USERPROFILE") eqn:E3.
  { split; [by eapply Hne|]. left. exists "USERPROFILE", [MITB_HOME_DIR_ENV; "HOME"]. by repeat constructor. }
  destruct (env_value env "HOMEDRIVE") as [d|] eqn:E4, (env_value env "HOMEPATH") eqn:E5;
    [|by split; [repeat constructor|auto]..].
  split; [|right; eexists _, _; by repeat constructor].
  apply Hne in E4. destruct d; done.
Qed.
