(* ===== verification/PolicyLog.v ===== *)
(** * Policy logging: [mitb-host/src/policy_log.rs]

    What a policy writes to its standard streams becomes log records of the
    host, one per line.  The records the [tracing] macros receive are the
    output of the model. *)

From S2P Require Export HostTypes Sdk.

Record PolicyLogState := LogState { stream : string; pending : bytes }.

Inductive PolicyLogLevel : Type := PError | PWarn | PInfo | PDebug | PTrace.

(** One call of [error!], [warn!], [info!], [debug!] or [trace!]. *)
Record log_record := LogRecord {
  record_level : PolicyLogLevel;
  record_stream : string;
  record_message : string;
}.

Definition log_new (stream : string) : PolicyLogState := LogState stream [].

Definition PREFIXES : list (string * PolicyLogLevel) :=
  [("ERROR ", PError); (" WARN ", PWarn); (" INFO ", PInfo); ("DEBUG ", PDebug); ("TRACE ", PTrace)].

(** [find_map] over the prefixes. *)
Fixpoint find_prefix (prefixes : list (string * PolicyLogLevel)) (line : string)
    : option (PolicyLogLevel * string) :=
  match prefixes with
  | [] => None
  | (prefix, level) :: prefixes =>
    match strip_prefix line prefix with
    | Some message => Some (level, message)
    | None => find_prefix prefixes line
    end
  end.

Definition parse_policy_log_line (line : string) : option (PolicyLogLevel * string) :=
  find_prefix PREFIXES line.

Definition emit_policy_log (stream line : string) : log_record :=
  match parse_policy_log_line line with
  | Some (level, message) => LogRecord level stream message
  | None =>
    if decide (stream = "stderr") then LogRecord PWarn stream line
    else LogRecord PInfo stream line
  end.

(** [if line.last() == Some(&b) { line.pop(); }] *)
Definition pop_if (b : byte) (line : bytes) : bytes :=
  match rev line with
  | c :: r => if decide (c = b) then rev r else line
  | [] => line
  end.

(** One round of [flush_complete_lines]: the line has its newline still. *)
Definition flush_line (stream : string) (line : bytes) : list log_record :=
  let line := pop_if CR (pop_if LF line) in
  let trimmed := trim_end (from_utf8_lossy line) in
  if negb (str_is_empty trimmed) then [emit_policy_log stream trimmed] else [].

(** Each round drains a newline, so the length of the pending bytes is enough
    fuel. *)
Fixpoint flush_loop (fuel : nat) (state : PolicyLogState) : PolicyLogState * list log_record :=
  match fuel with
  | O => (state, [])
  | S fuel =>
    match position (fun byte => bool_decide (byte = LF)) (pending state) with
    | None => (state, [])
    | Some index =>
      let line := take (S index) (pending state) in
      let '(state', records) :=
        flush_loop fuel (LogState (stream state) (drop (S index) (pending state))) in
      (state', flush_line (stream state) line ++ records)
    end
  end.

Definition flush_complete_lines (state : PolicyLogState) : PolicyLogState * list log_record :=
  flush_loop (length (pending state)) state.

Definition write_bytes (state : PolicyLogState) (bytes : list ascii)
    : PolicyLogState * list log_record :=
  if bool_decide (bytes = []) then (state, [])
  else flush_complete_lines (LogState (stream state) (pending state ++ bytes)).

Definition flush_pending (state : PolicyLogState) : PolicyLogState * list log_record :=
  if bool_decide (pending state = []) then (state, [])
  else
    let line := trim_end (from_utf8_lossy (pending state)) in
    (LogState (stream state) [],
     if negb (str_is_empty line) then [emit_policy_log (stream state) line] else []).

(** [poll_write_vectored]: the records, and the byte count it reports. *)
Fixpoint poll_write_vectored (state : PolicyLogState) (bufs : list bytes)
    : PolicyLogState * list log_record * nat :=
  match bufs with
  | [] => (state, [], 0%nat)
  | buf :: bufs =>
    let '(state, records) := write_bytes state buf in
    let '(state, rest, written) := poll_write_vectored state bufs in
    (state, records ++ rest, (length buf + written)%nat)
  end.

Definition poll_write (state : PolicyLogState) (buf : bytes)
    : PolicyLogState * list log_record * nat :=
  let '(state, records) := write_bytes state buf in (state, records, length buf).

(** [poll_shutdown]. *)
Definition poll_shutdown (state : PolicyLogState) : PolicyLogState * list log_record :=
  flush_pending state.

(** [PolicyStdoutStream]: the writer as an output stream of the second WASI
    preview, which may always be given a mebibyte. *)
Definition p2_write (state : PolicyLogState) (bytes : list ascii) : PolicyLogState * list log_record := write_bytes state bytes.
Definition p2_flush (state : PolicyLogState) : PolicyLogState * list log_record := flush_pending state.
Definition p2_check_write : Z := 1024 * 1024.
Definition is_write_vectored : bool := true.
Definition is_terminal : bool := false.

(** ** Lines of the stream *)

Lemma split_lf_nonempty l : split_lf l ≠ [].
Proof. destruct l; cbn; [done|]. destruct (split_lf l); [done|]. by case_decide. Qed.

(** The complete lines of a stream and what follows the last newline. *)
Definition complete (s : bytes) : list bytes := removelast (split_lf s).
Definition partial (s : bytes) : bytes := List.last (split_lf s) [].

Lemma split_lf_app_LF a s : Forall (fun b => b ≠ LF) a → split_lf (a ++ LF :: s) = a :: split_lf s.
Proof.
  induction 1 as [|b a Hb Ha IH]; cbn [app split_lf].
  - pose proof (split_lf_nonempty s). by destruct (split_lf s).
  - rewrite IH. by rewrite decide_False.
Qed.

Lemma split_lf_no_LF a : Forall (fun b => b ≠ LF) a → split_lf a = [a].
Proof. induction 1 as [|b a Hb Ha IH]; cbn [split_lf]; [done|]. rewrite IH. by rewrite decide_False. Qed.

Lemma split_lf_app a s :
  split_lf (a ++ s) = complete a ++ split_lf (partial a ++ s).
Proof.
  unfold complete, partial. induction a as [|b a IH]; [done|]. cbn [app split_lf]. rewrite IH.
  pose proof (split_lf_nonempty a). destruct (split_lf a) as [|h t]; [done|].
  destruct (decide (b = LF)) as [->|Hb].
  - cbn [removelast List.last]. destruct t as [|h' t]; cbn [app].
    + pose proof (split_lf_nonempty (h ++ s)). by destruct (split_lf (h ++ s)).
    + done.
  - destruct t as [|h' t]; cbn [removelast List.last app split_lf].
    + destruct (split_lf (h ++ s)); by rewrite ?decide_False.
    + done.
Qed.

(** What one complete line is logged as. *)
Definition log_line (stream : string) (line : bytes) : list log_record :=
  let trimmed := trim_end (from_utf8_lossy (strip_cr line)) in
  if negb (str_is_empty trimmed) then [emit_policy_log stream trimmed] else [].

Lemma flush_line_LF s a : flush_line s (a ++ [LF]) = log_line s a.
Proof.
  unfold flush_line, log_line. replace (pop_if LF (a ++ [LF])) with a; [done|].
  unfold pop_if. rewrite rev_app_distr. cbn. by rewrite rev_involutive.
Qed.

Lemma flush_loop_spec fuel s l :
  (length l ≤ fuel)%nat →
  flush_loop fuel (LogState s l) = (LogState s (partial l), complete l ≫= log_line s).
Proof.
  revert l. induction fuel as [|fuel IH]; intros l Hl; cbn.
  - by destruct l; [|cbn in Hl; lia].
  - destruct (position _ l) as [i|] eqn:E.
    + apply position_Some in E as (b & Hb & E & Hi). zb. subst b.
      pose proof (lookup_lt_Some _ _ _ Hb). rewrite IH by (rewrite length_drop; lia).
      assert (Forall (fun b => b ≠ LF) (take i l)).
      { eapply Forall_impl; [exact Hi|]. intros c Hc. cbn in Hc. by zb. }
      assert (l = take i l ++ LF :: drop (S i) l) as El by by rewrite take_drop_middle.
      rewrite (take_S_r _ _ _ Hb), flush_line_LF. unfold partial, complete.
      assert (split_lf l = take i l :: split_lf (drop (S i) l)) as ->
        by (rewrite El at 1; by apply split_lf_app_LF).
      pose proof (split_lf_nonempty (drop (S i) l)). by destruct (split_lf (drop (S i) l)).
    + apply position_None in E. unfold partial, complete. rewrite split_lf_no_LF; [done|].
      eapply Forall_impl; [exact E|]. intros c Hc. cbn in Hc. by zb.
Qed.

Notation no_LF := (Forall (fun b : byte => b ≠ LF)).

Lemma split_lf_pieces s : Forall no_LF (split_lf s).
Proof.
  induction s as [|b s IH]; cbn [split_lf]; [by repeat constructor|].
  pose proof (split_lf_nonempty s). destruct (split_lf s) as [|h t]; [done|].
  apply Forall_cons in IH as [Hh Ht].
  case_decide; repeat (constructor || done).
Qed.

Lemma partial_no_LF s : no_LF (partial s).
Proof.
  unfold partial. pose proof (split_lf_pieces s) as Hs. pose proof (split_lf_nonempty s).
  destruct (split_lf s) as [|x l _] using rev_ind; [done|].
  rewrite List.last_last. apply Forall_app in Hs as [_ Hs]. by inversion Hs.
Qed.

Lemma no_LF_partial l : no_LF l → partial l = l ∧ complete l = [].
Proof. intros H. unfold partial, complete. by rewrite split_lf_no_LF. Qed.

Lemma partial_app a s : partial (a ++ s) = partial (partial a ++ s).
Proof.
  unfold partial at 1. rewrite split_lf_app. unfold partial at 2.
  pose proof (split_lf_nonempty (partial a ++ s)).
  by destruct (split_lf (partial a ++ s)) as [|x l _] using rev_ind; rewrite ?app_assoc, ?List.last_last.
Qed.

Lemma complete_app a s : complete (a ++ s) = complete a ++ complete (partial a ++ s).
Proof.
  unfold complete at 1 3. rewrite split_lf_app. by rewrite removelast_app by apply split_lf_nonempty.
Qed.

Lemma write_bytes_spec s l b :
  no_LF l →
  write_bytes (LogState s l) b = (LogState s (partial (l ++ b)), complete (l ++ b) ≫= log_line s).
Proof.
  intros Hl. unfold write_bytes. case_bool_decide; subst.
  - rewrite app_nil_r. by destruct (no_LF_partial l Hl) as [-> ->].
  - cbn. by apply flush_loop_spec.
Qed.

(** The records of a run of [poll_write]s. *)
Fixpoint write_all (state : PolicyLogState) (chunks : list bytes)
    : PolicyLogState * list log_record :=
  match chunks with
  | [] => (state, [])
  | chunk :: chunks =>
    let '(state, records, _) := poll_write state chunk in
    let '(state, rest) := write_all state chunks in
    (state, records ++ rest)
  end.

Lemma write_all_spec s l chunks :
  no_LF l →
  write_all (LogState s l) chunks =
  (LogState s (partial (l ++ concat chunks)), complete (l ++ concat chunks) ≫= log_line s).
Proof.
  revert l. induction chunks as [|c chunks IH]; intros l Hl; cbn [write_all concat].
  - rewrite app_nil_r. by destruct (no_LF_partial l Hl) as [-> ->].
  - unfold poll_write. rewrite write_bytes_spec, IH by auto using partial_no_LF.
    by rewrite (app_assoc l), (partial_app (l ++ c)), (complete_app (l ++ c)), bind_app.
Qed.

Lemma poll_write_vectored_eq state bufs :
  poll_write_vectored state bufs = (write_all state bufs, length (concat bufs)).
Proof.
  revert state. induction bufs as [|b bufs IH]; intros state; cbn; [done|]. unfold poll_write.
  destruct (write_bytes state b) as [st rs]. rewrite IH. destruct (write_all st bufs) as [st' rs'].
  by rewrite length_app.
Qed.

(** However a policy's output is cut into writes, vectored or not, the host
    logs one record per complete line of the whole stream, in order (blank lines
    apart), keeps exactly the unfinished last line, and reports every byte as
    written; a final flush logs that last line too and keeps nothing. *)
Theorem log_records_are_lines (s : string) (chunks bufs : list bytes) :
  let all := concat chunks ++ concat bufs in
  let '(state, records) := write_all (log_new s) chunks in
  let '(state, more, written) := poll_write_vectored state bufs in
  let '(state', last_records) := poll_shutdown state in
  split_lf all = complete all ++ [pending state] ∧
  records ++ more = complete all ≫= log_line s ∧
  written = length (concat bufs) ∧
  last_records = log_line s (pending state) ∧ pending state' = [].
Proof.
  unfold log_new. rewrite write_all_spec by constructor. cbn [app].
  rewrite poll_write_vectored_eq, write_all_spec by apply partial_no_LF.
  unfold poll_shutdown, flush_pending. cbn [pending stream].
  rewrite <- partial_app, <- bind_app, <- complete_app.
  set (all := concat chunks ++ concat bufs).
  assert (split_lf all = complete all ++ [partial all]).
  { unfold complete, partial. apply app_removelast_last, split_lf_nonempty. }
  case_bool_decide as E.
  - rewrite E in *. split_and!; done.
  - split_and!; try done. unfold log_line. by rewrite trim_end_lossy_strip_cr.
Qed.

(** ** From the SDK's log functions to the host's records *)

Definition host_level (l : LogLevel) : PolicyLogLevel :=
  match l with
  | LError => PError | LWarn => PWarn | LInfo => PInfo | LDebug => PDebug | LTrace => PTrace
  end.

(** What the SDK writes after the level. *)
Definition scoped (scope message : string) : string := "[" +:+ scope +:+ "] " +:+ message.

Lemma parse_level_prefix l rest :
  parse_policy_log_line (level_str l +:+ " " +:+ rest) = Some (host_level l, rest).
Proof.
  assert (∀ p, strip_prefix (p +:+ rest) p = Some rest) as Hp
    by (intros; by apply strip_prefix_Some).
  destruct l; unfold parse_policy_log_line, PREFIXES; cbn [find_prefix level_str host_level].
  - by rewrite (Hp "ERROR " : strip_prefix ("ERROR" +:+ " " +:+ rest) "ERROR " = Some rest).
  - by rewrite (Hp " WARN " : strip_prefix (" WARN" +:+ " " +:+ rest) " WARN " = Some rest).
  - by rewrite (Hp " INFO " : strip_prefix (" INFO" +:+ " " +:+ rest) " INFO " = Some rest).
  - by rewrite (Hp "DEBUG " : strip_prefix ("DEBUG" +:+ " " +:+ rest) "DEBUG " = Some rest).
  - by rewrite (Hp "TRACE " : strip_prefix ("TRACE" +:+ " " +:+ rest) "TRACE " = Some rest).
Qed.

Lemma log_line_sdk (s : string) (l : LogLevel) (scope message : string) :
  utf8 (str_bytes scope) → utf8 (str_bytes message) →
  log_line s (str_bytes (level_str l +:+ " " +:+ scoped scope message)) =
  [LogRecord (host_level l) s (trim_end (scoped scope message))].
Proof.
  intros Hs Hm. set (line := level_str l +:+ " " +:+ scoped scope message).
  assert (utf8 (str_bytes line)) as Hu.
  { unfold line, scoped. rewrite !str_bytes_app.
    repeat apply utf8_app; try done; try (destruct l);
      repeat (apply utf8_ascii; [by vm_compute|]); constructor. }
  unfold log_line. rewrite trim_end_lossy_strip_cr, from_utf8_lossy_valid, bytes_str_bytes by done.
  assert (trim_end line = level_str l +:+ " " +:+ trim_end (scoped scope message)) as ->.
  { apply str_bytes_inj. unfold trim_end, line. rewrite !str_bytes_app, !str_bytes_str.
    unfold scoped. rewrite !(str_bytes_app "[").
    change (str_bytes "[") with ["["%char]. cbn [app].
    rewrite (app_assoc (str_bytes (level_str l))), (trim_end_solid _ "["%char) by done.
    by rewrite <- app_assoc. }
  unfold emit_policy_log. rewrite parse_level_prefix.
  replace (str_is_empty _) with false; [done|]. by destruct l.
Qed.

(** A newline at the end starts an empty line. *)
Lemma split_lf_end l : split_lf (l ++ [LF]) = split_lf l ++ [[]].
Proof.
  rewrite split_lf_app. unfold complete, partial. pose proof (split_lf_nonempty l).
  assert (no_LF (partial l)) as Hp by apply partial_no_LF. unfold partial in Hp.
  rewrite split_lf_app_LF by done. cbn [split_lf].
  destruct (split_lf l) as [|x k _] using rev_ind; [done|].
  by rewrite removelast_last, List.last_last, <- app_assoc.
Qed.

(** The lines of a message after its first, if any. *)
Definition message_of (first : string) (others : option string) : string :=
  first +:+ match others with Some l => NEWLINE +:+ l | None => "" end.

Definition other_lines (others : option string) : list bytes :=
  match others with Some l => split_lf (str_bytes l) | None => [] end.

(** C38. The log from the SDK to the host: what a policy logs with a scope that
    holds no newline arrives, over however many writes, as one record for the
    message's first line, with the level it was logged at and the text
    [[scope] first line] less its trailing white space, followed, in order, by
    what the host makes of each further line of the message (nothing if it is
    blank, else one record); nothing stays pending.  A level that is not enabled
    writes nothing. *)
Theorem sdk_log_reaches_host (s scope first : string) (others : option string) (l : LogLevel) (max : Z)
    (chunks : list bytes)
    (Hscope : utf8 (str_bytes scope)) (Hmessage : utf8 (str_bytes first))
    (Hlf : no_LF (str_bytes scope) ∧ no_LF (str_bytes first))
    (Hchunks : default [] (sdk_log max l scope (message_of first others)) = concat chunks) :
  write_all (log_new s) chunks =
  (log_new s,
   if log_enabled max l
   then LogRecord (host_level l) s (trim_end (scoped scope first)) :: (other_lines others ≫= log_line s)
   else []).
Proof.
  unfold log_new. rewrite write_all_spec by constructor. cbn [app]. rewrite <- Hchunks.
  unfold sdk_log. destruct (log_enabled max l); [|done]. cbn [negb default from_option]; unfold id.
  set (line := level_str l +:+ " " +:+ scoped scope first).
  assert (no_LF (str_bytes line)) as Hno.
  { destruct Hlf. unfold line, scoped in *. rewrite !str_bytes_app, !Forall_app.
    split_and!; try done; destruct l; apply (bool_decide_unpack _); by vm_compute. }
  assert (str_bytes (sdk_log_line l scope (message_of first others)) =
    str_bytes line ++ LF :: match others with Some r => str_bytes r ++ [LF] | None => [] end) as ->.
  { unfold line, sdk_log_line, message_of, scoped, NEWLINE. destruct others as [r|].
    - rewrite !str_bytes_app. change (str_bytes " [") with (str_bytes " " ++ str_bytes "[").
      change (str_bytes (String LF "")) with [LF]. by rewrite <- !app_assoc.
    - rewrite !str_bytes_app. change (str_bytes " [") with (str_bytes " " ++ str_bytes "[").
      change (str_bytes (String LF "")) with [LF]. change (str_bytes "") with (@nil ascii). by rewrite <- !app_assoc. }
  unfold partial, complete. rewrite split_lf_app_LF by done.
  assert (split_lf (match others with Some r => str_bytes r ++ [LF] | None => [] end) = other_lines others ++ [[]]) as E.
  { destruct others as [r|]; [|done]. cbn [other_lines]. by apply split_lf_end. }
  rewrite E. rewrite app_comm_cons, List.last_last, removelast_last. cbn [mbind list_bind].
  unfold line. by rewrite log_line_sdk.
Qed.

Lemma sdk_log_reaches_host_witness :
  write_all (log_new "stderr")
    [str_bytes " INFO [numb"; str_bytes ("er-game] guess 42 " +:+ NEWLINE +:+ "too "); str_bytes ("low" +:+ NEWLINE)]
  = (log_new "stderr", [LogRecord PInfo "stderr" "[number-game] guess 42"; LogRecord PWarn "stderr" "too low"]).
Proof.
  assert (no_LF (str_bytes "number-game") ∧ no_LF (str_bytes "guess 42 ")) as Hlf
    by (apply (bool_decide_unpack _); by vm_compute).
  rewrite (sdk_log_reaches_host "stderr" "number-game" "guess 42 " (Some "too low") LInfo initial_max_log_level
    [str_bytes " INFO [numb"; str_bytes ("er-game] guess 42 " +:+ NEWLINE +:+ "too "); str_bytes ("low" +:+ NEWLINE)]
    (proj1 (utf8_valid_iff (str_bytes "number-game")) eq_refl)
    (proj1 (utf8_valid_iff (str_bytes "guess 42 ")) eq_refl) Hlf eq_refl).
  reflexivity.
Defined.
