(* ===== verification/Pake.v ===== *)
(** * The password-authenticated key exchange: [mitb-pake/src/lib.rs]

    The sessions the program builds on the [opaque-ke] crate, which is a
    parameter: the messages with their wire format, the client's and the
    server's steps, and the random source each step draws from.  The base64
    codec of [encode] and [decode] is one as well. *)

From S2P Require Export Rust.

(** [serialize] and [deserialize] of one message or state type. *)
Class Wire (ProtocolError M : Type) : Type := {
  serialize : M → bytes;
  deserialize : bytes → result ProtocolError M;
}.
Arguments serialize {_ _ _} _.
Arguments deserialize {_} _ {_} _.

Class Opaque : Type := {
  entropy : Type;
  ProtocolError : Type;
  error_display : ProtocolError → string;
  is_invalid_login_error : ProtocolError → bool;
  ClientLoginState : Type;
  ClientRegistrationState : Type;
  ServerSetup : Type;
  ServerLoginState : Type;
  PasswordFile : Type;
  RegistrationRequest : Type;
  RegistrationResponse : Type;
  RegistrationUpload : Type;
  CredentialRequest : Type;
  CredentialResponse : Type;
  CredentialFinalization : Type;
  #[global] client_login_wire :: Wire ProtocolError ClientLoginState;
  #[global] password_file_wire :: Wire ProtocolError PasswordFile;
  #[global] registration_request_wire :: Wire ProtocolError RegistrationRequest;
  #[global] registration_response_wire :: Wire ProtocolError RegistrationResponse;
  #[global] registration_upload_wire :: Wire ProtocolError RegistrationUpload;
  #[global] credential_request_wire :: Wire ProtocolError CredentialRequest;
  #[global] credential_response_wire :: Wire ProtocolError CredentialResponse;
  #[global] credential_finalization_wire :: Wire ProtocolError CredentialFinalization;
  client_login_start : entropy → bytes → result ProtocolError (CredentialRequest * ClientLoginState);
  client_login_finish : entropy → ClientLoginState → bytes → CredentialResponse →
    result ProtocolError CredentialFinalization;
  client_registration_start : entropy → bytes →
    result ProtocolError (RegistrationRequest * ClientRegistrationState);
  client_registration_finish : entropy → ClientRegistrationState → bytes → RegistrationResponse →
    result ProtocolError RegistrationUpload;
  server_setup_new : entropy → ServerSetup;
  server_registration_start : ServerSetup → RegistrationRequest → bytes →
    result ProtocolError RegistrationResponse;
  server_registration_finish : RegistrationUpload → PasswordFile;
  server_login_start : entropy → ServerSetup → option PasswordFile → CredentialRequest → bytes →
    result ProtocolError (CredentialResponse * ServerLoginState);
  server_login_finish : ServerLoginState → CredentialFinalization → result ProtocolError ();
}.

(** The URL-safe base64 engine without padding. *)
Class Base64 : Type := {
  base64_encode : bytes → string;
  base64_decode : string → result string bytes;
}.

Definition encode `{Base64} (bytes : list ascii) : string := base64_encode bytes.
Definition decode `{Base64} (encoded : string) : result string bytes := base64_decode encoded.

Section Pake.
Context `{Opaque}.

Definition error_string (error : ProtocolError) : string := error_display error.

Definition login_error_string (error : ProtocolError) : string :=
  if is_invalid_login_error error then "invalid secret code" else error_display error.

(** ** The client *)

Record ClientSession := Client {
  secret_code : bytes;
  registration_state : option ClientRegistrationState;
  login_state : option bytes;
}.

Definition client_new (secret_code : string) : result string ClientSession :=
  let secret_code := trim secret_code in
  if str_is_empty secret_code then Err "missing secret code"
  else Ok (Client (str_bytes secret_code) None None).

(** The session after the call, and the credential request. *)
Definition start_login (e : entropy) (s : ClientSession) : ClientSession * result string bytes :=
  match map_err error_string (client_login_start e (secret_code s)) with
  | Err error => (s, Err error)
  | Ok (message, state) =>
    (Client (secret_code s) (registration_state s) (Some (serialize state)), Ok (serialize message))
  end.

Definition start_registration (e : entropy) (s : ClientSession)
    : ClientSession * result string bytes :=
  match map_err error_string (client_registration_start e (secret_code s)) with
  | Err error => (s, Err error)
  | Ok (message, state) =>
    (Client (secret_code s) (Some state) (login_state s), Ok (serialize message))
  end.

(** The registration upload and the credential request; the second random draw
    is that of [start_login]. *)
Definition finish_registration (e e' : entropy) (s : ClientSession) (registration_response : bytes)
    : ClientSession * result string (bytes * bytes) :=
  match registration_state s with
  | None => (s, Err "registration was not started")
  | Some state =>
    let s := Client (secret_code s) None (login_state s) in
    match
      response ← map_err error_string (deserialize RegistrationResponse registration_response);
      map_err error_string (client_registration_finish e state (secret_code s) response)
    with
    | Err error => (s, Err error)
    | Ok upload =>
      let '(s, login) := start_login e' s in
      (s, credential_request ← login; Ok (serialize upload, credential_request))
    end
  end.

Definition finish_login (e : entropy) (s : ClientSession) (credential_response : bytes)
    : ClientSession * result string bytes :=
  match
    login_state_bytes ← ok_or "login was not started" (login_state s);
    state ← map_err login_error_string (deserialize ClientLoginState login_state_bytes);
    response ← map_err error_string (deserialize CredentialResponse credential_response);
    map_err login_error_string (client_login_finish e state (secret_code s) response)
  with
  | Err error => (s, Err error)
  | Ok finish => (Client (secret_code s) (registration_state s) None, Ok (serialize finish))
  end.

(** ** The server *)

Record ServerPake := Server { server_setup : ServerSetup }.

Definition server_new (e : entropy) : ServerPake := Server (server_setup_new e).

Definition server_registration_response (p : ServerPake)
    (credential_identifier registration_request : bytes) : result string bytes :=
  request ← map_err error_string (deserialize RegistrationRequest registration_request);
  response ← map_err error_string
    (server_registration_start (server_setup p) request credential_identifier);
  Ok (serialize response).

Definition server_finish_registration (p : ServerPake) (registration_upload : bytes)
    : result string bytes :=
  upload ← map_err error_string (deserialize RegistrationUpload registration_upload);
  Ok (serialize (server_registration_finish upload)).

Record ServerLoginSession := LoginSession { server_login_state : ServerLoginState }.

Definition server_start_login (e : entropy) (p : ServerPake)
    (credential_identifier password_file credential_request : bytes)
    : result string (bytes * ServerLoginSession) :=
  file ← map_err error_string (deserialize PasswordFile password_file);
  request ← map_err error_string (deserialize CredentialRequest credential_request);
  '(message, state) ← map_err error_string
    (server_login_start e (server_setup p) (Some file) request credential_identifier);
  Ok (serialize message, LoginSession state).

Definition server_session_finish (s : ServerLoginSession) (credential_finalization : bytes)
    : result string () :=
  finalization ← map_err error_string (deserialize CredentialFinalization credential_finalization);
  map_err error_string (server_login_finish (server_login_state s) finalization).

(** ** What the crates promise

    Every message survives its wire format, and a registration followed by a
    login with the same secret and the same credential identifier succeeds,
    whatever the two sides draw. *)
Class WireLaws {E M : Type} (W : Wire E M) : Prop :=
  deserialize_serialize : ∀ m, deserialize M (serialize m) = Ok m.

Class OpaqueLaws : Prop := {
  #[global] client_login_laws :: WireLaws client_login_wire;
  #[global] password_file_laws :: WireLaws password_file_wire;
  #[global] registration_request_laws :: WireLaws registration_request_wire;
  #[global] registration_response_laws :: WireLaws registration_response_wire;
  #[global] registration_upload_laws :: WireLaws registration_upload_wire;
  #[global] credential_request_laws :: WireLaws credential_request_wire;
  #[global] credential_response_laws :: WireLaws credential_response_wire;
  #[global] credential_finalization_laws :: WireLaws credential_finalization_wire;
  registration_succeeds : ∀ e e' setup secret id, ∃ request state response upload,
    client_registration_start e secret = Ok (request, state) ∧
    server_registration_start setup request id = Ok response ∧
    client_registration_finish e' state secret response = Ok upload;
  client_login_starts : ∀ e secret, ∃ request state,
    client_login_start e secret = Ok (request, state);
  login_succeeds : ∀ setup secret id e1 e2 e3 e4 e5 request state response upload lreq lstate,
    client_registration_start e1 secret = Ok (request, state) →
    server_registration_start setup request id = Ok response →
    client_registration_finish e2 state secret response = Ok upload →
    client_login_start e3 secret = Ok (lreq, lstate) →
    ∃ lresp sstate fin,
      server_login_start e4 setup (Some (server_registration_finish upload)) lreq id =
        Ok (lresp, sstate) ∧
      client_login_finish e5 lstate secret lresp = Ok fin ∧
      server_login_finish sstate fin = Ok ();
}.

End Pake.

(** ** Registering and logging in *)

(** The messages of a registration followed by a login, each carried as base64
    text: the client's session at the end and the server's verdict. *)
Definition handshake `{Opaque, Base64} (setup : ServerPake) (id : bytes) (s : ClientSession)
    (e1 e2 e3 e4 e5 : entropy) : result string (ClientSession * bytes) :=
  let send m := decode (encode m) in
  let '(s, request) := start_registration e1 s in
  request ← request; request ← send request;
  response ← server_registration_response setup id request; response ← send response;
  let '(s, finish) := finish_registration e2 e3 s response in
  '(upload, credential_request) ← finish;
  upload ← send upload; credential_request ← send credential_request;
  password_file ← server_finish_registration setup upload;
  '(credential_response, session) ← server_start_login e4 setup id password_file credential_request;
  credential_response ← send credential_response;
  let '(s, finalization) := finish_login e5 s credential_response in
  finalization ← finalization; finalization ← send finalization;
  _ ← server_session_finish session finalization;
  Ok (s, password_file).

(** A later login against the stored password file. *)
Definition login_again `{Opaque, Base64} (setup : ServerPake) (id password_file : bytes)
    (s : ClientSession) (e1 e2 e3 : entropy) : result string ClientSession :=
  let send m := decode (encode m) in
  let '(s, request) := start_login e1 s in
  request ← request; request ← send request;
  '(credential_response, session) ← server_start_login e2 setup id password_file request;
  credential_response ← send credential_response;
  let '(s, finalization) := finish_login e3 s credential_response in
  finalization ← finalization; finalization ← send finalization;
  _ ← server_session_finish session finalization;
  Ok s.

Class Base64Laws `{Base64} : Prop := base64_roundtrip : ∀ b, base64_decode (base64_encode b) = Ok b.

Section Handshake.
Context `{Opaque, !OpaqueLaws, Base64, !Base64Laws}.

Lemma send_ok {A} b (k : bytes → result string A) : (m ← decode (encode b); k m) = k b.
Proof. unfold decode, encode. by rewrite base64_roundtrip. Qed.

Ltac run_pake :=
  repeat (cbn -[decode encode]; first [rewrite send_ok | rewrite deserialize_serialize
    | match goal with R : _ = Ok _ |- _ => rewrite R end]); cbn.

(** C34. From the same secret code, a client session and the server complete a
    registration followed by a login, and any number of later logins against the
    stored password file, whatever random values they draw; the session that
    results holds the trimmed secret and no half-finished state. *)
Theorem pake_handshake_completes (setup : ServerPake) (id : bytes) (code : string)
    (e1 e2 e3 e4 e5 e6 e7 e8 : entropy)
    (Hcode : trim code ≠ "") :
  ∃ s password_file,
    client_new code = Ok s ∧
    secret_code s = str_bytes (trim code) ∧ registration_state s = None ∧ login_state s = None ∧
    handshake setup id s e1 e2 e3 e4 e5 = Ok (s, password_file) ∧
    login_again setup id password_file s e6 e7 e8 = Ok s.
Proof.
  unfold client_new, str_is_empty. destruct (_ =? 0)%nat eqn:E; zb.
  { exfalso. apply Hcode. destruct (trim code); done. }
  set (secret := str_bytes (trim code)).
  destruct (registration_succeeds e1 e2 (server_setup setup) secret id)
    as (request & state & response & upload & R1 & R2 & R3).
  destruct (client_login_starts e3 secret) as (lreq & lstate & R4).
  destruct (login_succeeds _ _ _ e1 e2 e3 e4 e5 _ _ _ _ _ _ R1 R2 R3 R4)
    as (lresp & sstate & fin & R5 & R6 & R7).
  destruct (client_login_starts e6 secret) as (lreq' & lstate' & R4').
  destruct (login_succeeds _ _ _ e1 e2 e6 e7 e8 _ _ _ _ _ _ R1 R2 R3 R4')
    as (lresp' & sstate' & fin' & R5' & R6' & R7').
  exists (Client secret None None), (serialize (server_registration_finish upload)).
  split_and!; try done.
  - unfold handshake, start_registration, server_registration_response, finish_registration,
      start_login, server_finish_registration, server_start_login, finish_login,
      server_session_finish.
    by run_pake.
  - unfold login_again, start_login, server_start_login, finish_login, server_session_finish.
    by run_pake.
Qed.

End Handshake.

(** An exchange that sends the secret itself, and an identity codec: enough to
    evaluate the sessions. *)
Section Plain.
#[local] Instance plain_wire : Wire string bytes := {|
  serialize m := m;
  deserialize l := Ok l;
|}.

Definition plain_opaque : Opaque := {|
  entropy := unit;
  ProtocolError := string;
  error_display e := e;
  is_invalid_login_error e := bool_decide (e = "mismatch");
  ClientLoginState := bytes;
  ClientRegistrationState := bytes;
  ServerSetup := unit;
  ServerLoginState := bytes;
  PasswordFile := bytes;
  RegistrationRequest := bytes;
  RegistrationResponse := bytes;
  RegistrationUpload := bytes;
  CredentialRequest := bytes;
  CredentialResponse := bytes;
  CredentialFinalization := bytes;
  client_login_start _ secret := Ok (secret, secret);
  client_login_finish _ state secret response :=
    if decide (response = secret) then Ok secret else Err "mismatch";
  client_registration_start _ secret := Ok (secret, secret);
  client_registration_finish _ _ secret _ := Ok secret;
  server_setup_new _ := ();
  server_registration_start _ request _ := Ok request;
  server_registration_finish upload := upload;
  server_login_start _ _ file request _ :=
    match file with Some f => Ok (f, f) | None => Err "no file" end;
  server_login_finish state fin := if decide (state = fin) then Ok () else Err "mismatch";
|}.

Definition plain_base64 : Base64 := {|
  base64_encode b := bytes_str b;
  base64_decode s := Ok (str_bytes s);
|}.
End Plain.

Lemma plain_opaque_laws : @OpaqueLaws plain_opaque.
Proof.
  split; try (intros m; reflexivity); cbn.
  - intros. by eexists _, _, _, _.
  - intros. by eexists _, _.
  - intros. simplify_eq. do 3 eexists. split; [done|]. rewrite decide_True by done.
    split; [done|]. by rewrite decide_True.
Defined.

Lemma plain_base64_laws : @Base64Laws plain_base64.
Proof. intros b. cbn. by rewrite str_bytes_str. Defined.

Lemma pake_handshake_completes_witness :
  ∃ s file, @client_new plain_opaque " tiger-42 " = Ok s ∧
    @secret_code plain_opaque s = str_bytes "tiger-42" ∧
    @handshake plain_opaque plain_base64 (@server_new plain_opaque ()) (str_bytes "room") s
      () () () () () = Ok (s, file).
Proof.
  destruct (@pake_handshake_completes plain_opaque plain_opaque_laws plain_base64 plain_base64_laws
    (@server_new plain_opaque ()) (str_bytes "room") " tiger-42 " () () () () () () () ()
    ltac:(vm_compute; discriminate)) as (s & file & ? & ? & ? & ? & ? & ?).
  exists s, file. split_and!; assumption.
Defined.
