(* ===== verification/Server.v ===== *)
(** * The signalling server's state: [mitb-server/src/lib.rs] and
    [mitb-server/src/app_state.rs]

    Rooms with their agents and zookeepers, client identifiers, the sliding
    windows of the rate limits, expiry, and the security configuration read
    from the environment.  [Instant::now()] is an argument of each operation,
    as are the environment and the payload type of signals. *)

From Stdlib Require Import Sorted.
From S2P Require Export Rust Pake.

(** ** Messages *)

Inductive ClientRole : Type := Agent | Zookeeper.

#[export] Instance ClientRole_eq_dec : EqDecision ClientRole.
Proof. solve_decision. Defined.

Definition as_prefix (r : ClientRole) : string :=
  match r with Agent => "agent" | Zookeeper => "zookeeper" end.

Inductive ClientMessage (Value : Type) : Type :=
| PakeInit (role : ClientRole) (room_handle credential_request : string)
    (client_alias : option string)
| PakeRegistrationRequest (registration_request : string)
| PakeRegistrationUpload (registration_upload credential_request : string)
| PakeCredentialFinalization (candidate_id credential_finalization : string)
| ClientSignal (peer_id : string) (payload : Value)
| Ping.
Arguments PakeInit {Value}.
Arguments PakeRegistrationRequest {Value}.
Arguments PakeRegistrationUpload {Value}.
Arguments PakeCredentialFinalization {Value}.
Arguments ClientSignal {Value}.
Arguments Ping {Value}.

Record PakeCredentialCandidate := Candidate {
  candidate_id : string;
  credential_response : string;
}.

Inductive ServerMessage (Value : Type) : Type :=
| PakeRegistrationRequired
| PakeRegistrationResponse (registration_response : string)
| PakeCredentialCandidates (candidates : list PakeCredentialCandidate)
| Connected (client_id : string) (role : ClientRole) (agents zookeepers : list string)
| PeerJoined (role : ClientRole) (client_id : string)
| PeerLeft (role : ClientRole) (client_id : string)
| ServerSignal (peer_id : string) (payload : Value)
| ServerError (message : string)
| Pong.
Arguments PakeRegistrationRequired {Value}.
Arguments PakeRegistrationResponse {Value}.
Arguments PakeCredentialCandidates {Value}.
Arguments Connected {Value}.
Arguments PeerJoined {Value}.
Arguments PeerLeft {Value}.
Arguments ServerSignal {Value}.
Arguments ServerError {Value}.
Arguments Pong {Value}.

(** ** State *)

(** A client's outbound queue and penalty flag, both shared: references. *)
Record ClientHandle := Handle { tx : nat; penalized : nat }.

#[export] Instance ClientHandle_eq_dec : EqDecision ClientHandle.
Proof. solve_decision. Defined.

Record RoomState := Room {
  password_file : bytes;
  agents : gmap string ClientHandle;
  zookeepers : gmap string ClientHandle;
  last_active_at : Z;
  signal_events : list Z;
}.

Record StateInner := Inner {
  next_client_id : Z;
  rooms : gmap string RoomState;
  auth_events_by_ip : gmap string (list Z);
}.

Definition inner_default : StateInner := Inner 0 ∅ ∅.

Record SecurityConfig := Config {
  allow_agent_room_creation : bool;
  max_rooms : Z;
  room_ttl : Z;
  auth_rate_limit : Z;
  auth_rate_window : Z;
  room_signal_rate_limit : Z;
  room_signal_rate_window : Z;
}.

(** ** Configuration *)

Section Environment.
(** [std::env::var], absent or not Unicode being [None]. *)
Context (env_var : string → option string).

Definition parse_env_bool (name : string) (default : bool) : bool :=
  match env_var name with
  | Some value =>
    let value := to_ascii_lowercase (trim value) in
    if decide (value ∈ ["1"; "true"; "yes"; "on"]) then true
    else if decide (value ∈ ["0"; "false"; "no"; "off"]) then false
    else default
  | None => default
  end.

(** Both [usize] and [u64] are 64 bits wide. *)
Definition parse_env_usize (name : string) (default_value : Z) : Z :=
  default default_value (env_var name ≫= (fun value => parse_uint U64_MAX (trim value))).

Definition parse_env_u64 (name : string) (default_value : Z) : Z :=
  default default_value (env_var name ≫= (fun value => parse_uint U64_MAX (trim value))).

Definition DEFAULT_ALLOW_AGENT_ROOM_CREATION : bool := false.
Definition DEFAULT_MAX_ROOMS : Z := 512.
Definition DEFAULT_ROOM_TTL_SECS : Z := 3600.
Definition DEFAULT_AUTH_RATE_LIMIT : Z := 30.
Definition DEFAULT_AUTH_RATE_WINDOW_SECS : Z := 60.
Definition DEFAULT_ROOM_SIGNAL_RATE_LIMIT : Z := 300.
Definition DEFAULT_ROOM_SIGNAL_RATE_WINDOW_SECS : Z := 10.

Definition from_env : SecurityConfig := {|
  allow_agent_room_creation :=
    parse_env_bool "MITB_ALLOW_AGENT_ROOM_CREATION" DEFAULT_ALLOW_AGENT_ROOM_CREATION;
  max_rooms := Z.max (parse_env_usize "MITB_MAX_ROOMS" DEFAULT_MAX_ROOMS) 1;
  room_ttl := from_secs (parse_env_u64 "MITB_ROOM_TTL_SECS" DEFAULT_ROOM_TTL_SECS);
  auth_rate_limit := Z.max (parse_env_usize "MITB_AUTH_RATE_LIMIT" DEFAULT_AUTH_RATE_LIMIT) 1;
  auth_rate_window :=
    from_secs (parse_env_u64 "MITB_AUTH_RATE_WINDOW_SECS" DEFAULT_AUTH_RATE_WINDOW_SECS);
  room_signal_rate_limit :=
    Z.max (parse_env_usize "MITB_ROOM_SIGNAL_RATE_LIMIT" DEFAULT_ROOM_SIGNAL_RATE_LIMIT) 1;
  room_signal_rate_window :=
    from_secs (parse_env_u64 "MITB_ROOM_SIGNAL_RATE_WINDOW_SECS"
                 DEFAULT_ROOM_SIGNAL_RATE_WINDOW_SECS);
|}.

End Environment.

(** ** Expiry *)

Fixpoint prune_event_window (events : list Z) (window now : Z) : list Z :=
  match events with
  | [] => []
  | ts :: rest =>
    if saturating_duration_since now ts <? window then events
    else prune_event_window rest window now
  end.

(** The predicate of [rooms.retain]. *)
Definition room_live (config : SecurityConfig) (now : Z) (room : RoomState) : bool :=
  if negb (bool_decide (agents room = ∅)) || negb (bool_decide (zookeepers room = ∅)) then true
  else saturating_duration_since now (last_active_at room) <? room_ttl config.

Definition prune_expired_rooms (config : SecurityConfig) (inner : StateInner) (now : Z)
    : StateInner := {|
  next_client_id := next_client_id inner;
  rooms := filter (fun '(_, room) => room_live config now room = true) (rooms inner);
  auth_events_by_ip :=
    filter (fun '(_, events) => events ≠ [])
      ((fun events => prune_event_window events (auth_rate_window config) now)
         <$> auth_events_by_ip inner);
|}.

(** ** Operations *)

Definition keys {A} (m : gmap string A) : list string := (map_to_list m).*1.
Definition values {A} (m : gmap string A) : list A := (map_to_list m).*2.

Definition client_name (role : ClientRole) (n : Z) : string := as_prefix role +:+ "-" +:+ pretty n.

(** The identifier loop of [register]; [None] when the fuel runs out. *)
Fixpoint fresh_client_id (fuel : nat) (role : ClientRole) (occupied : gset string) (next : Z)
    : option (Z * string) :=
  match fuel with
  | O => None
  | S fuel =>
    let next := wrap_u64 (next + 1) in
    let candidate := client_name role next in
    if decide (candidate ∈ occupied) then fresh_client_id fuel role occupied next
    else Some (next, candidate)
  end.

Definition occupied_client_ids (room : RoomState) : gset string :=
  dom (agents room) ∪ dom (zookeepers room).

Definition preferred_id (preferred : option string) (occupied : gset string) : option string :=
  match preferred with
  | Some client_id =>
    if negb (str_is_empty client_id) && negb (bool_decide (client_id ∈ occupied))
    then Some client_id else None
  | None => None
  end.

Definition choose_client_id (role : ClientRole) (preferred : option string)
    (occupied : gset string) (next : Z) : option (Z * string) :=
  match preferred_id preferred occupied with
  | Some client_id => Some (next, client_id)
  | None => fresh_client_id (S (size occupied)) role occupied next
  end.

Section Operations.
Context {Value : Type}.
Notation Message := (ServerMessage Value).

Record RegisterOutcome := Registered {
  client_id : string;
  initial_messages : list Message;
  broadcasts : list (ClientHandle * Message);
}.

Definition room_default (now : Z) : RoomState := Room [] ∅ ∅ now [].

Definition set_rooms (inner : StateInner) (r : gmap string RoomState) : StateInner :=
  Inner (next_client_id inner) r (auth_events_by_ip inner).

(** Adding the client to its side of the room. *)
Definition room_insert (room : RoomState) (role : ClientRole) (id : string) (h : ClientHandle)
    : RoomState :=
  match role with
  | Agent => Room (password_file room) (<[id := h]> (agents room)) (zookeepers room)
               (last_active_at room) (signal_events room)
  | Zookeeper => Room (password_file room) (agents room) (<[id := h]> (zookeepers room))
                   (last_active_at room) (signal_events room)
  end.

Definition room_touch (room : RoomState) (now : Z) : RoomState :=
  Room (password_file room) (agents room) (zookeepers room) now (signal_events room).

(** The other side of the room. *)
Definition room_peers (room : RoomState) (role : ClientRole) : list ClientHandle :=
  match role with Agent => values (zookeepers room) | Zookeeper => values (agents room) end.

(** [None]: the identifier loop is still running (see [register_total]). *)
Definition register (config : SecurityConfig) (inner : StateInner) (now : Z) (room_handle : string)
    (role : ClientRole) (preferred_client_id : option string) (h : ClientHandle)
    : option (StateInner * result string RegisterOutcome) :=
  let inner := prune_expired_rooms config inner now in
  match rooms inner !! room_handle with
  | None => Some (inner, Err "channel not found")
  | Some room =>
    '(next, client_id) ← choose_client_id role preferred_client_id (occupied_client_ids room)
        (next_client_id inner);
    let room := room_touch room now in
    let initial := [Connected client_id role (keys (agents room)) (keys (zookeepers room))] in
    let room' := room_insert room role client_id h in
    let joined := (fun peer => (peer, PeerJoined role client_id)) <$> room_peers room' role in
    Some (Inner next (<[room_handle := room']> (rooms inner)) (auth_events_by_ip inner),
          Ok (Registered client_id initial joined))
  end.

Definition room_side (room : RoomState) (role : ClientRole) : gmap string ClientHandle :=
  match role with Agent => agents room | Zookeeper => zookeepers room end.

Definition room_remove (room : RoomState) (role : ClientRole) (id : string) : RoomState :=
  match role with
  | Agent => Room (password_file room) (delete id (agents room)) (zookeepers room)
               (last_active_at room) (signal_events room)
  | Zookeeper => Room (password_file room) (agents room) (delete id (zookeepers room))
                   (last_active_at room) (signal_events room)
  end.

(** The state and the broadcasts. *)
Definition unregister (config : SecurityConfig) (inner : StateInner) (now : Z)
    (room_handle : string) (role : ClientRole) (client_id : string)
    : StateInner * list (ClientHandle * Message) :=
  let inner := prune_expired_rooms config inner now in
  let '(inner, broadcasts) :=
    match rooms inner !! room_handle with
    | None => (inner, [])
    | Some room =>
      match room_side room role !! client_id with
      | None => (inner, [])
      | Some _ =>
        let room := room_touch (room_remove room role client_id) now in
        (set_rooms inner (<[room_handle := room]> (rooms inner)),
         (fun peer => (peer, PeerLeft role client_id)) <$> room_peers room role)
      end
    end in
  (prune_expired_rooms config inner now, broadcasts).

Definition store_room (config : SecurityConfig) (inner : StateInner) (now : Z)
    (room_handle : string) (password_file : bytes) : StateInner * result string () :=
  let inner := prune_expired_rooms config inner now in
  if max_rooms config <=? Z.of_nat (size (rooms inner)) then (inner, Err "room quota exceeded")
  else if bool_decide (is_Some (rooms inner !! room_handle))
  then (inner, Err "generated duplicate room handle")
  else (set_rooms inner (<[room_handle := Room password_file ∅ ∅ now []]> (rooms inner)), Ok ()).

Definition ensure_room_capacity (config : SecurityConfig) (inner : StateInner) (now : Z)
    : StateInner * result string () :=
  let inner := prune_expired_rooms config inner now in
  if max_rooms config <=? Z.of_nat (size (rooms inner)) then (inner, Err "room quota exceeded")
  else (inner, Ok ()).

Definition set_auth_events (inner : StateInner) (ip : string) (events : list Z) : StateInner :=
  Inner (next_client_id inner) (rooms inner) (<[ip := events]> (auth_events_by_ip inner)).

Definition check_auth_rate_limit (config : SecurityConfig) (inner : StateInner) (now : Z)
    (ip : string) : StateInner * result string () :=
  let inner := prune_expired_rooms config inner now in
  let events := default [] (auth_events_by_ip inner !! ip) in
  let events := prune_event_window events (auth_rate_window config) now in
  if auth_rate_limit config <=? Z.of_nat (length events)
  then (set_auth_events inner ip events, Err "too many authentication attempts from this IP")
  else (set_auth_events inner ip (events ++ [now]), Ok ()).

Definition allows_agent_room_creation (config : SecurityConfig) : bool :=
  allow_agent_room_creation config.

Definition role_in (room : RoomState) (id : string) : option ClientRole :=
  if decide (is_Some (agents room !! id)) then Some Agent
  else if decide (is_Some (zookeepers room !! id)) then Some Zookeeper
  else None.

Definition room_event (room : RoomState) (events : list Z) : RoomState :=
  Room (password_file room) (agents room) (zookeepers room) (last_active_at room) events.

(** Who the signal is from and to, once it has been counted. *)
Definition route_signal (room : RoomState) (sender_id peer_id : string) (payload : Value)
    : result string (ClientHandle * Message) :=
  sender_role ← ok_or ("sender `" +:+ sender_id +:+ "` is not connected") (role_in room sender_id);
  peer_role ← ok_or ("peer `" +:+ peer_id +:+ "` is not connected") (role_in room peer_id);
  if bool_decide (sender_role = Agent) && bool_decide (peer_role = Agent)
  then Err "agent-to-agent signaling is not supported"
  else
    peer ← ok_or ("peer `" +:+ peer_id +:+ "` is not connected")
      (match agents room !! peer_id with
       | Some h => Some h
       | None => zookeepers room !! peer_id
       end);
    Ok (peer, ServerSignal sender_id payload).

Definition forward_signal (config : SecurityConfig) (inner : StateInner) (now : Z)
    (room_handle sender_id peer_id : string) (payload : Value)
    : StateInner * result string (ClientHandle * Message) :=
  let inner := prune_expired_rooms config inner now in
  match rooms inner !! room_handle with
  | None => (inner, Err "channel not found")
  | Some room =>
    let events := prune_event_window (signal_events room) (room_signal_rate_window config) now in
    if room_signal_rate_limit config <=? Z.of_nat (length events)
    then (set_rooms inner (<[room_handle := room_event room events]> (rooms inner)),
          Err "room signaling rate limit exceeded")
    else
      let room := room_touch (room_event room (events ++ [now])) now in
      (set_rooms inner (<[room_handle := room]> (rooms inner)),
       route_signal room sender_id peer_id payload)
  end.

End Operations.

(** ** Logging in to a room *)

(** [getrandom] fills the eighteen bytes, or its error is shown. *)
Definition random_token `{Base64} (draw : result string bytes) : result string string :=
  bytes ← draw; Ok (encode bytes).

Section Login.
Context `{Opaque, Base64}.

Record PendingLogin := Pending {
  pending_candidate_id : string;
  pending_room_handle : string;
  pending_credential_response : bytes;
  login_session : ServerLoginSession;
}.

Definition candidate_login_for_room (config : SecurityConfig) (pake : ServerPake) (e : entropy)
    (draw : result string bytes) (inner : StateInner) (now : Z) (room_handle : string)
    (credential_request : bytes) : StateInner * result string (option PendingLogin) :=
  let inner := prune_expired_rooms config inner now in
  match password_file <$> rooms inner !! room_handle with
  | None => (inner, Ok None)
  | Some password_file =>
    (inner,
     '(credential_response, session) ←
       server_start_login e pake (str_bytes room_handle) password_file credential_request;
     candidate_id ← random_token draw;
     Ok (Some (Pending candidate_id room_handle credential_response session)))
  end.

End Login.

(** ** Sequences of operations

    The tasks of the server share one mutex: what happens is a sequence of
    operations at the times the lock is taken. *)
Section Runs.
Context {Value : Type} (config : SecurityConfig).

Inductive op : Type :=
| OpRegister (room_handle : string) (role : ClientRole) (preferred : option string)
    (h : ClientHandle)
| OpUnregister (room_handle : string) (role : ClientRole) (client_id : string)
| OpLookup
| OpStoreRoom (room_handle : string) (file : bytes)
| OpCapacity
| OpAuth (ip : string)
| OpSignal (room_handle sender_id peer_id : string) (payload : Value).

(** What the operation leaves; a login lookup only prunes. *)
Definition step (inner : StateInner) (now : Z) (o : op) : option StateInner :=
  match o with
  | OpRegister room role preferred h =>
    fst <$> register (Value := Value) config inner now room role preferred h
  | OpUnregister room role id => Some (fst (unregister (Value := Value) config inner now room role id))
  | OpLookup => Some (prune_expired_rooms config inner now)
  | OpStoreRoom room file => Some (fst (store_room config inner now room file))
  | OpCapacity => Some (fst (ensure_room_capacity config inner now))
  | OpAuth ip => Some (fst (check_auth_rate_limit config inner now ip))
  | OpSignal room s p payload => Some (fst (forward_signal config inner now room s p payload))
  end.

Definition run (inner : StateInner) (ops : list (Z * op)) : option StateInner :=
  run_steps (fun inner x => step inner x.1 x.2) inner ops.

End Runs.
Arguments op : clear implicits.
Arguments OpRegister {Value}.
Arguments OpUnregister {Value}.
Arguments OpLookup {Value}.
Arguments OpStoreRoom {Value}.
Arguments OpCapacity {Value}.
Arguments OpAuth {Value}.
Arguments OpSignal {Value}.

(** ** Client identifiers *)

Lemma client_name_inj r n m : client_name r n = client_name r m → n = m.
Proof.
  unfold client_name. intros H. apply (f_equal (fun s => str_bytes s)) in H.
  rewrite !str_bytes_app in H. apply app_inv_head, app_inv_head in H.
  by apply str_bytes_inj, pretty_Z_inj in H.
Qed.

Lemma fresh_client_id_sound fuel r occupied next n id :
  fresh_client_id fuel r occupied next = Some (n, id) →
  id = client_name r n ∧ id ∉ occupied.
Proof.
  revert next. induction fuel as [|f IH]; intros next; cbn; [done|].
  case_decide; [apply IH|]. naive_solver.
Qed.

(** The candidates tried before giving up are distinct names of occupied
    clients, so one more try than there are occupied clients is enough. *)
Lemma fresh_client_id_total r occupied next :
  Z.of_nat (size occupied) < 2 ^ 64 → is_Some (fresh_client_id (S (size occupied)) r occupied next).
Proof.
  intros Hs. destruct (fresh_client_id _ r occupied next) eqn:E; [by eauto|]. exfalso.
  assert (∀ fuel next, fresh_client_id fuel r occupied next = None → ∀ i, (i < fuel)%nat →
    client_name r (wrap_u64 (next + 1 + Z.of_nat i)) ∈ occupied) as Hall.
  { clear. induction fuel as [|f IH]; intros next H i Hi; [lia|]. cbn in H.
    case_decide as E; [|done]. destruct i as [|i]; [by rewrite Z.add_0_r|].
    specialize (IH _ H i ltac:(lia)). unfold wrap_u64 in *.
    rewrite <- Z.add_assoc, Zplus_mod_idemp_l in IH.
    by replace (next + 1 + Z.of_nat (S i)) with (next + 1 + (1 + Z.of_nat i)) by lia. }
  pose (names := (fun i => client_name r (wrap_u64 (next + 1 + Z.of_nat i))) <$> seq 0 (S (size occupied))).
  assert (NoDup names) as Hnd.
  { apply NoDup_fmap_2_strong; [|apply NoDup_seq]. intros i j Hi Hj H.
    apply elem_of_seq in Hi, Hj. apply client_name_inj in H. unfold wrap_u64 in H.
    assert ((next + 1 + Z.of_nat i - (next + 1 + Z.of_nat j)) mod 2 ^ 64 = 0) as Hm.
    { rewrite Zminus_mod, H, Z.sub_diag. done. }
    apply Z.mod_divide in Hm as [k Hk]; [|done]. nia. }
  assert (list_to_set names ⊆ occupied) as Hsub.
  { intros x Hx. apply elem_of_list_to_set, list_elem_of_fmap in Hx as (i & -> & Hi).
    apply elem_of_seq in Hi. apply (Hall _ _ E). lia. }
  apply subseteq_size in Hsub. rewrite size_list_to_set in Hsub by done.
  unfold names in Hsub. rewrite length_fmap, length_seq in Hsub. lia.
Qed.

(** ** The invariant of the rooms *)

Definition room_ok (config : SecurityConfig) (room : RoomState) : Prop :=
  agents room ##ₘ zookeepers room ∧
  Z.of_nat (length (signal_events room)) ≤ room_signal_rate_limit config.

Definition inner_ok (config : SecurityConfig) (inner : StateInner) : Prop :=
  Z.of_nat (size (rooms inner)) ≤ max_rooms config ∧
  map_Forall (fun _ => room_ok config) (rooms inner).

Definition config_ok (config : SecurityConfig) : Prop :=
  1 ≤ max_rooms config ∧ 1 ≤ auth_rate_limit config ∧ 1 ≤ room_signal_rate_limit config.

Lemma from_env_ok env : config_ok (from_env env).
Proof. unfold config_ok, from_env; cbn. lia. Qed.

Lemma prune_event_window_suffix events w now :
  ∃ d, events = d ++ prune_event_window events w now.
Proof.
  induction events as [|t events [d IH]]; cbn; [by exists []|].
  destruct (_ <? w); [by exists []|]. exists (t :: d). cbn. congruence.
Qed.

Lemma prune_event_window_length events w now :
  (length (prune_event_window events w now) ≤ length events)%nat.
Proof.
  destruct (prune_event_window_suffix events w now) as [d Hd]. apply (f_equal length) in Hd.
  rewrite length_app in Hd. lia.
Qed.

Section Invariant.
Context (config : SecurityConfig).

Lemma prune_lookup inner now h room :
  rooms (prune_expired_rooms config inner now) !! h = Some room ↔
  rooms inner !! h = Some room ∧ room_live config now room = true.
Proof. cbn. by rewrite map_lookup_filter_Some. Qed.

Lemma prune_ok inner now :
  inner_ok config inner → inner_ok config (prune_expired_rooms config inner now).
Proof.
  intros [Hs Hr]. split.
  - cbn. etrans; [|exact Hs]. apply inj_le. rewrite <- !size_dom. apply subseteq_size, dom_filter_subseteq.
  - intros h room Hh. apply prune_lookup in Hh as [Hh _]. by apply (Hr h).
Qed.

Lemma insert_existing_ok inner h old room nid auth :
  inner_ok config inner → rooms inner !! h = Some old → room_ok config room →
  inner_ok config (Inner nid (<[h := room]> (rooms inner)) auth).
Proof.
  intros [Hs Hr] Hh Hok. split; cbn.
  - rewrite map_size_insert_Some; eauto.
  - by apply map_Forall_insert_2.
Qed.

Lemma room_insert_ok room r id h :
  room_ok config room → id ∉ occupied_client_ids room → room_ok config (room_insert room r id h).
Proof.
  unfold occupied_client_ids. intros [Hd He] Hid. apply not_elem_of_union in Hid as [Ha Hz].
  rewrite not_elem_of_dom in Ha. rewrite not_elem_of_dom in Hz.
  destruct r; split; cbn; try done.
  - by apply map_disjoint_insert_l.
  - by apply map_disjoint_insert_r.
Qed.

Lemma choose_client_id_sound r preferred occupied next n id :
  choose_client_id r preferred occupied next = Some (n, id) → id ∉ occupied.
Proof.
  unfold choose_client_id. destruct (preferred_id preferred occupied) as [c|] eqn:E.
  - intros [= <- <-]. unfold preferred_id in E. destruct preferred as [p|]; [|done].
    destruct (negb (str_is_empty p) && _) eqn:Eb; [|done]. simplify_eq. by zb.
  - intros H. by apply fresh_client_id_sound in H as [_ ?].
Qed.

Lemma step_ok {Value} inner now (o : op Value) inner' :
  config_ok config → inner_ok config inner → step config inner now o = Some inner' →
  inner_ok config inner'.
Proof.
  intros Hc Hok. assert (Hp := prune_ok inner now Hok).
  destruct o as [room r pref h|room r id| |room file| |ip|room s p payload]; cbn [step].
  - unfold register. destruct (rooms (prune_expired_rooms _ _ _) !! room) as [rm|] eqn:E;
      [|intros [= <-]; done].
    destruct (choose_client_id _ _ _ _) as [[n id]|] eqn:Ec; [|done]. cbn. intros [= <-].
    apply (insert_existing_ok (prune_expired_rooms config inner now) room rm); [done|exact E|]. apply room_insert_ok; [exact (proj2 Hp room rm E)|].
    by apply choose_client_id_sound in Ec.
  - intros [= <-]. unfold unregister. destruct (rooms (prune_expired_rooms _ _ _) !! room) as [rm|] eqn:E;
      [|by apply prune_ok].
    destruct (room_side rm r !! id); cbn [fst]; apply prune_ok; [|done].
    apply (insert_existing_ok (prune_expired_rooms config inner now) room rm); [done|exact E|].
    destruct (proj2 Hp room rm E) as [Hd He].
    destruct r; split; cbn; try done; [by apply map_disjoint_delete_l|by apply map_disjoint_delete_r].
  - by intros [= <-].
  - intros [= <-]. unfold store_room. destruct (_ <=? _) eqn:Eq; [done|]. case_bool_decide; [done|].
    zb. split; cbn.
    + rewrite map_size_insert_None; [cbn in *; lia|]. by apply eq_None_not_Some.
    + apply map_Forall_insert_2; [|apply Hp]. split; cbn; [apply map_disjoint_empty_l|].
      destruct Hc as (_ & _ & ?). lia.
  - intros [= <-]. unfold ensure_room_capacity. by destruct (_ <=? _).
  - intros [= <-]. unfold check_auth_rate_limit. by destruct (_ <=? _).
  - intros [= <-]. unfold forward_signal. destruct (rooms (prune_expired_rooms _ _ _) !! room) as [rm|] eqn:E; [|done].
    destruct (proj2 Hp room rm E) as [Hd He].
    pose proof (prune_event_window_length (signal_events rm) (room_signal_rate_window config) now).
    destruct (_ <=? _) eqn:Eq; zb; cbn [fst]; (apply (insert_existing_ok (prune_expired_rooms config inner now) room rm); [done|exact E|]);
      split; cbn; rewrite ?length_app; cbn; try done; lia.
Qed.

Lemma step_total {Value} inner now (o : op Value) :
  (∀ h room, rooms inner !! h = Some room →
    Z.of_nat (size (occupied_client_ids room)) < 2 ^ 64) →
  is_Some (step config inner now o).
Proof.
  intros Hs. destruct o; cbn [step]; try by eauto. unfold register.
  destruct (rooms (prune_expired_rooms _ _ _) !! _) as [rm|] eqn:E; [|by eauto].
  apply prune_lookup in E as [E _].
  assert (is_Some (choose_client_id role preferred (occupied_client_ids rm)
    (next_client_id (prune_expired_rooms config inner now)))) as [[n id] ->].
  { unfold choose_client_id. destruct (preferred_id _ _); [by eauto|].
    apply fresh_client_id_total. by eapply Hs. }
  cbn. by eauto.
Qed.

End Invariant.

(** C2. Whatever the clients do, in whatever order and at whatever times, the
    server never has more rooms than its quota, no identifier is used twice in
    a room (be it by an agent and a zookeeper), and no room has more signals
    in its window than its limit. *)
Theorem server_invariant {Value} (env : string → option string) (ops : list (Z * op Value))
    (inner : StateInner) :
  let config := from_env env in
  run config inner_default ops = Some inner → inner_ok config inner.
Proof.
  intros config. assert (inner_ok config inner_default) as H0.
  { split; [|apply map_Forall_empty]. unfold config; cbn. change (size (∅ : gmap string RoomState)) with 0%nat. lia. }
  revert H0. generalize inner_default as i0. induction ops as [|[now o] ops IH]; intros i0 H0; cbn.
  - by intros [= <-].
  - destruct (step config i0 now o) as [i1|] eqn:E; [|done]. apply IH.
    eapply step_ok; eauto using from_env_ok.
Qed.

Lemma server_invariant_witness :
  ∃ inner, run (Value := unit) (from_env (fun _ => None)) inner_default
    [(1, OpStoreRoom "room" []); (2, OpRegister "room" Agent (Some "bob") (Handle 0 0));
     (3, OpRegister "room" Zookeeper None (Handle 1 1)); (4, OpSignal "room" "bob" "zookeeper-1" ());
     (5, OpUnregister "room" Agent "bob")] = Some inner ∧
    inner_ok (from_env (fun _ => None)) inner.
Proof.
  eexists. split; [vm_compute; reflexivity|].
  apply (server_invariant (Value := unit) (fun _ => None)
    [(1, OpStoreRoom "room" []); (2, OpRegister "room" Agent (Some "bob") (Handle 0 0));
     (3, OpRegister "room" Zookeeper None (Handle 1 1)); (4, OpSignal "room" "bob" "zookeeper-1" ());
     (5, OpUnregister "room" Agent "bob")]).
  vm_compute. reflexivity.
Defined.

(** ** Joining and leaving a room *)

Section Membership.
Context {Value : Type} (config : SecurityConfig).

Notation register := (register (Value := Value)).
Notation unregister := (unregister (Value := Value)).

(** Registering in a live room always ends, and adds exactly one client,
    under an identifier nobody in the room has: the one it asked for when that
    is not empty and free, else a numbered name of its role.  The client is told
    who was there, and exactly the other side of the room is told about it.
    Without a live room nothing is registered. *)
Theorem register_joins (inner : StateInner) (now : Z) (room_handle : string) (role : ClientRole)
    (preferred : option string) (h : ClientHandle)
    (Hsize : ∀ k room, rooms inner !! k = Some room →
      Z.of_nat (size (occupied_client_ids room)) < 2 ^ 64) :
  let inner0 := prune_expired_rooms config inner now in
  match rooms inner0 !! room_handle with
  | None => register config inner now room_handle role preferred h
            = Some (inner0, Err "channel not found")
  | Some room =>
    ∃ id next,
      register config inner now room_handle role preferred h =
      Some (Inner next
              (<[room_handle := room_insert (room_touch room now) role id h]> (rooms inner0))
              (auth_events_by_ip inner0),
            Ok (Registered id [Connected id role (keys (agents room)) (keys (zookeepers room))]
                  ((fun peer => (peer, PeerJoined role id)) <$> room_peers room role))) ∧
      id ∉ occupied_client_ids room ∧
      match preferred_id preferred (occupied_client_ids room) with
      | Some p => id = p ∧ preferred = Some p ∧ next = next_client_id inner
      | None => id = client_name role next
      end
  end.
Proof.
  intros inner0. unfold Server.register. fold inner0.
  destruct (rooms inner0 !! room_handle) as [room|] eqn:E; [|done].
  pose proof E as E'. apply prune_lookup in E' as [E' _].
  assert (∃ n id, choose_client_id role preferred (occupied_client_ids room) (next_client_id inner0)
    = Some (n, id) ∧ id ∉ occupied_client_ids room ∧
      match preferred_id preferred (occupied_client_ids room) with
      | Some p => id = p ∧ preferred = Some p ∧ n = next_client_id inner
      | None => id = client_name role n
      end) as (n & id & Hc & Hid & Hp).
  { assert (∀ n id, choose_client_id role preferred (occupied_client_ids room)
      (next_client_id inner0) = Some (n, id) → id ∉ occupied_client_ids room) as Hsound
      by (intros; by eapply choose_client_id_sound).
    unfold choose_client_id in *. destruct (preferred_id preferred _) as [p|] eqn:Ep.
    - exists (next_client_id inner0), p. split; [done|]. split; [by eapply Hsound|].
      unfold preferred_id in Ep. destruct preferred as [q|]; [|done]. by case_match; simplify_eq.
    - destruct (fresh_client_id_total role (occupied_client_ids room) (next_client_id inner0))
        as [[n id] Hf]; [by eapply Hsize|].
      exists n, id. rewrite Hf. split; [done|]. by apply fresh_client_id_sound in Hf as [-> ?]. }
  exists id, n. rewrite Hc. cbn. split_and!; [|done|done].
  by destruct role, room.
Qed.

(** Leaving undoes joining: when a client that registered leaves again, the
    room is what it was before, but for its time of last activity, and expires
    as if it had been idle since; and exactly the clients that were told it
    joined are told it left. *)
Theorem unregister_undoes_register (inner inner' : StateInner) (now now' : Z)
    (room_handle id : string) (role : ClientRole) (preferred : option string) (h : ClientHandle)
    (initial : list (ServerMessage Value)) (joined : list (ClientHandle * ServerMessage Value))
    (room : RoomState)
    (Hroom : rooms (prune_expired_rooms config inner now) !! room_handle = Some room)
    (Hreg : register config inner now room_handle role preferred h =
            Some (inner', Ok (Registered id initial joined))) :
  let '(inner'', gone) := unregister config inner' now' room_handle role id in
  gone = (fun p => (p.1, PeerLeft role id)) <$> joined ∧
  rooms inner'' =
    rooms (prune_expired_rooms config
      (set_rooms inner' (<[room_handle := room_touch room now']> (rooms inner'))) now').
Proof.
  unfold Server.register in Hreg. rewrite Hroom in Hreg.
  destruct (choose_client_id _ _ _ _) as [[n i]|] eqn:Ec; [|done].
  cbn -[prune_expired_rooms] in Hreg. simplify_eq.
  apply choose_client_id_sound in Ec. unfold occupied_client_ids in Ec.
  apply not_elem_of_union in Ec as [Ha Hz]. rewrite not_elem_of_dom in Ha. rewrite not_elem_of_dom in Hz.
  unfold Server.unregister. set (inner0 := prune_expired_rooms config inner now) in *.
  set (room' := room_insert (room_touch room now) role id h).
  set (inner1 := Inner n (<[room_handle := room']> (rooms inner0)) (auth_events_by_ip inner0)).
  assert (rooms (prune_expired_rooms config inner1 now') !! room_handle = Some room') as E1.
  { apply prune_lookup. cbn. rewrite lookup_insert_eq. split; [done|].
    unfold room_live, room', room_insert. destruct role; cbn;
      rewrite (bool_decide_eq_false_2 _ (insert_non_empty _ _ _)); [done|].
    by destruct (negb _). }
  rewrite E1. assert (room_side room' role !! id = Some h) as ->.
  { destruct role; cbn; by rewrite lookup_insert_eq. }
  cbn [fst snd]. split.
  - rewrite <- list_fmap_compose. by destruct role.
  - assert (room_touch (room_remove room' role id) now' = room_touch room now') as ->.
    { unfold room', room_touch. destruct role; cbn; by rewrite delete_insert_id. }
    apply map_eq. intros k. apply option_eq. intros r. rewrite !prune_lookup. cbn.
    destruct (decide (k = room_handle)) as [->|Hk].
    + by rewrite !lookup_insert_eq.
    + rewrite !lookup_insert_ne by done. rewrite map_lookup_filter_Some.
      rewrite lookup_insert_ne by done. naive_solver.
Qed.

End Membership.

(** ** Signals *)

(** C29. A signal is delivered exactly when the room is live and below its rate
    limit, the sender is connected to that room, and so is the peer, and they
    are not both agents; it goes to the handle registered for the peer in the
    same room and says who sent it.  In every other case there is an error and
    no delivery. *)
Theorem signal_delivered_iff {Value} (config : SecurityConfig) (inner : StateInner) (now : Z)
    (room_handle sender peer : string) (payload : Value) (h : ClientHandle)
    (m : ServerMessage Value)
    (Hinv : inner_ok config inner) :
  snd (forward_signal config inner now room_handle sender peer payload) = Ok (h, m) ↔
  m = ServerSignal sender payload ∧
  ∃ room, rooms inner !! room_handle = Some room ∧ room_live config now room = true ∧
    Z.of_nat (length (prune_event_window (signal_events room) (room_signal_rate_window config) now))
      < room_signal_rate_limit config ∧
    (zookeepers room !! peer = Some h ∧
       (is_Some (agents room !! sender) ∨ is_Some (zookeepers room !! sender)) ∨
     agents room !! peer = Some h ∧ is_Some (zookeepers room !! sender)).
Proof.
  unfold forward_signal. destruct (rooms (prune_expired_rooms _ _ _) !! room_handle) as [room|] eqn:E.
  2: { split; [done|]. intros (_ & room & H1 & H2 & _).
       assert (rooms (prune_expired_rooms config inner now) !! room_handle = Some room); [|congruence].
       by apply prune_lookup. }
  apply prune_lookup in E as [E1 E2]. destruct (proj2 Hinv _ _ E1) as [Hd _].
  assert (∀ k, is_Some (agents room !! k) → zookeepers room !! k = None) as Hdis.
  { intros k [x Hx]. by eapply map_disjoint_Some_l. }
  destruct (_ <=? _) eqn:El; cbn [snd]; zb.
  { split; [done|]. intros (_ & room' & ? & _ & ? & _). simplify_eq. lia. }
  transitivity (m = ServerSignal sender payload ∧
    (zookeepers room !! peer = Some h ∧
       (is_Some (agents room !! sender) ∨ is_Some (zookeepers room !! sender)) ∨
     agents room !! peer = Some h ∧ is_Some (zookeepers room !! sender))).
  2: { split; [intros [? ?]; split; [done|]; exists room; auto|].
       intros [? (room' & ? & _ & _ & ?)]. by simplify_eq. }
  unfold route_signal, role_in. cbn.
  pose proof (Hdis sender) as Hs. pose proof (Hdis peer) as Hp. revert Hs Hp.
  destruct (agents room !! sender) eqn:E3, (zookeepers room !! sender) eqn:E4,
    (agents room !! peer) eqn:E5, (zookeepers room !! peer) eqn:E6; intros Hs Hp; cbn;
    repeat (rewrite decide_True by (by eauto) || rewrite decide_False by (by intros [? ?])); cbn;
    try (specialize (Hs ltac:(eauto)); done); try (specialize (Hp ltac:(eauto)); done);
    naive_solver (by eauto using mk_is_Some).
Qed.

Definition two_clients : StateInner :=
  Inner 2 {[ "room" := Room [] {[ "bob" := Handle 0 0 ]} {[ "zookeeper-1" := Handle 1 1 ]} 3 [] ]} ∅.

Lemma signal_delivered_iff_witness :
  snd (forward_signal (from_env (fun _ => None)) two_clients 4 "room" "bob" "zookeeper-1" 7)
    = Ok (Handle 1 1, ServerSignal "bob" 7) ∧
  inner_ok (from_env (fun _ => None)) two_clients.
Proof.
  assert (inner_ok (from_env (fun _ => None)) two_clients) as Hok.
  { split; [by vm_compute|]. apply map_Forall_singleton. split; [|by vm_compute].
    cbn. by apply map_disjoint_singleton_l. }
  split; [|exact Hok].
  apply (signal_delivered_iff (from_env (fun _ => None)) two_clients 4 "room" "bob" "zookeeper-1" 7
    (Handle 1 1) (ServerSignal "bob" 7) Hok).
  split; [done|]. eexists. split; [reflexivity|]. split_and!; [done..|].
  left. split; [done|]. left. by eexists.
Defined.

Definition room_of_two : RoomState :=
  Room [] {[ "bob" := Handle 0 0 ]} {[ "zookeeper-1" := Handle 1 1 ]} 3 [].

Lemma two_clients_live : rooms (prune_expired_rooms (from_env (fun _ => None)) two_clients 4) !! "room" = Some room_of_two.
Proof. by vm_compute. Qed.

Lemma register_joins_witness :
  ∃ id next,
    register (Value := unit) (from_env (fun _ => None)) two_clients 4 "room" Agent (Some "bob") (Handle 2 2) =
    Some (Inner next
            (<["room" := room_insert (room_touch room_of_two 4) Agent id (Handle 2 2)]>
               (rooms (prune_expired_rooms (from_env (fun _ => None)) two_clients 4)))
            (auth_events_by_ip (prune_expired_rooms (from_env (fun _ => None)) two_clients 4)),
          Ok (Registered id [Connected id Agent (keys (agents room_of_two)) (keys (zookeepers room_of_two))]
                ((fun peer => (peer, PeerJoined Agent id)) <$> room_peers room_of_two Agent))) ∧
    id ∉ occupied_client_ids room_of_two.
Proof.
  assert (∀ k room, rooms two_clients !! k = Some room → Z.of_nat (size (occupied_client_ids room)) < 2 ^ 64) as Hs.
  { intros k room Hr. unfold two_clients in Hr. cbn in Hr. apply lookup_singleton_Some in Hr as [<- <-]. by vm_compute. }
  pose proof (register_joins (Value := unit) (from_env (fun _ => None)) two_clients 4 "room" Agent (Some "bob")
    (Handle 2 2) Hs) as Hj.
  cbv zeta in Hj. rewrite two_clients_live in Hj.
  destruct Hj as (id & next & E & Hid & _). exists id, next. split; [exact E|exact Hid].
Defined.

Lemma unregister_undoes_register_witness :
  ∃ inner' id initial joined,
    register (Value := unit) (from_env (fun _ => None)) two_clients 4 "room" Agent (Some "bob") (Handle 2 2) =
      Some (inner', Ok (Registered id initial joined)) ∧
    snd (unregister (Value := unit) (from_env (fun _ => None)) inner' 5 "room" Agent id) =
      (fun p => (p.1, PeerLeft Agent id)) <$> joined.
Proof.
  eexists _, _, _, _. split; [vm_compute; reflexivity|].
  match goal with |- snd (unregister _ ?inner' _ _ _ ?id) = _ <$> ?joined =>
    pose proof (unregister_undoes_register (Value := unit) (from_env (fun _ => None)) two_clients inner' 4 5 "room" id
      Agent (Some "bob") (Handle 2 2) _ joined room_of_two two_clients_live
      ltac:(vm_compute; reflexivity)) as Hu
  end.
  destruct (unregister _ _ _ _ _ _) as [inner'' gone]. exact (proj1 Hu).
Defined.

(** ** Rate limiting *)

Definition within (window now ts : Z) : bool := saturating_duration_since now ts <? window.

Definition recent (window now : Z) (l : list Z) : list Z := filter (fun ts => within window now ts = true) l.

(** The times at which attempts of [ip] were accepted over a run. *)
Fixpoint accepted {Value} (config : SecurityConfig) (inner : StateInner) (ops : list (Z * op Value))
    (ip : string) : list Z :=
  match ops with
  | [] => []
  | (now, o) :: ops =>
    let rest := match step config inner now o with
                | Some inner' => accepted config inner' ops ip
                | None => []
                end in
    match o with
    | OpAuth ip' =>
      if bool_decide (ip' = ip) && is_ok (snd (check_auth_rate_limit config inner now ip))
      then now :: rest else rest
    | _ => rest
    end
  end.

(** Times do not go back. *)
Fixpoint monotone {A} (from : Z) (ops : list (Z * A)) : Prop :=
  match ops with [] => True | (now, _) :: ops => from ≤ now ∧ monotone now ops end.

Lemma prune_sorted l w now :
  StronglySorted Z.le l → prune_event_window l w now = recent w now l.
Proof.
  unfold recent, within. induction 1 as [|ts l Hs IH Hts]; cbn [prune_event_window]; [done|].
  destruct (_ <? w) eqn:E.
  - rewrite filter_cons_True by done. f_equal. symmetry. clear IH Hs.
    induction Hts as [|x l Hx Hl IHl]; [done|]. rewrite filter_cons_True, IHl; [done|].
    unfold saturating_duration_since in *. zb. lia.
  - rewrite filter_cons_False by congruence. done.
Qed.

Lemma recent_recent w now now' l : now ≤ now' → recent w now' (recent w now l) = recent w now' l.
Proof.
  intros Hn. unfold recent. rewrite list_filter_filter. apply list_filter_iff. intros x.
  unfold within, saturating_duration_since. split; [tauto|]. intros H. split; [done|]. zb. lia.
Qed.

Lemma recent_Forall w now l (P : Z → Prop) : Forall P l → Forall P (recent w now l).
Proof. rewrite !Forall_forall. intros H x [_ Hx]%list_elem_of_filter. auto. Qed.

Lemma recent_sorted w now l : StronglySorted Z.le l → StronglySorted Z.le (recent w now l).
Proof.
  unfold recent. induction 1 as [|x l Hs IH Hx]; [constructor|]. rewrite filter_cons.
  case_decide; [|done]. constructor; [done|]. by apply recent_Forall.
Qed.

Lemma sorted_snoc l now :
  StronglySorted Z.le l → Forall (fun t => t ≤ now) l → StronglySorted Z.le (l ++ [now]).
Proof.
  induction 1 as [|x l Hs IH Hx]; intros Hall; cbn; [by repeat constructor|].
  apply Forall_cons in Hall as [? ?]. constructor; [auto|]. apply Forall_app; split; [done|].
  by repeat constructor.
Qed.

(** What is stored for an address, against the accepted attempts [hist] up to
    the time [t]: the same attempts are recent, now and later. *)
Definition tracks (w t : Z) (stored hist : list Z) : Prop :=
  StronglySorted Z.le stored ∧ Forall (fun x => x ≤ t) stored ∧
  ∀ now, t ≤ now → recent w now stored = recent w now hist.

Lemma tracks_prune w t now stored hist :
  t ≤ now → tracks w t stored hist → tracks w now (prune_event_window stored w now) hist.
Proof.
  intros Ht (Hs & Hb & He). rewrite prune_sorted by done. split_and!.
  - by apply recent_sorted.
  - apply recent_Forall. eapply Forall_impl; [exact Hb|]. cbn. lia.
  - intros now' Hn. rewrite recent_recent by done. apply He. lia.
Qed.

Lemma tracks_accept w now stored hist :
  tracks w now stored hist → tracks w now (stored ++ [now]) (hist ++ [now]).
Proof.
  intros (Hs & Hb & He). split_and!.
  - by apply sorted_snoc.
  - apply Forall_app; split; [done|]. by repeat constructor.
  - intros now' Hn. unfold recent in *. by rewrite !filter_app, He.
Qed.

Definition stored_for (inner : StateInner) (ip : string) : list Z :=
  default [] (auth_events_by_ip inner !! ip).

Lemma stored_prune config inner now ip :
  stored_for (prune_expired_rooms config inner now) ip =
  prune_event_window (stored_for inner ip) (auth_rate_window config) now.
Proof.
  unfold stored_for. cbn. rewrite map_lookup_filter, lookup_fmap.
  destruct (auth_events_by_ip inner !! ip) as [l|]; cbn; [|done].
  destruct (prune_event_window l _ now) eqn:E; cbn; [by rewrite option_guard_False by auto|].
  by rewrite option_guard_True.
Qed.

(** Every operation but an authentication attempt only prunes the windows. *)
Lemma step_stored {Value} config inner now (o : op Value) inner' ip :
  step config inner now o = Some inner' →
  match o with
  | OpAuth ip' =>
    stored_for inner' ip =
    (let l := stored_for (prune_expired_rooms config inner now) ip in
     if decide (ip' = ip) then
       let l := prune_event_window l (auth_rate_window config) now in
       if is_ok (snd (check_auth_rate_limit config inner now ip)) then l ++ [now] else l
     else l)
  | OpUnregister _ _ _ =>
    stored_for inner' ip =
    stored_for (prune_expired_rooms config (prune_expired_rooms config inner now) now) ip
  | _ => stored_for inner' ip = stored_for (prune_expired_rooms config inner now) ip
  end.
Proof.
  destruct o as [room role p h|room role id| |room f| |ip'|room s p v]; cbn [step].
  - unfold register. destruct (_ !! room); [|by intros [= <-]].
    destruct (choose_client_id _ _ _ _) as [[? ?]|]; [|done]. cbn. by intros [= <-].
  - intros [= <-]. unfold unregister. destruct (_ !! room) as [r|]; [|done].
    destruct (room_side r role !! id); done.
  - by intros [= <-].
  - intros [= <-]. unfold store_room. destruct (_ <=? _); [done|]. by destruct (bool_decide _).
  - intros [= <-]. unfold ensure_room_capacity. by destruct (_ <=? _).
  - intros [= <-]. destruct (decide (ip' = ip)) as [->|Hne].
    + unfold check_auth_rate_limit. unfold stored_for at 2.
      destruct (_ <=? _); cbn [fst snd is_ok set_auth_events]; unfold stored_for, set_auth_events;
        cbn [auth_events_by_ip]; by rewrite lookup_insert_eq.
    + unfold check_auth_rate_limit. destruct (_ <=? _); cbn [fst set_auth_events];
        unfold stored_for, set_auth_events; cbn [auth_events_by_ip]; by rewrite lookup_insert_ne.
  - intros [= <-]. unfold forward_signal. destruct (_ !! room); [|done].
    by destruct (_ <=? _).
Qed.

Lemma prune_idempotent_tracks w t now l hist :
  t ≤ now → tracks w t l hist → tracks w now (prune_event_window (prune_event_window l w now) w now) hist.
Proof. intros. apply (tracks_prune _ now); [lia|]. by apply (tracks_prune _ t). Qed.

(** An attempt is accepted when fewer than the limit are recent. *)
Lemma check_auth_decision config inner t now ip hist :
  t ≤ now → tracks (auth_rate_window config) t (stored_for inner ip) hist →
  is_ok (snd (check_auth_rate_limit config inner now ip)) =
  (Z.of_nat (length (recent (auth_rate_window config) now hist)) <? auth_rate_limit config).
Proof.
  intros Ht Htr. unfold check_auth_rate_limit.
  change (default [] _) with (stored_for (prune_expired_rooms config inner now) ip).
  rewrite stored_prune.
  assert (prune_event_window (prune_event_window (stored_for inner ip) (auth_rate_window config) now)
    (auth_rate_window config) now = recent (auth_rate_window config) now hist) as ->.
  { pose proof (tracks_prune _ _ now _ _ Ht Htr) as (Hs & _ & He).
    rewrite prune_sorted by done. apply He. lia. }
  destruct (_ <=? _) eqn:E; cbn; zb; symmetry; [apply Z.ltb_ge|apply Z.ltb_lt]; lia.
Qed.

(** The accepted attempts of a run that starts after [hist], up to a time
    [now']. *)
Lemma run_tracks {Value} config (ops : list (Z * op Value)) o' inner inner' t now' ip hist :
  monotone t (ops ++ [(now', o')]) → run config inner ops = Some inner' →
  tracks (auth_rate_window config) t (stored_for inner ip) hist →
  ∃ t', t' ≤ now' ∧
    tracks (auth_rate_window config) t' (stored_for inner' ip) (hist ++ accepted config inner ops ip).
Proof.
  revert inner t hist. induction ops as [|[now o] ops IH]; intros inner t hist Hm Hr Htr.
  - cbn in Hr, Hm. simplify_eq. exists t. rewrite app_nil_r. split; [lia|done].
  - cbn in Hm, Hr. destruct Hm as [Ht Hm].
    destruct (step config inner now o) as [inner1|] eqn:E; [|done].
    assert (∃ extra, accepted config inner ((now, o) :: ops) ip = extra ++ accepted config inner1 ops ip ∧
      tracks (auth_rate_window config) now (stored_for inner1 ip) (hist ++ extra)) as (extra & -> & Htr').
    { pose proof (step_stored config inner now o inner1 ip E) as Hst. cbn [accepted]. rewrite E.
      destruct o; try (exists []; split; [done|]; rewrite app_nil_r, Hst, !stored_prune;
        by first [apply (prune_idempotent_tracks _ t)|apply (tracks_prune _ t)]).
      rewrite Hst, stored_prune. case_bool_decide as Hip; cbn [andb].
      - rewrite decide_True by done. destruct (is_ok _).
        + exists [now]. split; [done|]. apply tracks_accept. by apply (prune_idempotent_tracks _ t).
        + exists []. split; [done|]. rewrite app_nil_r. by apply (prune_idempotent_tracks _ t).
      - rewrite decide_False by done. exists []. split; [done|]. rewrite app_nil_r.
        by apply (tracks_prune _ t). }
    rewrite app_assoc. by apply (IH inner1 now).
Qed.

(** C32. The authentication limit is a sliding window: after any run of the server
    (whose clock does not go back), a further attempt from an address is
    accepted exactly when fewer than the limit of the attempts accepted from
    that address so far are younger than the window; other addresses, rooms and
    expiry have no influence. *)
Theorem auth_limit_is_sliding_window {Value} (config : SecurityConfig) (ops : list (Z * op Value))
    (inner : StateInner) (now : Z) (ip : string)
    (Hclock : monotone 0 (ops ++ [(now, OpAuth ip)]))
    (Hrun : run config inner_default ops = Some inner) :
  is_ok (snd (check_auth_rate_limit config inner now ip)) = true ↔
  Z.of_nat (length (recent (auth_rate_window config) now (accepted config inner_default ops ip)))
    < auth_rate_limit config.
Proof.
  destruct (run_tracks config ops (OpAuth ip) inner_default inner 0 now ip [] Hclock Hrun)
    as (t & Ht & Htr).
  { split_and!; [constructor|constructor|done]. }
  rewrite (check_auth_decision config inner t now ip _ Ht Htr). apply Z.ltb_lt.
Qed.

Lemma auth_limit_is_sliding_window_witness :
  let config := from_env (fun name => if decide (name = "MITB_AUTH_RATE_LIMIT") then Some "2" else None) in
  let s := from_secs 1 in
  ∃ inner, run (Value := unit) config inner_default
      [(s, OpAuth "10.0.0.1"); (2 * s, OpAuth "10.0.0.1"); (3 * s, OpAuth "10.0.0.1")] = Some inner ∧
    is_ok (snd (check_auth_rate_limit config inner (61 * s) "10.0.0.1")) = true.
Proof.
  intros config s. eexists. split; [vm_compute; reflexivity|].
  refine (proj2 (auth_limit_is_sliding_window (Value := unit) config
    [(s, OpAuth "10.0.0.1"); (2 * s, OpAuth "10.0.0.1"); (3 * s, OpAuth "10.0.0.1")]
    _ (61 * s) "10.0.0.1" _ _) _).
  - vm_compute. intuition discriminate.
  - vm_compute. reflexivity.
  - vm_compute. reflexivity.
Defined.
