(* ===== verification/WsAuth.v ===== *)
(** * Authenticating a socket: [mitb-server/src/ws_auth.rs]

    The handshake as a program over the socket and the shared state.  What
    other tasks do to the state before each time the lock is taken, the clock,
    the random draws and the frames the client sends are arbitrary. *)

From S2P Require Export Server.

(** [axum::extract::ws::Message]. *)
Inductive ws_message : Type :=
| WsText (text : string)
| WsBinary (data : bytes)
| WsPing (payload : bytes)
| WsPong (payload : bytes)
| WsClose.

(** What [timeout(.., socket.recv())] answers. *)
Inductive recv_outcome : Type :=
| RecvTimeout
| RecvError
| RecvEnd
| RecvMessage (m : ws_message).

(** [serde_json::from_str::<ClientMessage>]. *)
Class ClientCodec (Value : Type) : Type := {
  parse_client_message : string → result string (ClientMessage Value);
}.

Definition MAX_ROOM_HANDLE_LEN : nat := 64.

Definition handle_byte (b : byte) : bool :=
  is_ascii_alphanumeric b || bool_decide (b = "-"%char) || bool_decide (b = "_"%char).

Definition normalize_room_handle (room_handle : string) : result string string :=
  let room_handle := trim room_handle in
  if str_is_empty room_handle then Err "room handle must not be empty"
  else if (MAX_ROOM_HANDLE_LEN <? str_len room_handle)%nat then
    Err ("room handle must be at most " +:+ pretty MAX_ROOM_HANDLE_LEN +:+ " characters")
  else if negb (forallb handle_byte (str_bytes room_handle)) then
    Err "room handle must use only letters, numbers, '-' or '_'"
  else Ok room_handle.

Definition WS_AUTH_READ_TIMEOUT_SECS : Z := 15.

Record CreatedRoom := Created { created_room_handle : string; created_password_file : bytes }.

Section Auth.
Context {Value : Type} `{ClientCodec Value, Opaque, Base64}.
Context (config : SecurityConfig) (pake : ServerPake).
(** Other tasks between two lock acquisitions, the clock at each of them, and
    the random sources. *)
Context (interference : nat → StateInner → StateInner) (clock : nat → Z).
Context (entropy_at : nat → entropy) (draw_at : nat → result string bytes).

Inductive outgoing : Type :=
| OutMessage (m : ServerMessage Value)
| OutPong (payload : bytes).

Record world := World {
  inner : StateInner;
  inbox : list recv_outcome;
  outbox : list outgoing;
  locks : nat;
}.

(** A handler that may return early with [None]. *)
Definition auth (A : Type) : Type := world → world * option A.

#[export] Instance auth_ret : MRet auth := fun A a w => (w, Some a).
#[export] Instance auth_bind : MBind auth := fun A B f m w =>
  match m w with
  | (w, Some a) => f a w
  | (w, None) => (w, None)
  end.

Definition stop {A} : auth A := fun w => (w, None).

Definition send (o : outgoing) : auth () := fun w =>
  (World (inner w) (inbox w) (outbox w ++ [o]) (locks w), Some ()).

Definition send_socket_message (m : ServerMessage Value) : auth () := send (OutMessage m).
Definition send_socket_error (message : string) : auth () := send_socket_message (ServerError message).

(** The error is sent and the handshake ends. *)
Definition bail {A} (message : string) : auth A := _ ← send_socket_error message; stop.

Definition or_bail {A} (r : result string A) : auth A :=
  match r with Ok a => mret a | Err error => bail error end.

Definition recv : auth recv_outcome := fun w =>
  match inbox w with
  | [] => (w, Some RecvEnd)
  | r :: rest => (World (inner w) rest (outbox w) (locks w), Some r)
  end.

(** An operation under the lock. *)
Definition with_state {A} (f : StateInner → Z → StateInner * A) : auth A := fun w =>
  let '(i, a) := f (interference (locks w) (inner w)) (clock (locks w)) in
  (World i (inbox w) (outbox w) (S (locks w)), Some a).

Definition count_locks : auth nat := fun w => (w, Some (locks w)).

Definition receive_message : auth (ClientMessage Value) :=
  message ← recv;
  match message with
  | RecvTimeout =>
    bail ("authentication timed out waiting for next message (" +:+
          pretty WS_AUTH_READ_TIMEOUT_SECS +:+ "s)")
  | RecvError => stop
  | RecvEnd => stop
  | RecvMessage (WsText text) =>
    match parse_client_message text with
    | Ok message => mret message
    | Err error => bail ("invalid client message: " +:+ error)
    end
  | RecvMessage WsClose => stop
  | RecvMessage (WsPing payload) =>
    _ ← send (OutPong payload);
    bail "expected text websocket frames during authentication"
  | RecvMessage (WsPong _) | RecvMessage (WsBinary _) =>
    bail "expected text websocket frames during authentication"
  end.

Definition trimmed_alias (client_alias : option string) : option string :=
  match trim <$> client_alias with
  | Some value => if str_is_empty value then None else Some value
  | None => None
  end.

(** The first message: role, room handle, credential request and alias. *)
Definition receive_init : auth (ClientRole * string * string * option string) :=
  message ← receive_message;
  match message with
  | PakeInit role room_handle credential_request client_alias =>
    room_handle ← or_bail (normalize_room_handle room_handle);
    mret (role, room_handle, credential_request, trimmed_alias client_alias)
  | _ => bail "expected PAKE init message before other client messages"
  end.

Definition receive_registration_request : auth bytes :=
  message ← receive_message;
  match message with
  | PakeRegistrationRequest registration_request => or_bail (decode registration_request)
  | _ => bail "expected PAKE registration request"
  end.

Definition receive_registration_upload : auth (bytes * bytes) :=
  message ← receive_message;
  match message with
  | PakeRegistrationUpload registration_upload credential_request =>
    registration_upload ← or_bail (decode registration_upload);
    credential_request ← or_bail (decode credential_request);
    mret (registration_upload, credential_request)
  | _ => bail "expected PAKE registration upload"
  end.

(** The branch that registers a new room: its pending login and the room. *)
Definition register_room (role : ClientRole) (room_handle : string) : auth (PendingLogin * CreatedRoom) :=
  _ ← (if decide (role = Zookeeper) then bail "unknown secret code" else mret ());
  _ ← (if negb (allows_agent_room_creation config)
       then bail "agent-driven room creation is disabled by server policy" else mret ());
  capacity ← with_state (fun inner now => ensure_room_capacity config inner now);
  _ ← or_bail capacity;
  _ ← send_socket_message PakeRegistrationRequired;
  registration_request ← receive_registration_request;
  registration_response ←
    or_bail (server_registration_response pake (str_bytes room_handle) registration_request);
  _ ← send_socket_message (PakeRegistrationResponse (encode registration_response));
  '(registration_upload, credential_request) ← receive_registration_upload;
  password_file ← or_bail (server_finish_registration pake registration_upload);
  n ← count_locks;
  '(response, login_session) ← or_bail
    (server_start_login (entropy_at n) pake (str_bytes room_handle) password_file credential_request);
  candidate_id ← or_bail (random_token (draw_at n));
  mret (Pending candidate_id room_handle response login_session, Created room_handle password_file).

Definition candidate_of (pending : PendingLogin) : PakeCredentialCandidate :=
  Candidate (pending_candidate_id pending) (encode (pending_credential_response pending)).

Definition receive_finalization : auth (string * bytes) :=
  message ← receive_message;
  match message with
  | PakeCredentialFinalization candidate_id credential_finalization =>
    bytes ← or_bail (decode credential_finalization);
    mret (candidate_id, bytes)
  | _ => bail "expected PAKE credential finalization"
  end.

Definition finish_candidate (pending_logins : list PendingLogin) : auth PendingLogin :=
  '(candidate_id, credential_finalization) ← receive_finalization;
  match list_find (fun pending => pending_candidate_id pending = candidate_id) pending_logins with
  | None => bail "unknown PAKE login candidate"
  | Some (_, pending_login) =>
    _ ← or_bail (server_session_finish (login_session pending_login) credential_finalization);
    mret pending_login
  end.

(** The created room is stored when it is the room logged in to. *)
Definition store_created (created_room : option CreatedRoom) (pending_login : PendingLogin) : auth () :=
  match created_room with
  | Some created_room =>
    if bool_decide (created_room_handle created_room = pending_room_handle pending_login) then
      stored ← with_state (fun inner now =>
        store_room config inner now (created_room_handle created_room) (created_password_file created_room));
      or_bail stored
    else mret ()
  | None => mret ()
  end.

(** The existing room's pending login, if there is the room. *)
Definition existing_login (room_handle : string) (credential_request : bytes)
    : auth (option PendingLogin) :=
  n ← count_locks;
  pending ← with_state (fun inner now =>
    candidate_login_for_room config pake (entropy_at n) (draw_at n) inner now room_handle credential_request);
  or_bail pending.

Definition authenticate_socket (remote_ip : string) : auth (string * ClientRole * option string) :=
  limit ← with_state (fun inner now => check_auth_rate_limit config inner now remote_ip);
  _ ← or_bail limit;
  '(role, room_handle, credential_request, client_alias) ← receive_init;
  credential_request ← or_bail (decode credential_request);
  existing_pending ← existing_login room_handle credential_request;
  '(pending_logins, created_room) ←
    match existing_pending with
    | Some pending => mret ([pending], None)
    | None =>
      '(pending, created) ← register_room role room_handle;
      mret ([pending], Some created)
    end;
  _ ← send_socket_message (PakeCredentialCandidates (candidate_of <$> pending_logins));
  pending_login ← finish_candidate pending_logins;
  _ ← store_created created_room pending_login;
  let client_alias := if decide (role = Agent) then client_alias else None in
  mret (pending_room_handle pending_login, role, client_alias).

End Auth.

(** ** Room handles *)

Definition valid_handle (h : string) : Prop :=
  (1 ≤ str_len h ≤ MAX_ROOM_HANDLE_LEN)%nat ∧ Forall (fun b => handle_byte b = true) (str_bytes h).

Lemma handle_byte_solid b : handle_byte b = true → solid b = true.
Proof.
  unfold handle_byte, solid, is_ascii_alphanumeric, is_ascii_upper, is_ascii_lower, is_ascii_digit,
    between, ws1. intros H.
  apply orb_true_iff in H as [H | H]; [apply orb_true_iff in H as [H | H]|].
  - lia.
  - apply bool_decide_eq_true in H as ->. reflexivity.
  - apply bool_decide_eq_true in H as ->. reflexivity.
Qed.

Lemma ws_head_solid b l : solid b = true → ws_head (b :: l) = 0%nat.
Proof.
  unfold solid. intros H. zb. cbn. rewrite H. unfold ws2, ws3.
  destruct l as [|c [|d l]]; [done| |];
    repeat case_match; zb; lia.
Qed.

Lemma trim_loop_0 ws f l : ws l = 0%nat → trim_loop ws f l = l.
Proof. destruct f; cbn; [done|]. by intros ->. Qed.

(** Nothing is trimmed off a text of solid characters. *)
Lemma trim_solid s : Forall (fun b => solid b = true) (str_bytes s) → trim s = s.
Proof.
  intros H. apply str_bytes_inj. unfold trim, trim_bytes, trim_start_bytes. rewrite str_bytes_str.
  rewrite trim_loop_0.
  - destruct (str_bytes s) as [|c l _] using rev_ind; [done|].
    apply Forall_app in H as [_ H]. inversion H as [|? ? Hc _]; subst; clear H; rename Hc into H.
    rewrite (trim_end_solid l c []) by exact H. f_equal. unfold trim_end_bytes. cbn [rev app].
    rewrite trim_loop_0; [done|]. pose proof (ws_last_solid [] c [] H) as [_ Hl]. cbn [app length] in Hl. lia.
  - destruct (str_bytes s) as [|c l]; [done|]. apply Forall_cons in H as [H _].
    by apply ws_head_solid.
Qed.

Lemma normalize_ok_iff s h : normalize_room_handle s = Ok h ↔ h = trim s ∧ valid_handle h.
Proof.
  unfold normalize_room_handle, valid_handle, str_is_empty.
  destruct (str_len (trim s) =? 0)%nat eqn:E1; zb.
  { split; [done|]. intros (-> & ? & _). lia. }
  destruct (MAX_ROOM_HANDLE_LEN <? _)%nat eqn:E2; zb.
  { split; [done|]. intros (-> & ? & _). lia. }
  destruct (forallb handle_byte (str_bytes (trim s))) eqn:E3; cbn.
  - split; [intros [= <-]|by intros (-> & _)]. split; [done|]. split; [lia|].
    apply Forall_forall. intros b Hb. apply list_elem_of_In in Hb.
    by eapply forallb_forall in E3.
  - split; [done|]. intros (-> & _ & Hall). exfalso. apply not_true_iff_false in E3. apply E3.
    apply forallb_forall. intros b Hb. apply list_elem_of_In in Hb.
    by eapply Forall_forall in Hall.
Qed.

(** A room handle is accepted exactly when, trimmed, it has one to
    sixty-four characters, all of them letters, digits, hyphens or underscores;
    what is accepted is the trimmed handle, and normalising it again changes
    nothing, so every side that normalises a handle names the same room. *)
Theorem normalize_room_handle_spec (s h : string) :
  (normalize_room_handle s = Ok h ↔ h = trim s ∧ valid_handle h) ∧
  (normalize_room_handle s = Ok h → normalize_room_handle h = Ok h).
Proof.
  split; [apply normalize_ok_iff|]. intros [-> Hv]%normalize_ok_iff. apply normalize_ok_iff.
  split; [|done]. symmetry. apply trim_solid. destruct Hv as [_ Hv].
  eapply Forall_impl; [exact Hv|]. apply handle_byte_solid.
Qed.

Lemma normalize_room_handle_spec_witness :
  normalize_room_handle " room-abc123_DEF " = Ok "room-abc123_DEF" ∧
  normalize_room_handle "room-abc123_DEF" = Ok "room-abc123_DEF".
Proof.
  split; [reflexivity|].
  apply (proj2 (normalize_room_handle_spec " room-abc123_DEF " "room-abc123_DEF")). reflexivity.
Defined.

(** ** What the handshake guarantees *)

Section AuthSpec.
Context {Value : Type} `{ClientCodec Value, Opaque, Base64}.
Context (config : SecurityConfig) (pake : ServerPake).
Context (interference : nat → StateInner → StateInner) (clock : nat → Z).
Context (entropy_at : nat → entropy) (draw_at : nat → result string bytes).

Notation world := (world (Value := Value)).
Notation auth := (auth (Value := Value)).
Notation with_state := (with_state (Value := Value) interference clock).
Notation authenticate_socket :=
  (authenticate_socket (Value := Value) config pake interference clock entropy_at draw_at).

Lemma auth_bind_Some {A B} (m : auth A) (f : A → auth B) w w' b :
  (m ≫= f) w = (w', Some b) ↔ ∃ w1 a, m w = (w1, Some a) ∧ f a w1 = (w', Some b).
Proof.
  unfold mbind, auth_bind. destruct (m w) as [w1 [a|]] eqn:E; naive_solver.
Qed.

Lemma or_bail_Some {A} (r : result string A) w w' a :
  or_bail (Value := Value) r w = (w', Some a) ↔ r = Ok a ∧ w' = w.
Proof.
  destruct r as [b|e]; cbn.
  - split; [by intros [= -> ->]|by intros [[= ->] ->]].
  - split; [done|by intros [? _]].
Qed.

Lemma mret_Some {A} (a b : A) (w w' : world) : mret (M := auth) a w = (w', Some b) ↔ b = a ∧ w' = w.
Proof. cbn. split; [by intros [= -> ->]|by intros [-> ->]]. Qed.

Lemma bail_Some {A} message w w' (a : A) : ¬ bail (Value := Value) message w = (w', Some a).
Proof. done. Qed.

Ltac inv_auth :=
  repeat match goal with
  | H : (_ ≫= _) _ = (_, Some _) |- _ =>
      let w := fresh "w" in let a := fresh "a" in let Ha := fresh "Hm" in
      apply auth_bind_Some in H as (w & a & Ha & H)
  | H : or_bail _ _ = (_, Some _) |- _ =>
      let Hr := fresh "Hr" in apply or_bail_Some in H as [Hr ->]
  | H : bail _ _ = (_, Some _) |- _ => by destruct (bail_Some _ _ _ _ H)
  | H : mret _ _ = (_, Some _) |- _ => apply mret_Some in H as [? ->]; simplify_eq
  | H : (let '_ := ?x in _) _ = (_, Some _) |- _ =>
      match type of x with (_ * _)%type => destruct x end
  end.

(** The room stays as it is, or a handshake step leaves: a step adds no room
    when other tasks add none, and what it returns satisfies [Q]. *)
Definition adds_none {A} (m : auth A) (Q : A → Prop) : Prop :=
  ∀ w, dom (rooms (inner (m w).1)) ⊆ dom (rooms (inner w)) ∧ ∀ a, (m w).2 = Some a → Q a.

Lemma adds_none_bind {A B} (m : auth A) (f : A → auth B) Q R :
  adds_none m Q → (∀ a, Q a → adds_none (f a) R) → adds_none (m ≫= f) R.
Proof.
  intros Hm Hf w. unfold mbind, auth_bind. destruct (Hm w) as [Hd HQ].
  destruct (m w) as [w1 [a|]]; cbn in *; [|by split].
  destruct (Hf a (HQ a eq_refl) w1) as [Hd' HR]. split; [by etrans|done].
Qed.

Lemma adds_none_weaken {A} (m : auth A) (Q R : A → Prop) :
  adds_none m Q → (∀ a, Q a → R a) → adds_none m R.
Proof. intros Hm HQR w. destruct (Hm w). split; auto. Qed.

Lemma adds_none_ret {A} (a : A) (Q : A → Prop) : Q a → adds_none (mret a) Q.
Proof. intros Ha w. cbn. split; [done|by intros ? [= <-]]. Qed.

Lemma adds_none_send o : adds_none (send o) (fun _ => True).
Proof. intros w. done. Qed.

Lemma adds_none_bail {A} message (Q : A → Prop) : adds_none (bail message) Q.
Proof. intros w. cbn. by split. Qed.

Lemma adds_none_stop {A} (Q : A → Prop) : adds_none stop Q.
Proof. intros w. cbn. by split. Qed.

Lemma adds_none_or_bail {A} (r : result string A) : adds_none (or_bail r) (fun _ => True).
Proof. destruct r; [by apply adds_none_ret|apply adds_none_bail]. Qed.

Lemma adds_none_recv : adds_none recv (fun _ => True).
Proof. intros w. unfold recv. by destruct (inbox w). Qed.

Lemma adds_none_count : adds_none count_locks (fun _ => True).
Proof. intros w. done. Qed.

Lemma adds_none_with {A} (f : StateInner → Z → StateInner * A) (Q : A → Prop) :
  (∀ n i, dom (rooms (interference n i)) ⊆ dom (rooms i)) →
  (∀ i now, dom (rooms (f i now).1) ⊆ dom (rooms i) ∧ Q (f i now).2) →
  adds_none (with_state f) Q.
Proof.
  intros Hi Hf w. unfold WsAuth.with_state. specialize (Hf (interference (locks w) (inner w)) (clock (locks w))).
  destruct (f _ _) as [i a]. cbn in *. destruct Hf as [Hf HQ].
  split; [etrans; [exact Hf|apply Hi]|by intros ? [= <-]].
Qed.

Lemma prune_dom i now : dom (rooms (prune_expired_rooms config i now)) ⊆ dom (rooms i).
Proof. cbn. apply dom_filter_subseteq. Qed.

Ltac adds_none_step :=
  match goal with
  | |- adds_none (_ ≫= _) _ => eapply adds_none_bind; [|intros ? ?]
  | |- adds_none (let '_ := ?x in _) _ => destruct x
  | |- adds_none (mret _) (fun _ => True) => by apply adds_none_ret
  | |- adds_none (send _) _ => apply adds_none_send
  | |- adds_none (send_socket_message _) _ => apply adds_none_send
  | |- adds_none (bail _) _ => apply adds_none_bail
  | |- adds_none stop _ => apply adds_none_stop
  | |- adds_none (or_bail _) _ => apply adds_none_or_bail
  | |- adds_none recv _ => apply adds_none_recv
  | |- adds_none count_locks _ => apply adds_none_count
  end.

Lemma adds_none_receive : adds_none receive_message (fun _ => True).
Proof.
  unfold receive_message. repeat adds_none_step.
Qed.

Ltac adds_none_message :=
  adds_none_step; [apply adds_none_receive|]; repeat adds_none_step.

Lemma adds_none_receive_request : adds_none receive_registration_request (fun _ => True).
Proof. unfold receive_registration_request. adds_none_message. Qed.

Lemma adds_none_receive_upload : adds_none receive_registration_upload (fun _ => True).
Proof. unfold receive_registration_upload. adds_none_message. Qed.

Lemma adds_none_receive_finalization : adds_none receive_finalization (fun _ => True).
Proof. unfold receive_finalization. adds_none_message. Qed.

Lemma adds_none_receive_init : adds_none receive_init (fun _ => True).
Proof. unfold receive_init. adds_none_message. Qed.

Lemma adds_none_register_room role room_handle :
  (∀ n i, dom (rooms (interference n i)) ⊆ dom (rooms i)) →
  adds_none (register_room config pake interference clock entropy_at draw_at role room_handle)
    (fun x => role = Agent ∧ allow_agent_room_creation config = true ∧
      pending_room_handle x.1 = room_handle ∧ created_room_handle x.2 = room_handle).
Proof.
  intros Hi. unfold register_room.
  eapply (adds_none_bind _ _ (fun _ => role = Agent)); [|intros _ ->].
  { destruct role; cbn; [by apply adds_none_ret|apply adds_none_bail]. }
  eapply (adds_none_bind _ _ (fun _ => allow_agent_room_creation config = true)); [|intros _ Ha].
  { unfold allows_agent_room_creation. destruct (allow_agent_room_creation config); cbn;
      [by apply adds_none_ret|apply adds_none_bail]. }
  eapply adds_none_bind; [|intros capacity _].
  { apply (adds_none_with _ (fun _ => True)); [done|]. intros i now. unfold ensure_room_capacity.
    destruct (_ <=? _); (split; [apply prune_dom|done]). }
  repeat adds_none_step.
  - apply adds_none_receive_request.
  - apply adds_none_receive_upload.
  - by apply adds_none_ret.
Qed.

Lemma adds_none_existing room_handle request :
  (∀ n i, dom (rooms (interference n i)) ⊆ dom (rooms i)) →
  adds_none (existing_login config pake interference clock entropy_at draw_at room_handle request)
    (fun p => ∀ x, p = Some x → pending_room_handle x = room_handle).
Proof.
  intros Hi. unfold existing_login. adds_none_step; [apply adds_none_count|].
  eapply adds_none_bind.
  - apply (adds_none_with _ (fun r => ∀ x, r = Ok (Some x) → pending_room_handle x = room_handle));
      [done|].
    intros i now. unfold candidate_login_for_room.
    destruct (_ <$> _); (split; [apply prune_dom|]); intros x Hx; [|done].
    cbn [snd] in Hx. inv_ok. destruct a0. inv_ok. done.
  - intros r Hr. destruct r as [p|e]; [|apply adds_none_bail]. apply adds_none_ret.
    intros x ->. by apply Hr.
Qed.

Lemma adds_none_finish pending :
  adds_none (finish_candidate pending) (fun p => p ∈ pending).
Proof.
  unfold finish_candidate. eapply adds_none_bind; [apply adds_none_receive_finalization|].
  intros [id fin] _. destruct (list_find _ pending) as [[i p]|] eqn:E; [|apply adds_none_bail].
  adds_none_step; [apply adds_none_or_bail|]. apply adds_none_ret.
  apply list_find_Some in E as (E & _). by eapply list_elem_of_lookup_2.
Qed.

(** Only a step that succeeds with [Q] adds the room [h]. *)
Definition adds {A} (h : string) (m : auth A) (Q : A → Prop) : Prop :=
  ∀ w, h ∈ dom (rooms (inner (m w).1)) → h ∉ dom (rooms (inner w)) → ∃ a, (m w).2 = Some a ∧ Q a.

Lemma adds_bind {A B} h (m : auth A) (f : A → auth B) Q R :
  adds_none m Q → (∀ a, Q a → adds h (f a) R) → adds h (m ≫= f) R.
Proof.
  intros Hm Hf w. unfold mbind, auth_bind. destruct (Hm w) as [Hd HQ].
  destruct (m w) as [w1 [a|]]; cbn in *; [|set_solver].
  intros Hin Hout. apply (Hf a (HQ a eq_refl)); [done|set_solver].
Qed.

Lemma adds_final h created pending (role : ClientRole) (alias : option string) (room_handle : string) :
  (∀ n i, dom (rooms (interference n i)) ⊆ dom (rooms i)) →
  pending_room_handle pending = room_handle →
  (∀ c, created = Some c → role = Agent ∧ allow_agent_room_creation config = true ∧
    created_room_handle c = room_handle) →
  adds h (_ ← store_created config interference clock created pending;
          mret (pending_room_handle pending, role, alias))
    (fun x => allow_agent_room_creation config = true ∧ ∃ alias, x = (h, Agent, alias)).
Proof.
  intros Hi Hp Hc w. unfold store_created. destruct created as [c|]; cbn; [|by intros ? []].
  destruct (Hc c eq_refl) as (-> & Ha & Hh). rewrite Hh, Hp, bool_decide_eq_true_2 by done.
  unfold mbind, auth_bind, WsAuth.with_state. specialize (Hi (locks w) (inner w)).
  set (i := interference (locks w) (inner w)) in *. set (now := clock (locks w)).
  pose proof (prune_dom i now) as Hpd. unfold store_room.
  destruct (_ <=? _); cbn [fst snd inner or_bail bail]; [cbn; set_solver|].
  case_bool_decide; cbn [fst snd inner or_bail bail]; [cbn; set_solver|].
  cbn -[prune_expired_rooms]. intros Hin Hout. rewrite dom_insert in Hin.
  assert (h = room_handle) as -> by set_solver. eauto.
Qed.

(** C11. No other room can appear: when the other tasks add no room while it runs,
    a handshake that leaves a room that was not there has succeeded, for that
    very room, in the role of an agent, on a server whose policy lets agents
    create rooms.  So zookeepers, unfinished handshakes and failed logins never
    create one. *)
Theorem room_created_only_by_agent_login (w : world) (ip h : string)
    (Hothers : ∀ n i, dom (rooms (interference n i)) ⊆ dom (rooms i)) :
  let '(w', r) := authenticate_socket ip w in
  h ∈ dom (rooms (inner w')) → h ∉ dom (rooms (inner w)) →
  allow_agent_room_creation config = true ∧ ∃ alias, r = Some (h, Agent, alias).
Proof.
  assert (adds h (authenticate_socket ip)
    (fun x => allow_agent_room_creation config = true ∧ ∃ alias, x = (h, Agent, alias))) as Hadds.
  { unfold WsAuth.authenticate_socket.
    eapply adds_bind.
    { apply (adds_none_with _ (fun _ => True)); [done|]. intros i now.
      unfold check_auth_rate_limit. destruct (_ <=? _); (split; [apply prune_dom|done]). }
    intros limit _. eapply adds_bind; [apply adds_none_or_bail|]. intros _ _.
    eapply adds_bind; [apply adds_none_receive_init|]. intros [[[role room_handle] request] alias] _.
    eapply adds_bind; [apply adds_none_or_bail|]. intros request' _.
    eapply (adds_bind _ _ _ (fun p => ∀ x, p = Some x → pending_room_handle x = room_handle)).
    { by apply adds_none_existing. }
    intros existing Hex.
    eapply (adds_bind _ _ _ (fun x => Forall (fun p => pending_room_handle p = room_handle) x.1 ∧
      ∀ c, x.2 = Some c → role = Agent ∧ allow_agent_room_creation config = true ∧
        created_room_handle c = room_handle)).
    { destruct existing as [p|].
      - apply adds_none_ret. split; [repeat constructor; auto|done].
      - eapply adds_none_bind; [by apply adds_none_register_room|].
        intros [p c] (Hr & Ha & Hp & Hc). apply adds_none_ret.
        split; [by repeat constructor|]. by intros ? [= <-]. }
    intros [pending created] [Hp Hc]. eapply adds_bind; [apply adds_none_send|]. intros _ _.
    eapply adds_bind; [apply adds_none_finish|]. intros p Hin.
    apply (adds_final _ _ _ _ _ room_handle); [done| |done].
    by eapply Forall_forall in Hp. }
  specialize (Hadds w). destruct (authenticate_socket ip w) as [w' r]. cbn in Hadds.
  intros Hin Hout. destruct (Hadds Hin Hout) as (x & -> & Ha & alias & ->). eauto.
Qed.

(** What a successful step of the handshake has established. *)
Lemma with_state_Some {A} (f : StateInner → Z → StateInner * A) w w' a :
  with_state f w = (w', Some a) →
  let x := f (interference (locks w) (inner w)) (clock (locks w)) in
  a = x.2 ∧ inner w' = x.1 ∧ locks w' = S (locks w).
Proof. unfold WsAuth.with_state. destruct (f _ _) as [i b]. by intros [= <- <-]. Qed.

Lemma receive_message_locks w w' m :
  receive_message w = (w', Some m) → locks w' = locks w ∧ inner w' = inner w.
Proof.
  unfold receive_message, recv. unfold mbind, auth_bind.
  destruct (inbox w) as [|[| | |[text| |p| |]] rest]; cbn; try done.
  destruct (parse_client_message text); cbn; [|done]. by intros [= <- _].
Qed.

Lemma receive_init_Some w w' role h request alias :
  receive_init w = (w', Some (role, h, request, alias)) →
  valid_handle h ∧ locks w' = locks w ∧ inner w' = inner w.
Proof.
  unfold receive_init. intros Hr. inv_auth. apply receive_message_locks in Hm as [? ?].
  destruct a; inv_auth. apply normalize_ok_iff in Hr0 as [_ ?]. auto.
Qed.

Lemma finish_candidate_Some pending w w' p :
  finish_candidate pending w = (w', Some p) →
  inner w' = inner w ∧ p ∈ pending ∧ ∃ fin, server_session_finish (login_session p) fin = Ok ().
Proof.
  unfold finish_candidate, receive_finalization. intros Hr. inv_auth.
  apply receive_message_locks in Hm0 as [_ Hi]. destruct a0; inv_auth.
  destruct (list_find _ pending) as [[i q]|] eqn:E; inv_auth.
  apply list_find_Some in E as (E & _). split_and!; [done|by eapply list_elem_of_lookup_2|].
  match goal with H : server_session_finish _ _ = Ok ?u |- _ => destruct u; by eexists end.
Qed.

Lemma register_room_Some role h w w' p c :
  register_room config pake interference clock entropy_at draw_at role h w = (w', Some (p, c)) →
  role = Agent ∧ allow_agent_room_creation config = true ∧
  pending_room_handle p = h ∧ created_room_handle c = h ∧
  ∃ n request response, server_start_login (entropy_at n) pake (str_bytes h)
    (created_password_file c) request = Ok (response, login_session p).
Proof.
  unfold register_room. intros Hr. inv_auth.
  destruct role; cbn in Hm; [|done]. unfold allows_agent_room_creation in Hm0.
  destruct (allow_agent_room_creation config); cbn in Hm0; [|done]. split_and!; try done.
  by do 3 eexists.
Qed.

Lemma existing_login_Some h request (w w' : world) p :
  existing_login config pake interference clock entropy_at draw_at h request w = (w', Some (Some p)) →
  pending_room_handle p = h ∧
  ∃ r, rooms (interference (locks w) (inner w)) !! h = Some r ∧ room_live config (clock (locks w)) r = true ∧
  ∃ n response, server_start_login (entropy_at n) pake (str_bytes h) (password_file r) request
    = Ok (response, login_session p).
Proof.
  unfold existing_login. intros Hr. inv_auth. unfold count_locks in Hm. simplify_eq.
  apply with_state_Some in Hm0 as (Ha & _ & _).
  unfold candidate_login_for_room in Ha.
  destruct (rooms (prune_expired_rooms _ _ _) !! h) as [r|] eqn:E; cbn -[prune_expired_rooms] in Ha; [|by simplify_eq].
  apply prune_lookup in E as [? ?]. symmetry in Ha. inv_ok. destruct a. inv_ok. split; [done|].
  exists r. eauto.
Qed.

Lemma store_created_Some c p (w w' : world) u :
  store_created config interference clock (Some c) p w = (w', Some u) →
  created_room_handle c = pending_room_handle p →
  ∃ r, rooms (inner w') !! created_room_handle c = Some r ∧ password_file r = created_password_file c.
Proof.
  unfold store_created. intros Hr E. rewrite bool_decide_eq_true_2 in Hr by done. inv_auth.
  apply with_state_Some in Hm as (Ha & Hi & _). unfold store_room in *.
  destruct (_ <=? _); [cbn in Ha; congruence|]. case_bool_decide; [cbn in Ha; congruence|]. rewrite Hi. cbn.
  rewrite lookup_insert_eq. by eexists.
Qed.

(** C3. A socket is authenticated only after a completed login: the room it is
    let into has a valid handle; a login session was started for that handle
    and finished without error; and the password file of that session was the
    one of a live room of that handle when the lock was held, or one the client
    has just registered itself, as an agent on a server that allows it, in
    which case the room now has it.  Only agents keep an alias. *)
Theorem authenticated_after_login (w w' : world) (ip room : string) (role : ClientRole)
    (alias : option string)
    (Hauth : authenticate_socket ip w = (w', Some (room, role, alias))) :
  valid_handle room ∧ (alias ≠ None → role = Agent) ∧
  ∃ file n request response session fin,
    server_start_login (entropy_at n) pake (str_bytes room) file request = Ok (response, session) ∧
    server_session_finish session fin = Ok () ∧
    let limited := fst (check_auth_rate_limit config (interference (locks w) (inner w))
                          (clock (locks w)) ip) in
    ((∃ r, rooms (interference (S (locks w)) limited) !! room = Some r ∧
       room_live config (clock (S (locks w))) r = true ∧ password_file r = file) ∨
     (role = Agent ∧ allow_agent_room_creation config = true ∧
       ∃ r, rooms (inner w') !! room = Some r ∧ password_file r = file)).
Proof.
  unfold WsAuth.authenticate_socket in Hauth. inv_auth.
  apply with_state_Some in Hm as (_ & Hi1 & Hl1).
  apply receive_init_Some in Hm1 as (Hv & Hl2 & Hi2).
  apply finish_candidate_Some in Hm4 as (_ & Hin & fin & Hfin).
  destruct a2 as [p|].
  - apply existing_login_Some in Hm2 as (Hh & r & Hr & Hlive & n & resp & Hstart).
    apply mret_Some in Hm3 as [[= -> ->] ->]. apply list_elem_of_singleton in Hin as ->. subst.
    split; [done|]. split; [by case_decide|].
    do 6 eexists. split; [exact Hstart|]. split; [exact Hfin|]. cbn zeta. left.
    rewrite Hi2, Hi1, Hl2, Hl1 in Hr. rewrite Hl2, Hl1 in Hlive. eauto.
  - inv_auth.
    match goal with H : register_room _ _ _ _ _ _ _ _ _ = _ |- _ =>
      apply register_room_Some in H as (-> & Ha & Hp & Hc & n & req & resp & Hstart) end.
    apply list_elem_of_singleton in Hin as ->. rewrite Hp.
    split; [done|]. split; [done|].
    do 6 eexists. split; [exact Hstart|]. split; [exact Hfin|]. cbn zeta. right. split_and!; [done..|].
    rewrite <- Hc. eapply store_created_Some; [exact Hm5|congruence].
Qed.

End AuthSpec.

(** ** A handshake that creates a room *)

Section Sample.
(** Four frames of a client whose secret is [42]; the candidate identifier is
    what the random source gives. *)
Definition sample_codec : ClientCodec unit := {|
  parse_client_message text :=
    if decide (text = "init") then Ok (PakeInit Agent " tiger-room " "42" (Some " bob "))
    else if decide (text = "register") then Ok (PakeRegistrationRequest "42")
    else if decide (text = "upload") then Ok (PakeRegistrationUpload "42" "42")
    else if decide (text = "final") then Ok (PakeCredentialFinalization "token" "42")
    else Err "expected value";
|}.

Definition open_config : SecurityConfig :=
  from_env (fun name => if decide (name = "MITB_ALLOW_AGENT_ROOM_CREATION") then Some "yes" else None).

Definition sample_world : world (Value := unit) :=
  World inner_default
    [RecvMessage (WsText "init"); RecvMessage (WsText "register"); RecvMessage (WsText "upload");
     RecvMessage (WsText "final")] [] 0.

Definition sample_auth : world * option (string * ClientRole * option string) :=
  @authenticate_socket unit sample_codec plain_opaque plain_base64 open_config
    (@server_new plain_opaque ()) (fun _ i => i) (fun n => Z.of_nat n) (fun _ => ())
    (fun _ => Ok (str_bytes "token")) "10.0.0.1" sample_world.

Lemma room_created_only_by_agent_login_witness :
  "tiger-room" ∈ dom (rooms (inner sample_auth.1)) ∧
  ∃ alias, sample_auth.2 = Some ("tiger-room", Agent, alias).
Proof.
  assert ("tiger-room" ∈ dom (rooms (inner sample_auth.1))) as Hin.
  { apply (bool_decide_unpack _). vm_compute. exact I. }
  split; [exact Hin|].
  pose proof (@room_created_only_by_agent_login unit sample_codec plain_opaque plain_base64 open_config
    (@server_new plain_opaque ()) (fun _ i => i) (fun n => Z.of_nat n) (fun _ => ())
    (fun _ => Ok (str_bytes "token")) sample_world "10.0.0.1" "tiger-room"
    (fun _ _ => reflexivity _)) as Hr.
  fold sample_auth in Hr. destruct sample_auth as [w' r]. cbn in Hin |- *.
  destruct (Hr Hin) as [_ Hr']; [|exact Hr']. cbn. set_solver.
Defined.

Lemma authenticated_after_login_witness :
  ∃ w', sample_auth = (w', Some ("tiger-room", Agent, Some "bob")) ∧ valid_handle "tiger-room".
Proof.
  exists sample_auth.1.
  assert (sample_auth = (sample_auth.1, Some ("tiger-room", Agent, Some "bob"))) as E.
  { vm_compute. reflexivity. }
  split; [exact E|].
  exact (proj1 (@authenticated_after_login unit sample_codec plain_opaque plain_base64 open_config
    (@server_new plain_opaque ()) (fun _ i => i) (fun n => Z.of_nat n) (fun _ => ())
    (fun _ => Ok (str_bytes "token")) sample_world sample_auth.1 "10.0.0.1" "tiger-room" Agent
    (Some "bob") E)).
Defined.
End Sample.
