(* ===== verification/WsRuntime.v ===== *)
(** * Connections of the server: [mitb-server/src/ws_runtime.rs]

    The connections run as interleaved events over the shared room state, one
    bounded outbound queue and one penalty flag per connection.  Connection
    [n] holds the handle [Handle n n]. *)

From S2P Require Export Server WsAuth.

Definition WS_OUTBOUND_QUEUE_CAPACITY : nat := 256.
Definition WS_RUNTIME_READ_TIMEOUT : Z := from_secs 90.

(** [serde_json::to_string] of a server message. *)
Class ServerCodec (Value : Type) : Type := {
  server_message_to_string : ServerMessage Value → result string string;
}.

Inductive try_send_result : Type := Sent | Full | Closed.

Section Runtime.
Context {Value : Type} `{ClientCodec Value, ServerCodec Value}.
Context (config : SecurityConfig).
Notation Message := (ServerMessage Value).

Record connection := Connection {
  conn_room : string;
  conn_role : ClientRole;
  conn_id : string;
  last_read_at : Z;
}.

(** A queue exists as long as its receiving task runs. *)
Record net := Net {
  shared : StateInner;
  connections : gmap nat connection;
  queues : gmap nat (list Message);
  penalties : gset nat;
  next_connection : nat;
}.

Definition set_shared (w : net) (i : StateInner) : net :=
  Net i (connections w) (queues w) (penalties w) (next_connection w).

Definition set_queue (w : net) (n : nat) (q : list Message) : net :=
  Net (shared w) (connections w) (<[n := q]> (queues w)) (penalties w) (next_connection w).

Definition penalize (w : net) (n : nat) : net :=
  Net (shared w) (connections w) (queues w) ({[ n ]} ∪ penalties w) (next_connection w).

Definition try_send (w : net) (n : nat) (m : Message) : net * try_send_result :=
  match queues w !! n with
  | None => (w, Closed)
  | Some q =>
    if (WS_OUTBOUND_QUEUE_CAPACITY <=? length q)%nat then (w, Full)
    else (set_queue w n (q ++ [m]), Sent)
  end.

Definition enqueue_local_message (w : net) (h : ClientHandle) (m : Message) : net * bool :=
  match try_send w (tx h) m with
  | (w, Sent) => (w, true)
  | (w, Full) => (penalize w (penalized h), false)
  | (w, Closed) => (w, false)
  end.

Definition enqueue_remote_message (w : net) (peer : ClientHandle) (m : Message) : net :=
  match try_send w (tx peer) m with
  | (w, Sent) => w
  | (w, Full) => penalize w (penalized peer)
  | (w, Closed) => w
  end.

Definition broadcast_all (w : net) (messages : list (ClientHandle * Message)) : net :=
  foldl (fun w pm => enqueue_remote_message w pm.1 pm.2) w messages.

Definition handle_incoming_message (w : net) (now : Z) (room_handle client_id : string)
    (own : ClientHandle) (message : ws_message) : net * bool :=
  let local m := enqueue_local_message w own m in
  match message with
  | WsText text =>
    match parse_client_message text with
    | Err error => local (ServerError ("invalid client message: " +:+ error))
    | Ok (PakeInit _ _ _ _) | Ok (PakeRegistrationRequest _) | Ok (PakeRegistrationUpload _ _)
    | Ok (PakeCredentialFinalization _ _) => local (ServerError "client already authenticated")
    | Ok (ClientSignal peer_id payload) =>
      match forward_signal config (shared w) now room_handle client_id peer_id payload with
      | (i, Ok (peer, message)) => (enqueue_remote_message (set_shared w i) peer message, true)
      | (i, Err message) => enqueue_local_message (set_shared w i) own (ServerError message)
      end
    | Ok Ping => local Pong
    end
  | WsBinary _ => local (ServerError "binary websocket frames are not supported")
  | WsClose => (w, false)
  | WsPing _ => local Pong
  | WsPong _ => (w, true)
  end.

(** What the socket's sink answers decides, unless the message cannot be
    serialised. *)
Definition send_outbound_message (sink_ok : bool) (outbound : Message) : bool :=
  match server_message_to_string outbound with Ok _ => sink_ok | Err _ => true end.

(** The initial messages, up to the first that cannot be queued. *)
Fixpoint enqueue_initial (w : net) (own : ClientHandle) (messages : list Message) : net :=
  match messages with
  | [] => w
  | m :: messages =>
    match enqueue_local_message w own m with
    | (w, true) => enqueue_initial w own messages
    | (w, false) => w
    end
  end.

(** [handle_socket] up to its loop, for an authenticated client; [None] is the
    identifier loop of [register] running on. *)
Definition connect (w : net) (now : Z) (room_handle : string) (role : ClientRole)
    (client_alias : option string) : option net :=
  let n := next_connection w in
  let own := Handle n n in
  match register config (shared w) now room_handle role client_alias own with
  | None => None
  | Some (i, Err _) => Some (Net i (connections w) (queues w) (penalties w) (S n))
  | Some (i, Ok registration) =>
    let c := Connection room_handle role (client_id registration) now in
    let w := Net i (<[n := c]> (connections w)) (<[n := []]> (queues w)) (penalties w) (S n) in
    let w := enqueue_initial w own (initial_messages registration) in
    Some (broadcast_all w (broadcasts registration))
  end.

(** The end of [handle_socket]; the receiver is dropped with the task. *)
Definition disconnect (w : net) (now : Z) (n : nat) (c : connection) : net :=
  let '(i, left_messages) :=
    unregister config (shared w) now (conn_room c) (conn_role c) (conn_id c) in
  let w := broadcast_all (set_shared w i) left_messages in
  Net (shared w) (delete n (connections w)) (delete n (queues w)) (penalties w) (next_connection w).

Inductive conn_event : Type :=
| Tick
| Outbound (sink_ok : bool)
| Inbound (message : ws_message)
| InboundError
| InboundEnd.

Definition touch_connection (w : net) (now : Z) (n : nat) (c : connection) : net :=
  Net (shared w) (<[n := Connection (conn_room c) (conn_role c) (conn_id c) now]> (connections w))
    (queues w) (penalties w) (next_connection w).

(** One turn of the [select!]: the state, and whether the loop goes on. *)
Definition select_event (w : net) (now : Z) (n : nat) (c : connection) (e : conn_event)
    : net * bool :=
  match e with
  | Tick =>
    if bool_decide (n ∈ penalties w) then (w, false)
    else if WS_RUNTIME_READ_TIMEOUT <=? saturating_duration_since now (last_read_at c)
    then (w, false) else (w, true)
  | Outbound sink_ok =>
    match queues w !! n with
    | Some (outbound :: rest) => (set_queue w n rest, send_outbound_message sink_ok outbound)
    | _ => (w, true)
    end
  | Inbound message =>
    handle_incoming_message (touch_connection w now n c) now (conn_room c) (conn_id c)
      (Handle n n) message
  | InboundError => (w, false)
  | InboundEnd => (w, false)
  end.

Inductive net_op : Type :=
| NetConnect (room_handle : string) (role : ClientRole) (client_alias : option string)
| NetEvent (n : nat) (e : conn_event)
| NetHandshake (o : op Value).

(** The operations a handshake performs on the shared state. *)
Definition is_handshake_op (o : op Value) : bool :=
  match o with
  | OpLookup | OpStoreRoom _ _ | OpCapacity | OpAuth _ => true
  | _ => false
  end.

Definition net_step (w : net) (now : Z) (o : net_op) : option net :=
  match o with
  | NetConnect room role alias => connect w now room role alias
  | NetEvent n e =>
    match connections w !! n with
    | None => Some w
    | Some c =>
      match select_event w now n c e with
      | (w, true) => Some w
      | (w, false) => Some (disconnect w now n c)
      end
    end
  | NetHandshake o =>
    if is_handshake_op o then set_shared w <$> step config (shared w) now o else Some w
  end.

Definition net_run (w : net) (ops : list (Z * net_op)) : option net :=
  run_steps (fun w x => net_step w x.1 x.2) w ops.

Definition net_new : net := Net inner_default ∅ ∅ ∅ 0.

End Runtime.

(** ** Who is in a room *)

Definition member (inner : StateInner) (h : string) (r : ClientRole) (id : string)
    (hd : ClientHandle) : Prop :=
  ∃ room, rooms inner !! h = Some room ∧ room_side room r !! id = Some hd.

Section Members.
Context {Value : Type} (config : SecurityConfig).

Lemma occupied_live room r id hd now :
  room_side room r !! id = Some hd → room_live config now room = true.
Proof.
  intros Hs. unfold room_live. destruct r; cbn in Hs.
  - rewrite (bool_decide_eq_false_2 (agents room = ∅)); [done|].
    intros E. by rewrite E, lookup_empty in Hs.
  - rewrite (bool_decide_eq_false_2 (zookeepers room = ∅)); [by rewrite orb_true_r|].
    intros E. by rewrite E, lookup_empty in Hs.
Qed.

(** Expiry removes nobody. *)
Lemma member_prune inner now h r id hd :
  member (prune_expired_rooms config inner now) h r id hd ↔ member inner h r id hd.
Proof.
  split; intros (room & Hr & Hs); exists room; (split; [|done]).
  - by apply prune_lookup in Hr as [? _].
  - apply prune_lookup. split; [done|]. by eapply occupied_live.
Qed.

(** Replacing a room by one with the same clients changes no member. *)
Lemma member_replace inner k room room' h r id hd n a :
  rooms inner !! k = Some room → (∀ r', room_side room' r' = room_side room r') →
  member (Inner n (<[k := room']> (rooms inner)) a) h r id hd ↔ member inner h r id hd.
Proof.
  intros Hk Hs. unfold member. cbn. destruct (decide (k = h)) as [->|Hne].
  - rewrite lookup_insert_eq, Hk. split; intros (x & [= <-] & Hx); eexists; (split; [done|]);
      by rewrite ?Hs in *.
  - by rewrite lookup_insert_ne.
Qed.

Lemma member_register inner now k role pref own inner' initial joined id :
  register (Value := Value) config inner now k role pref own
    = Some (inner', Ok (Registered id initial joined)) →
  (∀ r hd, ¬ member inner k r id hd) ∧
  ∀ h r i hd, member inner' h r i hd ↔
    member inner h r i hd ∨ (h = k ∧ r = role ∧ i = id ∧ hd = own).
Proof.
  unfold register. destruct (rooms (prune_expired_rooms _ _ _) !! k) as [room|] eqn:E; [|done].
  destruct (choose_client_id _ _ _ _) as [[n j]|] eqn:Ec; [|done].
  cbn -[prune_expired_rooms]. intros ?. simplify_eq.
  apply choose_client_id_sound in Ec. unfold occupied_client_ids in Ec.
  apply not_elem_of_union in Ec as [Ha Hz]. rewrite not_elem_of_dom in Ha. rewrite not_elem_of_dom in Hz.
  assert (∀ r, room_side room r !! id = None) as Hfree by by intros [].
  split.
  - intros r hd Hm. apply (member_prune _ now) in Hm as (room' & E' & Hs). simplify_eq.
    by rewrite Hfree in Hs.
  - intros h r i hd. rewrite <- (member_prune inner now). unfold member. cbn [rooms].
    destruct (decide (k = h)) as [->|Hne].
    + rewrite lookup_insert_eq, E.
      assert (room_side (room_insert (room_touch room now) role id own) r =
        if decide (r = role) then <[id := own]> (room_side room r) else room_side room r) as Hside.
      { by destruct role, r. }
      split.
      * intros (x & [= <-] & Hx). rewrite Hside in Hx. case_decide as Er; [|by left; eauto].
        apply lookup_insert_Some in Hx as [[? ?]|[? ?]]; [subst; by right|left; eauto].
      * intros [(x & [= <-] & Hx)|(_ & -> & -> & ->)]; eexists; (split; [done|]); rewrite Hside.
        -- case_decide; [|done]. rewrite lookup_insert_ne; [done|]. intros ->. by rewrite Hfree in Hx.
        -- rewrite decide_True by done. by rewrite lookup_insert_eq.
    + rewrite lookup_insert_ne by done. naive_solver.
Qed.

Lemma member_unregister inner now k role id h r i hd :
  member (fst (unregister (Value := Value) config inner now k role id)) h r i hd ↔
  member inner h r i hd ∧ ¬ (h = k ∧ r = role ∧ i = id).
Proof.
  rewrite <- (member_prune inner now h). unfold unregister.
  destruct (rooms (prune_expired_rooms config inner now) !! k) as [room|] eqn:E.
  2: { cbn [fst]. rewrite member_prune. split; [|tauto]. intros Hm. split; [done|].
       intros (-> & _). destruct Hm as (x & Hx & _). congruence. }
  destruct (room_side room role !! id) as [own|] eqn:Es; cbn [fst]; rewrite member_prune.
  2: { split; [|tauto]. intros Hm. split; [done|]. intros (-> & -> & ->).
       destruct Hm as (x & Hx & Hy). congruence. }
  unfold member at 1. cbn [set_rooms rooms]. destruct (decide (k = h)) as [->|Hne].
  - rewrite lookup_insert_eq. unfold member. rewrite E.
    assert (room_side (room_touch (room_remove room role id) now) r =
      if decide (r = role) then delete id (room_side room r) else room_side room r) as Hside.
    { by destruct role, r. }
    split.
    + intros (x & [= <-] & Hx). rewrite Hside in Hx. case_decide as Er.
      * apply lookup_delete_Some in Hx as [? ?]. split; [by eauto|]. naive_solver.
      * split; [by eauto|]. naive_solver.
    + intros ((x & [= <-] & Hx) & Hn). eexists. split; [done|]. rewrite Hside. case_decide; [|done].
      apply lookup_delete_Some. split; [|done]. naive_solver.
  - rewrite lookup_insert_ne by done. fold (member (prune_expired_rooms config inner now) h r i hd).
    naive_solver.
Qed.

Lemma member_signal inner now k s p (payload : Value) h r i hd :
  member (fst (forward_signal config inner now k s p payload)) h r i hd ↔ member inner h r i hd.
Proof.
  rewrite <- (member_prune inner now h). unfold forward_signal.
  destruct (rooms (prune_expired_rooms config inner now) !! k) as [room|] eqn:E; [|done].
  destruct (_ <=? _); cbn [fst]; apply (member_replace _ _ room); done || by intros [].
Qed.

Lemma member_handshake inner now (o : op Value) inner' h r i hd :
  is_handshake_op o = true → step config inner now o = Some inner' →
  member inner' h r i hd ↔ member inner h r i hd.
Proof.
  intros Ho Hst. rewrite <- (member_prune inner now h).
  destruct o; try done; cbn [step] in Hst; injection Hst as <-; try done.
  - unfold store_room. destruct (_ <=? _); [done|]. case_bool_decide as Hnone; [done|].
    unfold member. cbn [fst set_rooms rooms]. destruct (decide (room_handle = h)) as [->|Hne].
    + rewrite lookup_insert_eq. apply eq_None_not_Some in Hnone. rewrite Hnone.
      split; [|by intros (? & ? & _)]. intros (x & [= <-] & Hx). by destruct r.
    + by rewrite lookup_insert_ne.
  - unfold ensure_room_capacity. by destruct (_ <=? _).
  - unfold check_auth_rate_limit. by destruct (_ <=? _).
Qed.

End Members.

(** ** Queues *)

Section Invariant.
Context {Value : Type} `{ClientCodec Value, ServerCodec Value}.
Context (config : SecurityConfig).
Notation net := (net (Value := Value)).
Notation Message := (ServerMessage Value).

Definition bounded (w : net) : Prop :=
  map_Forall (fun _ q => (length q ≤ WS_OUTBOUND_QUEUE_CAPACITY)%nat) (queues w).

(** Sending touches queues and penalties only, opens and closes none, and
    keeps the bound. *)
Definition sends (w w' : net) : Prop :=
  shared w' = shared w ∧ connections w' = connections w ∧
  next_connection w' = next_connection w ∧ dom (queues w') = dom (queues w) ∧
  (bounded w → bounded w').

#[export] Instance sends_preorder : PreOrder sends.
Proof.
  split; [by intros x; unfold sends; split_and!|]. intros x y z (? & ? & ? & ? & ?) (? & ? & ? & ? & ?).
  unfold sends. split_and!; try congruence. auto.
Qed.

Lemma sends_try_send w n m : sends w (try_send w n m).1.
Proof.
  unfold try_send. destruct (queues w !! n) as [q|] eqn:E; [|done].
  destruct (_ <=? _)%nat eqn:El; [done|]. zb. unfold sends. split_and!; try done; cbn.
  - rewrite dom_insert_lookup_L; [done|by eexists].
  - intros Hb. apply map_Forall_insert_2; [|done]. rewrite length_app. cbn. lia.
Qed.

Lemma sends_penalize w n : sends w (penalize w n).
Proof. unfold sends. by split_and!. Qed.

Lemma sends_local w h m : sends w (enqueue_local_message w h m).1.
Proof.
  unfold enqueue_local_message. pose proof (sends_try_send w (tx h) m) as Hs.
  destruct (try_send w (tx h) m) as [w' []]; cbn in *; [done| |done].
  etrans; [exact Hs|apply sends_penalize].
Qed.

Lemma sends_remote w h m : sends w (enqueue_remote_message w h m).
Proof.
  unfold enqueue_remote_message. pose proof (sends_try_send w (tx h) m) as Hs.
  destruct (try_send w (tx h) m) as [w' []]; cbn in *; [done| |done].
  etrans; [exact Hs|apply sends_penalize].
Qed.

Lemma sends_broadcast w l : sends w (broadcast_all w l).
Proof.
  unfold broadcast_all. revert w. induction l as [|x l IH]; intros w; cbn; [done|].
  etrans; [apply sends_remote|apply IH].
Qed.

Lemma sends_initial w h l : sends w (enqueue_initial w h l).
Proof.
  revert w. induction l as [|m l IH]; intros w; cbn; [done|].
  pose proof (sends_local w h m) as Hs. destruct (enqueue_local_message w h m) as [w' []]; [|done].
  etrans; [exact Hs|apply IH].
Qed.

(** ** The invariant *)

Definition own_handle (n : nat) : ClientHandle := Handle n n.

(** The members of the rooms of [i] are exactly the connections of [cs], each
    with its own handle; [next] is new. *)
Definition members_ok (i : StateInner) (cs : gmap nat connection) (next : nat) : Prop :=
  (∀ n, is_Some (cs !! n) → (n < next)%nat) ∧
  ∀ h r id hd, member i h r id hd ↔
    ∃ n c, cs !! n = Some c ∧ hd = own_handle n ∧
      conn_room c = h ∧ conn_role c = r ∧ conn_id c = id.

Lemma members_ok_shared i i' cs next :
  (∀ h r id hd, member i' h r id hd ↔ member i h r id hd) → members_ok i cs next →
  members_ok i' cs next.
Proof. intros Hi [? Hm]. split; [done|]. intros. by rewrite Hi, Hm. Qed.

Lemma members_ok_register i cs next now h r alias i' id initial joined :
  register (Value := Value) config i now h r alias (own_handle next) = Some (i', Ok (Registered id initial joined)) →
  members_ok i cs next → members_ok i' (<[next := Connection h r id now]> cs) (S next).
Proof.
  intros [_ Hmem]%member_register [Hn Hm]. split.
  - intros n Hs. destruct (decide (n = next)) as [->|]; [lia|].
    rewrite lookup_insert_ne in Hs by done. apply Hn in Hs. lia.
  - intros k r' id' hd. rewrite Hmem, Hm. split.
    + intros [(n & c & Hc & -> & <- & <- & <-)|(-> & -> & -> & ->)].
      * exists n, c. rewrite lookup_insert_ne; [done|]. intros E.
        assert (n < next)%nat by (apply Hn; by eexists). lia.
      * eexists _, _. by rewrite lookup_insert_eq.
    + intros (n & c & Hc & -> & <- & <- & <-). apply lookup_insert_Some in Hc as [[<- <-]|[Hne Hc]].
      * by right.
      * left. by exists n, c.
Qed.

Lemma register_refused i now h r alias hd i' e :
  register (Value := Value) config i now h r alias hd = Some (i', Err e) →
  ∀ k r' id hd', member i' k r' id hd' ↔ member i k r' id hd'.
Proof.
  unfold register. destruct (_ !! h).
  - destruct (choose_client_id _ _ _ _) as [[? ?]|]; cbn; intros; by simplify_eq.
  - intros. simplify_eq. apply member_prune.
Qed.

Lemma members_ok_unregister i cs next now n c :
  cs !! n = Some c → members_ok i cs next →
  members_ok (fst (unregister (Value := Value) config i now (conn_room c) (conn_role c) (conn_id c))) (delete n cs) next.
Proof.
  intros Hc [Hn Hm]. split.
  - intros k [x [_ Hk]%lookup_delete_Some]. apply Hn. by eexists.
  - intros h r id hd. rewrite member_unregister, Hm. split.
    + intros [(k & d & Hd & -> & <- & <- & <-) Hne]. exists k, d. split; [|done].
      apply lookup_delete_Some. split; [|done]. intros ->. simplify_eq. tauto.
    + intros (k & d & Hd & -> & <- & <- & <-). apply lookup_delete_Some in Hd as [Hne Hd].
      split; [by exists k, d|]. intros (E1 & E2 & E3).
      assert (member i (conn_room c) (conn_role c) (conn_id c) (own_handle k)) as (r1 & Hr1 & Hs1).
      { apply Hm. by exists k, d. }
      assert (member i (conn_room c) (conn_role c) (conn_id c) (own_handle n)) as (r2 & Hr2 & Hs2).
      { apply Hm. by exists n, c. }
      unfold own_handle in *. by simplify_eq.
Qed.

Lemma members_ok_touch i cs next n c now :
  cs !! n = Some c → members_ok i cs next →
  members_ok i (<[n := Connection (conn_room c) (conn_role c) (conn_id c) now]> cs) next.
Proof.
  intros Hc [Hn Hm]. split.
  - intros k Hk. apply Hn. destruct (decide (k = n)) as [->|]; [by eexists|].
    by rewrite lookup_insert_ne in Hk.
  - intros h r id hd. rewrite Hm. split; intros (k & d & Hd & -> & <- & <- & <-).
    + destruct (decide (k = n)) as [->|Hne].
      * simplify_eq. eexists n, _. by rewrite lookup_insert_eq.
      * exists k, d. by rewrite lookup_insert_ne.
    + apply lookup_insert_Some in Hd as [[<- <-]|[Hne Hd]]; [by exists n, c|by exists k, d].
Qed.

(** The members of the rooms are the running connections; queues are bounded,
    and there is one for each connection. *)
Definition net_ok (w : net) : Prop :=
  bounded w ∧ dom (queues w) = dom (connections w) ∧
  members_ok (shared w) (connections w) (next_connection w).

Lemma net_ok_sends w w' : sends w w' → net_ok w → net_ok w'.
Proof.
  intros (Hs & Hc & Hn & Hq & Hb) (? & ? & ?). unfold net_ok. rewrite Hs, Hc, Hn, Hq. auto.
Qed.

(** A turn of a loop: it opens and closes no queue, starts and ends no
    connection, and keeps the bound and the members. *)
Definition turns (w w' : net) : Prop :=
  (bounded w → bounded w') ∧ dom (queues w') = dom (queues w) ∧
  dom (connections w') = dom (connections w) ∧ next_connection w' = next_connection w ∧
  (members_ok (shared w) (connections w) (next_connection w) →
   members_ok (shared w') (connections w') (next_connection w')).

#[export] Instance turns_preorder : PreOrder turns.
Proof.
  split; [by intros x; unfold turns; split_and!|]. intros x y z (? & ? & ? & ? & ?) (? & ? & ? & ? & ?).
  unfold turns. split_and!; try congruence; auto.
Qed.

Lemma turns_sends w w' : sends w w' → turns w w'.
Proof. intros (Hs & Hc & Hn & Hq & Hb). unfold turns. by rewrite Hs, Hc, Hn, Hq. Qed.

Lemma turns_shared w i :
  (∀ h r id hd, member i h r id hd ↔ member (shared w) h r id hd) → turns w (set_shared w i).
Proof. intros Hi. unfold turns. split_and!; try done. by apply members_ok_shared. Qed.

Lemma turns_touch w now n c : connections w !! n = Some c → turns w (touch_connection w now n c).
Proof.
  intros Hc. unfold turns. split_and!; cbn; try done.
  - rewrite dom_insert_lookup_L; [done|by eexists].
  - by apply members_ok_touch.
Qed.

Lemma turns_ok w w' : turns w w' → net_ok w → net_ok w'.
Proof. intros (Hb & Hq & Hc & Hn & Hm) (? & ? & ?). unfold net_ok. rewrite Hq, Hc. auto. Qed.

(** Changing the shared state without changing its members. *)
Lemma net_ok_shared w i :
  (∀ h r id hd, member i h r id hd ↔ member (shared w) h r id hd) → net_ok w →
  net_ok (set_shared w i).
Proof.
  intros Hi (? & ? & ?). split_and!; try done. by eapply members_ok_shared.
Qed.

Lemma net_ok_connect w now h r alias w' :
  net_ok w → connect config w now h r alias = Some w' → net_ok w'.
Proof.
  intros Hok. unfold connect.
  destruct (register _ _ _ _ _ _ _) as [[i [[id initial joined]|e]]|] eqn:E; [..|done]; intros [= <-].
  - eapply net_ok_sends; [apply sends_broadcast|]. eapply net_ok_sends; [apply sends_initial|].
    destruct Hok as (Hb & Hq & Hm). unfold net_ok. split_and!; cbn.
    + apply map_Forall_insert_2; [cbn; lia|done].
    + by rewrite !dom_insert_L, Hq.
    + by eapply members_ok_register.
  - destruct Hok as (Hb & Hq & Hm). unfold net_ok. split_and!; try done.
    apply (members_ok_shared (shared w)); [by eapply register_refused|].
    destruct Hm as [Hn Hm]. split; [|done]. intros n Hs. apply Hn in Hs. cbn. lia.
Qed.

Lemma net_ok_disconnect w now n c :
  net_ok w → connections w !! n = Some c → net_ok (disconnect config w now n c).
Proof.
  intros (Hb & Hq & Hm) Hc. unfold disconnect.
  pose proof (members_ok_unregister _ _ _ now n c Hc Hm) as Hu.
  destruct (unregister _ _ _ _ _ _) as [i gone]. cbn [fst] in Hu.
  pose proof (sends_broadcast (set_shared w i) gone) as (Hs & Hcs & Hns & Hqs & Hbs).
  cbn in Hs, Hcs, Hns, Hqs. unfold net_ok. split_and!; cbn; rewrite ?Hcs, ?Hs, ?Hns.
  - apply map_Forall_delete. by apply Hbs.
  - by rewrite !dom_delete_L, Hqs, Hq.
  - done.
Qed.

Lemma turns_incoming w now h id own m :
  turns w (handle_incoming_message config w now h id own m).1.
Proof.
  assert (∀ m, turns w (enqueue_local_message w own m).1) as Hl.
  { intros. apply turns_sends, sends_local. }
  destruct m as [text| | | |]; cbn; auto; try done.
  destruct (parse_client_message text) as [[| | | |peer payload|]|e]; auto; try done.
  pose proof (member_signal config (shared w) now h id peer payload) as Hsig.
  destruct (forward_signal _ _ _ _ _ _ _) as [i [[p msg]|e]]; cbn in Hsig |- *;
    (etrans; [by apply turns_shared|]); apply turns_sends; [apply sends_remote|apply sends_local].
Qed.

Lemma connections_incoming (w : net) now h id own m :
  connections (handle_incoming_message config w now h id own m).1 = connections w.
Proof.
  assert (∀ (x : net) m, connections (enqueue_local_message x own m).1 = connections x) as Hl.
  { intros x m'. by destruct (sends_local x own m') as (_ & ? & _). }
  destruct m as [text| | | |]; cbn; auto.
  destruct (parse_client_message text) as [[| | | |peer payload|]|err]; auto.
  destruct (forward_signal _ _ _ _ _ _ _) as [i [[p msg]|e]]; cbn; [|by rewrite Hl].
  by destruct (sends_remote (set_shared w i) p msg) as (_ & -> & _).
Qed.

(** The connection keeps its room, role and identifier over a turn. *)
Lemma select_event_ok w now n c e :
  connections w !! n = Some c →
  let w' := (select_event config w now n c e).1 in
  turns w w' ∧ ∃ c', connections w' !! n = Some c' ∧
    conn_room c' = conn_room c ∧ conn_role c' = conn_role c ∧ conn_id c' = conn_id c.
Proof.
  intros Hc. assert (∃ c', connections w !! n = Some c' ∧ conn_room c' = conn_room c ∧
    conn_role c' = conn_role c ∧ conn_id c' = conn_id c) as Hsame by (exists c; done).
  destruct e as [|sink_ok|m| |]; cbn; try done.
  - destruct (bool_decide _); [done|]. by destruct (_ <=? _).
  - destruct (queues w !! n) as [[|x q]|] eqn:E; cbn; [done| |done].
    split; [|done]. unfold turns. split_and!; cbn; try done.
    + intros Hb. apply map_Forall_insert_2; [|done]. apply Hb in E. cbn in E. lia.
    + rewrite dom_insert_lookup_L; [done|by eexists].
  - split; [etrans; [by apply turns_touch|apply turns_incoming]|].
    rewrite connections_incoming. eexists. cbn. by rewrite lookup_insert_eq.
Qed.

Lemma net_step_ok w now o w' : net_ok w → net_step config w now o = Some w' → net_ok w'.
Proof.
  intros Hok. destruct o as [h r alias|n e|o]; cbn.
  - by apply net_ok_connect.
  - destruct (connections w !! n) as [c|] eqn:Hc; [|by intros [= <-]].
    destruct (select_event_ok w now n c e Hc) as (Hturn & c' & Hc' & E1 & E2 & E3).
    pose proof (turns_ok _ _ Hturn Hok) as Hok'. clear Hturn.
    destruct (select_event config w now n c e) as [w1 []]; intros [= <-]; [done|].
    cbn in Hc', Hok'. pose proof (net_ok_disconnect w1 now n c' Hok' Hc') as Hd.
    unfold disconnect in *. by rewrite E1, E2, E3 in Hd.
  - destruct (is_handshake_op o) eqn:Eo; [|by intros [= <-]].
    destruct (step config (shared w) now o) as [i|] eqn:E; [|done]. cbn. intros [= <-].
    apply net_ok_shared; [|done]. intros. by eapply member_handshake.
Qed.

Lemma net_new_ok : net_ok (net_new (Value := Value)).
Proof.
  unfold net_ok, members_ok. split_and!; cbn; [apply map_Forall_empty|done|intros n [? Hn]; by rewrite lookup_empty in Hn|].
  intros h r id hd. unfold member. cbn. split; [by intros (? & ? & _)|by intros (? & ? & ? & _)].
Qed.

Lemma net_run_ok (ops : list (Z * net_op (Value := Value))) (w : net) :
  net_run config (net_new (Value := Value)) ops = Some w → net_ok w.
Proof.
  intros Hrun. refine (run_steps_preserve _ net_ok _ _ _ _ Hrun net_new_ok).
  intros s [now o] s' E Hs. exact (net_step_ok s now o s' Hs E).
Qed.

(** One worker thread (see [WsThreads.v] for more).  However connections come, go and talk, interleaved with each other and
    with the handshakes of others: the members of the rooms are exactly the
    running connections, each under the room, role and identifier it was given
    and reachable through its own queue only (so nobody stays behind after a
    disconnect, and nobody connected is dropped by expiry); and no outbound
    queue ever holds more than its capacity. *)
Theorem members_are_connections (ops : list (Z * net_op (Value := Value))) (w : net)
    (Hrun : net_run config (net_new (Value := Value)) ops = Some w) :
  net_ok w.
Proof. by eapply net_run_ok. Qed.

(** A client that does not drain its queue is cut off: a message for a full
    queue is dropped and its owner penalised, whoever sent it, and at its next
    tick the owner's loop ends and it is no member any more. *)
Theorem slow_client_is_disconnected (w : net) (n : nat) (c : connection) (q : list Message)
    (m : Message) (now : Z)
    (Hok : net_ok w) (Hc : connections w !! n = Some c)
    (Hq : queues w !! n = Some q) (Hfull : length q = WS_OUTBOUND_QUEUE_CAPACITY) :
  let w1 := enqueue_remote_message w (own_handle n) m in
  queues w1 = queues w ∧ n ∈ penalties w1 ∧
  ∃ w2, net_step config w1 now (NetEvent n Tick) = Some w2 ∧
    connections w2 !! n = None ∧ queues w2 !! n = None ∧
    ¬ member (shared w2) (conn_room c) (conn_role c) (conn_id c) (own_handle n).
Proof.
  intros w1. assert (w1 = penalize w n) as E.
  { unfold w1, enqueue_remote_message, try_send. cbn. rewrite Hq.
    destruct (_ <=? _)%nat eqn:El; [done|]. zb. lia. }
  rewrite E. clear w1 E. split; [done|]. split; [set_solver|].
  assert (net_ok (penalize w n)) as Hok1 by (eapply net_ok_sends; [apply sends_penalize|done]).
  exists (disconnect config (penalize w n) now n c). split.
  { cbn. rewrite Hc. rewrite bool_decide_eq_true_2 by set_solver. done. }
  pose proof (net_ok_disconnect (penalize w n) now n c Hok1 Hc) as (_ & _ & _ & Hm).
  unfold disconnect in *. destruct (unregister _ _ _ _ _ _) as [i gone]. cbn in *.
  rewrite !lookup_delete_eq. split_and!; try done. rewrite Hm.
  intros (k & d & Hd & Hk & _). injection Hk as <-. by rewrite lookup_delete_eq in Hd.
Qed.

End Invariant.

Section Sample.
#[local] Instance sample_client_codec : ClientCodec unit := {|
  parse_client_message text := if decide (text = "ping") then Ok Ping else Err "expected value";
|}.
#[local] Instance sample_server_codec : ServerCodec unit := {|
  server_message_to_string m := Ok "{}";
|}.

Definition sample_config : SecurityConfig := from_env (fun _ => None).

(** A room with one agent that never drains its queue. *)
Definition sample_ops (pings : nat) : list (Z * net_op (Value := unit)) :=
  (1, NetHandshake (OpStoreRoom "room" [])) :: (2, NetConnect "room" Agent (Some "bob")) ::
  replicate pings (3, NetEvent 0 (Inbound (WsText "ping"))).

Definition sample_net (pings : nat) : net (Value := unit) :=
  default net_new (net_run sample_config net_new (sample_ops pings)).

Lemma members_are_connections_witness : net_ok (sample_net 3).
Proof. apply (members_are_connections sample_config (sample_ops 3)). vm_compute. reflexivity. Defined.

Lemma slow_client_is_disconnected_witness :
  ∃ c, connections (sample_net 255) !! 0%nat = Some c ∧
  let w1 := enqueue_remote_message (sample_net 255) (own_handle 0) Pong in
  ∃ w2, net_step sample_config w1 4 (NetEvent 0 Tick) = Some w2 ∧ connections w2 !! 0%nat = None.
Proof.
  assert (net_run sample_config net_new (sample_ops 255) = Some (sample_net 255)) as Hrun
    by (vm_compute; reflexivity).
  assert (∃ q, queues (sample_net 255) !! 0%nat = Some q ∧ length q = WS_OUTBOUND_QUEUE_CAPACITY)
    as (q & Hq & Hlen).
  { eexists. split; [vm_compute; reflexivity|reflexivity]. }
  exists (Connection "room" Agent "bob" 3).
  assert (connections (sample_net 255) !! 0%nat = Some (Connection "room" Agent "bob" 3)) as Hc
    by (vm_compute; reflexivity).
  split; [exact Hc|]. intros w1.
  destruct (slow_client_is_disconnected sample_config (sample_net 255) 0
    (Connection "room" Agent "bob" 3) q Pong 4 (net_run_ok _ _ _ Hrun) Hc Hq Hlen)
    as (_ & _ & w2 & H1 & H2 & _).
  exists w2. exact (conj H1 H2).
Defined.
End Sample.
