(* ===== verification/WsThreads.v ===== *)
(** * Connections as concurrent tasks: [mitb-server/src/ws_runtime.rs]

    [WsRuntime.v] lets a task run from one [select!] to the next at once, which
    is what a runtime with one worker thread does.  With more of them
    (the default, see [ServerMain.v]) the tasks meet between any two accesses to
    what they share: the state, under its lock, and each queue.  Here every such
    access is a step of its own. *)

From S2P Require Export WsRuntime.

Section Tasks.
Context {Value : Type} `{ClientCodec Value, ServerCodec Value}.
Context (config : SecurityConfig).
Notation Message := (ServerMessage Value).
Notation net := (net (Value := Value)).

(** Where [handle_socket] is: sending the initial messages and then the
    broadcasts of the registration, in its loop, about to send what
    [forward_signal] answered, past the loop, or sending the broadcasts of
    [unregister]. *)
Inductive phase : Type :=
| Starting (initial : list Message) (joined : list (ClientHandle * Message))
| Looping
| Routing (peer : ClientHandle) (message : Message)
| Refusing (message : Message)
| Ending
| Closing (gone : list (ClientHandle * Message)).

(** [connections] holds those that are registered. *)
Record tasks := Tasks { net_of : net; phases : gmap nat phase }.

Definition to_phase (t : tasks) (n : nat) (w : net) (ph : phase) : tasks :=
  Tasks w (<[n := ph]> (phases t)).

Definition spawn (t : tasks) (now : Z) (room_handle : string) (role : ClientRole)
    (client_alias : option string) : option tasks :=
  let w := net_of t in
  let n := next_connection w in
  match register config (shared w) now room_handle role client_alias (Handle n n) with
  | None => None
  | Some (i, Err _) =>
    Some (Tasks (Net i (connections w) (queues w) (penalties w) (S n)) (phases t))
  | Some (i, Ok registration) =>
    let c := Connection room_handle role (client_id registration) now in
    Some (to_phase t n (Net i (<[n := c]> (connections w)) (<[n := []]> (queues w)) (penalties w) (S n))
            (Starting (initial_messages registration) (broadcasts registration)))
  end.

(** The task goes on with what it is at. *)
Definition advance (t : tasks) (now : Z) (n : nat) : tasks :=
  let w := net_of t in
  match phases t !! n with
  | Some (Starting (m :: initial) joined) =>
    let '(w, sent) := enqueue_local_message w (Handle n n) m in
    to_phase t n w (Starting (if sent then initial else []) joined)
  | Some (Starting [] ((peer, m) :: joined)) =>
    to_phase t n (enqueue_remote_message w peer m) (Starting [] joined)
  | Some (Starting [] []) =>
    match connections w !! n with
    | Some c => to_phase t n (touch_connection w now n c) Looping
    | None => t
    end
  | Some (Routing peer m) => to_phase t n (enqueue_remote_message w peer m) Looping
  | Some (Refusing m) =>
    let '(w, sent) := enqueue_local_message w (Handle n n) m in
    to_phase t n w (if sent then Looping else Ending)
  | Some Ending =>
    match connections w !! n with
    | Some c =>
      let '(i, gone) := unregister config (shared w) now (conn_room c) (conn_role c) (conn_id c) in
      to_phase t n (Net i (delete n (connections w)) (queues w) (penalties w) (next_connection w))
        (Closing gone)
    | None => t
    end
  | Some (Closing ((peer, m) :: gone)) => to_phase t n (enqueue_remote_message w peer m) (Closing gone)
  | Some (Closing []) =>
    Tasks (Net (shared w) (connections w) (delete n (queues w)) (penalties w) (next_connection w))
      (delete n (phases t))
  | Some Looping | None => t
  end.

(** One [select!], up to the send that follows [forward_signal]. *)
Definition select (t : tasks) (now : Z) (n : nat) (e : conn_event) : tasks :=
  let w := net_of t in
  match phases t !! n, connections w !! n with
  | Some Looping, Some c =>
    let turn :=
      let '(w, go_on) := select_event config w now n c e in
      to_phase t n w (if go_on then Looping else Ending) in
    match e with
    | Inbound (WsText text) =>
      match parse_client_message text with
      | Ok (ClientSignal peer_id payload) =>
        let w := touch_connection w now n c in
        match forward_signal config (shared w) now (conn_room c) (conn_id c) peer_id payload with
        | (i, Ok (peer, message)) => to_phase t n (set_shared w i) (Routing peer message)
        | (i, Err message) => to_phase t n (set_shared w i) (Refusing (ServerError message))
        end
      | _ => turn
      end
    | _ => turn
    end
  | _, _ => t
  end.

Inductive task_op : Type :=
| Spawn (room_handle : string) (role : ClientRole) (client_alias : option string)
| Advance (n : nat)
| Select (n : nat) (e : conn_event)
| Handshake (o : op Value).

Definition task_step (t : tasks) (now : Z) (o : task_op) : option tasks :=
  match o with
  | Spawn room role alias => spawn t now room role alias
  | Advance n => Some (advance t now n)
  | Select n e => Some (select t now n e)
  | Handshake o =>
    if is_handshake_op o
    then (fun i => Tasks (set_shared (net_of t) i) (phases t)) <$> step config (shared (net_of t)) now o
    else Some t
  end.

Definition task_run (t : tasks) (ops : list (Z * task_op)) : option tasks :=
  run_steps (fun t x => task_step t x.1 x.2) t ops.

Definition tasks_new : tasks := Tasks net_new ∅.

(** ** The invariant *)

Definition registered (ph : phase) : bool := match ph with Closing _ => false | _ => true end.

(** The members are the registered connections; each task has its queue until
    it ends, and is registered until it has left; queues are bounded. *)
Definition tasks_ok (t : tasks) : Prop :=
  let w := net_of t in
  bounded w ∧ dom (queues w) = dom (phases t) ∧
  members_ok (shared w) (connections w) (next_connection w) ∧
  (∀ n, is_Some (connections w !! n) ↔ registered <$> phases t !! n = Some true) ∧
  ∀ n, is_Some (phases t !! n) → (n < next_connection w)%nat.

Lemma to_phase_ok t n ph w ph' :
  phases t !! n = Some ph → registered ph' = registered ph → turns (net_of t) w →
  tasks_ok t → tasks_ok (to_phase t n w ph').
Proof.
  intros Hph Hr (Hb & Hq & Hc & Hn & Hm) (Hb0 & Hq0 & Hm0 & Hreg & Hlt).
  unfold tasks_ok. cbn. split_and!; auto.
  - rewrite Hq, Hq0, dom_insert_lookup_L; [done|by eexists].
  - intros k. rewrite <- elem_of_dom, Hc, elem_of_dom, Hreg. destruct (decide (k = n)) as [->|].
    + rewrite lookup_insert_eq, Hph. cbn. by rewrite Hr.
    + by rewrite lookup_insert_ne.
  - intros k Hk. rewrite Hn. apply Hlt. destruct (decide (k = n)) as [->|]; [by eexists|].
    by rewrite lookup_insert_ne in Hk.
Qed.

Lemma task_spawn_ok t now h r alias t' : spawn t now h r alias = Some t' → tasks_ok t → tasks_ok t'.
Proof.
  intros E (Hb & Hq & Hm & Hreg & Hlt). revert E. unfold spawn.
  set (n := next_connection (net_of t)) in *.
  destruct (register _ _ _ _ _ _ _) as [[i [[id initial joined]|e]]|] eqn:E; [..|done]; intros [= <-].
  - unfold tasks_ok. cbn. split_and!.
    + apply map_Forall_insert_2; [cbn; lia|done].
    + by rewrite !dom_insert_L, Hq.
    + by eapply members_ok_register.
    + intros k. destruct (decide (k = n)) as [->|]; [by rewrite !lookup_insert_eq|].
      by rewrite !lookup_insert_ne by done.
    + intros k Hk. destruct (decide (k = n)) as [->|]; [lia|]. rewrite lookup_insert_ne in Hk by done.
      apply Hlt in Hk. fold n in Hk. lia.
  - unfold tasks_ok. cbn. split_and!; try done.
    + apply (members_ok_shared (shared (net_of t))); [by eapply register_refused|].
      destruct Hm as [Hn Hm]. split; [|done]. intros k Hk. apply Hn in Hk. lia.
    + intros k Hk. apply Hlt in Hk. fold n in Hk. lia.
Qed.

Lemma advance_ok t now n : tasks_ok t → tasks_ok (advance t now n).
Proof.
  intros Hok. unfold advance. destruct (phases t !! n) as [ph|] eqn:Hph; [|done].
  assert (∀ m, turns (net_of t) (enqueue_local_message (net_of t) (Handle n n) m).1) as Hl
    by (intros; apply turns_sends, sends_local).
  assert (∀ p m, turns (net_of t) (enqueue_remote_message (net_of t) p m)) as Hr
    by (intros; apply turns_sends, sends_remote).
  destruct ph as [[|m initial] [|[p m'] joined]| |p m|m| |[|[p m] gone]]; try done;
    try (by eapply to_phase_ok); try (specialize (Hl m)).
  - destruct (connections (net_of t) !! n) as [c|] eqn:Hc; [|done].
    eapply to_phase_ok; [done..|by apply turns_touch|done].
  - destruct (enqueue_local_message _ _ _) as [w []]; by eapply to_phase_ok.
  - destruct (enqueue_local_message _ _ _) as [w []]; by eapply to_phase_ok.
  - destruct (enqueue_local_message _ _ _) as [w []]; by eapply to_phase_ok.
  - destruct (connections (net_of t) !! n) as [c|] eqn:Hc; [|done].
    destruct Hok as (Hb & Hq & Hm & Hreg & Hlt).
    pose proof (members_ok_unregister (Value := Value) config _ _ _ now n c Hc Hm) as Hu.
    destruct (unregister _ _ _ _ _ _) as [i gone]. unfold tasks_ok. cbn in *. split_and!; try done.
    + rewrite dom_insert_lookup_L; [done|by eexists].
    + intros k. destruct (decide (k = n)) as [->|].
      * rewrite lookup_delete_eq, lookup_insert_eq. split; [by intros [? ?]|done].
      * by rewrite lookup_delete_ne, lookup_insert_ne.
    + intros k Hk. apply Hlt. destruct (decide (k = n)) as [->|]; [by eexists|].
      by rewrite lookup_insert_ne in Hk.
  - destruct Hok as (Hb & Hq & Hm & Hreg & Hlt). unfold tasks_ok. cbn. split_and!; try done.
    + by apply map_Forall_delete.
    + by rewrite !dom_delete_L, Hq.
    + intros k. destruct (decide (k = n)) as [->|]; [|by rewrite lookup_delete_ne].
      rewrite lookup_delete_eq, Hreg, Hph. done.
    + intros k [x [_ Hk]%lookup_delete_Some]. apply Hlt. by eexists.
Qed.

Lemma select_ok t now n e : tasks_ok t → tasks_ok (select t now n e).
Proof.
  intros Hok. unfold select. destruct (phases t !! n) as [[]|] eqn:Hph; try done.
  destruct (connections (net_of t) !! n) as [c|] eqn:Hc; [|done].
  destruct (select_event_ok config (net_of t) now n c e Hc) as [Hturn _].
  assert (tasks_ok (let '(w, go_on) := select_event config (net_of t) now n c e in
    to_phase t n w (if go_on then Looping else Ending))) as Hturn'.
  { destruct (select_event _ _ _ _ _ _) as [w []]; by eapply to_phase_ok. }
  destruct e as [| |[text| | | |]| |]; try done.
  destruct (parse_client_message text) as [[| | | |peer payload|]|]; try done.
  pose proof (member_signal config (shared (net_of t)) now (conn_room c) (conn_id c) peer payload) as Hs.
  change (shared (touch_connection (net_of t) now n c)) with (shared (net_of t)).
  destruct (forward_signal _ _ _ _ _ _ _) as [i [[p m]|error]]; cbn in Hs;
    (eapply to_phase_ok; [done..| |done]; etrans; [by apply (turns_touch _ now n c)|by apply turns_shared]).
Qed.

Lemma task_step_ok t now o t' : task_step t now o = Some t' → tasks_ok t → tasks_ok t'.
Proof.
  destruct o as [h r alias|n|n e|o]; cbn.
  - apply task_spawn_ok.
  - intros [= <-]. apply advance_ok.
  - intros [= <-]. apply select_ok.
  - destruct (is_handshake_op o) eqn:Eo; [|by intros [= <-]].
    destruct (step config _ now o) as [i|] eqn:E; [|done]. cbn. intros [= <-] (Hb & Hq & Hm & Hreg & Hlt).
    unfold tasks_ok. cbn. split_and!; try done. eapply members_ok_shared; [|done].
    intros. by eapply member_handshake.
Qed.

Lemma tasks_new_ok : tasks_ok tasks_new.
Proof.
  unfold tasks_ok, members_ok. split_and!; cbn.
  - apply map_Forall_empty.
  - done.
  - intros n [? Hn]. by rewrite lookup_empty in Hn.
  - intros h r id hd. unfold member. cbn. split; [by intros (? & ? & _)|by intros (? & ? & ? & _)].
  - intros n. rewrite !lookup_empty. split; [by intros [? ?]|done].
  - intros n [? Hn]. by rewrite lookup_empty in Hn.
Qed.

(** C7. However the tasks interleave, access by access, and with the handshakes
    of others: the members of the rooms are exactly the connections that have
    registered and not yet unregistered, each under the room, role and
    identifier it was given and reachable through its own queue only (so
    nobody stays behind after a disconnect, and expiry drops nobody); and no
    outbound queue ever holds more than its capacity. *)
Theorem members_are_registered (ops : list (Z * task_op)) (t : tasks)
    (Hrun : task_run tasks_new ops = Some t) :
  tasks_ok t.
Proof.
  refine (run_steps_preserve _ tasks_ok _ _ _ _ Hrun tasks_new_ok).
  intros s [now o] s' E. exact (task_step_ok s now o s' E).
Qed.

(** ** One worker thread *)

(** Every registered connection is in its loop, and no other task is left. *)
Definition settled (w : net) : tasks := Tasks w ((fun _ => Looping) <$> connections w).

Definition reaches (now : Z) (t t' : tasks) : Prop :=
  ∃ ops, task_run t ((fun o => (now, o)) <$> ops) = Some t'.

#[local] Instance reaches_preorder now : PreOrder (reaches now).
Proof.
  split; [intros t; by exists []|]. intros t1 t2 t3 [l1 E1] [l2 E2]. exists (l1 ++ l2).
  unfold task_run. rewrite fmap_app, run_steps_app. unfold task_run in E1. by rewrite E1.
Qed.

Lemma reaches_step now t o t' : task_step t now o = Some t' → reaches now t t'.
Proof. intros E. exists [o]. cbn. by rewrite E. Qed.

Lemma reaches_advance now t n t' : advance t now n = t' → reaches now t t'.
Proof. intros <-. by apply (reaches_step now t (Advance n)). Qed.

Lemma reaches_initial now n joined initial : ∀ w phs,
  reaches now (Tasks w (<[n := Starting initial joined]> phs))
    (Tasks (enqueue_initial w (Handle n n) initial) (<[n := Starting [] joined]> phs)).
Proof.
  induction initial as [|m initial IH]; intros w phs; [done|].
  etrans; [apply (reaches_advance _ _ n); reflexivity|]. unfold advance. cbn [phases net_of enqueue_initial].
  rewrite lookup_insert_eq. destruct (enqueue_local_message w _ m) as [w1 []];
    unfold to_phase; cbn [phases]; rewrite insert_insert_eq; [apply IH|done].
Qed.

(** The two phases that send to others only. *)
Lemma reaches_broadcast now n l (ph : list (ClientHandle * Message) → phase) :
  ph = Starting [] ∨ ph = Closing → ∀ w phs,
  reaches now (Tasks w (<[n := ph l]> phs)) (Tasks (broadcast_all w l) (<[n := ph []]> phs)).
Proof.
  intros Hph. induction l as [|[p m] l IH]; intros w phs; [done|].
  etrans; [apply (reaches_advance _ _ n); reflexivity|].
  assert (advance (Tasks w (<[n := ph ((p, m) :: l)]> phs)) now n =
    Tasks (enqueue_remote_message w p m) (<[n := ph l]> phs)) as ->; [|apply IH].
  unfold advance. cbn [phases net_of]. rewrite lookup_insert_eq.
  destruct Hph as [-> | ->]; unfold to_phase; cbn [phases]; by rewrite insert_insert_eq.
Qed.

Lemma reaches_connect w now h r alias w' :
  connect config w now h r alias = Some w' → reaches now (settled w) (settled w').
Proof.
  unfold connect. set (n := next_connection w).
  destruct (register _ _ _ _ _ _ _) as [[i [[id initial joined]|e]]|] eqn:Er; [..|done]; intros [= <-].
  2: { apply (reaches_step now _ (Spawn h r alias)). cbn. unfold spawn. cbn. fold n. by rewrite Er. }
  cbn [client_id initial_messages broadcasts].
  set (c := Connection h r id now). set (w0 := Net i (<[n := c]> (connections w)) _ _ _).
  set (w1 := broadcast_all (enqueue_initial w0 (own_handle n) initial) joined).
  etrans; [apply (reaches_step now _ (Spawn h r alias)); cbn; unfold spawn; cbn; fold n; by rewrite Er|].
  etrans; [apply reaches_initial|]. etrans; [apply reaches_broadcast; by left|].
  change (reaches now (Tasks w1 (<[n := Starting [] []]> (phases (settled w)))) (settled w1)).
  assert (connections w1 = <[n := c]> (connections w)) as Hcs.
  { unfold w1. destruct (sends_broadcast (enqueue_initial w0 (own_handle n) initial) joined) as (_ & -> & _).
    by destruct (sends_initial w0 (own_handle n) initial) as (_ & -> & _). }
  clearbody w1. destruct w1 as [sh cs qs ps nx]. cbn in Hcs. subst cs.
  apply (reaches_advance _ _ n). unfold advance. cbn [phases net_of connections].
  rewrite !lookup_insert_eq. unfold to_phase, settled, touch_connection. cbn.
  by rewrite !insert_insert_eq, fmap_insert.
Qed.

Lemma reaches_turn t now n c e :
  phases t !! n = Some Looping → connections (net_of t) !! n = Some c →
  let turn := select_event config (net_of t) now n c e in
  reaches now t (to_phase t n turn.1 (if turn.2 then Looping else Ending)).
Proof.
  intros Hph Hc. cbn zeta. etrans; [by apply (reaches_step now _ (Select n e))|]. unfold select. rewrite Hph, Hc.
  destruct e as [|sink_ok|m| |]; try (by destruct (select_event _ _ _ _ _ _)).
  destruct m as [text| | | |]; try (by destruct (select_event _ _ _ _ _ _)).
  destruct (parse_client_message text) as [[| | | |peer payload|]|error] eqn:Ep;
    try (by destruct (select_event _ _ _ _ _ _)).
  cbn [select_event handle_incoming_message]. rewrite Ep.
  destruct (forward_signal _ _ _ _ _ _ _) as [i [[p m]|error]]; cbn [fst snd].
  - apply (reaches_advance _ _ n). unfold advance, to_phase. cbn [phases net_of].
    by rewrite lookup_insert_eq, insert_insert_eq.
  - apply (reaches_advance _ _ n). unfold advance, to_phase. cbn [phases net_of].
    rewrite lookup_insert_eq. destruct (enqueue_local_message _ _ _) as [w []]; cbn; by rewrite insert_insert_eq.
Qed.

(** Sending does not look at the connections. *)
Definition set_connections (w : net) (cs : gmap nat connection) : net :=
  Net (shared w) cs (queues w) (penalties w) (next_connection w).

Lemma broadcast_connections cs l : ∀ w,
  broadcast_all (set_connections w cs) l = set_connections (broadcast_all w l) cs.
Proof.
  induction l as [|[p m] l IH]; intros w; [done|]. cbn.
  assert (enqueue_remote_message (set_connections w cs) p m = set_connections (enqueue_remote_message w p m) cs)
    as ->; [|apply IH].
  unfold enqueue_remote_message, try_send. cbn. destruct (queues w !! tx p); [|done]. by destruct (_ <=? _)%nat.
Qed.

(** Past its loop, a task that runs alone leaves its room and ends. *)
Lemma reaches_disconnect w phs now n c :
  connections w !! n = Some c →
  reaches now (Tasks w (<[n := Ending]> phs)) (Tasks (disconnect config w now n c) (delete n phs)).
Proof.
  intros Hc. unfold disconnect.
  destruct (unregister config (shared w) now (conn_room c) (conn_role c) (conn_id c)) as [i gone] eqn:Eu.
  set (w1 := set_connections (set_shared w i) (delete n (connections w))).
  etrans; [apply (reaches_advance _ _ n (Tasks w1 (<[n := Closing gone]> phs)))|].
  { unfold advance. cbn [phases net_of]. rewrite lookup_insert_eq, Hc, Eu. unfold to_phase. cbn [phases].
    by rewrite insert_insert_eq. }
  etrans; [apply reaches_broadcast; by right|]. apply (reaches_advance _ _ n). unfold advance. cbn [phases net_of].
  rewrite lookup_insert_eq, delete_insert_eq. unfold w1. rewrite broadcast_connections. cbn.
  by destruct (sends_broadcast (set_shared w i) gone) as (_ & -> & _).
Qed.

Lemma reaches_net_step w now o w' :
  net_ok w → net_step config w now o = Some w' → reaches now (settled w) (settled w').
Proof.
  intros Hok. destruct o as [h r alias|n e|o]; cbn [net_step].
  - by apply reaches_connect.
  - destruct (connections w !! n) as [c|] eqn:Hc; [|by intros [= <-]].
    assert (phases (settled w) !! n = Some Looping) as Hph by (cbn; by rewrite lookup_fmap, Hc).
    pose proof (reaches_turn (settled w) now n c e Hph Hc) as Ht. cbn zeta in Ht. cbn [settled net_of] in Ht.
    destruct (select_event_ok config w now n c e Hc) as ((_ & _ & Hdom & _) & c' & Hc' & E1 & E2 & E3).
    destruct (select_event config w now n c e) as [w1 go_on]. cbn [fst snd] in *.
    assert ((fun _ : connection => @Looping) <$> connections w1 = (fun _ => Looping) <$> connections w) as Hl.
    { apply map_eq. intros k. rewrite !lookup_fmap.
      assert (is_Some (connections w1 !! k) ↔ is_Some (connections w !! k)) as Hk by by rewrite <- !elem_of_dom, Hdom.
      destruct (connections w1 !! k), (connections w !! k); cbn; try done;
        [destruct (proj1 Hk)|destruct (proj2 Hk)]; by try eexists. }
    unfold to_phase in Ht. cbn [phases] in Ht. destruct go_on; intros [= <-].
    + unfold settled at 2. rewrite Hl. rewrite insert_id in Ht; [done|]. cbn. by rewrite lookup_fmap, Hc.
    + etrans; [exact Ht|]. etrans; [by apply reaches_disconnect|].
      unfold disconnect. rewrite E1, E2, E3. destruct (unregister _ _ _ _ _ _) as [i gone].
      unfold settled. cbn [connections].
      destruct (sends_broadcast (set_shared w1 i) gone) as (_ & -> & _). cbn [connections set_shared]. by rewrite fmap_delete, Hl.
  - destruct (is_handshake_op o) eqn:Eo; [|by intros [= <-]].
    intros E. apply (reaches_step now _ (Handshake o)). cbn. rewrite Eo.
    destruct (step config (shared w) now o); [|done]. cbn in *. by injection E as <-.
Qed.

(** Whatever one worker thread does, running each task from one [select!] to
    the next, the concurrent tasks can do. *)
Theorem one_thread_is_a_schedule (ops : list (Z * net_op (Value := Value))) (w : net)
    (Hrun : net_run config net_new ops = Some w) :
  ∃ ops', task_run tasks_new ops' = Some (settled w).
Proof.
  assert (tasks_new = settled net_new) as -> by (unfold settled; cbn; by rewrite fmap_empty).
  pose proof (net_new_ok (Value := Value)) as Hok. revert Hok Hrun. generalize (net_new (Value := Value)) as w0.
  induction ops as [|[now o] ops IH]; intros w0 Hok Hrun; cbn in Hrun.
  { injection Hrun as <-. by exists []. }
  destruct (net_step config w0 now o) as [w1|] eqn:E; [|done]. cbn in Hrun.
  destruct (IH w1) as [l2 E2]; [by eapply net_step_ok|done|].
  destruct (reaches_net_step w0 now o w1 Hok E) as [l1 E1].
  eexists (_ ++ l2). unfold task_run. rewrite run_steps_app. unfold task_run in E1. by rewrite E1.
Qed.

End Tasks.

(** ** Two worker threads *)

Section Race.
#[local] Existing Instance sample_client_codec.
#[local] Existing Instance sample_server_codec.

(** The agent has registered and not yet queued its [Connected] when a
    zookeeper registers and announces itself. *)
Definition race_ops {Value} : list (Z * task_op (Value := Value)) :=
  [(1, Handshake (OpStoreRoom "room" [])); (2, Spawn "room" Agent (Some "bob"));
   (3, Spawn "room" Zookeeper (Some "eve")); (4, Advance 1); (5, Advance 1); (6, Advance 0)].

Definition race_tasks : tasks (Value := unit) :=
  default tasks_new (task_run sample_config tasks_new race_ops).

Lemma members_are_registered_witness :
  tasks_ok race_tasks ∧
  member (shared (net_of race_tasks)) "room" Agent "bob" (own_handle 0) ∧
  member (shared (net_of race_tasks)) "room" Zookeeper "eve" (own_handle 1).
Proof.
  split.
  - apply (members_are_registered sample_config race_ops). vm_compute. reflexivity.
  - split; eexists; (split; [vm_compute; reflexivity|vm_compute; reflexivity]).
Defined.

Lemma one_thread_is_a_schedule_witness :
  ∃ ops, task_run sample_config tasks_new ops = Some (settled (sample_net 3)).
Proof. apply (one_thread_is_a_schedule sample_config (sample_ops 3)). vm_compute. reflexivity. Defined.

(** The announcement overtakes the [Connected]. *)
Theorem announcement_overtakes_connected :
  queues (net_of race_tasks) !! 0%nat =
    Some [PeerJoined Zookeeper "eve"; Connected "bob" Agent [] []].
Proof. vm_compute. reflexivity. Qed.
End Race.
