(* ===== verification/Float.v ===== *)
(** * IEEE 754 arithmetic

    [f32] and [f64] as the executable specification floats of the standard
    library, rounding to nearest even: the conversions, operations and
    comparisons the program uses.  A decimal literal is the correctly rounded
    quotient of two integers. *)

From Stdlib Require Export Floats.SpecFloat.
From S2P Require Export Prelude.

Notation f32 := spec_float (only parsing).
Notation f64 := spec_float (only parsing).

Definition f32_of_Z (z : Z) : f32 := binary_normalize 24 128 z 0 false.
Definition f32_add (a b : f32) : f32 := SFadd 24 128 a b.
Definition f32_mul (a b : f32) : f32 := SFmul 24 128 a b.
Definition f32_div (a b : f32) : f32 := SFdiv 24 128 a b.
Definition f32_lit (n d : Z) : f32 := f32_div (f32_of_Z n) (f32_of_Z d).

Definition f64_of_Z (z : Z) : f64 := binary_normalize 53 1024 z 0 false.
Definition f64_add (a b : f64) : f64 := SFadd 53 1024 a b.
Definition f64_sub (a b : f64) : f64 := SFsub 53 1024 a b.
Definition f64_mul (a b : f64) : f64 := SFmul 53 1024 a b.
Definition f64_div (a b : f64) : f64 := SFdiv 53 1024 a b.
Definition f64_sqrt (a : f64) : f64 := SFsqrt 53 1024 a.
Definition f64_lit (n d : Z) : f64 := f64_div (f64_of_Z n) (f64_of_Z d).

Definition f_ltb (a b : spec_float) : bool := SFltb a b.
Definition f_leb (a b : spec_float) : bool := SFleb a b.
Definition f_eqb (a b : spec_float) : bool := SFeqb a b.

(** [f64::is_finite], [f64::is_nan]. *)
Definition f_is_finite (a : spec_float) : bool :=
  match a with S754_zero _ | S754_finite _ _ _ => true | _ => false end.
Definition f_is_nan (a : spec_float) : bool :=
  match a with S754_nan => true | _ => false end.

(** [as] to an unsigned integer: towards zero, saturating, 0 for NaN. *)
Definition f_to_uint (max : Z) (a : spec_float) : Z :=
  match a with
  | S754_finite false m e => Z.min max (if 0 <=? e then Z.pos m * 2 ^ e else Z.pos m / 2 ^ (- e))
  | S754_infinity false => max
  | _ => 0
  end.

Lemma f_to_uint_range max a : 0 ≤ max → 0 ≤ f_to_uint max a ≤ max.
Proof.
  intros Hm. destruct a as [|[]| |[] m e]; cbn [f_to_uint]; try lia. destruct (0 <=? e).
  - assert (0 ≤ 2 ^ e) by (apply Z.pow_nonneg; lia). nia.
  - assert (0 ≤ Z.pos m / 2 ^ (- e)) by (apply Z_div_nonneg_nonneg; [lia|apply Z.pow_nonneg; lia]). lia.
Qed.

Definition f_zero : spec_float := S754_zero false.
Definition f64_one : f64 := f64_of_Z 1.

(** ** The order of floats

    Comparison is the lexicographic order of class, exponent and mantissa: a
    total preorder away from NaN. *)
Definition f_rank (a : spec_float) : Z * Z * Z :=
  match a with
  | S754_zero _ | S754_nan => (0, 0, 0)
  | S754_infinity s => (if s then -2 else 2, 0, 0)
  | S754_finite s m e => if s then (-1, - e, Z.neg m) else (1, e, Z.pos m)
  end.

Definition rank_lt (a b : Z * Z * Z) : Prop :=
  a.1.1 < b.1.1 ∨ (a.1.1 = b.1.1 ∧ (a.1.2 < b.1.2 ∨ (a.1.2 = b.1.2 ∧ a.2 < b.2))).

Lemma rank_lt_irrefl a : ¬ rank_lt a a.
Proof. unfold rank_lt. lia. Qed.

Lemma rank_lt_asym a b : rank_lt a b → ¬ rank_lt b a.
Proof. unfold rank_lt. lia. Qed.

Lemma f_compare_rank a b :
  f_is_nan a = false → f_is_nan b = false →
  match SFcompare a b with
  | Some Lt => rank_lt (f_rank a) (f_rank b)
  | Some Eq => f_rank a = f_rank b
  | Some Gt => rank_lt (f_rank b) (f_rank a)
  | None => False
  end.
Proof.
  intros Ha Hb. unfold rank_lt.
  destruct a as [[]|[]| |[] m e]; try done; destruct b as [[]|[]| |[] m' e']; try done; cbn; try lia.
  all: change (Pos.compare_cont Eq m m') with (Pos.compare m m').
  all: destruct (Z.compare_spec e e'); [subst|cbn; lia..]; destruct (Pos.compare_spec m m'); cbn; subst; try done; lia.
Qed.

Lemma f_ltb_rank a b :
  f_is_nan a = false → f_is_nan b = false → f_ltb a b = true ↔ rank_lt (f_rank a) (f_rank b).
Proof.
  intros Ha Hb. pose proof (f_compare_rank a b Ha Hb) as Hc. unfold f_ltb, SFltb, rank_lt in *.
  destruct (SFcompare a b) as [[]|]; [|done| |done]; split; try done; intros; [rewrite Hc in *|]; lia.
Qed.

Lemma f_eqb_rank a b :
  f_is_nan a = false → f_is_nan b = false → f_eqb a b = true ↔ f_rank a = f_rank b.
Proof.
  intros Ha Hb. pose proof (f_compare_rank a b Ha Hb) as Hc. unfold f_eqb, SFeqb, rank_lt in *.
  destruct (SFcompare a b) as [[]|]; [done| | |done]; split; try done; intros E; rewrite E in Hc; lia.
Qed.

Lemma f_leb_rank a b :
  f_is_nan a = false → f_is_nan b = false → f_leb a b = true ↔ ¬ rank_lt (f_rank b) (f_rank a).
Proof.
  intros Ha Hb. pose proof (f_compare_rank a b Ha Hb) as Hc. unfold f_leb, SFleb, rank_lt in *.
  destruct (SFcompare a b) as [[]|]; [rewrite Hc| | |done]; split; try done; intros; lia.
Qed.

(** Comparisons with NaN are false. *)
Lemma f_ltb_nan a b : f_ltb a b = true → f_is_nan a = false ∧ f_is_nan b = false.
Proof. by destruct a, b. Qed.

Lemma f_eqb_nan a b : f_eqb a b = true → f_is_nan a = false ∧ f_is_nan b = false.
Proof. by destruct a, b. Qed.

Lemma rank_total a b : rank_lt a b ∨ a = b ∨ rank_lt b a.
Proof. destruct a as [[]], b as [[]]. unfold rank_lt. cbn.
  destruct (decide (z = z2)), (decide (z0 = z3)), (decide (z1 = z4)); subst; try (by right; left); lia.
Qed.
