(* ===== verification/Terminal.v ===== *)
(** * The terminal emulator of the desktop application:
    [mitb-box/src/terminal.rs]

    The cell buffer, the handlers of the parser's calls, and the styled lines
    shown.  An index out of range panics: the handlers return [None] there.
    Colours and the display width of characters come from other crates. *)

From S2P Require Export Vte Float.

(** [iced::Color] and [UnicodeWidthChar::width]. *)
Class Display : Type := {
  Color : Type;
  BLACK : Color;
  WHITE : Color;
  from_rgb : f32 → f32 → f32 → Color;
  color_eqb : Color → Color → bool;
  unicode_width : char → option nat;
}.

(** Space takes one column. *)
Class DisplayLaws `{Display} : Prop := { space_width : unicode_width 32 = Some 1%nat }.

Section Terminal.
Context `{Display}.

(** ** Data *)

Record Style := MkStyle {
  fg_color : Color;
  bg_color : option Color;
  bold : bool;
  italic : bool;
}.

Definition style_default : Style := MkStyle WHITE None false false.

(** A cell's text, as its characters. *)
Record Cell := MkCell {
  cell_text : list char;
  cell_style : Style;
  wide_continuation : bool;
}.

Definition blank_with_style (style : Style) : Cell := MkCell [32] style false.
Definition blank : Cell := blank_with_style style_default.
Definition continuation (style : Style) : Cell := MkCell [32] style true.

Definition blank_row (cols : nat) : list Cell := replicate cols blank.

Notation screen := (list (list Cell)).

Record SavedScreen := Saved {
  saved_buffer : screen;
  saved_cursor_row : nat;
  saved_cursor_col : nat;
  saved_style : Style;
  saved_saved_cursor : nat * nat;
  saved_scroll_top : nat;
  saved_scroll_bottom : nat;
}.

Record Terminal := Term {
  buffer : screen;
  cursor_row : nat;
  cursor_col : nat;
  cols : nat;
  rows : nat;
  style : Style;
  saved_cursor : nat * nat;
  scroll_top : nat;
  scroll_bottom : nat;
  alternate_screen : bool;
  saved_main_screen : option SavedScreen;
}.

Definition term_new (cols rows : nat) : Terminal :=
  let cols := Nat.max cols 1 in
  let rows := Nat.max rows 1 in
  Term (replicate rows (blank_row cols)) 0 0 cols rows style_default (0, 0)%nat 0 (rows - 1) false None.

(** Updates of single fields. *)
Definition set_buffer (t : Terminal) (b : screen) : Terminal :=
  Term b (cursor_row t) (cursor_col t) (cols t) (rows t) (style t) (saved_cursor t)
    (scroll_top t) (scroll_bottom t) (alternate_screen t) (saved_main_screen t).
Definition set_cursor (t : Terminal) (row col : nat) : Terminal :=
  Term (buffer t) row col (cols t) (rows t) (style t) (saved_cursor t)
    (scroll_top t) (scroll_bottom t) (alternate_screen t) (saved_main_screen t).
Definition set_cursor_row (t : Terminal) (row : nat) : Terminal := set_cursor t row (cursor_col t).
Definition set_cursor_col (t : Terminal) (col : nat) : Terminal := set_cursor t (cursor_row t) col.
Definition set_style (t : Terminal) (s : Style) : Terminal :=
  Term (buffer t) (cursor_row t) (cursor_col t) (cols t) (rows t) s (saved_cursor t)
    (scroll_top t) (scroll_bottom t) (alternate_screen t) (saved_main_screen t).
Definition set_saved_cursor (t : Terminal) (c : nat * nat) : Terminal :=
  Term (buffer t) (cursor_row t) (cursor_col t) (cols t) (rows t) (style t) c
    (scroll_top t) (scroll_bottom t) (alternate_screen t) (saved_main_screen t).
Definition set_scroll (t : Terminal) (top bottom : nat) : Terminal :=
  Term (buffer t) (cursor_row t) (cursor_col t) (cols t) (rows t) (style t) (saved_cursor t)
    top bottom (alternate_screen t) (saved_main_screen t).
Definition set_alternate (t : Terminal) (alternate : bool) (saved : option SavedScreen) : Terminal :=
  Term (buffer t) (cursor_row t) (cursor_col t) (cols t) (rows t) (style t) (saved_cursor t)
    (scroll_top t) (scroll_bottom t) alternate saved.

(** ** Indexing: [None] is the panic *)

Definition get_cell (t : Terminal) (row col : nat) : option Cell :=
  l ← buffer t !! row; l !! col.

Definition set_cell (t : Terminal) (row col : nat) (c : Cell) : option Terminal :=
  l ← buffer t !! row;
  _ ← l !! col;
  Some (set_buffer t (<[row := <[col := c]> l]> (buffer t))).

Definition get_row (t : Terminal) (row : nat) : option (list Cell) := buffer t !! row.

Definition set_row (t : Terminal) (row : nat) (l : list Cell) : option Terminal :=
  _ ← buffer t !! row; Some (set_buffer t (<[row := l]> (buffer t))).

(** [a..b], and the same reversed. *)
Definition range (a b : nat) : list nat := seq a (b - a).

(** ** Character widths *)

Definition is_wide_lead (cell : Cell) : bool :=
  if wide_continuation cell then false
  else match cell_text cell with
       | [] => false
       | first :: _ => (2 <=? default 1%nat (unicode_width first))%nat
       end.

Definition char_width (c : char) : nat :=
  let width := default 0%nat (unicode_width c) in
  if (width =? 0)%nat then 0 else Nat.min width 2.

(** ** Scrolling *)

Definition copy_row (t : Terminal) (to from : nat) : option Terminal :=
  l ← get_row t from; set_row t to l.

Definition scroll_up_once (top bottom : nat) (t : Terminal) : option Terminal :=
  t ← run_steps (fun t row => copy_row t row (row + 1)) t (range top bottom);
  set_row t bottom (blank_row (cols t)).

Definition scroll_up_region (t : Terminal) (top bottom count : nat) : option Terminal :=
  if (rows t <=? top)%nat || (rows t <=? bottom)%nat || (bottom <? top)%nat then Some t
  else
    let lines := (bottom - top + 1)%nat in
    run_steps (fun t _ => scroll_up_once top bottom t) t (seq 0 (Nat.min count lines)).

Definition scroll_down_once (top bottom : nat) (t : Terminal) : option Terminal :=
  t ← run_steps (fun t row => copy_row t row (row - 1)) t (rev (range (top + 1) (bottom + 1)));
  set_row t top (blank_row (cols t)).

Definition scroll_down_region (t : Terminal) (top bottom count : nat) : option Terminal :=
  if (rows t <=? top)%nat || (rows t <=? bottom)%nat || (bottom <? top)%nat then Some t
  else
    let lines := (bottom - top + 1)%nat in
    run_steps (fun t _ => scroll_down_once top bottom t) t (seq 0 (Nat.min count lines)).

(** ** Cursor movement *)

Definition clamp_cursor (t : Terminal) : Terminal :=
  set_cursor t (Nat.min (cursor_row t) (rows t - 1)) (Nat.min (cursor_col t) (cols t - 1)).

Definition linefeed (t : Terminal) : option Terminal :=
  if (cursor_row t =? scroll_bottom t)%nat then scroll_up_region t (scroll_top t) (scroll_bottom t) 1
  else if (cursor_row t <? rows t - 1)%nat then Some (set_cursor_row t (cursor_row t + 1))
  else scroll_up_region t 0 (rows t - 1) 1.

Definition reverse_index (t : Terminal) : option Terminal :=
  if (cursor_row t =? scroll_top t)%nat
  then scroll_down_region t (scroll_top t) (scroll_bottom t) 1
  else if (0 <? cursor_row t)%nat then Some (set_cursor_row t (cursor_row t - 1))
  else Some t.

(** ** Cells *)

Definition clear_overlapped_cell (t : Terminal) (row col : nat) : option Terminal :=
  if (rows t <=? row)%nat || (cols t <=? col)%nat then Some t
  else
    cell ← get_cell t row col;
    if wide_continuation cell then
      t ← set_cell t row col blank;
      if (0 <? col)%nat then
        prev ← get_cell t row (col - 1);
        if is_wide_lead prev then set_cell t row (col - 1) blank else Some t
      else Some t
    else
      t ← (if is_wide_lead cell && (col + 1 <? cols t)%nat then
             next ← get_cell t row (col + 1);
             if wide_continuation next then set_cell t row (col + 1) blank else Some t
           else Some t);
      set_cell t row col blank.

Definition sanitize_cell (row : nat) (t : Terminal) (col : nat) : option Terminal :=
  cell ← get_cell t row col;
  if wide_continuation cell then
    if (col =? 0)%nat then set_cell t row col blank
    else
      prev ← get_cell t row (col - 1);
      if negb (is_wide_lead prev) then set_cell t row col blank else Some t
  else if is_wide_lead cell then
    if (cols t <=? col + 1)%nat then set_cell t row col blank
    else
      next ← get_cell t row (col + 1);
      if negb (wide_continuation next) then set_cell t row (col + 1) (continuation (cell_style cell))
      else Some t
  else Some t.

Definition sanitize_row (t : Terminal) (row : nat) : option Terminal :=
  if (rows t <=? row)%nat then Some t
  else run_steps (sanitize_cell row) t (range 0 (cols t)).

Definition fill_range (t : Terminal) (row a b : nat) (cell : Cell) : option Terminal :=
  run_steps (fun t col => set_cell t row col cell) t (range a b).

Definition clear_row_range (t : Terminal) (row start_col end_col : nat) (s : Style)
    : option Terminal :=
  if (rows t <=? row)%nat then Some t
  else
    let start := Nat.min start_col (cols t) in
    let e := Nat.min end_col (cols t) in
    if (e <=? start)%nat then Some t
    else
      t ← fill_range t row start e (blank_with_style s);
      sanitize_row t row.

Definition clear_screen_all (t : Terminal) (s : Style) : option Terminal :=
  run_steps (fun t row => clear_row_range t row 0 (cols t) s) t (range 0 (rows t)).

Definition clear_to_end_of_screen (t : Terminal) (s : Style) : option Terminal :=
  let row := Nat.min (cursor_row t) (rows t - 1) in
  let col := Nat.min (cursor_col t) (cols t - 1) in
  t ← clear_row_range t row col (cols t) s;
  run_steps (fun t r => clear_row_range t r 0 (cols t) s) t (range (row + 1) (rows t)).

Definition clear_to_start_of_screen (t : Terminal) (s : Style) : option Terminal :=
  let row := Nat.min (cursor_row t) (rows t - 1) in
  let col := Nat.min (cursor_col t) (cols t - 1) in
  t ← run_steps (fun t r => clear_row_range t r 0 (cols t) s) t (range 0 row);
  clear_row_range t row 0 (col + 1) s.

Definition copy_cell (row : nat) (t : Terminal) (to from : nat) : option Terminal :=
  c ← get_cell t row from; set_cell t row to c.

Definition insert_blank_chars (t : Terminal) (count : nat) : option Terminal :=
  let row := Nat.min (cursor_row t) (rows t - 1) in
  let col := Nat.min (cursor_col t) (cols t - 1) in
  if (cols t <=? col)%nat then Some t
  else
    let count := Nat.min count (cols t - col) in
    if (count =? 0)%nat then Some t
    else
      t ← run_steps (fun t idx => copy_cell row t (idx + count) idx) t (rev (range col (cols t - count)));
      t ← fill_range t row col (col + count) (blank_with_style (style t));
      sanitize_row t row.

Definition delete_chars (t : Terminal) (count : nat) : option Terminal :=
  let row := Nat.min (cursor_row t) (rows t - 1) in
  let col := Nat.min (cursor_col t) (cols t - 1) in
  if (cols t <=? col)%nat then Some t
  else
    let count := Nat.min count (cols t - col) in
    if (count =? 0)%nat then Some t
    else
      t ← run_steps (fun t idx => copy_cell row t idx (idx + count)) t (range col (cols t - count));
      t ← fill_range t row (cols t - count) (cols t) (blank_with_style (style t));
      sanitize_row t row.

Definition erase_chars (t : Terminal) (count : nat) : option Terminal :=
  let row := Nat.min (cursor_row t) (rows t - 1) in
  let col := Nat.min (cursor_col t) (cols t - 1) in
  if (cols t <=? col)%nat then Some t
  else
    let e := Nat.min (col + count) (cols t) in
    t ← fill_range t row col e (blank_with_style (style t));
    sanitize_row t row.

Definition insert_lines (t : Terminal) (count : nat) : option Terminal :=
  let row := Nat.min (cursor_row t) (rows t - 1) in
  if (row <? scroll_top t)%nat || (scroll_bottom t <? row)%nat then Some t
  else
    let bottom := scroll_bottom t in
    let available := (bottom - row + 1)%nat in
    run_steps (fun t _ => scroll_down_once row bottom t) t (seq 0 (Nat.min count available)).

Definition delete_lines (t : Terminal) (count : nat) : option Terminal :=
  let row := Nat.min (cursor_row t) (rows t - 1) in
  if (row <? scroll_top t)%nat || (scroll_bottom t <? row)%nat then Some t
  else
    let bottom := scroll_bottom t in
    let available := (bottom - row + 1)%nat in
    run_steps (fun t _ => scroll_up_once row bottom t) t (seq 0 (Nat.min count available)).

(** ** Printing *)

Definition push_text (c : char) (cell : Cell) : Cell :=
  MkCell (cell_text cell ++ [c]) (cell_style cell) (wide_continuation cell).

(** The last column of the row that is not a continuation gets the character. *)
Fixpoint append_last (t : Terminal) (row : nat) (columns : list nat) (c : char) : option Terminal :=
  match columns with
  | [] => Some t
  | col :: columns =>
    cell ← get_cell t row col;
    if negb (wide_continuation cell) then set_cell t row col (push_text c cell)
    else append_last t row columns c
  end.

Definition append_previous_row (t : Terminal) (row : nat) (c : char) : option Terminal :=
  if (0 <? row)%nat then append_last t (row - 1) (rev (range 0 (cols t))) c else Some t.

Definition append_combining_char (t : Terminal) (c : char) : option Terminal :=
  let t := clamp_cursor t in
  let row := cursor_row t in
  if (0 <? cursor_col t)%nat then
    let col := (cursor_col t - 1)%nat in
    cell ← get_cell t row col;
    let col := if wide_continuation cell && (0 <? col)%nat then (col - 1)%nat else col in
    cell ← get_cell t row col;
    if negb (wide_continuation cell) then set_cell t row col (push_text c cell)
    else append_previous_row t row c
  else append_previous_row t row c.

(** [if self.cursor_col >= self.cols { self.cursor_col = 0; self.linefeed(); }] *)
Definition wrap_line (t : Terminal) : option Terminal := linefeed (set_cursor_col t 0).

(** The cells of [put_char]. *)
Definition write_char (t : Terminal) (c : char) (width : nat) : option Terminal :=
  let row := cursor_row t in
  let col := cursor_col t in
  t ← clear_overlapped_cell t row col;
  t ← set_cell t row col (MkCell [c] (style t) false);
  if (width =? 2)%nat then
    let right_col := (col + 1)%nat in
    t ← clear_overlapped_cell t row right_col;
    set_cell t row right_col (continuation (style t))
  else Some t.

Definition put_char (t : Terminal) (c : char) : option Terminal :=
  let width := char_width c in
  if (width =? 0)%nat then append_combining_char t c
  else
    let t := clamp_cursor t in
    t ← (if (cols t <=? cursor_col t)%nat then wrap_line t else Some t);
    t ← (if (width =? 2)%nat && (cursor_col t =? cols t - 1)%nat then wrap_line t else Some t);
    t ← write_char t c width;
    let t := set_cursor_col t (cursor_col t + width) in
    if (cols t <=? cursor_col t)%nat then wrap_line t else Some t.

Definition execute (t : Terminal) (byte : Z) : option Terminal :=
  if decide (byte = 10) then linefeed t
  else if decide (byte = 13) then Some (set_cursor_col t 0)
  else if decide (byte = 9) then
    let next_tab := ((cursor_col t + 8) / 8 * 8)%nat in
    Some (set_cursor_col t (Nat.min next_tab (cols t - 1)))
  else if decide (byte = 8) then
    Some (if (0 <? cursor_col t)%nat then set_cursor_col t (cursor_col t - 1) else t)
  else Some t.

(** ** Screens *)

Definition set_scroll_region (t : Terminal) (top bottom : nat) : Terminal :=
  let t := if (top <? bottom)%nat && (bottom <? rows t)%nat then set_scroll t top bottom
           else set_scroll t 0 (rows t - 1) in
  set_cursor t (scroll_top t) 0.

Definition clear_rows (t : Terminal) : option Terminal :=
  run_steps (fun t row => set_row t row (blank_row (cols t))) t (range 0 (rows t)).

Definition enter_alternate_screen (t : Terminal) : option Terminal :=
  if alternate_screen t then Some t
  else
    let snapshot := Saved (buffer t) (cursor_row t) (cursor_col t) (style t) (saved_cursor t)
                      (scroll_top t) (scroll_bottom t) in
    t ← clear_rows (set_alternate t true (Some snapshot));
    Some (set_scroll (set_saved_cursor (set_cursor t 0 0) (0, 0)%nat) 0 (rows t - 1)).

Definition restore_screen (t : Terminal) (saved : SavedScreen) : Terminal :=
  let t := set_cursor (set_buffer t (saved_buffer saved))
             (Nat.min (saved_cursor_row saved) (rows t - 1))
             (Nat.min (saved_cursor_col saved) (cols t - 1)) in
  let t := set_saved_cursor (set_style t (saved_style saved)) (saved_saved_cursor saved) in
  let t := set_scroll t (Nat.min (saved_scroll_top saved) (rows t - 1))
             (Nat.min (saved_scroll_bottom saved) (rows t - 1)) in
  if (scroll_bottom t <=? scroll_top t)%nat then set_scroll t 0 (rows t - 1) else t.

Definition leave_alternate_screen (t : Terminal) : Terminal :=
  if negb (alternate_screen t) then t
  else
    let t := match saved_main_screen t with
             | Some saved => set_alternate (restore_screen t saved) (alternate_screen t) None
             | None => t
             end in
    set_alternate t false (saved_main_screen t).

Definition handle_private_mode (mode : nat) (set : bool) (t : Terminal) : option Terminal :=
  if decide (Z.of_nat mode = 1049)
  then if set then enter_alternate_screen t else Some (leave_alternate_screen t)
  else Some t.

Definition reset_terminal (t : Terminal) : option Terminal :=
  let t := set_saved_cursor (set_style t style_default) (0, 0)%nat in
  let t := set_cursor (set_scroll t 0 (rows t - 1)) 0 0 in
  clear_rows t.

(** ** Colours *)

Definition rgb_tenths (r g b : Z) : Color := from_rgb (f32_lit r 10) (f32_lit g 10) (f32_lit b 10).

Definition cube_level (v : Z) : f32 :=
  if v =? 0 then f32_lit 0 1
  else f32_div (f32_add (f32_mul (f32_of_Z v) (f32_of_Z 40)) (f32_of_Z 55)) (f32_of_Z 255).

Definition color_256 (index : Z) : Color :=
  match index with
  | 0 => BLACK
  | 1 => rgb_tenths 8 0 0
  | 2 => rgb_tenths 0 8 0
  | 3 => rgb_tenths 8 8 0
  | 4 => rgb_tenths 0 0 8
  | 5 => rgb_tenths 8 0 8
  | 6 => rgb_tenths 0 8 8
  | 7 => from_rgb (f32_lit 75 100) (f32_lit 75 100) (f32_lit 75 100)
  | 8 => rgb_tenths 5 5 5
  | 9 => rgb_tenths 10 0 0
  | 10 => rgb_tenths 0 10 0
  | 11 => rgb_tenths 10 10 0
  | 12 => rgb_tenths 0 0 10
  | 13 => rgb_tenths 10 0 10
  | 14 => rgb_tenths 0 10 10
  | 15 => WHITE
  | _ =>
    if (16 <=? index) && (index <=? 231) then
      let n := index - 16 in
      from_rgb (cube_level ((n / 36) mod 6)) (cube_level ((n / 6) mod 6)) (cube_level (n mod 6))
    else if (232 <=? index) && (index <=? 255) then
      let gray := f32_div (f32_of_Z ((index - 232) * 10 + 8)) (f32_of_Z 255) in
      from_rgb gray gray gray
    else WHITE
  end.

Definition color_true (r g b : Z) : Color :=
  let level v := f32_div (f32_of_Z (Z.min v 255)) (f32_of_Z 255) in
  from_rgb (level r) (level g) (level b).

(** ** Select graphic rendition *)

Definition set_bold (s : Style) (b : bool) : Style := MkStyle (fg_color s) (bg_color s) b (italic s).
Definition set_italic (s : Style) (b : bool) : Style := MkStyle (fg_color s) (bg_color s) (bold s) b.
Definition set_fg (s : Style) (c : Color) : Style := MkStyle c (bg_color s) (bold s) (italic s).
Definition set_bg (s : Style) (c : option Color) : Style := MkStyle (fg_color s) c (bold s) (italic s).

(** The parameters that stand alone. *)
Definition sgr_simple (s : Style) (value : Z) : Style :=
  match value with
  | 0 => style_default
  | 1 => set_bold s true
  | 3 => set_italic s true
  | 22 => set_bold s false
  | 23 => set_italic s false
  | 30 => set_fg s BLACK
  | 31 => set_fg s (rgb_tenths 8 2 2)
  | 32 => set_fg s (rgb_tenths 2 8 2)
  | 33 => set_fg s (rgb_tenths 8 8 2)
  | 34 => set_fg s (rgb_tenths 2 2 8)
  | 35 => set_fg s (rgb_tenths 8 2 8)
  | 36 => set_fg s (rgb_tenths 2 8 8)
  | 37 => set_fg s WHITE
  | 39 => set_fg s WHITE
  | 40 => set_bg s (Some BLACK)
  | 41 => set_bg s (Some (rgb_tenths 8 2 2))
  | 42 => set_bg s (Some (rgb_tenths 2 8 2))
  | 43 => set_bg s (Some (rgb_tenths 8 8 2))
  | 44 => set_bg s (Some (rgb_tenths 2 2 8))
  | 45 => set_bg s (Some (rgb_tenths 8 2 8))
  | 46 => set_bg s (Some (rgb_tenths 2 8 8))
  | 47 => set_bg s (Some WHITE)
  | 49 => set_bg s None
  | 90 => set_fg s (rgb_tenths 5 5 5)
  | 91 => set_fg s (rgb_tenths 10 3 3)
  | 92 => set_fg s (rgb_tenths 3 10 3)
  | 93 => set_fg s (rgb_tenths 10 10 3)
  | 94 => set_fg s (rgb_tenths 3 3 10)
  | 95 => set_fg s (rgb_tenths 10 3 10)
  | 96 => set_fg s (rgb_tenths 3 10 10)
  | 97 => set_fg s WHITE
  | 100 => set_bg s (Some (rgb_tenths 5 5 5))
  | 101 => set_bg s (Some (rgb_tenths 10 3 3))
  | 102 => set_bg s (Some (rgb_tenths 3 10 3))
  | 103 => set_bg s (Some (rgb_tenths 10 10 3))
  | 104 => set_bg s (Some (rgb_tenths 3 3 10))
  | 105 => set_bg s (Some (rgb_tenths 10 3 10))
  | 106 => set_bg s (Some (rgb_tenths 3 10 10))
  | 107 => set_bg s (Some WHITE)
  | _ => s
  end.

(** The colour an extended parameter gives and how many values it takes; the
    argument is what follows it. *)
Definition extended_color (rest : list Z) : option (Color * nat) :=
  match rest with
  | 5 :: n :: _ => Some (color_256 n, 2%nat)
  | 2 :: r :: g :: b :: _ => Some (color_true r g b, 4%nat)
  | _ => None
  end.

(** The loop over [values], from the value at [i] on. Each round takes at least
    one value, so their number is enough fuel. *)
Fixpoint sgr_loop (fuel : nat) (s : Style) (values : list Z) : Style :=
  match fuel, values with
  | S fuel, value :: rest =>
    if decide (value = 38) then
      match extended_color rest with
      | Some (c, n) => sgr_loop fuel (set_fg s c) (drop n rest)
      | None => sgr_loop fuel s rest
      end
    else if decide (value = 48) then
      match extended_color rest with
      | Some (c, n) => sgr_loop fuel (set_bg s (Some c)) (drop n rest)
      | None => sgr_loop fuel s rest
      end
    else sgr_loop fuel (sgr_simple s value) rest
  | _, _ => s
  end.

Definition select_graphic_rendition (s : Style) (params : vte_params) : Style :=
  let values := Z.of_nat <$> concat params in
  match values with
  | [] => style_default
  | _ => sgr_loop (length values) s values
  end.

(** ** The parser's calls *)

Definition restore_cursor (t : Terminal) : Terminal :=
  set_cursor t (Nat.min (saved_cursor t).1 (rows t - 1)) (Nat.min (saved_cursor t).2 (cols t - 1)).

Definition erase_display (t : Terminal) (params : vte_params) : option Terminal :=
  match param_at params 0 0 with
  | 0 => clear_to_end_of_screen t (style t)
  | 1 => clear_to_start_of_screen t (style t)
  | 2 | 3 => clear_screen_all t (style t)
  | _ => Some t
  end%nat.

Definition erase_line (t : Terminal) (params : vte_params) : option Terminal :=
  let row := Nat.min (cursor_row t) (rows t - 1) in
  let col := Nat.min (cursor_col t) (cols t - 1) in
  match param_at params 0 0 with
  | 0 => clear_row_range t row col (cols t) (style t)
  | 1 => clear_row_range t row 0 (col + 1) (style t)
  | 2 => clear_row_range t row 0 (cols t) (style t)
  | _ => Some t
  end%nat.

(** [self.rows as u16]. *)
Definition rows_u16 (t : Terminal) : nat := Z.to_nat (wrap_u16 (Z.of_nat (rows t))).

Definition csi_dispatch (t : Terminal) (params : vte_params) (intermediates : list Z)
    (action : char) : option Terminal :=
  let n := param_count params 1 in
  if decide (action = ch "H" ∨ action = ch "f") then
    let row := (param_at params 0 1 - 1)%nat in
    let col := (param_at params 1 1 - 1)%nat in
    Some (set_cursor t (Nat.min row (rows t - 1)) (Nat.min col (cols t - 1)))
  else if decide (action = ch "A") then Some (set_cursor_row t (cursor_row t - n))
  else if decide (action = ch "B") then
    Some (set_cursor_row t (Nat.min (cursor_row t + n) (rows t - 1)))
  else if decide (action = ch "C") then
    Some (set_cursor_col t (Nat.min (cursor_col t + n) (cols t - 1)))
  else if decide (action = ch "D") then Some (set_cursor_col t (cursor_col t - n))
  else if decide (action = ch "E") then
    Some (set_cursor t (Nat.min (cursor_row t + n) (rows t - 1)) 0)
  else if decide (action = ch "F") then Some (set_cursor t (cursor_row t - n) 0)
  else if decide (action = ch "G") then
    let col := (param_at params 0 1 - 1)%nat in
    Some (set_cursor_col t (Nat.min col (cols t - 1)))
  else if decide (action = ch "d") then
    let row := (param_at params 0 1 - 1)%nat in
    Some (set_cursor_row t (Nat.min row (rows t - 1)))
  else if decide (action = ch "m") then
    Some (set_style t (select_graphic_rendition (style t) params))
  else if decide (action = ch "J") then erase_display t params
  else if decide (action = ch "K") then erase_line t params
  else if decide (action = ch "@") then insert_blank_chars t n
  else if decide (action = ch "P") then delete_chars t n
  else if decide (action = ch "X") then erase_chars t n
  else if decide (action = ch "L") then insert_lines t n
  else if decide (action = ch "M") then delete_lines t n
  else if decide (action = ch "S") then scroll_up_region t (scroll_top t) (scroll_bottom t) n
  else if decide (action = ch "T") then scroll_down_region t (scroll_top t) (scroll_bottom t) n
  else if decide (action = ch "r") then
    let top := (param_at params 0 1 - 1)%nat in
    let bottom := (param_at params 1 (rows_u16 t) - 1)%nat in
    Some (set_scroll_region t top bottom)
  else if decide (action = ch "s") then Some (set_saved_cursor t (cursor_row t, cursor_col t))
  else if decide (action = ch "u") then Some (restore_cursor t)
  else if decide (action = ch "h" ∨ action = ch "l") then
    if decide (ch "?" ∈ intermediates) then
      let set := bool_decide (action = ch "h") in
      run_steps (fun t value => handle_private_mode value set t) t (concat params)
    else Some t
  else Some t.

Definition esc_dispatch (t : Terminal) (intermediates : list Z) (byte : Z) : option Terminal :=
  match intermediates with
  | [] =>
    if decide (byte = ch "7") then Some (set_saved_cursor t (cursor_row t, cursor_col t))
    else if decide (byte = ch "8") then Some (restore_cursor t)
    else if decide (byte = ch "D") then linefeed t
    else if decide (byte = ch "E") then t ← linefeed t; Some (set_cursor_col t 0)
    else if decide (byte = ch "M") then reverse_index t
    else if decide (byte = ch "c") then reset_terminal t
    else Some t
  | _ => Some t
  end.

Definition perform (t : Terminal) (e : vte_event) : option Terminal :=
  match e with
  | Print c => put_char t c
  | Execute byte => execute t byte
  | CsiDispatch params intermediates _ action => csi_dispatch t params intermediates action
  | EscDispatch intermediates _ byte => esc_dispatch t intermediates byte
  | Hook _ _ _ _ | Put _ | Unhook | OscDispatch _ _ => Some t
  end.

(** [Terminal::feed]: the parser is the other half of the emulator's state. *)
Definition feed `{VteParser} (p : vte_state) (t : Terminal) (data : bytes)
    : option (vte_state * Terminal) :=
  let '(p, events) := vte_advance p data in
  t ← run_steps perform t events;
  Some (p, t).

(** ** Lines *)

Record Span := MkSpan {
  span_text : list char;
  span_fg : Color;
  span_bg : option Color;
  span_bold : bool;
  span_italic : bool;
}.

Definition span_default : Span := MkSpan [] WHITE None false false.

Notation Line := (list Span).

Definition option_color_eqb (a b : option Color) : bool :=
  match a, b with
  | Some a, Some b => color_eqb a b
  | None, None => true
  | _, _ => false
  end.

(** The cell's style differs from the span's. *)
Definition span_differs (s : Span) (st : Style) : bool :=
  negb (color_eqb (span_fg s) (fg_color st)) || negb (option_color_eqb (span_bg s) (bg_color st))
  || negb (Bool.eqb (span_bold s) (bold st)) || negb (Bool.eqb (span_italic s) (italic st)).

Definition append_text (s : Span) (text : list char) : Span :=
  MkSpan (span_text s ++ text) (span_fg s) (span_bg s) (span_bold s) (span_italic s).

Definition push_cell (l : Line) (cell : Cell) : Line :=
  if wide_continuation cell then l
  else
    let st := cell_style cell in
    let should_create_new := match last l with None => true | Some s => span_differs s st end in
    let l := if should_create_new
             then l ++ [MkSpan [] (fg_color st) (bg_color st) (bold st) (italic st)] else l in
    match last l with
    | Some s => removelast l ++ [append_text s (cell_text cell)]
    | None => l
    end.

Definition line_of (row : list Cell) : Line :=
  let line := foldl push_cell [] row in
  match line with [] => [span_default] | _ => line end.

Definition lines (t : Terminal) : list Line := line_of <$> buffer t.

End Terminal.
