(* ===== verification/TerminalRows.v ===== *)
(** * The rows of the terminal: wide characters stay paired

    A wide character fills a cell and the continuation cell to its right; the
    operations of [Terminal.v] on one row, as functions on the row, and what
    they do to the pairing. *)

From S2P Require Export Terminal.

#[local] Open Scope nat_scope.

(** ** Rows: wide characters and their continuations *)

Section Rows.
Context `{DisplayLaws}.

Notation row_t := (list Cell).

(** A wide character starts at [i], and a cell continues one at [i]. *)
Definition lead (l : row_t) (i : nat) : bool :=
  match l !! i with Some c => is_wide_lead c | None => false end.
Definition cont (l : row_t) (i : nat) : bool :=
  match l !! i with Some c => wide_continuation c | None => false end.

(** Every wide character has its continuation to the right, and every
    continuation its wide character to the left. *)
Definition paired (l : row_t) : Prop := cont l 0 = false ∧ ∀ i, lead l i = cont l (S i).

Lemma lead_insert l k c i :
  (k < length l)%nat → lead (<[k := c]> l) i = if decide (i = k) then is_wide_lead c else lead l i.
Proof.
  intros. unfold lead. case_decide; subst; [by rewrite list_lookup_insert_eq|].
  by rewrite list_lookup_insert_ne.
Qed.

Lemma cont_insert l k c i :
  (k < length l)%nat → cont (<[k := c]> l) i = if decide (i = k) then wide_continuation c else cont l i.
Proof.
  intros. unfold cont. case_decide; subst; [by rewrite list_lookup_insert_eq|].
  by rewrite list_lookup_insert_ne.
Qed.

Lemma lead_cont l i : lead l i = true → cont l i = false.
Proof.
  unfold lead, cont, is_wide_lead. destruct (l !! i) as [c|]; [|done]. by destruct (wide_continuation c).
Qed.

Lemma lead_length l i : lead l i = true → (i < length l)%nat.
Proof. unfold lead. destruct (l !! i) eqn:E; [|done]. intros _. by eapply lookup_lt_Some. Qed.

Lemma cont_length l i : cont l i = true → (i < length l)%nat.
Proof. unfold cont. destruct (l !! i) eqn:E; [|done]. intros _. by eapply lookup_lt_Some. Qed.

Lemma is_wide_lead_blank s : is_wide_lead (blank_with_style s) = false.
Proof. unfold is_wide_lead. cbn. by rewrite space_width. Qed.

Lemma is_wide_lead_continuation s : is_wide_lead (continuation s) = false.
Proof. done. Qed.

Lemma char_width_lead c s : is_wide_lead (MkCell [c] s false) = (char_width c =? 2)%nat.
Proof.
  unfold is_wide_lead, char_width. cbn. destruct (unicode_width c) as [[|[|n]]|]; cbn; [done..| |done].
  by rewrite Nat.min_r by lia.
Qed.

Lemma is_wide_lead_push c cell :
  char_width c = 0%nat → is_wide_lead (push_text c cell) = is_wide_lead cell.
Proof.
  unfold is_wide_lead, char_width, push_text. cbn. destruct (wide_continuation cell); [done|].
  destruct (cell_text cell); [|done]. cbn.
  destruct (unicode_width c) as [[|[|n]]|]; cbn; done.
Qed.

Lemma paired_blank_row n : paired (blank_row n).
Proof.
  unfold paired, lead, cont, blank_row. split.
  - by destruct n.
  - intros i. destruct (replicate n blank !! i) as [c|] eqn:E1, (replicate n blank !! S i) as [d|] eqn:E2;
      try apply lookup_replicate in E1 as [-> _]; try apply lookup_replicate in E2 as [-> _];
      unfold blank; rewrite ?is_wide_lead_blank; done.
Qed.

(** Replacing a cell by one of the same shape. *)
Lemma paired_same_shape l k c d :
  l !! k = Some c → is_wide_lead d = is_wide_lead c → wide_continuation d = wide_continuation c →
  paired l → paired (<[k := d]> l).
Proof.
  intros Hk Hl Hc [Hz Hp]. pose proof (lookup_lt_Some _ _ _ Hk).
  assert (∀ i, lead (<[k := d]> l) i = lead l i) as El.
  { intros i. rewrite lead_insert by done. case_decide; [subst; unfold lead; by rewrite Hk|done]. }
  assert (∀ i, cont (<[k := d]> l) i = cont l i) as Ec.
  { intros i. rewrite cont_insert by done. case_decide; [subst; unfold cont; by rewrite Hk|done]. }
  split; [by rewrite Ec|]. intros i. by rewrite El, Ec.
Qed.

(** *** [clear_overlapped_cell] on a row *)

Definition clear_list (l : row_t) (col : nat) : row_t :=
  if cont l col then
    if (0 <? col)%nat && lead l (col - 1) then <[col - 1 := blank]> (<[col := blank]> l)
    else <[col := blank]> l
  else if lead l col && cont l (col + 1) then <[col := blank]> (<[col + 1 := blank]> l)
  else <[col := blank]> l.

Lemma length_clear_list l col : length (clear_list l col) = length l.
Proof. unfold clear_list. repeat case_match; by rewrite ?length_insert. Qed.

Ltac rows := repeat (rewrite ?lead_insert, ?cont_insert by (rewrite ?length_insert; lia));
  unfold blank; rewrite ?is_wide_lead_blank, ?is_wide_lead_continuation; cbn [wide_continuation blank_with_style continuation].

(** Clearing at a column whose neighbours are paired with it clears exactly the
    wide character there. *)
Lemma clear_list_shape l col i :
  (col < length l)%nat → (cont l col = true → (0 < col)%nat ∧ lead l (col - 1) = true) →
  lead l col = cont l (S col) →
  lead (clear_list l col) i =
    (lead l i && bool_decide (i ≠ col) && negb (cont l col && bool_decide (S i = col))) ∧
  cont (clear_list l col) i =
    (cont l i && bool_decide (i ≠ col) && bool_decide (i ≠ S col)).
Proof.
  intros Hcol Hprev Hnext. unfold clear_list. rewrite Nat.add_1_r, <- Hnext.
  destruct (cont l col) eqn:Ec.
  - destruct (Hprev eq_refl) as [Hpos Hl]. rewrite Hl. destruct (0 <? col)%nat eqn:E; zb; [|lia]. cbn [andb].
    assert (lead l col = false) as Hlc by (destruct (lead l col) eqn:E'; [apply lead_cont in E'; congruence|done]).
    rows. assert (cont l (col - 1) = false) as Hcc by by apply lead_cont.
    split; repeat (case_decide || case_bool_decide); subst; try lia; rewrite ?andb_true_r, ?andb_false_r; try done;
      try congruence; try (replace i with (col - 1)%nat in * by lia; congruence).
  - cbn [andb]. rewrite Bool.andb_diag. destruct (lead l col) eqn:El.
    + pose proof (cont_length l (S col) (eq_sym Hnext)). rows.
      split; repeat (case_decide || case_bool_decide); subst; try lia; rewrite ?andb_true_r, ?andb_false_r; try done.
      unfold lead, cont in *. destruct (l !! S col) as [c|]; [|done]. unfold is_wide_lead. by rewrite <- Hnext.
    + rows. split; repeat (case_decide || case_bool_decide); subst; try lia;
        rewrite ?andb_true_r, ?andb_false_r; done || congruence.
Qed.

(** *** [put_char] on a row *)

Definition put_list (l : row_t) (col width : nat) (c : char) (s : Style) : row_t :=
  let l := <[col := MkCell [c] s false]> (clear_list l col) in
  if width =? 2 then <[col + 1 := continuation s]> (clear_list l (col + 1)) else l.

Lemma length_put_list l col w c s : length (put_list l col w c s) = length l.
Proof. unfold put_list. case_match; by repeat rewrite ?length_insert, ?length_clear_list. Qed.

Lemma paired_prev l col : paired l → cont l col = true → 0 < col ∧ lead l (col - 1) = true.
Proof.
  intros [Hz Hp] Hc. destruct col as [|col]; [congruence|]. split; [lia|].
  replace (S col - 1) with col by lia. by rewrite Hp.
Qed.

Lemma paired_clear l col : col < length l → paired l → paired (clear_list l col).
Proof.
  intros Hcol Hp. pose proof (fun i => clear_list_shape l col i Hcol (paired_prev l col Hp) (proj2 Hp col)) as Hs.
  split.
  - rewrite (proj2 (Hs 0)). destruct Hp as [Hz _]. by rewrite Hz.
  - intros i. rewrite (proj1 (Hs i)), (proj2 (Hs (S i))), (proj2 Hp i).
    repeat case_bool_decide; subst; rewrite ?andb_true_r, ?andb_false_r; try lia; try done;
      by destruct (cont l (S i)).
Qed.

Lemma clear_not l col : col < length l → paired l →
  lead (clear_list l col) col = false ∧ cont (clear_list l col) col = false.
Proof.
  intros Hcol Hp.
  destruct (clear_list_shape l col col Hcol (paired_prev l col Hp) (proj2 Hp col)) as [-> ->].
  rewrite bool_decide_eq_false_2 by (intros X; by apply X). by rewrite !andb_false_r.
Qed.

Lemma paired_put l col c s :
  paired l → col + char_width c ≤ length l → 0 < char_width c ≤ 2 →
  paired (put_list l col (char_width c) c s).
Proof.
  intros Hp Hlen Hw. unfold put_list. set (l1 := clear_list l col).
  assert (length l1 = length l) as Hl1 by apply length_clear_list.
  assert (paired l1) as Hp1 by (apply paired_clear; [lia|done]).
  destruct (clear_not l col) as [Hnl Hnc]; [lia|done|]. fold l1 in Hnl, Hnc.
  set (l2 := <[col := MkCell [c] s false]> l1).
  assert (∀ i, lead l2 i = if decide (i = col) then char_width c =? 2 else lead l1 i) as Hlead2.
  { intros i. unfold l2. rewrite lead_insert by lia. by rewrite char_width_lead. }
  assert (∀ i, cont l2 i = if decide (i = col) then false else cont l1 i) as Hcont2.
  { intros i. unfold l2. by rewrite cont_insert by lia. }
  destruct (char_width c =? 2) eqn:Ew; zb.
  - (* a wide character: its right half *)
    assert (∀ i, lead (clear_list l2 (col + 1)) i = (lead l2 i && bool_decide (i ≠ col + 1)) ∧
      cont (clear_list l2 (col + 1)) i =
        (cont l2 i && bool_decide (i ≠ col + 1) && bool_decide (i ≠ S (col + 1)))) as Hs.
    { assert (cont l2 (col + 1) = false) as Hc2.
      { rewrite Hcont2, decide_False by lia. rewrite Nat.add_1_r, <- (proj2 Hp1). done. }
      intros i. destruct (clear_list_shape l2 (col + 1) i) as [E1 E2].
      - unfold l2. rewrite length_insert. lia.
      - congruence.
      - rewrite Hlead2, Hcont2, !decide_False by lia. apply Hp1.
      - rewrite E1, E2, Hc2. by rewrite andb_true_r. }
    assert (∀ i, lead (<[col + 1 := continuation s]> (clear_list l2 (col + 1))) i =
      if decide (i = col + 1) then false else lead l2 i) as Hlead3.
    { intros i. rewrite lead_insert by (rewrite length_clear_list; unfold l2; rewrite length_insert; lia).
      case_decide; [done|]. rewrite (proj1 (Hs i)), bool_decide_eq_true_2 by done. by rewrite andb_true_r. }
    assert (∀ i, cont (<[col + 1 := continuation s]> (clear_list l2 (col + 1))) i =
      if decide (i = col + 1) then true else cont l2 i && bool_decide (i ≠ S (col + 1))) as Hcont3.
    { intros i. rewrite cont_insert by (rewrite length_clear_list; unfold l2; rewrite length_insert; lia).
      case_decide; [done|]. rewrite (proj2 (Hs i)), bool_decide_eq_true_2 by done. by rewrite andb_true_r. }
    split.
    + rewrite Hcont3, Hcont2. destruct Hp1 as [-> _]. repeat case_decide; try lia; done.
    + intros i. rewrite Hlead3, Hcont3, Hlead2, Hcont2, (proj2 Hp1 i).
      repeat case_decide; repeat case_bool_decide; subst; try lia; rewrite ?andb_true_r, ?andb_false_r; try done.
  - split.
    + rewrite Hcont2. destruct Hp1 as [-> _]. by case_decide.
    + intros i. rewrite Hlead2, Hcont2, (proj2 Hp1 i).
      repeat case_decide; subst; try done.
      * by rewrite <- (proj2 Hp1 col), Hnl.
Qed.

(** *** [sanitize_row] on a row *)

Definition style_at (l : row_t) (i : nat) : Style :=
  match l !! i with Some c => cell_style c | None => style_default end.

Definition sanitize_at (l : row_t) (col : nat) : row_t :=
  if cont l col then
    if (col =? 0) || negb (lead l (col - 1)) then <[col := blank]> l else l
  else if lead l col then
    if length l <=? col + 1 then <[col := blank]> l
    else if negb (cont l (col + 1)) then <[col + 1 := continuation (style_at l col)]> l else l
  else l.

Definition sanitize_list (l : row_t) : row_t := foldl sanitize_at l (seq 0 (length l)).

Lemma length_sanitize_at l col : length (sanitize_at l col) = length l.
Proof. unfold sanitize_at. repeat case_match; by rewrite ?length_insert. Qed.

(** The first [k] cells are paired, up to what the last of them asks of its
    right neighbour. *)
Definition paired_to (k : nat) (l : row_t) : Prop :=
  (0 < k → cont l 0 = false) ∧ (∀ i, S i < k → lead l i = cont l (S i)) ∧
  (0 < k → lead l (k - 1) = true → cont l k = true).

Lemma sanitize_step k l : k < length l → paired_to k l → paired_to (S k) (sanitize_at l k).
Proof.
  intros Hk (H1 & H2 & H3). unfold sanitize_at.
  destruct (cont l k) eqn:Ec.
  - destruct ((k =? 0) || negb (lead l (k - 1))) eqn:E.
    + assert (k = 0 ∨ lead l (k - 1) = false) as Hk0.
      { apply orb_true_iff in E as [E|E]; zb; auto. }
      split; [|split].
      * intros _. rows. case_decide; [done|]. apply H1. lia.
      * intros i Hi. rows. rewrite (decide_False (P := i = k)) by lia. case_decide; [|apply H2; lia].
        destruct Hk0 as [->|Hk0]; [lia|]. by replace i with (k - 1) by lia.
      * intros _. replace (S k - 1) with k by lia. rows. by rewrite decide_True.
    + apply orb_false_iff in E as [E1 E2]. zb. split; [|split].
      * intros _. apply H1. lia.
      * intros i Hi. destruct (decide (S i = k)) as [<-|]; [|apply H2; lia].
        replace (S i - 1) with i in E2 by lia. congruence.
      * intros _. replace (S k - 1) with k by lia. intros Hl%lead_cont. congruence.
  - assert (∀ i, S i < S k → lead l i = cont l (S i)) as H2'.
    { intros i Hi. destruct (decide (S i = k)) as [<-|]; [|apply H2; lia].
      replace (S i - 1) with i in H3 by lia. destruct (lead l i) eqn:E; [|congruence].
      specialize (H3 ltac:(lia) eq_refl). congruence. }
    assert (0 < S k → cont l 0 = false) as H1'.
    { intros _. destruct k; [done|apply H1; lia]. }
    destruct (lead l k) eqn:El; [|split; [done|split; [done|]]; intros _; replace (S k - 1) with k by lia; congruence].
    destruct (length l <=? k + 1) eqn:En; [|destruct (negb (cont l (k + 1))) eqn:E]; zb.
    + split; [|split].
      * intros _. rows. case_decide; [done|by apply H1'; lia].
      * intros i Hi. rows. rewrite (decide_False (P := i = k)) by lia.
        case_decide; [|by apply H2']. subst k. by rewrite <- Ec, H2' by lia.
      * intros _. replace (S k - 1) with k by lia. rows. by rewrite decide_True.
    + split; [|split].
      * intros _. rows. rewrite decide_False by lia. by apply H1'; lia.
      * intros i Hi. rows. rewrite !decide_False by lia. by apply H2'.
      * intros _ _. rows. rewrite decide_True by lia. done.
    + split; [done|]. split; [done|]. intros _ _. by rewrite <- Nat.add_1_r.
Qed.

Lemma sanitize_list_spec l : paired (sanitize_list l) ∧ length (sanitize_list l) = length l.
Proof.
  unfold sanitize_list.
  assert (∀ k, k ≤ length l → paired_to k (foldl sanitize_at l (seq 0 k)) ∧
    length (foldl sanitize_at l (seq 0 k)) = length l) as Hall.
  { induction k as [|k IH]; intros Hk; [split; [|done]; split_and!; [lia| |lia]; intros; lia|].
    destruct IH as [IH1 IH2]; [lia|]. rewrite seq_S, foldl_app. cbn.
    split; [apply sanitize_step; [lia|done]|]. by rewrite length_sanitize_at. }
  destruct (Hall (length l) ltac:(lia)) as [(H1 & H2 & H3) Hlen]. split; [|done].
  set (r := foldl sanitize_at l (seq 0 (length l))) in *.
  assert (∀ i, length l ≤ i → cont r i = false) as Hout.
  { intros i Hi. destruct (cont r i) eqn:E; [|done]. apply cont_length in E. lia. }
  split.
  - destruct (decide (0 < length l)) as [Hl|Hl]; [by apply H1|]. apply Hout. lia.
  - intros i. destruct (decide (S i < length l)); [by apply H2|]. rewrite (Hout (S i)) by lia.
    destruct (lead r i) eqn:E; [|done]. pose proof (lead_length _ _ E).
    replace i with (length l - 1) in E by lia. apply H3 in E; [|lia]. by rewrite Hout in E by lia.
Qed.

End Rows.
