(* ===== verification/TerminalSafety.v ===== *)
(** * The terminal never panics, and keeps its shape

    With at least two columns no handler of [Terminal.v] indexes out of range,
    and the screen keeps its size, the cursor and the scroll region their
    bounds, and wide characters their continuations. *)

From S2P Require Export TerminalRows.

#[local] Open Scope nat_scope.

Section Safety.
Context `{DisplayLaws}.

(** ** Well-formed states *)

Definition row_ok (n : nat) (l : list Cell) : Prop := length l = n ∧ paired l.

Definition screen_ok (rows cols : nat) (b : list (list Cell)) : Prop :=
  length b = rows ∧ Forall (row_ok cols) b.

Record wf (t : Terminal) : Prop := {
  wf_rows : 0 < rows t;
  wf_cols : 2 ≤ cols t;
  wf_screen : screen_ok (rows t) (cols t) (buffer t);
  wf_cursor_row : cursor_row t < rows t;
  wf_cursor_col : cursor_col t < cols t;
  wf_scroll : scroll_top t ≤ scroll_bottom t < rows t ∧ (scroll_top t < scroll_bottom t ∨ rows t = 1);
  wf_saved : ∀ s, saved_main_screen t = Some s → screen_ok (rows t) (cols t) (saved_buffer s);
}.

(** What no handler but the switch of screens changes. *)
Definition keeps (t t' : Terminal) : Prop :=
  rows t' = rows t ∧ cols t' = cols t ∧ alternate_screen t' = alternate_screen t ∧
  saved_main_screen t' = saved_main_screen t.

#[export] Instance keeps_preorder : PreOrder keeps.
Proof.
  split; [by intros t; unfold keeps|]. intros x y z (? & ? & ? & ?) (? & ? & ? & ?).
  unfold keeps. split_and!; congruence.
Qed.

(** The handler does not panic, and what it leaves is well formed. *)
Definition good (t : Terminal) (m : option Terminal) : Prop :=
  ∃ t', m = Some t' ∧ wf t' ∧ keeps t t'.

Lemma good_ret t t' : wf t' → keeps t t' → good t (Some t').
Proof. intros. by exists t'. Qed.

Lemma good_bind t m f :
  good t m → (∀ t', wf t' → keeps t t' → good t' (f t')) → good t (m ≫= f).
Proof.
  intros (t1 & -> & Hw & Hk) Hf. cbn. destruct (Hf t1 Hw Hk) as (t2 & -> & ? & ?).
  exists t2. split_and!; [done..|]. by etrans.
Qed.

Lemma good_run {A} t (f : Terminal → A → option Terminal) l :
  wf t → (∀ t' a, wf t' → keeps t t' → a ∈ l → good t' (f t' a)) → good t (run_steps f t l).
Proof.
  intros Hw Hf. destruct (run_steps_inv f (fun t' => wf t' ∧ keeps t t') l) with (s := t) as (t' & E & Hw' & Hk).
  - intros t' a [Hw' Hk] Ha. destruct (Hf t' a Hw' Hk Ha) as (t2 & -> & ? & ?).
    exists t2. split; [done|]. split; [done|]. by etrans.
  - split; [done|reflexivity].
  - by exists t'.
Qed.

(** ** One row at a time *)

Definition at_row (t : Terminal) (row : nat) (l : list Cell) : Terminal :=
  set_buffer t (<[row := l]> (buffer t)).

Lemma at_row_id t row l : buffer t !! row = Some l → at_row t row l = t.
Proof. intros Hl. unfold at_row. rewrite list_insert_id by done. by destruct t. Qed.

Lemma at_row_at_row t row l k : at_row (at_row t row l) row k = at_row t row k.
Proof. unfold at_row, set_buffer. cbn. by rewrite list_insert_insert_eq. Qed.

Lemma get_cell_at t row l col : row < length (buffer t) → get_cell (at_row t row l) row col = l !! col.
Proof. intros. unfold get_cell, at_row. cbn. by rewrite list_lookup_insert_eq. Qed.

Lemma set_cell_at t row l col c :
  row < length (buffer t) → col < length l →
  set_cell (at_row t row l) row col c = Some (at_row t row (<[col := c]> l)).
Proof.
  intros Hr [x Hx]%lookup_lt_is_Some. unfold set_cell. cbn. rewrite list_lookup_insert_eq by done. cbn.
  rewrite Hx. cbn. unfold at_row, set_buffer. cbn. by rewrite list_insert_insert_eq.
Qed.

Lemma wf_length t : wf t → length (buffer t) = rows t.
Proof. intros W. by destruct (wf_screen t W). Qed.

Lemma wf_row t row : wf t → row < rows t → ∃ l, buffer t !! row = Some l ∧ row_ok (cols t) l.
Proof.
  intros W Hr. destruct (wf_screen t W) as [Hlen Hall].
  destruct (lookup_lt_is_Some_2 (buffer t) row) as [l Hl]; [lia|]. exists l. split; [done|].
  by eapply Forall_lookup_1.
Qed.

Lemma wf_set_buffer t b : wf t → screen_ok (rows t) (cols t) b → wf (set_buffer t b).
Proof. intros [] ?. by split. Qed.

Lemma wf_at_row t row l :
  wf t → row_ok (cols t) l → wf (at_row t row l) ∧ keeps t (at_row t row l).
Proof.
  intros W Hl. split; [|by unfold keeps]. apply wf_set_buffer; [done|].
  destruct (wf_screen t W) as [Hlen Hall]. split; [by rewrite length_insert|].
  by apply Forall_insert.
Qed.

(** Steps that stay on one row keep the row's length. *)
Lemma run_steps_at {A} t row n (f : Terminal → A → option Terminal) idxs l :
  (∀ l i, length l = n → i ∈ idxs →
    ∃ l', f (at_row t row l) i = Some (at_row t row l') ∧ length l' = n) →
  length l = n →
  ∃ l', run_steps f (at_row t row l) idxs = Some (at_row t row l') ∧ length l' = n.
Proof.
  intros Hf Hl.
  destruct (run_steps_inv f (fun s => ∃ l, s = at_row t row l ∧ length l = n) idxs)
    with (s := at_row t row l) as (s & E & l' & -> & Hl'); [|by eauto|by eauto].
  intros s i (k & -> & Hk) Hi. destruct (Hf k i Hk Hi) as (k' & -> & ?). eauto.
Qed.

Lemma elem_of_range a b i : i ∈ range a b ↔ a ≤ i < b.
Proof. unfold range. rewrite elem_of_seq. lia. Qed.

Lemma elem_of_rev_range a b i : i ∈ rev (range a b) ↔ a ≤ i < b.
Proof. by rewrite list_elem_of_In, <- in_rev, <- list_elem_of_In, elem_of_range. Qed.

Lemma fill_range_at t row l a b c :
  row < length (buffer t) → b ≤ length l →
  ∃ l', fill_range (at_row t row l) row a b c = Some (at_row t row l') ∧ length l' = length l.
Proof.
  intros Hr Hb. unfold fill_range. apply (run_steps_at t row (length l)); [|done].
  intros k i Hk Hi%elem_of_range. rewrite set_cell_at by lia. eexists. split; [done|].
  by rewrite length_insert.
Qed.

Lemma sanitize_cell_at t row l col :
  row < length (buffer t) → length l = cols t → col < length l →
  sanitize_cell row (at_row t row l) col = Some (at_row t row (sanitize_at l col)).
Proof.
  intros Hr Hl Hc. unfold sanitize_cell, sanitize_at, lead, cont, style_at.
  rewrite (get_cell_at t row l col) by done. destruct (l !! col) as [c|] eqn:E; [|apply lookup_ge_None in E; lia]. cbn.
  destruct (wide_continuation c).
  - destruct (col =? 0) eqn:E0; zb; cbn; [by rewrite set_cell_at by lia|].
    rewrite get_cell_at by done.
    destruct (l !! (col - 1)) as [d|] eqn:E1; [|apply lookup_ge_None in E1; lia]. cbn.
    destruct (is_wide_lead d); cbn; [done|by rewrite set_cell_at by lia].
  - destruct (is_wide_lead c); [|done]. rewrite Hl.
    destruct (cols t <=? col + 1) eqn:En; zb; [by rewrite set_cell_at by lia|].
    rewrite get_cell_at by done.
    destruct (l !! (col + 1)) as [d|] eqn:E1; [|apply lookup_ge_None in E1; lia]. cbn.
    destruct (wide_continuation d); cbn; [done|by rewrite set_cell_at by lia].
Qed.

Lemma sanitize_row_at t row l :
  row < length (buffer t) → row < rows t → length l = cols t →
  sanitize_row (at_row t row l) row = Some (at_row t row (sanitize_list l)).
Proof.
  intros Hr Hr' Hl. unfold sanitize_row. cbn. destruct (rows t <=? row) eqn:E; zb; [lia|].
  unfold range, sanitize_list. rewrite Nat.sub_0_r, <- Hl.
  assert (∀ k, k ≤ length l →
    run_steps (sanitize_cell row) (at_row t row l) (seq 0 k) =
      Some (at_row t row (foldl sanitize_at l (seq 0 k))) ∧
    length (foldl sanitize_at l (seq 0 k)) = length l) as Hall; [|by apply Hall].
  induction k as [|k IH]; intros Hk; [done|]. destruct IH as [IH1 IH2]; [lia|].
  rewrite seq_S, run_steps_app, IH1, foldl_app. cbn. rewrite sanitize_cell_at by lia.
  by rewrite length_sanitize_at.
Qed.

Lemma good_sanitize t row l :
  wf t → row < rows t → length l = cols t → good t (sanitize_row (at_row t row l) row).
Proof.
  intros W Hr Hl. pose proof (wf_length t W). rewrite sanitize_row_at by lia.
  destruct (sanitize_list_spec l) as [Hp Hlen].
  destruct (wf_at_row t row (sanitize_list l)) as [Hw Hk]; [done|split; [lia|done]|].
  by apply good_ret.
Qed.

(** Any work on a row that keeps its length, followed by [sanitize_row]. *)
Lemma good_row_edit t row (m : Terminal → option Terminal) :
  wf t → row < rows t →
  (∀ l, length l = cols t → ∃ l', m (at_row t row l) = Some (at_row t row l') ∧ length l' = cols t) →
  good t (t' ← m t; sanitize_row t' row).
Proof.
  intros W Hr Hm. destruct (wf_row t row W Hr) as (l & Hl & Hlen & _).
  destruct (Hm l Hlen) as (l' & E & Hlen'). rewrite at_row_id in E by done. rewrite E. cbn.
  by apply good_sanitize.
Qed.

Lemma clear_overlapped_at t row l col :
  row < length (buffer t) → row < rows t → length l = cols t → col < cols t →
  clear_overlapped_cell (at_row t row l) row col = Some (at_row t row (clear_list l col)).
Proof.
  intros Hr Hr' Hl Hc. unfold clear_overlapped_cell, clear_list, lead, cont. cbn.
  destruct (rows t <=? row) eqn:E1; destruct (cols t <=? col) eqn:E2; zb; try lia. cbn.
  rewrite (get_cell_at t row l col) by done. destruct (l !! col) as [c|] eqn:E; [|apply lookup_ge_None in E; lia]. cbn.
  destruct (wide_continuation c) eqn:Ew.
  - rewrite set_cell_at by lia. cbn. destruct (0 <? col) eqn:E0; zb; [|done]. cbn.
    rewrite get_cell_at by done. rewrite list_lookup_insert_ne by lia.
    destruct (l !! (col - 1)) as [d|] eqn:Ed; [|apply lookup_ge_None in Ed; lia]. cbn.
    destruct (is_wide_lead d); [|done]. rewrite set_cell_at by (rewrite ?length_insert; lia). done.
  - destruct (is_wide_lead c); cbn; [|by rewrite set_cell_at by lia].
    destruct (col + 1 <? cols t) eqn:En; zb; cbn.
    + rewrite get_cell_at by done. destruct (l !! (col + 1)) as [d|] eqn:Ed; [|apply lookup_ge_None in Ed; lia].
      cbn. destruct (wide_continuation d); cbn.
      * rewrite set_cell_at by lia. cbn. by rewrite set_cell_at by (rewrite ?length_insert; lia).
      * by rewrite set_cell_at by lia.
    + destruct (l !! (col + 1)) as [d|] eqn:Ed; [apply lookup_lt_Some in Ed; lia|].
      by rewrite set_cell_at by lia.
Qed.

(** ** Scrolling *)

Lemma row_ok_blank n : row_ok n (blank_row n).
Proof. split; [apply length_replicate|apply paired_blank_row]. Qed.

Lemma good_set_row t row l : wf t → row < rows t → row_ok (cols t) l → good t (set_row t row l).
Proof.
  intros W Hr Hl. unfold set_row. destruct (wf_row t row W Hr) as (k & -> & _). cbn.
  destruct (wf_at_row t row l W Hl). by apply good_ret.
Qed.

Lemma good_copy_row t to from :
  wf t → to < rows t → from < rows t → good t (copy_row t to from).
Proof.
  intros W Ht Hf. unfold copy_row, get_row. destruct (wf_row t from W Hf) as (l & -> & Hl). cbn.
  by apply good_set_row.
Qed.

Lemma keeps_rows t t' : keeps t t' → rows t' = rows t ∧ cols t' = cols t.
Proof. by intros (? & ? & _). Qed.

Ltac kept := repeat match goal with K : keeps _ _ |- _ => apply keeps_rows in K as [? ?] end.

Lemma good_scroll_up_once t top bottom :
  wf t → top ≤ bottom < rows t → good t (scroll_up_once top bottom t).
Proof.
  intros W Hb. apply good_bind.
  - apply good_run; [done|]. intros t' row W' K Hi%elem_of_range. kept. apply good_copy_row; [done|lia..].
  - intros t' W' K. kept. apply good_set_row; [done|lia|]. apply row_ok_blank.
Qed.

Lemma good_scroll_down_once t top bottom :
  wf t → top ≤ bottom < rows t → good t (scroll_down_once top bottom t).
Proof.
  intros W Hb. apply good_bind.
  - apply good_run; [done|]. intros t' row W' K Hi. apply elem_of_rev_range in Hi.
    kept. apply good_copy_row; [done|lia..].
  - intros t' W' K. kept. apply good_set_row; [done|lia|]. apply row_ok_blank.
Qed.

Lemma good_scroll_up t top bottom n : wf t → good t (scroll_up_region t top bottom n).
Proof.
  intros W. unfold scroll_up_region. destruct (_ || _) eqn:E; [by apply good_ret|]. zb.
  apply good_run; [done|]. intros t' i W' K _. kept. apply good_scroll_up_once; [done|lia].
Qed.

Lemma good_scroll_down t top bottom n : wf t → good t (scroll_down_region t top bottom n).
Proof.
  intros W. unfold scroll_down_region. destruct (_ || _) eqn:E; [by apply good_ret|]. zb.
  apply good_run; [done|]. intros t' i W' K _. kept. apply good_scroll_down_once; [done|lia].
Qed.

(** ** Cursor *)

Lemma wf_set_cursor t r c : wf t → r < rows t → c < cols t → wf (set_cursor t r c).
Proof. intros [] ? ?. by split. Qed.

Lemma good_set_cursor t r c : wf t → r < rows t → c < cols t → good t (Some (set_cursor t r c)).
Proof. intros. apply good_ret; [by apply wf_set_cursor|by unfold keeps]. Qed.

Lemma good_linefeed t : wf t → good t (linefeed t).
Proof.
  intros W. unfold linefeed. destruct (_ =? _); [by apply good_scroll_up|].
  destruct (_ <? _) eqn:E; zb; [|by apply good_scroll_up]. pose proof (wf_cursor_col t W).
  apply good_set_cursor; [done|lia|done].
Qed.

Lemma good_reverse_index t : wf t → good t (reverse_index t).
Proof.
  intros W. unfold reverse_index. destruct (_ =? _); [by apply good_scroll_down|].
  destruct (_ <? _) eqn:E; zb; [|by apply good_ret]. pose proof (wf_cursor_col t W).
  pose proof (wf_cursor_row t W). apply good_set_cursor; [done|lia|done].
Qed.

Lemma good_wrap_line t : wf t → good t (wrap_line t).
Proof.
  intros W. unfold wrap_line, set_cursor_col. pose proof (wf_cursor_row t W). pose proof (wf_cols t W).
  destruct (good_linefeed (set_cursor t (cursor_row t) 0)) as (t' & E & W' & K).
  { apply wf_set_cursor; [done..|lia]. }
  exists t'. split_and!; [done..|]. etrans; [|exact K]. by unfold keeps.
Qed.

Lemma wf_clamp t : wf t → clamp_cursor t = t.
Proof.
  intros W. unfold clamp_cursor. pose proof (wf_cursor_row t W). pose proof (wf_cursor_col t W).
  rewrite !Nat.min_l by lia. by destruct t.
Qed.

(** ** Erasing *)

Lemma good_clear_row_range t row a b s : wf t → good t (clear_row_range t row a b s).
Proof.
  intros W. unfold clear_row_range. destruct (_ <=? row) eqn:E; zb; [by apply good_ret|].
  cbn zeta. destruct (_ <=? _) eqn:E2; zb; [by apply good_ret|].
  apply (good_row_edit t row (fun t' => fill_range t' row (a `min` cols t) (b `min` cols t) (blank_with_style s))); [done..|].
  intros l Hl. pose proof (wf_length t W). rewrite <- Hl.
  apply fill_range_at; [lia|]. rewrite Hl. lia.
Qed.

Lemma good_clear_rows_with t s l :
  wf t → good t (run_steps (fun t r => clear_row_range t r 0 (cols t) s) t l).
Proof. intros W. apply good_run; [done|]. intros. by apply good_clear_row_range. Qed.

Lemma good_copy_cells t row (l : list nat) (f g : nat → nat) :
  wf t → row < rows t → (∀ i, i ∈ l → f i < cols t ∧ g i < cols t) →
  ∀ k, length k = cols t → ∃ k',
    run_steps (fun t idx => copy_cell row t (f idx) (g idx)) (at_row t row k) l = Some (at_row t row k') ∧
    length k' = cols t.
Proof.
  intros W Hr Hl k Hk. pose proof (wf_length t W).
  apply (run_steps_at t row (cols t) (fun t idx => copy_cell row t (f idx) (g idx))); [|done].
  intros k1 i Hk1 Hi. destruct (Hl i Hi). unfold copy_cell. rewrite get_cell_at by lia.
  destruct (lookup_lt_is_Some_2 k1 (g i)) as [c ->]; [lia|]. cbn.
  rewrite set_cell_at by lia. eexists. split; [done|]. by rewrite length_insert.
Qed.

Lemma good_insert_blank_chars t n : wf t → good t (insert_blank_chars t n).
Proof.
  intros W. unfold insert_blank_chars. cbn zeta. pose proof (wf_cursor_row t W).
  pose proof (wf_cursor_col t W). pose proof (wf_length t W).
  rewrite (Nat.min_l (cursor_row t)), (Nat.min_l (cursor_col t)) by lia.
  destruct (_ <=? _); [by apply good_ret|].
  destruct (_ =? 0) eqn:E; zb; [by apply good_ret|].
  set (row := cursor_row t) in *. set (col := cursor_col t) in *. set (k := Nat.min n (cols t - col)) in *.
  destruct (wf_row t row W) as (l & Hl & Hlen & _); [done|].
  destruct (good_copy_cells t row (rev (range col (cols t - k))) (fun i => i + k) (fun i => i) W)
    with (k := l) as (l1 & E1 & Hl1); [done| |done|].
  { intros i Hi. apply elem_of_rev_range in Hi. lia. }
  rewrite at_row_id in E1 by done. rewrite E1. cbn -[fill_range].
  destruct (fill_range_at t row l1 col (col + k) (blank_with_style (style t))) as (l2 & E2 & Hl2); [lia..|].
  rewrite E2. cbn. apply good_sanitize; [done..|lia].
Qed.

Lemma good_delete_chars t n : wf t → good t (delete_chars t n).
Proof.
  intros W. unfold delete_chars. cbn zeta. pose proof (wf_cursor_row t W).
  pose proof (wf_cursor_col t W). pose proof (wf_length t W).
  rewrite (Nat.min_l (cursor_row t)), (Nat.min_l (cursor_col t)) by lia.
  destruct (_ <=? _); [by apply good_ret|].
  destruct (_ =? 0) eqn:E; zb; [by apply good_ret|].
  set (row := cursor_row t) in *. set (col := cursor_col t) in *. set (k := Nat.min n (cols t - col)) in *.
  destruct (wf_row t row W) as (l & Hl & Hlen & _); [done|].
  destruct (good_copy_cells t row (range col (cols t - k)) (fun i => i) (fun i => i + k) W)
    with (k := l) as (l1 & E1 & Hl1); [done| |done|].
  { intros i Hi%elem_of_range. lia. }
  rewrite at_row_id in E1 by done. rewrite E1. cbn -[fill_range].
  destruct (fill_range_at t row l1 (cols t - k) (cols t) (blank_with_style (style t))) as (l2 & E2 & Hl2); [lia..|].
  rewrite E2. cbn. apply good_sanitize; [done..|lia].
Qed.

Lemma good_erase_chars t n : wf t → good t (erase_chars t n).
Proof.
  intros W. unfold erase_chars. cbn zeta. pose proof (wf_cursor_row t W).
  pose proof (wf_cursor_col t W). pose proof (wf_length t W).
  rewrite (Nat.min_l (cursor_row t)), (Nat.min_l (cursor_col t)) by lia.
  destruct (_ <=? _); [by apply good_ret|].
  apply (good_row_edit t (cursor_row t) (fun t' => fill_range t' (cursor_row t) (cursor_col t)
    ((cursor_col t + n) `min` cols t) (blank_with_style (style t)))); [done..|].
  intros l Hl. rewrite <- Hl. apply fill_range_at; [lia|]. rewrite Hl. lia.
Qed.

Lemma good_insert_lines t n : wf t → good t (insert_lines t n).
Proof.
  intros W. unfold insert_lines. cbn zeta. destruct (_ || _) eqn:E; [by apply good_ret|]. zb.
  apply good_run; [done|]. intros t' i W' K _. kept. pose proof (wf_scroll t W).
  apply good_scroll_down_once; [done|lia].
Qed.

Lemma good_delete_lines t n : wf t → good t (delete_lines t n).
Proof.
  intros W. unfold delete_lines. cbn zeta. destruct (_ || _) eqn:E; [by apply good_ret|]. zb.
  apply good_run; [done|]. intros t' i W' K _. kept. pose proof (wf_scroll t W).
  apply good_scroll_up_once; [done|lia].
Qed.

(** ** Printing *)

Lemma good_set_same_shape t row col c d :
  wf t → get_cell t row col = Some c → is_wide_lead d = is_wide_lead c →
  wide_continuation d = wide_continuation c → good t (set_cell t row col d).
Proof.
  intros W Hg Hl Hc. unfold get_cell in Hg. apply bind_Some in Hg as (l & Hr & Hcol).
  pose proof (lookup_lt_Some _ _ _ Hr). pose proof (lookup_lt_Some _ _ _ Hcol). pose proof (wf_length t W).
  destruct (wf_row t row W) as (l' & Hl' & Hlen & Hp); [lia|].
  assert (l' = l) as -> by congruence. pose proof (set_cell_at t row l col d) as Hs. rewrite at_row_id in Hs by done.
  rewrite Hs by lia. destruct (wf_at_row t row (<[col := d]> l) W) as [? ?].
  - split; [by rewrite length_insert|]. by eapply paired_same_shape.
  - by apply good_ret.
Qed.

Lemma get_cell_wf t row col : wf t → row < rows t → col < cols t → ∃ c, get_cell t row col = Some c.
Proof.
  intros W Hr Hc. destruct (wf_row t row W Hr) as (l & Hl & Hlen & _).
  destruct (lookup_lt_is_Some_2 l col) as [c Hcell]; [lia|]. exists c. unfold get_cell. by rewrite Hl.
Qed.

Lemma good_push_text t row col c cell :
  wf t → char_width c = 0 → get_cell t row col = Some cell → good t (set_cell t row col (push_text c cell)).
Proof. intros. eapply good_set_same_shape; eauto using is_wide_lead_push. Qed.

Lemma good_append_last t row l c :
  wf t → row < rows t → (∀ i, i ∈ l → i < cols t) → char_width c = 0 → good t (append_last t row l c).
Proof.
  intros W Hr Hl Hw. induction l as [|col l IH]; cbn; [by apply good_ret|].
  destruct (get_cell_wf t row col W Hr) as [cell E]; [apply Hl; set_solver|]. rewrite E. cbn.
  destruct (wide_continuation cell); cbn; [apply IH; set_solver|by apply good_push_text].
Qed.

Lemma good_append_previous t row c :
  wf t → row < rows t → char_width c = 0 → good t (append_previous_row t row c).
Proof.
  intros W Hr Hw. unfold append_previous_row. destruct (_ <? _) eqn:E; zb; [|by apply good_ret].
  apply good_append_last; [done|lia| |done]. intros i Hi%elem_of_rev_range. lia.
Qed.

Lemma good_append_combining t c : wf t → char_width c = 0 → good t (append_combining_char t c).
Proof.
  intros W Hw. unfold append_combining_char. rewrite wf_clamp by done. cbn zeta.
  pose proof (wf_cursor_row t W). pose proof (wf_cursor_col t W).
  destruct (_ <? _) eqn:E; zb; [|by apply good_append_previous].
  destruct (get_cell_wf t (cursor_row t) (cursor_col t - 1) W) as [cell Ec]; [done|lia|]. rewrite Ec. cbn.
  set (col := if wide_continuation cell && (0 <? cursor_col t - 1)
              then cursor_col t - 1 - 1 else cursor_col t - 1).
  assert (col < cols t) by (subst col; case_match; lia).
  destruct (get_cell_wf t (cursor_row t) col W) as [cell' Ec']; [done|done|]. rewrite Ec'. cbn.
  destruct (wide_continuation cell'); cbn; [by apply good_append_previous|by apply good_push_text].
Qed.

Lemma write_char_at t c :
  wf t → 0 < char_width c ≤ 2 → cursor_col t + char_width c ≤ cols t →
  ∃ l, buffer t !! cursor_row t = Some l ∧
  write_char t c (char_width c) =
    Some (at_row t (cursor_row t) (put_list l (cursor_col t) (char_width c) c (style t))) ∧
  row_ok (cols t) (put_list l (cursor_col t) (char_width c) c (style t)).
Proof.
  intros W Hw Hc. pose proof (wf_cursor_row t W). pose proof (wf_length t W).
  destruct (wf_row t (cursor_row t) W) as (l & Hl & Hlen & Hp); [done|]. exists l. split; [done|]. split.
  - unfold write_char, put_list.
    pose proof (clear_overlapped_at t (cursor_row t) l (cursor_col t)) as Hclear.
    rewrite at_row_id in Hclear by done. rewrite Hclear by lia. cbn [mbind option_bind].
    rewrite set_cell_at by (rewrite ?length_clear_list; lia). cbn [mbind option_bind].
    destruct (char_width c =? 2) eqn:E; zb; [|done].
    rewrite clear_overlapped_at by (rewrite ?length_insert, ?length_clear_list; lia). cbn [mbind option_bind].
    by rewrite set_cell_at by (repeat rewrite ?length_clear_list, ?length_insert; lia).
  - split; [by rewrite length_put_list|]. apply paired_put; [done|lia|done].
Qed.

Lemma char_width_le c : char_width c ≤ 2.
Proof. unfold char_width. case_match; lia. Qed.

Lemma set_row_cursor t row l t' : set_row t row l = Some t' → cursor_col t' = cursor_col t.
Proof. unfold set_row. destruct (buffer t !! row); cbn; [|done]. by intros [= <-]. Qed.

(** Scrolling moves no cursor. *)
Lemma scroll_up_cursor t top b n t' : scroll_up_region t top b n = Some t' → cursor_col t' = cursor_col t.
Proof.
  unfold scroll_up_region. destruct (_ || _); [by intros [= <-]|]. intros Hr.
  eapply (run_steps_preserve _ (fun s => cursor_col s = cursor_col t)); [|exact Hr|done].
  clear t' Hr. intros s i s' Hs Hc. unfold scroll_up_once in Hs. apply bind_Some in Hs as (s1 & Hs1 & Hs).
  apply set_row_cursor in Hs. rewrite Hs. clear s' Hs.
  eapply (run_steps_preserve _ (fun s => cursor_col s = cursor_col t)); [|exact Hs1|done].
  intros x j x' Hx Hcx. unfold copy_row in Hx. apply bind_Some in Hx as (l & _ & Hx).
  apply set_row_cursor in Hx. congruence.
Qed.

Lemma wrap_line_cursor t t' : wrap_line t = Some t' → cursor_col t' = 0.
Proof.
  unfold wrap_line, linefeed. cbn. repeat case_match; [intros Hs%scroll_up_cursor|intros [= <-]|intros Hs%scroll_up_cursor];
    done.
Qed.

Lemma good_put_char t c : wf t → good t (put_char t c).
Proof.
  intros W. unfold put_char. cbn zeta. pose proof (char_width_le c).
  destruct (char_width c =? 0) eqn:E0; zb; [by apply good_append_combining|]. rewrite wf_clamp by done.
  apply good_bind.
  { destruct (_ <=? _); [by apply good_wrap_line|by apply good_ret]. }
  intros t1 W1 K1.
  assert (∃ t2, (if (char_width c =? 2) && (cursor_col t1 =? cols t1 - 1) then wrap_line t1 else Some t1)
    = Some t2 ∧ wf t2 ∧ keeps t1 t2 ∧ cursor_col t2 + char_width c ≤ cols t2) as (t2 & -> & W2 & K2 & Hfit).
  { pose proof (wf_cols t1 W1). pose proof (wf_cursor_col t1 W1).
    destruct (_ && _) eqn:E.
    - destruct (good_wrap_line t1 W1) as (t2 & E2 & W2 & K2). exists t2. split_and!; [done..|].
      rewrite (wrap_line_cursor _ _ E2). kept. lia.
    - exists t1. split_and!; [done..|]. destruct (char_width c =? 2) eqn:E2; cbn in E; zb; lia. }
  cbn [mbind option_bind].
  destruct (write_char_at t2 c W2) as (l & Hl & E & Hok); [lia|done|]. rewrite E. cbn [mbind option_bind].
  set (t3 := at_row _ _ _) in *. destruct (wf_at_row t2 (cursor_row t2) _ W2 Hok) as [W3 K3]. fold t3 in W3, K3.
  assert (cursor_col t3 = cursor_col t2) as Ec by done. assert (cols t3 = cols t2) as Eo by done.
  assert (keeps t1 (set_cursor_col t3 (cursor_col t3 + char_width c))) as K4.
  { etrans; [exact K2|]. etrans; [exact K3|]. by unfold keeps. }
  destruct (_ <=? _) eqn:Ew; zb; cbn in Ew.
  - unfold wrap_line. cbn.
    destruct (good_wrap_line t3 W3) as (t4 & E4 & W4 & K5). exists t4. split_and!; [exact E4|done|].
    etrans; [exact K2|]. by etrans.
  - apply good_ret; [|done]. apply wf_set_cursor; [done|by apply wf_cursor_row|]. cbn in *. lia.
Qed.

(** ** Control characters and sequences *)

Lemma good_execute t b : wf t → good t (execute t b).
Proof.
  intros W. pose proof (wf_cursor_row t W). pose proof (wf_cursor_col t W). unfold execute.
  repeat case_decide; [by apply good_linefeed|..|by apply good_ret].
  - apply good_set_cursor; [done..|lia].
  - apply good_set_cursor; [done..|]. cbn. lia.
  - destruct (_ <? _) eqn:E; zb; [|by apply good_ret]. apply good_set_cursor; [done..|lia].
Qed.

Lemma good_set_scroll t a b : wf t → a ≤ b < rows t ∧ (a < b ∨ rows t = 1) → good t (Some (set_scroll t a b)).
Proof. intros [] ?. apply good_ret; [by split|by unfold keeps]. Qed.

Lemma good_set_scroll_region t a b : wf t → good t (Some (set_scroll_region t a b)).
Proof.
  intros W. pose proof (wf_rows t W). pose proof (wf_cols t W). unfold set_scroll_region.
  set (t1 := if (a <? b) && (b <? rows t) then set_scroll t a b else set_scroll t 0 (rows t - 1)).
  assert (wf t1 ∧ keeps t t1) as [W1 K1].
  { subst t1. destruct (_ && _) eqn:E; zb.
    - destruct (good_set_scroll t a b W) as (? & [= <-] & ? & ?); [lia|done].
    - destruct (good_set_scroll t 0 (rows t - 1) W) as (? & [= <-] & ? & ?); [lia|done]. }
  pose proof (wf_scroll t1 W1). kept.
  apply good_ret; [apply wf_set_cursor; [done|lia..]|]. subst t1. by case_match.
Qed.

Lemma good_other_fields t s c : wf t → good t (Some (set_style t s)) ∧ good t (Some (set_saved_cursor t c)).
Proof. intros []. split; apply good_ret; (by split) || by unfold keeps. Qed.

Lemma good_restore_cursor t : wf t → good t (Some (restore_cursor t)).
Proof.
  intros W. pose proof (wf_rows t W). pose proof (wf_cols t W). apply good_set_cursor; [done|lia..].
Qed.

Lemma good_clear_rows t : wf t → good t (clear_rows t).
Proof.
  intros W. unfold clear_rows. apply good_run; [done|]. intros t' i W' K Hi%elem_of_range. kept.
  apply good_set_row; [done|lia|]. apply row_ok_blank.
Qed.

Lemma good_reset t : wf t → good t (reset_terminal t).
Proof.
  intros W. unfold reset_terminal.
  set (t1 := set_cursor _ 0 0). assert (wf t1) as W1.
  { destruct W. split; cbn; try done; lia. }
  destruct (good_clear_rows t1 W1) as (t2 & -> & W2 & K2). exists t2. split_and!; [done..|].
  etrans; [|exact K2]. by unfold keeps.
Qed.

Lemma good_erase_display t p : wf t → good t (erase_display t p).
Proof.
  intros W. unfold erase_display, clear_to_end_of_screen, clear_to_start_of_screen, clear_screen_all.
  destruct (param_at p 0 0) as [|[|[|[|n]]]]; [..|by apply good_ret].
  - apply good_bind; [by apply good_clear_row_range|]. intros t' W' K. kept.
    apply good_run; [done|]. intros. by apply good_clear_row_range.
  - apply good_bind; [|intros; by apply good_clear_row_range].
    apply good_run; [done|]. intros. by apply good_clear_row_range.
  - by apply good_clear_rows_with.
  - by apply good_clear_rows_with.
Qed.

Lemma good_erase_line t p : wf t → good t (erase_line t p).
Proof.
  intros W. unfold erase_line. cbn zeta. destruct (param_at p 0 0) as [|[|[|n]]];
    [by apply good_clear_row_range..|by apply good_ret].
Qed.

(** A request to switch between the main and the alternate screen. *)
Definition is_screen_switch (e : vte_event) : bool :=
  match e with
  | CsiDispatch params intermediates _ action =>
    bool_decide (action = ch "h" ∨ action = ch "l") && bool_decide (ch "?" ∈ intermediates) &&
    existsb (fun mode => Z.of_nat mode =? 1049)%Z (concat params)
  | _ => false
  end.

Lemma good_modes t set modes :
  wf t → existsb (fun mode => Z.of_nat mode =? 1049)%Z modes = false →
  run_steps (fun t value => handle_private_mode value set t) t modes = Some t.
Proof.
  intros W. induction modes as [|m modes IH]; cbn; [done|]. intros [E1 E2]%orb_false_iff.
  unfold handle_private_mode at 1. rewrite decide_False; [auto|]. apply Z.eqb_neq in E1. lia.
Qed.

Ltac good_handler :=
  lazymatch goal with
  | |- good _ (Some (set_style _ _)) => assumption
  | |- good _ (Some (set_saved_cursor _ _)) => assumption
  | |- good _ (Some (set_cursor _ _ _)) => apply good_set_cursor; [done|lia|lia]
  | |- good _ (Some (set_cursor_row _ _)) => apply good_set_cursor; [done|lia|lia]
  | |- good _ (Some (set_cursor_col _ _)) => apply good_set_cursor; [done|lia|lia]
  | |- good _ (Some (set_scroll_region _ _ _)) => by apply good_set_scroll_region
  | |- good _ (Some (restore_cursor _)) => by apply good_restore_cursor
  | |- good _ (erase_display _ _) => by apply good_erase_display
  | |- good _ (erase_line _ _) => by apply good_erase_line
  | |- good _ (insert_blank_chars _ _) => by apply good_insert_blank_chars
  | |- good _ (delete_chars _ _) => by apply good_delete_chars
  | |- good _ (erase_chars _ _) => by apply good_erase_chars
  | |- good _ (insert_lines _ _) => by apply good_insert_lines
  | |- good _ (delete_lines _ _) => by apply good_delete_lines
  | |- good _ (scroll_up_region _ _ _ _) => by apply good_scroll_up
  | |- good _ (scroll_down_region _ _ _ _) => by apply good_scroll_down
  end.

Lemma good_csi t p i ig a :
  wf t → is_screen_switch (CsiDispatch p i ig a) = false → good t (csi_dispatch t p i a).
Proof.
  intros W Hs. pose proof (wf_cursor_row t W). pose proof (wf_cursor_col t W).
  pose proof (good_other_fields t (select_graphic_rendition (style t) p) (cursor_row t, cursor_col t) W) as [G1 G2].
  unfold csi_dispatch. cbn zeta.
  repeat (case_decide; [first [good_handler | idtac]|]).
  all: lazymatch goal with |- good ?x (Some ?x) => by apply good_ret | _ => idtac end.
  all: cbn in Hs; repeat rewrite bool_decide_eq_true_2 in Hs by done;
    rewrite good_modes by done; by apply good_ret.
Qed.

Lemma good_esc t i b : wf t → good t (esc_dispatch t i b).
Proof.
  intros W. pose proof (good_other_fields t (style t) (cursor_row t, cursor_col t) W) as [_ G].
  unfold esc_dispatch. destruct i; [|by apply good_ret].
  repeat case_decide; [done|by apply good_restore_cursor|by apply good_linefeed| |
    by apply good_reverse_index|by apply good_reset|by apply good_ret].
  apply good_bind; [by apply good_linefeed|]. intros t' W' K. pose proof (wf_cols t' W').
  apply good_set_cursor; [done|by apply wf_cursor_row|lia].
Qed.

Lemma good_perform t e : wf t → is_screen_switch e = false → good t (perform t e).
Proof.
  intros W Hs. destruct e; cbn [perform]; try by apply good_ret.
  - by apply good_put_char.
  - by apply good_execute.
  - by eapply good_csi.
  - by apply good_esc.
Qed.

(** ** Switching screens *)

(** Well formed, of the same size. *)
Definition same_size (t t' : Terminal) : Prop := rows t' = rows t ∧ cols t' = cols t.

Lemma enter_wf t : wf t → ∃ t', enter_alternate_screen t = Some t' ∧ wf t' ∧ same_size t t' ∧
  (alternate_screen t = false → alternate_screen t' = true ∧
    saved_main_screen t' = Some (Saved (buffer t) (cursor_row t) (cursor_col t) (style t)
      (saved_cursor t) (scroll_top t) (scroll_bottom t))).
Proof.
  intros W. unfold enter_alternate_screen. destruct (alternate_screen t) eqn:Ea; [by exists t|].
  set (s := Saved _ _ _ _ _ _ _).
  assert (wf (set_alternate t true (Some s))) as W1.
  { destruct W. split; try done. by intros ? [= <-]. }
  destruct (good_clear_rows _ W1) as (t2 & -> & W2 & K). cbn [mbind option_bind].
  eexists. split; [done|]. destruct K as (K1 & K2 & K3 & K4). cbn in K1, K2, K3, K4.
  pose proof (wf_rows t2 W2). pose proof (wf_cols t2 W2). split.
  { destruct W2. split; cbn; try done; lia. }
  by split_and!.
Qed.

Lemma restore_wf t s :
  wf t → screen_ok (rows t) (cols t) (saved_buffer s) →
  wf (restore_screen t s) ∧ keeps t (restore_screen t s).
Proof.
  intros W Hs. pose proof (wf_rows t W). pose proof (wf_cols t W). unfold restore_screen. cbn zeta.
  case_match eqn:E; zb; cbn in E; (split; [|by unfold keeps]); destruct W; split; cbn; try done; lia.
Qed.

Lemma leave_wf t : wf t → wf (leave_alternate_screen t) ∧ same_size t (leave_alternate_screen t).
Proof.
  intros W. unfold leave_alternate_screen. destruct (negb _); [done|].
  destruct (saved_main_screen t) as [s|] eqn:E.
  - destruct (restore_wf t s W) as [[] (? & ? & _)]; [by eapply wf_saved|].
    split; [by split|]. by split.
  - split; [|done]. destruct W. split; try done.
Qed.

Lemma wf_perform t e : wf t → ∃ t', perform t e = Some t' ∧ wf t' ∧ same_size t t'.
Proof.
  intros W. destruct (is_screen_switch e) eqn:E.
  - destruct e as [| | | | | |p i ig a|]; try done. cbn in E. zb. cbn [perform]. unfold csi_dispatch. cbn zeta.
    assert (csi_modes : ∀ c, c = ch "h" ∨ c = ch "l" →
      Forall (fun b => c ≠ ch b) (str_bytes "HfABCDEFGdmJK@PXLMSTrsu")).
    { intros c [-> | ->]; apply (bool_decide_unpack _); by vm_compute. }
    specialize (csi_modes a ltac:(done)). repeat (apply Forall_cons in csi_modes as [? csi_modes]).
    repeat (rewrite decide_False; [|first [assumption|intros [?|?]; congruence]]).
    rewrite decide_True by done. rewrite decide_True by done.
    destruct (run_steps_inv (fun t value => handle_private_mode value (bool_decide (a = ch "h")) t)
      (fun t' => wf t' ∧ same_size t t') (concat p)) with (s := t) as (t' & E' & ? & ?); [|by split|by exists t'].
    intros t1 m [W1 [S1 S2]] _. unfold handle_private_mode. case_decide; [|by exists t1].
    case_bool_decide.
    + destruct (enter_wf t1 W1) as (t2 & -> & ? & [] & _). exists t2. split; [done|]. split; [done|].
      split; congruence.
    + destruct (leave_wf t1 W1) as [? []]. eexists. split; [done|]. split; [done|]. split; congruence.
  - destruct (good_perform t e W E) as (t' & ? & ? & (? & ? & _)). by exists t'.
Qed.

Lemma wf_run t l : wf t → ∃ t', run_steps perform t l = Some t' ∧ wf t' ∧ same_size t t'.
Proof.
  intros W. destruct (run_steps_inv perform (fun t' => wf t' ∧ same_size t t') l) with (s := t)
    as (t' & ? & ? & ?); [|by split|by exists t'].
  intros t1 e [W1 [? ?]] _. destruct (wf_perform t1 e W1) as (t2 & -> & ? & [? ?]).
  exists t2. split; [done|]. split; [done|]. split; congruence.
Qed.

Lemma wf_new c r : 2 ≤ c → wf (term_new c r).
Proof.
  intros. split; cbn; try lia; [|done]. split; [apply length_replicate|].
  apply Forall_replicate, row_ok_blank.
Qed.

End Safety.
