(* ===== verification/TerminalSpec.v ===== *)
(** * What the terminal shows

    The theorems on the emulator as a whole: safety and shape over any input,
    the round trip through the alternate screen, scrolling as list surgery,
    and the styled lines as a faithful rendering of the cells. *)

From S2P Require Export TerminalSafety.

#[local] Open Scope nat_scope.

Section Spec.
Context `{DisplayLaws}.

Fixpoint feed_all `{VteParser} (p : vte_state) (t : Terminal) (chunks : list bytes)
    : option (vte_state * Terminal) :=
  match chunks with
  | [] => Some (p, t)
  | chunk :: chunks => '(p, t) ← feed p t chunk; feed_all p t chunks
  end.

(** C1. The terminal never panics: with at least two columns, whatever bytes the
    child sends in whatever chunks and however the parser cuts them into
    calls, every cell index is in range; the screen keeps its size, the cursor
    stays on it, the scroll region stays a region of it, and every wide
    character keeps exactly one continuation cell to its right. *)
Theorem terminal_never_panics `{VteParser} (columns lines : nat) (chunks : list bytes)
    (Hcols : 2 ≤ columns) :
  ∃ p t, feed_all vte_new (term_new columns lines) chunks = Some (p, t) ∧
    wf t ∧ cols t = columns ∧ rows t = lines `max` 1.
Proof.
  assert (∀ chunks p t, wf t → ∃ p' t', feed_all p t chunks = Some (p', t') ∧ wf t' ∧ same_size t t') as Hall.
  { clear chunks. induction chunks as [|c chunks IH]; intros p t W; cbn; [by exists p, t|].
    unfold feed. destruct (vte_advance p c) as [p1 events].
    destruct (wf_run t events W) as (t1 & -> & W1 & [? ?]). cbn.
    destruct (IH p1 t1 W1) as (p2 & t2 & -> & W2 & [? ?]). exists p2, t2.
    split_and!; [done..|]. split; congruence. }
  destruct (Hall chunks vte_new (term_new columns lines)) as (p & t & E & W & [Hr Hc]); [by apply wf_new|].
  exists p, t. cbn in Hr, Hc. split_and!; [done..|lia|lia].
Qed.

Lemma replicate_snoc_app {A} k (x : A) l : replicate k x ++ x :: l = replicate (S k) x ++ l.
Proof. by rewrite replicate_S_end, <- app_assoc. Qed.

Lemma clear_rows_blank t : clear_rows t = Some (set_buffer t (replicate (rows t) (blank_row (cols t)))) ∨
  length (buffer t) ≠ rows t.
Proof.
  destruct (decide (length (buffer t) = rows t)) as [Hlen|]; [left|by right]. unfold clear_rows, range.
  rewrite Nat.sub_0_r.
  assert (∀ k, k ≤ rows t → run_steps (fun t row => set_row t row (blank_row (cols t))) t (seq 0 k) =
    Some (set_buffer t (replicate k (blank_row (cols t)) ++ drop k (buffer t)))) as Hall.
  { induction k as [|k IH]; intros Hk; [by destruct t|].
    rewrite seq_S, run_steps_app, IH by lia. cbn. unfold set_row. cbn.
    rewrite lookup_app_r, length_replicate, Nat.sub_diag, lookup_drop, Nat.add_0_r by (rewrite length_replicate; lia).
    destruct (lookup_lt_is_Some_2 (buffer t) k) as [x Hx]; [lia|]. rewrite Hx. cbn. unfold set_buffer. cbn.
    do 2 f_equal. rewrite insert_app_r_alt by (rewrite length_replicate; lia).
    rewrite length_replicate, Nat.sub_diag. rewrite (drop_S _ _ _ Hx). apply replicate_snoc_app. }
  rewrite Hall by lia. rewrite drop_ge by lia. by rewrite app_nil_r.
Qed.

Lemma enter_blank t t1 :
  wf t → alternate_screen t = false → enter_alternate_screen t = Some t1 →
  buffer t1 = replicate (rows t) (blank_row (cols t)).
Proof.
  intros W Ha. unfold enter_alternate_screen. rewrite Ha. cbn zeta.
  set (t0 := set_alternate t true _). pose proof (wf_length t W).
  destruct (clear_rows_blank t0) as [-> | Hne]; [|by destruct Hne].
  cbn. by intros [= <-].
Qed.

(** C37. The alternate screen is undone completely: entering it, processing any
    output that does not switch screens, and leaving it again gives back the
    cells, the cursor, the style, the saved cursor and the scroll region of the
    main screen, and never panics in between. *)
Theorem alternate_screen_roundtrip (t : Terminal) (events : list vte_event)
    (W : wf t) (Hmain : alternate_screen t = false)
    (Hevents : Forall (fun e => is_screen_switch e = false) events) :
  ∃ t1 t2,
    enter_alternate_screen t = Some t1 ∧ buffer t1 = replicate (rows t) (blank_row (cols t)) ∧
    run_steps perform t1 events = Some t2 ∧ alternate_screen t2 = true ∧
    leave_alternate_screen t2 = set_alternate t false None.
Proof.
  destruct (enter_wf t W) as (t1 & E1 & W1 & [Hr Hc] & Ha). destruct (Ha Hmain) as [Ha1 Hs1].
  destruct (good_run t1 perform events W1) as (t2 & E2 & W2 & K).
  { intros t' e W' _ He. apply good_perform; [done|]. by eapply Forall_forall in Hevents. }
  destruct K as (K1 & K2 & K3 & K4). exists t1, t2. split_and!; [done| |done|congruence|].
  - by apply enter_blank in E1.
  - unfold leave_alternate_screen. rewrite K3, Ha1, K4, Hs1. cbn [negb].
    unfold restore_screen. cbn. rewrite K1, K2, Hr, Hc.
    pose proof (wf_scroll t W). pose proof (wf_cursor_row t W). pose proof (wf_cursor_col t W).
    rewrite !Nat.min_l by lia.
    destruct (scroll_bottom t <=? scroll_top t) eqn:E; zb; unfold set_scroll, set_alternate; cbn; f_equal; lia.
Qed.

(** ** Scrolling *)

Lemma set_row_split t pre x suf l row :
  row = length pre → set_row (set_buffer t (pre ++ x :: suf)) row l = Some (set_buffer t (pre ++ l :: suf)).
Proof.
  intros ->. unfold set_row. cbn. rewrite list_lookup_middle by done. cbn. unfold set_buffer. cbn.
  by rewrite insert_app_r_alt, Nat.sub_diag by lia.
Qed.

Lemma copy_row_split t b to from l pre x suf :
  b = pre ++ x :: suf → to = length pre → b !! from = Some l →
  copy_row (set_buffer t b) to from = Some (set_buffer t (pre ++ l :: suf)).
Proof. intros Hb Hto Hl. unfold copy_row, get_row. cbn. rewrite Hl. cbn. rewrite Hb. by apply set_row_split. Qed.

Lemma shift_rows_up t pre x mid suf :
  ∃ z, run_steps (fun t row => copy_row t row (row + 1)) (set_buffer t (pre ++ x :: mid ++ suf))
         (seq (length pre) (length mid)) = Some (set_buffer t (pre ++ mid ++ z :: suf)).
Proof.
  revert pre x. induction mid as [|y mid IH]; intros pre x; [by exists x|]. cbn [length seq run_steps].
  rewrite (copy_row_split _ _ _ _ y pre x ((y :: mid) ++ suf)); [|done|done|].
  2: { rewrite lookup_app_r by lia. by replace (length pre + 1 - length pre) with 1 by lia. }
  cbn. destruct (IH (pre ++ [y]) y) as [z E]. rewrite length_app, <- !app_assoc in E. cbn in E.
  rewrite Nat.add_1_r in E. exists z. exact E.
Qed.

Lemma shift_rows_down t pre x mid suf :
  ∃ z, run_steps (fun t row => copy_row t row (row - 1)) (set_buffer t (pre ++ mid ++ x :: suf))
         (rev (seq (S (length pre)) (length mid))) = Some (set_buffer t (pre ++ z :: mid ++ suf)).
Proof.
  revert x suf. induction mid as [|y mid IH] using rev_ind; intros x suf; [by exists x|].
  rewrite length_app, (Nat.add_1_r (length mid) : length mid + length [y] = _), seq_S, rev_app_distr.
  cbn [rev app run_steps].
  rewrite (copy_row_split _ _ _ _ y (pre ++ mid ++ [y]) x suf).
  - cbn. rewrite <- !app_assoc. cbn. destruct (IH y (y :: suf)) as [z E]. rewrite E. by exists z.
  - by rewrite <- !app_assoc.
  - rewrite !length_app. cbn. lia.
  - rewrite <- !app_assoc. cbn. rewrite !lookup_app_r by lia.
    by match goal with |- _ !! ?i = _ => replace i with 0 by lia end.
Qed.

(** The rows [top..=bottom] of a screen. *)
Lemma region_split (b : list (list Cell)) top bottom :
  top ≤ bottom < length b →
  ∃ pre r suf, b = pre ++ r ++ suf ∧ length pre = top ∧ length r = bottom - top + 1.
Proof.
  intros. exists (take top b), (take (bottom - top + 1) (drop top b)), (drop (bottom - top + 1) (drop top b)).
  rewrite !take_drop, !length_take, length_drop. split_and!; [done|lia|lia].
Qed.

Lemma set_buffer_set_buffer t b b' : set_buffer (set_buffer t b) b' = set_buffer t b'.
Proof. done. Qed.

Lemma scroll_up_once_split t pre x mid suf :
  scroll_up_once (length pre) (length pre + length mid) (set_buffer t (pre ++ x :: mid ++ suf)) =
  Some (set_buffer t (pre ++ mid ++ blank_row (cols t) :: suf)).
Proof.
  unfold scroll_up_once, range. replace (length pre + length mid - length pre) with (length mid) by lia.
  destruct (shift_rows_up t pre x mid suf) as [z E]. rewrite E. cbn.
  rewrite !app_assoc. apply set_row_split. by rewrite length_app.
Qed.

Lemma scroll_down_once_split t pre x mid suf :
  scroll_down_once (length pre) (length pre + length mid) (set_buffer t (pre ++ mid ++ x :: suf)) =
  Some (set_buffer t (pre ++ blank_row (cols t) :: mid ++ suf)).
Proof.
  unfold scroll_down_once, range. replace (length pre + length mid + 1 - (length pre + 1)) with (length mid) by lia.
  rewrite Nat.add_1_r. destruct (shift_rows_down t pre x mid suf) as [z E]. rewrite E. cbn.
  by apply set_row_split.
Qed.

(** Rows leave at one end, blank rows enter at the other. *)
Definition shift_up {A} (x : A) (n : nat) (r : list A) : list A := drop n r ++ replicate n x.
Definition shift_down {A} (x : A) (n : nat) (r : list A) : list A := replicate n x ++ take (length r - n) r.

(** A screen with its rows [top..=bottom] replaced. *)
Definition on_region (top bottom : nat) (f : list (list Cell) → list (list Cell)) (b : list (list Cell))
    : list (list Cell) :=
  take top b ++ f (take (bottom - top + 1) (drop top b)) ++ drop (bottom + 1) b.

Lemma on_region_split top bottom f pre r suf :
  top ≤ bottom → length pre = top → length r = bottom - top + 1 →
  on_region top bottom f (pre ++ r ++ suf) = pre ++ f r ++ suf.
Proof.
  intros ? Hp Hr. unfold on_region. rewrite take_app_length' by done. rewrite drop_app_length' by done.
  rewrite take_app_length' by done.
  rewrite (app_assoc pre r suf : pre ++ r ++ suf = _), (drop_app_length' (pre ++ r)); [done|rewrite length_app; lia].
Qed.

Lemma scroll_up_times t top bottom n :
  top ≤ bottom < length (buffer t) → n ≤ bottom - top + 1 →
  run_steps (fun t _ => scroll_up_once top bottom t) t (seq 0 n) =
  Some (set_buffer t (on_region top bottom (shift_up (blank_row (cols t)) n) (buffer t))).
Proof.
  intros Hb Hn. destruct (region_split _ _ _ Hb) as (pre & r & suf & E & Hp & Hr).
  rewrite E, on_region_split by lia. assert (top ≤ bottom) as Htb by lia. clear Hb.
  induction n as [|n IH].
  { cbn. unfold shift_up. cbn. rewrite app_nil_r. destruct t; cbn in *; by subst. }
  rewrite seq_S, run_steps_app, IH by lia. cbn. unfold shift_up.
  destruct (drop n r) as [|x mid] eqn:Ed; [apply (f_equal length) in Ed; rewrite length_drop in Ed; cbn in Ed; lia|].
  assert (drop (S n) r = mid) as Ed1 by (replace (S n) with (n + 1) by lia; by rewrite <- drop_drop, Ed).
  assert (length r - n = S (length mid)) as Hm by (by rewrite <- length_drop, Ed).
  rewrite Ed1. set (b := blank_row (cols t)).
  pose proof (scroll_up_once_split t pre x (mid ++ replicate n b) suf) as Hs.
  rewrite length_app, length_replicate in Hs.
  replace (length pre + (length mid + n)) with bottom in Hs by lia. rewrite Hp in Hs.
  rewrite replicate_S_end, <- !app_assoc. cbn. rewrite <- !app_assoc in Hs. by rewrite Hs.
Qed.

Lemma scroll_down_times t top bottom n :
  top ≤ bottom < length (buffer t) → n ≤ bottom - top + 1 →
  run_steps (fun t _ => scroll_down_once top bottom t) t (seq 0 n) =
  Some (set_buffer t (on_region top bottom (shift_down (blank_row (cols t)) n) (buffer t))).
Proof.
  intros Hb Hn. destruct (region_split _ _ _ Hb) as (pre & r & suf & E & Hp & Hr).
  rewrite E, on_region_split by lia. assert (top ≤ bottom) as Htb by lia. clear Hb.
  induction n as [|n IH].
  { cbn. unfold shift_down. rewrite Nat.sub_0_r, take_ge by done. destruct t; cbn in *; by subst. }
  rewrite seq_S, run_steps_app, IH by lia. cbn -[replicate]. unfold shift_down.
  destruct (lookup_lt_is_Some_2 r (length r - S n)) as [x Hx]; [lia|].
  replace (take (length r - n) r) with (take (length r - S n) r ++ [x]).
  2: { replace (length r - n) with (S (length r - S n)) by lia. by rewrite (take_S_r _ _ _ Hx). }
  set (mid := take (length r - S n) r). assert (length mid = length r - S n) as Hm by (unfold mid; rewrite length_take; lia).
  set (b := blank_row (cols t)).
  pose proof (scroll_down_once_split t pre x (replicate n b ++ mid) suf) as Hs.
  rewrite length_app, length_replicate in Hs.
  replace (length pre + (n + length mid)) with bottom in Hs by lia. rewrite Hp in Hs.
  rewrite <- !app_assoc. cbn -[replicate]. rewrite <- !app_assoc in Hs. rewrite Hs. done.
Qed.

(** Scrolling is list surgery: the row-by-row copies of scroll up, scroll
    down, insert line and delete line shift exactly the rows of their region -
    by the count, or by the height of the region if that is less -, blank rows
    fill the gap, and no row outside the region, nor anything else, changes. *)
Theorem scrolling_shifts_rows (t : Terminal) (top bottom count : nat)
    (W : wf t) (Htop : top ≤ bottom) (Hbottom : bottom < rows t) :
  let n := Nat.min count (bottom - top + 1) in
  let row := cursor_row t in
  let m := Nat.min count (scroll_bottom t - row + 1) in
  let x := blank_row (cols t) in
  scroll_up_region t top bottom count =
    Some (set_buffer t (on_region top bottom (shift_up x n) (buffer t))) ∧
  scroll_down_region t top bottom count =
    Some (set_buffer t (on_region top bottom (shift_down x n) (buffer t))) ∧
  (scroll_top t ≤ row ≤ scroll_bottom t →
    delete_lines t count =
      Some (set_buffer t (on_region row (scroll_bottom t) (shift_up x m) (buffer t))) ∧
    insert_lines t count =
      Some (set_buffer t (on_region row (scroll_bottom t) (shift_down x m) (buffer t)))) ∧
  (¬ scroll_top t ≤ row ≤ scroll_bottom t → delete_lines t count = Some t ∧ insert_lines t count = Some t).
Proof.
  pose proof (wf_length t W). pose proof (wf_cursor_row t W). pose proof (wf_scroll t W). cbn zeta.
  unfold scroll_up_region, scroll_down_region, delete_lines, insert_lines.
  rewrite (Nat.min_l (cursor_row t)) by lia.
  split_ifs; rewrite ?orb_true_iff, ?orb_false_iff, ?Nat.ltb_lt, ?Nat.leb_le, ?Nat.ltb_ge, ?Nat.leb_gt in *;
    split_and!; intros; split_and?; try lia; try done;
    first [apply scroll_up_times; lia | apply scroll_down_times; lia].
Qed.

(** ** The lines shown *)

Definition span_style (s : Span) : Style :=
  MkStyle (span_fg s) (span_bg s) (span_bold s) (span_italic s).

(** The characters of a line of spans and of a row of cells, each with its style. *)
Definition span_chars (l : list Span) : list (char * Style) :=
  l ≫= fun s => (fun c => (c, span_style s)) <$> span_text s.
Definition cell_chars (l : list Cell) : list (char * Style) :=
  l ≫= fun c => if wide_continuation c then [] else (fun ch => (ch, cell_style c)) <$> cell_text c.

(** The same colour, as the toolkit compares colours. *)
Definition same_color (a b : Color) : Prop := a = b ∨ color_eqb a b = true.

Definition same_background (a b : option Color) : Prop :=
  match a, b with Some a, Some b => same_color a b | None, None => True | _, _ => False end.

(** Text in one style looks as in the other: both colours, weight and slant. *)
Definition shown_as (a b : Style) : Prop :=
  same_color (fg_color a) (fg_color b) ∧ same_background (bg_color a) (bg_color b) ∧
  bold a = bold b ∧ italic a = italic b.

(** Told apart by a colour, the weight or the slant. *)
Definition told_apart (a b : Style) : Prop :=
  color_eqb (fg_color a) (fg_color b) = false ∨
  match bg_color a, bg_color b with
  | Some a, Some b => color_eqb a b = false
  | None, None => False
  | _, _ => True
  end ∨
  bold a ≠ bold b ∨ italic a ≠ italic b.

Definition maximal (l : list Span) : Prop :=
  ∀ i s s', l !! i = Some s → l !! S i = Some s' → told_apart (span_style s) (span_style s').

(** The code's comparison of a span and a style. *)
Lemma span_differs_true s st : span_differs s st = true ↔ told_apart (span_style s) st.
Proof.
  unfold span_differs, told_apart, option_color_eqb, span_style. cbn.
  rewrite !orb_true_iff, !negb_true_iff, !eqb_false_iff.
  destruct (span_bg s), (bg_color st); intuition congruence.
Qed.

Lemma span_differs_false s st : span_differs s st = false → shown_as (span_style s) st.
Proof.
  unfold span_differs, shown_as, same_color, same_background, option_color_eqb, span_style. cbn.
  rewrite !orb_false_iff, !negb_false_iff, !eqb_true_iff. intros [[[? Hb] ?] ?]. split_and!; auto.
  destruct (span_bg s), (bg_color st); try done. by right.
Qed.

Lemma shown_as_refl a : shown_as a a.
Proof. unfold shown_as, same_background, same_color. split_and!; auto. destruct (bg_color a); auto. Qed.

Definition span_of (c : Cell) : Span :=
  MkSpan (cell_text c) (fg_color (cell_style c)) (bg_color (cell_style c))
    (bold (cell_style c)) (italic (cell_style c)).

(** A visible cell extends the last span or starts a new one. *)
Lemma push_cell_cases l c :
  wide_continuation c = false →
  (push_cell l c = l ++ [span_of c] ∧ (∀ l' s, l = l' ++ [s] → span_differs s (cell_style c) = true)) ∨
  (∃ l' s, l = l' ++ [s] ∧ span_differs s (cell_style c) = false ∧
    push_cell l c = l' ++ [append_text s (cell_text c)]).
Proof.
  intros Hc. unfold push_cell. rewrite Hc. destruct l as [|s l' _] using rev_ind.
  - left. split; [done|]. intros l' s [? ?]%symmetry%app_nil. done.
  - rewrite last_snoc. destruct (span_differs s (cell_style c)) eqn:E.
    + left. rewrite last_snoc, removelast_last. split; [done|]. by intros k s' [-> [= ->]]%app_inj_2.
    + right. rewrite last_snoc, removelast_last. by exists l', s.
Qed.

Definition line_shows (line : list Span) (row : list Cell) : Prop :=
  Forall2 (fun p q => p.1 = q.1 ∧ shown_as p.2 q.2) (span_chars line) (cell_chars row) ∧ maximal line.

Lemma span_chars_snoc l s : span_chars (l ++ [s]) = span_chars l ++ ((fun c => (c, span_style s)) <$> span_text s).
Proof. unfold span_chars. rewrite bind_app. cbn. by rewrite app_nil_r. Qed.

Lemma cell_chars_snoc l c :
  cell_chars (l ++ [c]) =
  cell_chars l ++ (if wide_continuation c then [] else (fun ch => (ch, cell_style c)) <$> cell_text c).
Proof. unfold cell_chars. rewrite bind_app. cbn. by rewrite app_nil_r. Qed.

Lemma shown_chars s st text :
  shown_as s st →
  Forall2 (fun (p q : char * Style) => p.1 = q.1 ∧ shown_as p.2 q.2)
    ((fun c => (c, s)) <$> text) ((fun c => (c, st)) <$> text).
Proof. intros Hs. induction text; constructor; done. Qed.

Lemma maximal_snoc l s :
  maximal (l ++ [s]) ↔ maximal l ∧ ∀ l' s', l = l' ++ [s'] → told_apart (span_style s') (span_style s).
Proof.
  split.
  - intros Hm. split.
    + intros i a b Ha Hb. apply (Hm i); by apply lookup_app_l_Some.
    + intros l' s' ->. apply (Hm (length l')).
      * rewrite <- app_assoc. by apply list_lookup_middle.
      * apply list_lookup_middle. rewrite length_app. cbn. lia.
  - intros [Hm Hs] i a b Ha Hb. apply lookup_app_Some in Hb as [Hb|[Hi Hb]].
    + apply (Hm i); [|done]. rewrite lookup_app_l in Ha; [done|]. apply lookup_lt_Some in Hb. lia.
    + apply list_lookup_singleton_Some in Hb as [Hi0 <-].
      assert (i < length l) as Hlt by lia. rewrite lookup_app_l in Ha by done.
      destruct l as [|x l' _] using rev_ind; [cbn in Hlt; lia|]. rewrite length_app in *. cbn in *.
      rewrite lookup_app_r in Ha by lia. replace (i - length l') with 0 in Ha by lia. injection Ha as <-. by eapply Hs.
Qed.

Lemma line_shows_push line row c : line_shows line row → line_shows (push_cell line c) (row ++ [c]).
Proof.
  intros [Hf Hm]. unfold line_shows. rewrite cell_chars_snoc. destruct (wide_continuation c) eqn:Hc.
  { unfold push_cell. by rewrite Hc, app_nil_r. }
  destruct (push_cell_cases line c Hc) as [[-> Hd] | (l' & s & -> & Hd & ->)].
  - split.
    + rewrite span_chars_snoc. apply Forall2_app; [done|]. apply (shown_chars (span_style (span_of c))).
      assert (span_style (span_of c) = cell_style c) as -> by by destruct c as [? [] ?]. apply shown_as_refl.
    + apply maximal_snoc. split; [done|]. intros l' s' El.
      assert (span_style (span_of c) = cell_style c) as -> by by destruct c as [? [] ?].
      apply span_differs_true. by eapply Hd.
  - split.
    + rewrite span_chars_snoc in *. cbn. rewrite fmap_app, app_assoc. by apply Forall2_app; [|apply shown_chars, span_differs_false].
    + apply maximal_snoc in Hm. by apply maximal_snoc.
Qed.

Lemma line_of_shows row : line_of row ≠ [] ∧ line_shows (line_of row) row.
Proof.
  assert (line_shows (foldl push_cell [] row) row) as Hl.
  { induction row as [|c row IH] using rev_ind; [by split; [constructor|]|].
    rewrite foldl_app. by apply line_shows_push. }
  unfold line_of. destruct (foldl push_cell [] row) as [|s l]; [|done]. split; [done|].
  destruct Hl as [Hf _]. split; [by apply Hf|]. by intros [|i] a b.
Qed.

(** C39. The lines shown are the cells: there is one line for each row, never
    empty; its spans spell out the row's characters in order, leaving out only
    the continuations of wide characters, each with the weight, the slant and
    the two colours of its cell (as far as the toolkit's comparison of colours
    tells them apart), and two neighbouring spans differ in one of these, so
    that no two could have been one. *)
Theorem lines_show_cells (t : Terminal) :
  length (lines t) = length (buffer t) ∧
  ∀ i row, buffer t !! i = Some row →
    ∃ line, lines t !! i = Some line ∧ line ≠ [] ∧
      Forall2 (fun p q => p.1 = q.1 ∧ shown_as p.2 q.2) (span_chars line) (cell_chars row) ∧ maximal line.
Proof.
  split; [by unfold lines; rewrite length_fmap|]. intros i row Hrow.
  exists (line_of row). unfold lines. rewrite list_lookup_fmap, Hrow.
  destruct (line_of_shows row) as [? [? ?]]. done.
Qed.

(** ** One column *)

Lemma write_char_one_column t c :
  cols t = 1 → cursor_col t = 0 → cursor_row t < rows t → buffer t !! cursor_row t = Some [blank] →
  write_char t c 2 = None.
Proof.
  intros Hc Hcol Hr Hrow. unfold write_char. rewrite Hcol.
  assert (is_wide_lead blank = false) as Hb by (unfold is_wide_lead; cbn; by rewrite space_width).
  assert (clear_overlapped_cell t (cursor_row t) 0 = Some t) as ->.
  { unfold clear_overlapped_cell, get_cell, set_cell. rewrite Hc, Hrow. cbn -[is_wide_lead].
    destruct (rows t <=? cursor_row t) eqn:E; zb; [lia|]. cbn -[is_wide_lead]. rewrite Hb. cbn.
    rewrite Hrow. cbn. rewrite list_insert_id by done. by destruct t. }
  cbn -[clear_overlapped_cell set_cell]. set (x := MkCell [c] _ _).
  set (t1 := set_buffer t (<[cursor_row t := [x]]> (buffer t))).
  assert (set_cell t (cursor_row t) 0 x = Some t1) as -> by (unfold set_cell; by rewrite Hrow).
  cbn -[clear_overlapped_cell set_cell]. unfold clear_overlapped_cell.
  replace (cols t1 <=? 1) with true by (cbn; by rewrite Hc). rewrite orb_true_r. cbn -[set_cell].
  unfold set_cell. cbn. by rewrite list_lookup_insert_eq by (by eapply lookup_lt_Some).
Qed.

(** A terminal one column wide, which [Terminal::new] accepts, panics on
    the first character of width two: the cell to the right is out of range. *)
Theorem one_column_panics (rows : nat) (c : char) (Hwide : unicode_width c = Some 2) :
  put_char (term_new 1 rows) c = None.
Proof.
  assert (char_width c = 2) as Hw2 by (unfold char_width; by rewrite Hwide).
  unfold put_char. rewrite Hw2.
  replace (clamp_cursor (term_new 1 rows)) with (term_new 1 rows)
    by (unfold clamp_cursor, term_new, set_cursor; cbn -[Nat.max]; f_equal; lia).
  cbn zeta. change (cols (term_new 1 rows)) with 1. change (cursor_col (term_new 1 rows)) with 0.
  change (2 =? 0) with false. change (1 <=? 0) with false. change (2 =? 2) with true.
  cbn -[write_char wrap_line term_new].
  change (cursor_col (term_new 1 rows) =? cols (term_new 1 rows) - 1) with true. cbn -[write_char wrap_line term_new].
  assert (∃ t, wrap_line (term_new 1 rows) = Some t ∧ write_char t c 2 = None) as (t & -> & Hw); [|cbn -[write_char]; by rewrite Hw].
  destruct rows as [|[|n]].
  1,2: eexists; split; [reflexivity|].
  1,2: apply write_char_one_column; first [reflexivity | apply Nat.ltb_lt; reflexivity].
  exists (set_cursor_row (term_new 1 (S (S n))) 1). split; [done|].
  apply write_char_one_column; cbn; [done..|lia|done].
Qed.

End Spec.

(** ** At concrete inputs *)

(** Colours as triples; the characters from U+4E00 on take two columns. *)
#[local] Instance plain_display : Display := {|
  Color := f32 * f32 * f32;
  BLACK := (f32_of_Z 0, f32_of_Z 0, f32_of_Z 0);
  WHITE := (f32_of_Z 1, f32_of_Z 1, f32_of_Z 1);
  from_rgb r g b := (r, g, b);
  color_eqb a b := f_eqb a.1.1 b.1.1 && f_eqb a.1.2 b.1.2 && f_eqb a.2 b.2;
  unicode_width c := Some (if decide (0x4E00 ≤ c)%Z then 2 else 1);
|}.

#[local] Instance plain_display_laws : DisplayLaws.
Proof. split. reflexivity. Qed.

Lemma terminal_never_panics_witness :
  2 ≤ 80 ∧ ∃ p t, feed_all vte_new (term_new 80 24) [str_bytes "hi"; str_bytes "there"] = Some (p, t) ∧
    wf t ∧ cols t = 80 ∧ rows t = 24.
Proof. split; [lia|]. apply (terminal_never_panics 80 24). lia. Defined.

Lemma wf_small : wf (term_new 2 2).
Proof. by apply wf_new. Qed.

Lemma alternate_screen_roundtrip_witness :
  ∃ t1 t2,
    enter_alternate_screen (term_new 2 2) = Some t1 ∧ buffer t1 = replicate 2 (blank_row 2) ∧
    run_steps perform t1 [Print 104; Execute 10; Print 0x4E01]%Z = Some t2 ∧ alternate_screen t2 = true ∧
    leave_alternate_screen t2 = set_alternate (term_new 2 2) false None.
Proof.
  apply (alternate_screen_roundtrip (term_new 2 2)); [exact wf_small|reflexivity|repeat constructor].
Defined.

Lemma scrolling_shifts_rows_witness :
  scroll_up_region (term_new 2 2) 0 1 1 =
    Some (set_buffer (term_new 2 2) (on_region 0 1 (shift_up (blank_row 2) 1) (buffer (term_new 2 2)))).
Proof. destruct (scrolling_shifts_rows (term_new 2 2) 0 1 1 wf_small) as [E _]; [lia|cbn; lia|exact E]. Defined.

Lemma one_column_panics_witness : unicode_width 0x4E01%Z = Some 2 ∧ put_char (term_new 1 3) 0x4E01%Z = None.
Proof. split; [reflexivity|]. apply one_column_panics. reflexivity. Defined.

(** ** Colour components

    [Color::from_rgb] requires its components to lie in [0, 1]: the display
    whose colours say whether they were built so. *)
Definition in_unit (x : f32) : bool := f_leb (f32_of_Z 0) x && f_leb x (f32_of_Z 1).

Definition checked_display : Display := {|
  Color := bool;
  BLACK := true;
  WHITE := true;
  from_rgb r g b := in_unit r && in_unit g && in_unit b;
  color_eqb := Bool.eqb;
  unicode_width _ := Some 1;
|}.

Definition checked_style (s : Style (H := checked_display)) : Prop :=
  fg_color (H := checked_display) s = true ∧ bg_color (H := checked_display) s ≠ Some false.

Lemma below_forallb (p : Z → bool) (n : nat) (z : Z) :
  forallb p (Z.of_nat <$> seq 0 n) = true → (0 ≤ z < Z.of_nat n)%Z → p z = true.
Proof.
  intros Hp Hz. rewrite forallb_forall in Hp. apply Hp. apply list_elem_of_In, list_elem_of_fmap.
  exists (Z.to_nat z). split; [lia|]. apply elem_of_seq. lia.
Qed.

Lemma color_256_checked (index : Z) : (0 ≤ index)%Z → color_256 (H := checked_display) index = true.
Proof.
  intros Hi. destruct (decide (index < 256)%Z) as [Hlt|Hge].
  - apply (below_forallb (color_256 (H := checked_display)) 256); [by vm_compute|lia].
  - unfold color_256. destruct index as [|p|p]; [lia| |lia].
    do 5 (try destruct p as [p|p|]); try (exfalso; lia); cbn [andb];
      replace (_ <=? 231)%Z with false by (symmetry; apply Z.leb_gt; lia);
      replace (_ <=? 255)%Z with false by (symmetry; apply Z.leb_gt; lia); by rewrite !andb_false_r.
Qed.

Lemma color_true_checked (r g b : Z) :
  (0 ≤ r)%Z → (0 ≤ g)%Z → (0 ≤ b)%Z → color_true (H := checked_display) r g b = true.
Proof.
  assert (∀ v, (0 ≤ v)%Z → in_unit (f32_div (f32_of_Z (Z.min v 255)) (f32_of_Z 255)) = true) as Hl.
  { intros v Hv. apply (below_forallb (fun v => in_unit (f32_div (f32_of_Z v) (f32_of_Z 255))) 256); [by vm_compute|lia]. }
  intros. cbn. by rewrite !Hl.
Qed.

Lemma extended_color_checked (rest : list Z) c n :
  Forall (fun v => 0 ≤ v)%Z rest → extended_color (H := checked_display) rest = Some (c, n) → c = true.
Proof.
  intros Hr. unfold extended_color.
  destruct rest as [|v rest]; [done|]. inversion_clear Hr as [|? ? Hv Hr'].
  destruct v as [|p|p]; [done| |done]. do 3 (try destruct p as [p|p|]); try done;
    repeat match goal with |- context [match ?l with [] => _ | _ :: _ => _ end] =>
      is_var l; destruct l as [|? l]; try done end;
    intros [= <- <-];
    repeat match goal with H : Forall _ (_ :: _) |- _ => inversion_clear H end.
  - by apply color_256_checked.
  - by apply color_true_checked.
Qed.

Lemma rgb_tenths_checked r g b :
  (0 ≤ r < 11)%Z → (0 ≤ g < 11)%Z → (0 ≤ b < 11)%Z → rgb_tenths (H := checked_display) r g b = true.
Proof.
  assert (∀ v, (0 ≤ v < 11)%Z → in_unit (f32_lit v 10) = true) as Hl.
  { intros v Hv. apply (below_forallb (fun v => in_unit (f32_lit v 10)) 11); [by vm_compute|lia]. }
  intros. cbn. by rewrite !Hl.
Qed.

Lemma set_fg_checked s c : checked_style s → c = true → checked_style (set_fg (H := checked_display) s c).
Proof. by intros [? ?] ->. Qed.

Lemma set_bg_checked s c : checked_style s → c = true → checked_style (set_bg (H := checked_display) s (Some c)).
Proof. by intros [? ?] ->. Qed.

Lemma sgr_simple_checked s value :
  checked_style s → checked_style (sgr_simple (H := checked_display) s value).
Proof.
  intros Hs. unfold sgr_simple. destruct value as [|p|p]; [by split| |exact Hs].
  do 7 (try destruct p as [p|p|]);
    lazymatch goal with
    | |- checked_style (set_fg _ (rgb_tenths _ _ _)) => apply set_fg_checked; [exact Hs|apply rgb_tenths_checked; lia]
    | |- checked_style (set_bg _ (Some (rgb_tenths _ _ _))) => apply set_bg_checked; [exact Hs|apply rgb_tenths_checked; lia]
    | |- checked_style s => exact Hs
    | |- _ => destruct Hs; by split
    end.
Qed.

(** Every colour is built from components in [0, 1], as [Color::from_rgb]
    requires (it asserts so in debug builds): whatever parameters a select
    graphic rendition sequence has, complete or cut short. *)
Theorem sgr_colors_in_range (s : Style (H := checked_display)) (params : vte_params)
    (Hs : checked_style s) :
  checked_style (select_graphic_rendition (H := checked_display) s params).
Proof.
  unfold select_graphic_rendition.
  assert (Forall (fun v => 0 ≤ v)%Z (Z.of_nat <$> concat params)) as Hv
    by (apply Forall_forall; intros v (k & -> & _)%list_elem_of_fmap; lia).
  destruct (Z.of_nat <$> concat params) as [|v0 vs]; [by split|].
  generalize (length (v0 :: vs)) as fuel. revert s Hs. revert Hv. generalize (v0 :: vs) as values.
  intros values Hv s Hs fuel. revert values s Hv Hs.
  induction fuel as [|fuel IH]; intros [|v rest] s Hv Hs; try done. cbn [sgr_loop].
  inversion_clear Hv as [|? ? Hv0 Hrest].
  repeat case_decide; [destruct (extended_color rest) as [[c n]|] eqn:E..|];
    apply IH; try done; try (by apply Forall_drop); try (by apply sgr_simple_checked);
    apply extended_color_checked in E as ->; try done; destruct Hs; by split.
Qed.

Lemma sgr_colors_in_range_witness :
  checked_style (select_graphic_rendition (H := checked_display) (style_default (H := checked_display)) [[38]; [2]; [300]; [1]; [7]]).
Proof. apply sgr_colors_in_range. split; [reflexivity|discriminate]. Defined.
