(* ===== verification/Mcts.v ===== *)
(** * Tree search: [mitb-sdk/src/search/mcts.rs]

    The tree with its index of keys, selection by upper confidence bound with
    progressive widening, backpropagation, persistence, and the search that
    alternates selection and reward.  [None] is a panic (an index out of
    range).  The file system, serde_json and the platform's [ln] and [powf] are
    parameters. *)

From S2P Require Export Rust Float.

Definition DEFAULT_MCTS_PERSISTENCE_PATH : string := "./.mitb/mcts.json".

Definition f64_inf : f64 := S754_infinity false.
Definition f64_neg_inf : f64 := S754_infinity true.

(** ** Data *)

Record MctsConfig := MkConfig {
  exploration_constant : f64;
  progressive_widening_k : f64;
  progressive_widening_alpha : f64;
}.

Definition config_default : MctsConfig :=
  MkConfig (f64_sqrt (f64_of_Z 2)) (f64_lit 3 2) (f64_lit 1 2).

Record NodeStats := MkStats {
  stats_visits : Z;
  stats_mean_reward : f64;
  stats_best_reward : f64;
  stats_children : nat;
}.

Record Node := MkNode {
  key : string;
  parent : option nat;
  children : list nat;
  visits : Z;
  reward_sum : f64;
  best_reward : f64;
}.

Definition node_new (key : string) (parent : option nat) : Node :=
  MkNode key parent [] 0 f_zero f64_neg_inf.

Definition mean_reward (n : Node) : f64 :=
  if visits n =? 0 then f_zero else f64_div (reward_sum n) (f64_of_Z (visits n)).

Record PersistedNode := MkPersistedNode {
  p_key : string;
  p_parent : option nat;
  p_children : list nat;
  p_visits : Z;
  p_reward_sum : f64;
  p_best_reward : option f64;
}.

Record PersistedMcts := MkPersisted {
  p_config : MctsConfig;
  p_root : nat;
  p_nodes : list PersistedNode;
}.

Record Mcts := MkMcts {
  config : MctsConfig;
  root : nat;
  nodes : list Node;
  index_by_key : gmap string nat;
  persistence_path : option string;
}.

Record MctsBuilder := MkBuilder {
  b_root_key : string;
  b_config : MctsConfig;
  b_persistence_path : option string;
}.

(** What [fs::read_to_string] fails with. *)
Inductive read_error : Type :=
| NotFound
| ReadFailed (error : string).

(** The file system and its paths, serde_json, [f64::ln] and [f64::powf]. *)
Class MctsEnv : Type := {
  disk : Type;
  path_parent : string → option string;
  create_dir_all : disk → string → disk * result string unit;
  fs_write : disk → string → bytes → disk * result string unit;
  read_to_string : disk → string → result read_error string;
  json_from_str : string → result string PersistedMcts;
  json_to_vec_pretty : PersistedMcts → result string bytes;
  f64_ln : f64 → f64;
  f64_powf : f64 → f64 → f64;
}.

(** ** Updates of nodes and trees *)

Definition set_nodes (t : Mcts) (l : list Node) : Mcts :=
  MkMcts (config t) (root t) l (index_by_key t) (persistence_path t).

Definition push_child (child : nat) (n : Node) : Node :=
  MkNode (key n) (parent n) (children n ++ [child]) (visits n) (reward_sum n) (best_reward n).

Definition credit (reward : f64) (n : Node) : Node :=
  MkNode (key n) (parent n) (children n) (sat_add_u64 (visits n) 1)
    (f64_add (reward_sum n) reward)
    (if f_ltb (best_reward n) reward then reward else best_reward n).

(** [f(&mut self.nodes[i])]. *)
Definition update_node (f : Node → Node) (t : Mcts) (i : nat) : option Mcts :=
  n ← nodes t !! i; Some (set_nodes t (<[i := f n]> (nodes t))).

(** ** Persistence *)

Definition from_node (n : Node) : PersistedNode :=
  MkPersistedNode (key n) (parent n) (children n) (visits n) (reward_sum n)
    (if f_is_finite (best_reward n) then Some (best_reward n) else None).

Definition into_node (p : PersistedNode) : Node :=
  MkNode (p_key p) (p_parent p) (p_children p) (p_visits p) (p_reward_sum p)
    (match p_best_reward p with Some best => best | None => f64_neg_inf end).

Definition to_persisted (t : Mcts) : PersistedMcts :=
  MkPersisted (config t) (root t) (from_node <$> nodes t).

(** The loop that builds the index: rewards that are not numbers and keys that
    occur twice are refused. *)
Fixpoint index_nodes (index : gmap string nat) (i : nat) (l : list Node)
    : result string (gmap string nat) :=
  match l with
  | [] => Ok index
  | node :: l =>
    if negb (f_is_finite (reward_sum node)) then
      Err ("persisted MCTS node `" +:+ key node +:+ "` had non-finite reward sum")
    else if negb (f_is_finite (best_reward node)) && negb (f_eqb (best_reward node) f64_neg_inf) then
      Err ("persisted MCTS node `" +:+ key node +:+ "` had invalid best reward")
    else match index !! key node with
    | Some _ => Err ("persisted MCTS tree had duplicate node key `" +:+ key node +:+ "`")
    | None => index_nodes (<[key node := i]> index) (S i) l
    end
  end.

Definition check_parent (l : list Node) (index : nat) (node : Node) : result string unit :=
  match parent node with
  | None => Ok tt
  | Some parent =>
    match l !! parent with
    | None => Err ("persisted MCTS node `" +:+ key node +:+ "` referenced parent index " +:+
                   pretty parent +:+ " out of bounds")
    | Some p =>
      if decide (index ∈ children p) then Ok tt
      else Err ("persisted MCTS parent-child relationship missing for `" +:+ key node +:+ "`")
    end
  end.

Fixpoint check_children (l : list Node) (index : nat) (node : Node) (cs : list nat)
    : result string unit :=
  match cs with
  | [] => Ok tt
  | child :: cs =>
    match l !! child with
    | None => Err ("persisted MCTS node `" +:+ key node +:+ "` referenced child index " +:+
                   pretty child +:+ " out of bounds")
    | Some c =>
      if decide (parent c = Some index) then check_children l index node cs
      else Err ("persisted MCTS child-parent mismatch for `" +:+ key node +:+ "` -> `" +:+ key c +:+ "`")
    end
  end.

Fixpoint check_links (l : list Node) (i : nat) (rest : list Node) : result string unit :=
  match rest with
  | [] => Ok tt
  | node :: rest =>
    _ ← check_parent l i node;
    _ ← check_children l i node (children node);
    check_links l (S i) rest
  end.

Definition from_persisted (p : PersistedMcts) (path : option string) : result string Mcts :=
  match p_nodes p with
  | [] => Err "persisted MCTS tree had no nodes"
  | _ =>
    let nodes := into_node <$> p_nodes p in
    match nodes !! p_root p with
    | None => Err ("persisted MCTS root index " +:+ pretty (p_root p) +:+ " was out of bounds for " +:+
                   pretty (length (p_nodes p)) +:+ " nodes")
    | Some r =>
      match parent r with
      | Some _ => Err "persisted MCTS root node had a parent"
      | None =>
        index ← index_nodes ∅ 0 nodes;
        _ ← check_links nodes 0 nodes;
        Ok (MkMcts (p_config p) (p_root p) nodes index path)
      end
    end
  end.

Section Mcts.
Context `{MctsEnv}.

Definition create_parent_dir (d : disk) (path : string) : disk * result string unit :=
  match path_parent path with
  | None => (d, Ok tt)
  | Some parent =>
    if str_is_empty parent then (d, Ok tt)
    else
      let '(d, r) := create_dir_all d parent in
      (d, map_err (fun error => "failed creating MCTS persistence directory `" +:+ parent +:+ "`: " +:+ error) r)
  end.

Definition persist_to_disk (d : disk) (t : Mcts) : disk * result string unit :=
  match persistence_path t with
  | None => (d, Ok tt)
  | Some path =>
    let '(d, created) := create_parent_dir d path in
    match created with
    | Err e => (d, Err e)
    | Ok _ =>
      match json_to_vec_pretty (to_persisted t) with
      | Err error => (d, Err ("failed serializing MCTS persistence file `" +:+ path +:+ "`: " +:+ error))
      | Ok serialized =>
        let '(d, written) := fs_write d path serialized in
        (d, map_err (fun error => "failed writing MCTS persistence file `" +:+ path +:+ "`: " +:+ error) written)
      end
    end
  end.

Definition persist_best_effort (d : disk) (t : Mcts) : disk := (persist_to_disk d t).1.

Definition flush_persistence (d : disk) (t : Mcts) : disk * result string unit := persist_to_disk d t.

Definition maybe_load_from_disk (d : disk) (path : string) : result string (option Mcts) :=
  match read_to_string d path with
  | Err NotFound => Ok None
  | Err (ReadFailed error) =>
    Err ("failed reading MCTS persistence file `" +:+ path +:+ "`: " +:+ error)
  | Ok contents =>
    persisted ← map_err (fun error => "failed parsing MCTS persistence file `" +:+ path +:+ "`: " +:+ error)
                  (json_from_str contents);
    tree ← from_persisted persisted (Some path);
    Ok (Some tree)
  end.

(** ** Building *)

Definition builder_new (root_key : string) : MctsBuilder := MkBuilder root_key config_default None.

Definition builder_config (b : MctsBuilder) (c : MctsConfig) : MctsBuilder :=
  MkBuilder (b_root_key b) c (b_persistence_path b).

Definition builder_persistence_path (b : MctsBuilder) (path : string) : MctsBuilder :=
  MkBuilder (b_root_key b) (b_config b) (Some path).

Definition enable_persistence (b : MctsBuilder) : MctsBuilder :=
  builder_persistence_path b DEFAULT_MCTS_PERSISTENCE_PATH.

Definition disable_persistence (b : MctsBuilder) : MctsBuilder :=
  MkBuilder (b_root_key b) (b_config b) None.

Definition fresh (root_key : string) (c : MctsConfig) (path : option string) : Mcts :=
  MkMcts c 0 [node_new root_key None] {[ root_key := 0%nat ]} path.

Definition root_key (t : Mcts) : option string := key <$> nodes t !! root t.

Definition contains (t : Mcts) (k : string) : bool := bool_decide (is_Some (index_by_key t !! k)).

Definition try_build (d : disk) (b : MctsBuilder) : option (result string Mcts) :=
  let new := fresh (b_root_key b) (b_config b) (b_persistence_path b) in
  match b_persistence_path b with
  | None => Some (Ok new)
  | Some path =>
    match maybe_load_from_disk d path with
    | Err e => Some (Err e)
    | Ok None => Some (Ok new)
    | Ok (Some loaded) =>
      k ← root_key loaded;
      Some (Ok (if decide (k = b_root_key b)
                then MkMcts (b_config b) (root loaded) (nodes loaded) (index_by_key loaded) (Some path)
                else new))
    end
  end.

Definition build (d : disk) (b : MctsBuilder) : option Mcts :=
  r ← try_build d b;
  Some (match r with Ok tree => tree | Err _ => fresh (b_root_key b) (b_config b) (b_persistence_path b) end).

(** ** The tree's operations *)

Definition ensure_child (d : disk) (t : Mcts) (parent_key child_key : string)
    : option (disk * Mcts * result string unit) :=
  match index_by_key t !! parent_key with
  | None => Some (d, t, Err ("unknown parent node `" +:+ parent_key +:+ "`"))
  | Some parent_index =>
    match index_by_key t !! child_key with
    | Some existing_child =>
      existing ← nodes t !! existing_child;
      if decide (parent existing ≠ Some parent_index) then
        Some (d, t, Err ("node `" +:+ child_key +:+ "` already exists under a different parent"))
      else
        p ← nodes t !! parent_index;
        if decide (existing_child ∈ children p) then Some (d, t, Ok tt)
        else
          t ← update_node (push_child existing_child) t parent_index;
          Some (persist_best_effort d t, t, Ok tt)
    | None =>
      let child_index := length (nodes t) in
      let t := set_nodes t (nodes t ++ [node_new child_key (Some parent_index)]) in
      t ← update_node (push_child child_index) t parent_index;
      let t := MkMcts (config t) (root t) (nodes t) (<[child_key := child_index]> (index_by_key t))
                 (persistence_path t) in
      Some (persist_best_effort d t, t, Ok tt)
    end
  end.

(** The step from the path's previous key to the node at [node_index]. *)
Definition check_segment (t : Mcts) (previous : option string) (k : string) (node_index : nat)
    : option (result string unit) :=
  match previous with
  | None => Some (Ok tt)
  | Some previous_key =>
    match index_by_key t !! previous_key with
    | None => Some (Err ("unknown node `" +:+ previous_key +:+ "` in path"))
    | Some previous_index =>
      p ← nodes t !! previous_index;
      Some (if decide (node_index ∈ children p) then Ok tt
            else Err ("invalid path segment `" +:+ previous_key +:+ "` -> `" +:+ k +:+
                      "`: child relationship not found"))
    end
  end.

(** The loop of [backpropagate_path]: the nodes before a bad key stay credited. *)
Fixpoint credit_path (t : Mcts) (previous : option string) (path : list string) (reward : f64)
    : option (Mcts * result string unit) :=
  match path with
  | [] => Some (t, Ok tt)
  | k :: path =>
    match index_by_key t !! k with
    | None => Some (t, Err ("unknown node `" +:+ k +:+ "` in backpropagation path"))
    | Some node_index =>
      checked ← check_segment t previous k node_index;
      match checked with
      | Err e => Some (t, Err e)
      | Ok _ =>
        t ← update_node (credit reward) t node_index;
        credit_path t (Some k) path reward
      end
    end
  end.

Definition backpropagate_path (d : disk) (t : Mcts) (path : list string) (reward : f64)
    : option (disk * Mcts * result string unit) :=
  if negb (f_is_finite reward) then Some (d, t, Err "reward must be finite")
  else match path with
  | [] => Some (d, t, Err "path must include at least one node")
  | _ =>
    '(t, r) ← credit_path t None path reward;
    match r with
    | Err e => Some (d, t, Err e)
    | Ok _ => Some (persist_best_effort d t, t, Ok tt)
    end
  end.

Definition should_expand_here (t : Mcts) (node_index : nat) : option bool :=
  node ← nodes t !! node_index;
  match children node with
  | [] => Some true
  | _ =>
    let visits := f64_of_Z (Z.max (visits node) 1) in
    let widening_limit := f64_mul (progressive_widening_k (config t))
                            (f64_powf visits (progressive_widening_alpha (config t))) in
    Some (f_ltb (f64_of_Z (Z.of_nat (length (children node)))) widening_limit)
  end.

Definition ucb_score (t : Mcts) (ln_parent_visits : f64) (child : Node) : f64 :=
  if visits child =? 0 then f64_inf
  else
    let exploitation := mean_reward child in
    let exploration := f64_mul (exploration_constant (config t))
                         (f64_sqrt (f64_div ln_parent_visits (f64_of_Z (visits child)))) in
    f64_add exploitation exploration.

(** One round of the loop over the children: the best child and its score. *)
Definition better_child (t : Mcts) (ln_parent_visits : f64) (best : option nat * f64) (child_index : nat)
    : option (option nat * f64) :=
  let '(best_child, best_score) := best in
  child ← nodes t !! child_index;
  let score := ucb_score t ln_parent_visits child in
  if f_ltb best_score score then Some (Some child_index, score)
  else if f_eqb score best_score then
    match best_child with
    | None => Some (best_child, best_score)
    | Some existing =>
      e ← nodes t !! existing;
      Some (if String.ltb (key child) (key e) then (Some child_index, best_score)
            else (best_child, best_score))
    end
  else Some (best_child, best_score).

Definition select_best_child_by_ucb (t : Mcts) (parent_index : nat) : option (option nat) :=
  parent ← nodes t !! parent_index;
  match children parent with
  | [] => Some None
  | _ =>
    let parent_visits := f64_of_Z (Z.max (visits parent) 1) in
    let ln_parent_visits := f64_ln parent_visits in
    '(best_child, _) ← run_steps (better_child t ln_parent_visits) (None, f64_neg_inf) (children parent);
    Some best_child
  end.

(** The loop of [select_path]. Each round adds a key, so [max_depth] rounds are
    enough. *)
Fixpoint select_loop (fuel : nat) (t : Mcts) (max_depth : nat) (selected : list string) (cursor : nat)
    : option (result string (list string)) :=
  match fuel with
  | O => None
  | S fuel =>
    if negb (length selected <? max_depth)%nat then Some (Ok selected)
    else
      expand ← should_expand_here t cursor;
      if (expand : bool) then Some (Ok selected)
      else
        best ← select_best_child_by_ucb t cursor;
        match best with
        | None =>
          node ← nodes t !! cursor;
          Some (Err ("node `" +:+ key node +:+ "` had no selectable children"))
        | Some next_child =>
          node ← nodes t !! next_child;
          select_loop fuel t max_depth (selected ++ [key node]) next_child
        end
  end.

Definition select_path (t : Mcts) (max_depth : nat) : option (result string (list string)) :=
  if (max_depth =? 0)%nat then Some (Err "max_depth must be at least 1")
  else
    node ← nodes t !! root t;
    select_loop max_depth t max_depth [key node] (root t).

Definition node_stats (t : Mcts) (k : string) : option (option NodeStats) :=
  match index_by_key t !! k with
  | None => Some None
  | Some index =>
    node ← nodes t !! index;
    Some (Some (MkStats (visits node) (mean_reward node)
                  (if f_is_finite (best_reward node) then best_reward node else f_zero)
                  (length (children node))))
  end.

(** ** The search *)

Record SelectionStep := MkStep {
  selected_key : string;
  selected_path : list string;
  backpropagation_path : list string;
}.

Record PendingTreeSearch := MkSearch {
  tree : Mcts;
  pending_selection_path : option (list string);
}.

Definition with_tree (t : Mcts) : PendingTreeSearch := MkSearch t None.

(** [select_path], and the selection kept as the pending one. *)
Definition select_pending (s : PendingTreeSearch) (max_depth : nat) (backpropagation_path : list string)
    : option (PendingTreeSearch * result string SelectionStep) :=
  selected ← select_path (tree s) max_depth;
  match selected with
  | Err e => Some (s, Err e)
  | Ok path =>
    match last path with
    | None => Some (s, Err "mcts returned an empty selection path")
    | Some k => Some (MkSearch (tree s) (Some path), Ok (MkStep k path backpropagation_path))
    end
  end.

Definition select_next (s : PendingTreeSearch) (max_depth : nat)
    : option (PendingTreeSearch * result string SelectionStep) :=
  select_pending s max_depth [].

(** The path to credit: its last node is created if need be. *)
Definition extend_from (d : disk) (t : Mcts) (path : list string) (parent current_key : string)
    : option (disk * Mcts * result string (list string)) :=
  if decide (parent = current_key) then Some (d, t, Ok path)
  else
    '(d, t, r) ← ensure_child d t parent current_key;
    Some (d, t, match r with Ok _ => Ok (path ++ [current_key]) | Err e => Err e end).

Definition extend_path (d : disk) (s : PendingTreeSearch) (current_key : string)
    : option (disk * Mcts * result string (list string)) :=
  match pending_selection_path s with
  | Some previous_path =>
    match last previous_path with
    | None => Some (d, tree s, Err "pending selection path was unexpectedly empty")
    | Some parent => extend_from d (tree s) previous_path parent current_key
    end
  | None =>
    root ← root_key (tree s);
    extend_from d (tree s) [root] root current_key
  end.

Definition backpropagate_and_select (d : disk) (s : PendingTreeSearch) (current_key : string)
    (reward : f64) (max_depth : nat)
    : option (disk * PendingTreeSearch * result string SelectionStep) :=
  '(d, t, r) ← extend_path d s current_key;
  let s := MkSearch t (pending_selection_path s) in
  match r with
  | Err e => Some (d, s, Err e)
  | Ok path =>
    '(d, t, r) ← backpropagate_path d t path reward;
    let s := MkSearch t (pending_selection_path s) in
    match r with
    | Err e => Some (d, s, Err e)
    | Ok _ =>
      '(s, r) ← select_pending s max_depth path;
      Some (d, s, r)
    end
  end.

(** The other constructors. *)
Definition mcts_with_config (d : disk) (root_key : string) (c : MctsConfig) : option Mcts :=
  build d (builder_config (builder_new root_key) c).
Definition mcts_new (d : disk) (root_key : string) : option Mcts := build d (builder_new root_key).
Definition search_new (d : disk) (root_key : string) : option PendingTreeSearch := with_tree <$> mcts_new d root_key.
Definition search_with_config (d : disk) (root_key : string) (c : MctsConfig) : option PendingTreeSearch :=
  with_tree <$> mcts_with_config d root_key c.

End Mcts.

Definition f64_clamp (x lo hi : f64) : f64 :=
  if f_ltb x lo then lo else if f_ltb hi x then hi else x.

Definition normalize_reward (reward : f64) : f64 :=
  if f_is_finite reward then f64_clamp reward f_zero f64_one else f_zero.
