(* ===== verification/MctsSpec.v ===== *)
(** * The search tree is a tree

    The invariant of the index and the parent and child links, its
    preservation by every operation, validation on loading, selection and
    backpropagation. *)

From S2P Require Export Mcts.

#[local] Open Scope nat_scope.

(** ** The order of keys *)

Lemma ascii_compare_N a b : Ascii.compare a b = N.compare (N_of_ascii a) (N_of_ascii b).
Proof. done. Qed.

Lemma string_ltb_irrefl s : String.ltb s s = false.
Proof. unfold String.ltb. assert (String.compare s s = Eq) as -> by (by apply String.compare_eq_iff || (induction s as [|a s IH]; cbn; [done|]; by rewrite ascii_compare_N, N.compare_refl)). done. Qed.

Lemma string_ltb_trans a b c : String.ltb a b = true → String.ltb b c = true → String.ltb a c = true.
Proof.
  unfold String.ltb. revert b c. induction a as [|x a IH]; intros [|y b] [|z c]; cbn; try done.
  rewrite !ascii_compare_N.
  destruct (N.compare_spec (N_of_ascii x) (N_of_ascii y)), (N.compare_spec (N_of_ascii y) (N_of_ascii z)),
    (N.compare_spec (N_of_ascii x) (N_of_ascii z)); try done; try lia. apply IH.
Qed.

(** ** The invariant *)

(** The index is the inverse of the keys. *)
Definition indexed (index : gmap string nat) (l : list Node) : Prop :=
  ∀ k i, index !! k = Some i ↔ ∃ n, l !! i = Some n ∧ key n = k.

(** Children and parents point at each other. *)
Definition linked (l : list Node) : Prop :=
  (∀ i n c, l !! i = Some n → c ∈ children n → ∃ m, l !! c = Some m ∧ parent m = Some i) ∧
  (∀ i n p, l !! i = Some n → parent n = Some p → ∃ m, l !! p = Some m ∧ i ∈ children m).

Definition rooted (r : nat) (l : list Node) : Prop := ∃ n, l !! r = Some n ∧ parent n = None.

Record wf_tree (t : Mcts) : Prop := {
  wf_index : indexed (index_by_key t) (nodes t);
  wf_linked : linked (nodes t);
  wf_root : rooted (root t) (nodes t);
}.

(** The rewards the code accepts from a file. *)
Definition rewards_ok (n : Node) : Prop :=
  f_is_finite (reward_sum n) = true ∧ (f_is_finite (best_reward n) = true ∨ best_reward n = f64_neg_inf).

Lemma f_eqb_neg_inf x : f_eqb x f64_neg_inf = true ↔ x = f64_neg_inf.
Proof. split; [|by intros ->]. destruct x as [[]|[]| |[] m e]; cbn; done. Qed.

(** ** Loading *)

Lemma index_nodes_ok l : ∀ index i index',
  index_nodes index i l = Ok index' →
  Forall rewards_ok l ∧
  (∀ k j, index' !! k = Some j ↔
    index !! k = Some j ∨ ∃ n, i ≤ j ∧ l !! (j - i) = Some n ∧ key n = k) ∧
  (∀ j n, l !! j = Some n → index !! key n = None).
Proof.
  induction l as [|node l IH]; intros index i index'; cbn.
  { intros [= <-]. split_and!; [constructor| |done]. intros k j. split; [by left|].
    intros [?|(n & _ & Hn & _)]; [done|]. by rewrite lookup_nil in Hn. }
  destruct (f_is_finite (reward_sum node)) eqn:Ef; [|done]. cbn.
  destruct (negb (f_is_finite (best_reward node)) && negb (f_eqb (best_reward node) f64_neg_inf)) eqn:Eb; [done|].
  destruct (index !! key node) eqn:Ek; [done|]. intros (Hr & Hi & Hk)%IH. split_and!.
  - constructor; [|done]. split; [done|]. apply andb_false_iff in Eb as [Eb|Eb]; zb; [by left|right].
    by apply f_eqb_neg_inf.
  - intros k j. rewrite Hi, lookup_insert_Some. split.
    + intros [[(<- & <-)|(? & ?)]|(n & Hle & Hn & Hkn)].
      * right. exists node. rewrite Nat.sub_diag. by split_and!.
      * by left.
      * right. exists n. split_and!; [lia| |done]. by replace (j - i) with (S (j - S i)) by lia.
    + intros [Hj|(n & Hle & Hn & Hkn)].
      * left. right. split; [|done]. intros <-. congruence.
      * destruct (decide (j = i)) as [->|]; [|right].
        { left. left. rewrite Nat.sub_diag in Hn. injection Hn as ->. done. }
        exists n. split_and!; [lia| |done]. by replace (j - i) with (S (j - S i)) in Hn by lia.
  - intros [|j] n Hn; cbn in Hn; [by injection Hn as ->|]. apply Hk in Hn.
    by apply lookup_insert_None in Hn as [? ?].
Qed.

Lemma check_parent_ok l i node :
  check_parent l i node = Ok tt ↔
  (∀ p, parent node = Some p → ∃ m, l !! p = Some m ∧ i ∈ children m).
Proof.
  unfold check_parent. destruct (parent node) as [p|]; [|split; [by intros _ ?|done]].
  destruct (l !! p) as [m|] eqn:E; [case_decide|]; split; try done.
  - intros _ ? [= <-]. by exists m.
  - intros Hx. destruct (Hx p) as (? & ? & ?); [done|]. by simplify_eq.
  - intros Hx. destruct (Hx p) as (? & ? & ?); [done|]. by simplify_eq.
Qed.

Lemma check_children_ok l i node cs :
  check_children l i node cs = Ok tt ↔ ∀ c, c ∈ cs → ∃ m, l !! c = Some m ∧ parent m = Some i.
Proof.
  induction cs as [|c cs IH]; cbn; [split; [by intros _ c ?%not_elem_of_nil|done]|].
  destruct (l !! c) as [m|] eqn:E.
  - case_decide.
    + rewrite IH. setoid_rewrite elem_of_cons. split; [|by eauto]. intros Hc c' [->|]; eauto.
    + split; [done|]. intros Hx. destruct (Hx c) as (? & ? & ?); [left|]. by simplify_eq.
  - split; [done|]. intros Hx. destruct (Hx c) as (? & ? & ?); [left|]. by simplify_eq.
Qed.

Lemma check_links_ok l rest i :
  check_links l i rest = Ok tt ↔
  ∀ j n, rest !! j = Some n → check_parent l (i + j) n = Ok tt ∧ check_children l (i + j) n (children n) = Ok tt.
Proof.
  revert i. induction rest as [|n rest IH]; intros i; cbn; [by split; [intros _ ??; rewrite lookup_nil|]|].
  split.
  - intros ([] & Hp & ([] & Hc & Hr)%bind_Ok)%bind_Ok [|j] m Hm; cbn in Hm.
    + injection Hm as ->. by rewrite Nat.add_0_r.
    + rewrite Nat.add_succ_r. by apply (proj1 (IH (S i)) Hr).
  - intros Hall. destruct (Hall 0 n eq_refl) as [Hp Hc]. rewrite Nat.add_0_r in Hp, Hc. rewrite Hp. cbn. rewrite Hc. cbn.
    apply IH. intros j m Hm. specialize (Hall (S j) m Hm). by rewrite Nat.add_succ_r in Hall.
Qed.

Lemma check_links_linked l : check_links l 0 l = Ok tt ↔ linked l.
Proof.
  rewrite check_links_ok. setoid_rewrite check_parent_ok. setoid_rewrite check_children_ok. cbn. split.
  - intros Hall. split; intros i n ? Hn ?; destruct (Hall i n Hn); eauto.
  - intros [Hc Hp] i n Hn. split; eauto.
Qed.

Lemma index_nodes_complete l : ∀ index i,
  Forall rewards_ok l → (∀ j k n m, l !! j = Some n → l !! k = Some m → key n = key m → j = k) →
  (∀ j n, l !! j = Some n → index !! key n = None) →
  ∃ index', index_nodes index i l = Ok index'.
Proof.
  induction l as [|n l IH]; intros index i Hr Hd Hi; cbn; [by eexists|].
  inversion_clear Hr as [|? ? [Hs Hb] Hr']. rewrite Hs. cbn.
  replace (negb (f_is_finite (best_reward n)) && negb (f_eqb (best_reward n) f64_neg_inf)) with false.
  2: { symmetry. apply andb_false_iff. rewrite !negb_false_iff, f_eqb_neg_inf. exact Hb. }
  rewrite (Hi 0 n eq_refl). apply IH; [done| |].
  - intros j k a b Ha Hb' He. by assert (S j = S k) as [= ->] by eauto.
  - intros j m Hm. apply lookup_insert_None. split; [by apply (Hi (S j))|].
    intros He. by assert (0 = S j) by eauto.
Qed.

(** What loading accepts is a tree with acceptable rewards. *)
Lemma from_persisted_ok p path t :
  from_persisted p path = Ok t →
  wf_tree t ∧ Forall rewards_ok (nodes t) ∧ config t = p_config p ∧ root t = p_root p ∧
  nodes t = into_node <$> p_nodes p ∧ persistence_path t = path.
Proof.
  unfold from_persisted. destruct (p_nodes p) as [|n0 l]; [done|].
  destruct ((into_node <$> n0 :: l) !! p_root p) as [r|] eqn:Er; [|done].
  destruct (parent r) eqn:Ep; [done|]. intros (index & Hi & ([] & Hl & Ht)%bind_Ok)%bind_Ok.
  injection Ht as <-. apply index_nodes_ok in Hi as (Hr & Hi & _). apply check_links_linked in Hl.
  split_and!; try done. split; cbn; [|done|by exists r].
  intros k i. rewrite Hi, lookup_empty, Nat.sub_0_r. split.
  - intros [?|(n & _ & Hn)]; [done|by exists n].
  - intros (n & Hn & Hk). right. exists n. split_and!; [lia|done|done].
Qed.

Lemma into_from_node n : rewards_ok n → into_node (from_node n) = n.
Proof.
  intros [_ Hb]. unfold into_node, from_node. cbn. destruct n as [k p cs v s b]. cbn in *.
  destruct (f_is_finite b); [done|]. destruct Hb as [?| ->]; done.
Qed.

Lemma keys_unique t i j n m :
  wf_tree t → nodes t !! i = Some n → nodes t !! j = Some m → key n = key m → i = j.
Proof.
  intros W Hn Hm Hk. pose proof (wf_index t W (key n)) as Hw.
  assert (index_by_key t !! key n = Some i) as E1 by (apply Hw; eauto).
  assert (index_by_key t !! key n = Some j) as E2 by (apply Hw; eauto). congruence.
Qed.

(** The invariant determines the index. *)
Lemma indexed_unique a b l : indexed a l → indexed b l → a = b.
Proof.
  intros Ha Hb. apply map_eq. intros k. apply option_eq. intros i. etrans; [apply Ha|symmetry; apply Hb].
Qed.

(** Data that passes the checks is loaded as it is. *)
Lemma from_persisted_complete (p : PersistedMcts) (path : option string) (index : gmap string nat) :
  wf_tree (MkMcts (p_config p) (p_root p) (into_node <$> p_nodes p) index path) →
  Forall rewards_ok (into_node <$> p_nodes p) →
  from_persisted p path = Ok (MkMcts (p_config p) (p_root p) (into_node <$> p_nodes p) index path).
Proof.
  intros W Hr. destruct (wf_root _ W) as (r & Hroot & Hp). cbn [nodes root] in *. unfold from_persisted. rewrite Hroot, Hp.
  destruct (p_nodes p) as [|x l] eqn:E; [done|]. rewrite <- E in *. clear E.
  destruct (index_nodes_complete (into_node <$> p_nodes p) ∅ 0) as [index' Hi]; [done| |done|].
  { intros i j n m. apply (keys_unique _ i j n m W). }
  rewrite Hi. cbn [mbind]. replace (check_links _ 0 _) with (Ok (E := string) tt)
    by (symmetry; apply check_links_linked, (wf_linked _ W)). cbn.
  replace index' with index; [done|]. eapply indexed_unique; [apply (wf_index _ W)|].
  apply index_nodes_ok in Hi as (_ & Hi & _). intros k i. rewrite Hi, lookup_empty, Nat.sub_0_r. split.
  - intros [?|(n & _ & Hn)]; [done|by exists n].
  - intros (n & Hn & Hk). right. exists n. split_and!; [lia|done|done].
Qed.

(** Saving and loading are inverse: from the data a tree saves, loading
    gives back the same tree - keys, links, counts, rewards, index - exactly
    when all its rewards are numbers a file may hold. *)
Theorem persisted_roundtrip (t : Mcts) (W : wf_tree t) :
  from_persisted (to_persisted t) (persistence_path t) = Ok t ↔ Forall rewards_ok (nodes t).
Proof.
  split; [intros (_ & ? & _)%from_persisted_ok; done|]. intros Hr.
  assert (into_node <$> (from_node <$> nodes t) = nodes t) as En.
  { rewrite <- list_fmap_compose. rewrite <- (list_fmap_id (nodes t)) at 2.
    apply list_fmap_ext. intros i n Hn. apply into_from_node. by eapply Forall_lookup_1. }
  rewrite (from_persisted_complete _ _ (index_by_key t)); cbn [p_nodes p_root p_config to_persisted]; rewrite En;
    destruct t; done.
Qed.

(** ** Trees that differ in rewards and counts only *)

Definition node_shape (n : Node) : string * option nat * list nat := (key n, parent n, children n).

Definition same_shape (t t' : Mcts) : Prop :=
  config t = config t' ∧ root t = root t' ∧ index_by_key t = index_by_key t' ∧
  persistence_path t = persistence_path t' ∧ node_shape <$> nodes t = node_shape <$> nodes t'.

#[export] Instance same_shape_equivalence : Equivalence same_shape.
Proof.
  unfold same_shape. split.
  - by intros t.
  - intros t t' (? & ? & ? & ? & ?). by split_and!.
  - intros x y z (? & ? & ? & ? & ?) (? & ? & ? & ? & ?). split_and!; congruence.
Qed.

Lemma same_shape_lookup t t' i n :
  same_shape t t' → nodes t !! i = Some n →
  ∃ n', nodes t' !! i = Some n' ∧ key n' = key n ∧ parent n' = parent n ∧ children n' = children n.
Proof.
  intros (_ & _ & _ & _ & Hs) Hn. apply (f_equal (lookup i)) in Hs. rewrite !list_lookup_fmap, Hn in Hs.
  destruct (nodes t' !! i) as [n'|]; [|done]. injection Hs as ? ? ?. by exists n'.
Qed.

Lemma wf_same_shape t t' : same_shape t t' → wf_tree t → wf_tree t'.
Proof.
  intros Hs [Hi [Hc Hp] (r & Hr & Hrp)]. pose proof Hs as (_ & Eroot & Eidx & _). symmetry in Hs.
  split.
  - intros k i. rewrite <- Eidx, (Hi k i). split; intros (n & Hn & <-).
    + symmetry in Hs. destruct (same_shape_lookup _ _ _ _ Hs Hn) as (n' & ? & ? & _). by exists n'.
    + destruct (same_shape_lookup _ _ _ _ Hs Hn) as (n' & ? & ? & _). by exists n'.
  - split; intros i n c Hn Hx; destruct (same_shape_lookup _ _ _ _ Hs Hn) as (n' & Hn' & _ & Ep & Ec).
    + rewrite <- Ec in Hx. destruct (Hc _ _ _ Hn' Hx) as (m & Hm & Hmp). symmetry in Hs.
      destruct (same_shape_lookup _ _ _ _ Hs Hm) as (m' & ? & _ & ? & _). exists m'. split; [done|congruence].
    + rewrite <- Ep in Hx. destruct (Hp _ _ _ Hn' Hx) as (m & Hm & Hmc). symmetry in Hs.
      destruct (same_shape_lookup _ _ _ _ Hs Hm) as (m' & ? & _ & _ & E). exists m'. split; [done|by rewrite E].
  - symmetry in Hs. destruct (same_shape_lookup _ _ _ _ Hs Hr) as (r' & ? & _ & ? & _).
    exists r'. rewrite <- Eroot. split; [done|congruence].
Qed.

#[export] Instance wf_tree_proper : Proper (same_shape ==> iff) wf_tree.
Proof. intros t t' Hs. split; apply wf_same_shape; [done|by symmetry]. Qed.

(** The node with key [b] is a child of the node with key [a]. *)
Definition child_of (t : Mcts) (a b : string) : Prop :=
  ∃ i n j, index_by_key t !! a = Some i ∧ nodes t !! i = Some n ∧
    index_by_key t !! b = Some j ∧ j ∈ children n.

Lemma child_of_same_shape t t' a b : same_shape t t' → child_of t a b → child_of t' a b.
Proof.
  intros Hs (i & n & j & Hi & Hn & Hj & Hc). pose proof Hs as (_ & _ & E & _).
  destruct (same_shape_lookup _ _ _ _ Hs Hn) as (n' & Hn' & _ & _ & Ec).
  exists i, n', j. rewrite <- E, Ec. by split_and!.
Qed.

#[export] Instance child_of_proper : Proper (same_shape ==> eq ==> eq ==> iff) child_of.
Proof. intros t t' Hs a ? <- b ? <-. split; apply child_of_same_shape; [done|by symmetry]. Qed.

#[export] Instance root_key_proper : Proper (same_shape ==> eq) root_key.
Proof.
  intros t t' Hs. unfold root_key. pose proof Hs as (_ & <- & _).
  destruct (nodes t !! root t) as [n|] eqn:E.
  - destruct (same_shape_lookup _ _ _ _ Hs E) as (n' & -> & Hk & _). cbn. by rewrite Hk.
  - destruct (nodes t' !! root t) as [n'|] eqn:E'; [|done]. symmetry in Hs.
    destruct (same_shape_lookup _ _ _ _ Hs E') as (n & ? & _). congruence.
Qed.

Lemma update_node_ok f t i n :
  nodes t !! i = Some n → update_node f t i = Some (set_nodes t (<[i := f n]> (nodes t))).
Proof. intros Hn. unfold update_node. by rewrite Hn. Qed.

Lemma credit_same_shape r t i n :
  nodes t !! i = Some n → same_shape t (set_nodes t (<[i := credit r n]> (nodes t))).
Proof.
  intros Hn. unfold same_shape. cbn. split_and!; try done. rewrite list_fmap_insert. cbn.
  rewrite list_insert_id; [done|]. by rewrite list_lookup_fmap, Hn.
Qed.

Lemma index_node t k i :
  wf_tree t → index_by_key t !! k = Some i → ∃ n, nodes t !! i = Some n ∧ key n = k.
Proof. intros W. apply (wf_index t W). Qed.

Lemma node_index t i n : wf_tree t → nodes t !! i = Some n → index_by_key t !! key n = Some i.
Proof. intros W Hn. apply (wf_index t W). eauto. Qed.

(** ** Growing the tree *)

(** The tree with a new child of the node at [i]. *)
Definition grow (t : Mcts) (i : nat) (n : Node) (child_key : string) : Mcts :=
  MkMcts (config t) (root t)
    (<[i := push_child (length (nodes t)) n]> (nodes t) ++ [node_new child_key (Some i)])
    (<[child_key := length (nodes t)]> (index_by_key t)) (persistence_path t).

Lemma lookup_grow t i n k j m :
  nodes t !! i = Some n →
  nodes (grow t i n k) !! j = Some m ↔
  (j < length (nodes t) ∧ j ≠ i ∧ nodes t !! j = Some m) ∨
  (j = i ∧ m = push_child (length (nodes t)) n) ∨
  (j = length (nodes t) ∧ m = node_new k (Some i)).
Proof.
  intros Hi. pose proof (lookup_lt_Some _ _ _ Hi) as Hlt. cbn. split.
  - intros [Hj|[Hge Hj]]%lookup_app_Some.
    + apply list_lookup_insert_Some in Hj as [(-> & <- & _)|(? & Hj)]; [by right; left|left].
      split_and!; [by eapply lookup_lt_Some|done..].
    + rewrite length_insert in *. apply list_lookup_singleton_Some in Hj as [? <-]. right. right. split; [lia|done].
  - intros [(? & ? & Hj)|[(-> & ->)|(-> & ->)]].
    + rewrite lookup_app_l by (by rewrite length_insert). by rewrite list_lookup_insert_ne by done.
    + rewrite lookup_app_l by (by rewrite length_insert). by rewrite list_lookup_insert_eq.
    + apply list_lookup_middle. by rewrite length_insert.
Qed.

(** The nodes there were stay, with the children they had. *)
Lemma lookup_grow_old t i n k j m :
  nodes t !! i = Some n → nodes t !! j = Some m →
  ∃ m', nodes (grow t i n k) !! j = Some m' ∧ key m' = key m ∧ parent m' = parent m ∧
    ∀ c, c ∈ children m → c ∈ children m'.
Proof.
  intros Hi Hj. setoid_rewrite (lookup_grow t i n k j _ Hi). destruct (decide (j = i)) as [->|]; simplify_eq.
  - eexists. split; [by right; left|]. split_and!; [done..|]. intros c Hc. apply elem_of_app. by left.
  - exists m. split; [left; split_and!; [by eapply lookup_lt_Some|done..]|done].
Qed.

Lemma wf_grow t i n k :
  wf_tree t → nodes t !! i = Some n → index_by_key t !! k = None → wf_tree (grow t i n k).
Proof.
  intros W Hi Hk. destruct (wf_linked t W) as [Hc Hp].
  pose proof (fun j m => lookup_grow_old t i n k j m Hi) as Hold.
  assert (nodes (grow t i n k) !! length (nodes t) = Some (node_new k (Some i))) as Hnew
    by (apply lookup_grow; [done|by right; right]).
  split.
  - intros k' j. cbn [index_by_key grow]. rewrite lookup_insert_Some, (wf_index t W k' j). split.
    + intros [[<- <-]|(Hne & m & Hm & <-)]; [by eexists|].
      destruct (Hold _ _ Hm) as (m' & ? & ? & _). by exists m'.
    + setoid_rewrite (lookup_grow t i n k j _ Hi).
      intros (m & [(? & ? & Hm)|[(-> & ->)|(-> & ->)]] & <-); [right|right|by left].
      * split; [|by eauto]. intros ->. apply (node_index t) in Hm; [congruence|done].
      * cbn. split; [|by eauto]. intros ->. apply (node_index t) in Hi; [congruence|done].
  - split; intros j m c Hj Hx;
      apply (lookup_grow t i n k j m Hi) in Hj as [(? & ? & Hj)|[(-> & ->)|(-> & ->)]]; cbn in Hx.
    + destruct (Hc _ _ _ Hj Hx) as (m' & Hm' & ?). destruct (Hold _ _ Hm') as (m2 & ? & _ & ? & _).
      exists m2. split; [done|congruence].
    + apply elem_of_app in Hx as [Hx | ->%list_elem_of_singleton]; [|by eexists].
      destruct (Hc _ _ _ Hi Hx) as (m' & Hm' & ?). destruct (Hold _ _ Hm') as (m2 & ? & _ & ? & _).
      exists m2. split; [done|congruence].
    + by apply not_elem_of_nil in Hx.
    + destruct (Hp _ _ _ Hj Hx) as (m' & Hm' & ?). destruct (Hold _ _ Hm') as (m2 & ? & _ & _ & ?). eauto.
    + destruct (Hp _ _ _ Hi Hx) as (m' & Hm' & ?). destruct (Hold _ _ Hm') as (m2 & ? & _ & _ & ?). eauto.
    + injection Hx as <-. eexists. split; [apply lookup_grow; [done|by right; left]|].
      cbn. apply elem_of_app. right. by left.
  - destruct (wf_root t W) as (r & Hr & Hpr). destruct (Hold _ _ Hr) as (m' & ? & _ & ? & _).
    exists m'. split; [done|congruence].
Qed.

Lemma child_of_grow t i n k a b :
  nodes t !! i = Some n → index_by_key t !! k = None → child_of t a b → child_of (grow t i n k) a b.
Proof.
  intros Hi Hk (ia & na & jb & Ha & Hna & Hb & Hc). destruct (lookup_grow_old t i n k _ _ Hi Hna) as (m' & Hm & _ & _ & Hsub).
  exists ia, m', jb. cbn [index_by_key grow]. rewrite !lookup_insert_ne by (intros ->; congruence).
  split_and!; [done..|by apply Hsub].
Qed.

(** How often a key occurs in a path. *)
Notation times k path := (count_occ String.string_dec path k).

Section Operations.
Context `{MctsEnv}.

Lemma ensure_child_cases d t parent_key child_key :
  wf_tree t →
  (index_by_key t !! parent_key = None ∧
    ensure_child d t parent_key child_key = Some (d, t, Err ("unknown parent node `" +:+ parent_key +:+ "`"))) ∨
  (is_Some (index_by_key t !! parent_key) ∧ is_Some (index_by_key t !! child_key) ∧
    ¬ child_of t parent_key child_key ∧
    ensure_child d t parent_key child_key =
      Some (d, t, Err ("node `" +:+ child_key +:+ "` already exists under a different parent"))) ∨
  (child_of t parent_key child_key ∧ ensure_child d t parent_key child_key = Some (d, t, Ok tt)) ∨
  (∃ i n, index_by_key t !! parent_key = Some i ∧ nodes t !! i = Some n ∧ index_by_key t !! child_key = None ∧
    let t' := grow t i n child_key in
    ensure_child d t parent_key child_key = Some (persist_best_effort d t', t', Ok tt)).
Proof.
  intros W. unfold ensure_child. destruct (index_by_key t !! parent_key) as [i|] eqn:Ei; [right|by left].
  destruct (index_node _ _ _ W Ei) as (n & Hn & <-).
  destruct (index_by_key t !! child_key) as [j|] eqn:Ej.
  - destruct (index_node _ _ _ W Ej) as (m & Hm & <-). rewrite Hm, Hn. cbn.
    destruct (wf_linked t W) as [Hc Hp]. case_decide as Hd.
    + left. split_and!; try done. intros (i' & n' & j' & Hi' & Hn' & Hj' & Hin). simplify_eq.
      by destruct (Hc _ _ _ Hn Hin) as (? & ? & ?); simplify_eq.
    + right. left. destruct (Hp _ _ _ Hm Hd) as (n' & Hn' & Hin). simplify_eq.
      rewrite decide_True by done. split; [|done]. by exists i, n, j.
  - right. right. exists i, n. split_and!; try done. cbn zeta. unfold update_node. cbn.
    assert (i < length (nodes t)) by (by eapply lookup_lt_Some).
    rewrite lookup_app_l, Hn by done. cbn. unfold set_nodes. cbn. rewrite insert_app_l by done. done.
Qed.

(** The rest of a path, from the key before it. *)
Fixpoint linked_path (t : Mcts) (previous : option string) (path : list string) : Prop :=
  match path with
  | [] => True
  | k :: path =>
    is_Some (index_by_key t !! k) ∧ (∀ a, previous = Some a → child_of t a k) ∧ linked_path t (Some k) path
  end.

Lemma linked_path_same_shape t t' previous path :
  same_shape t t' → linked_path t previous path → linked_path t' previous path.
Proof.
  intros Hs. revert previous. induction path as [|k path IH]; intros previous; cbn; [done|].
  pose proof Hs as (_ & _ & <- & _). intros (? & Hc & ?). split_and!; [done| |by apply IH].
  intros a Ha. apply (child_of_same_shape t); [done|by apply Hc].
Qed.

Lemma check_segment_ok t previous k i :
  wf_tree t → index_by_key t !! k = Some i →
  ∃ r, check_segment t previous k i = Some r ∧
    (r = Ok tt ↔ ∀ a, previous = Some a → child_of t a k).
Proof.
  intros W Hk. unfold check_segment. destruct previous as [a|]; [|eexists; split; [done|]; by split].
  destruct (index_by_key t !! a) as [j|] eqn:Ea.
  - destruct (index_node _ _ _ W Ea) as (n & Hn & <-). rewrite Hn. cbn. eexists. split; [done|].
    case_decide; split; try done.
    + intros _ ? [= <-]. by exists j, n, i.
    + intros Hx. destruct (Hx _ eq_refl) as (? & ? & ? & ? & ? & ? & ?). by simplify_eq.
  - eexists. split; [done|]. split; [done|]. intros Hx. destruct (Hx _ eq_refl) as (? & ? & ? & ? & _). simplify_eq.
Qed.

Lemma credit_path_run path reward : ∀ t previous, wf_tree t →
  ∃ t' r, credit_path t previous path reward = Some (t', r) ∧ same_shape t t' ∧
    (r = Ok tt ↔ linked_path t previous path).
Proof.
  induction path as [|k path IH]; intros t previous W; cbn.
  { exists t, (Ok tt). split_and!; [done|reflexivity|done]. }
  destruct (index_by_key t !! k) as [i|] eqn:Ek.
  - destruct (check_segment_ok t previous k i W Ek) as (r & -> & Hr). cbn.
    destruct r as [[]|e].
    + destruct (index_node _ _ _ W Ek) as (n & Hn & _). rewrite (update_node_ok _ _ _ _ Hn). cbn.
      pose proof (credit_same_shape reward _ _ _ Hn) as Hs.
      destruct (IH _ (Some k) (wf_same_shape _ _ Hs W)) as (t' & r & -> & Hs' & Hr'). exists t', r.
      split_and!; [done|by etrans|]. rewrite Hr'. split.
      * intros Hl. split_and!; [done|by apply Hr|]. by eapply linked_path_same_shape; [symmetry|].
      * intros (_ & _ & Hl). by eapply linked_path_same_shape.
    + exists t, (Err e). split_and!; [done|reflexivity|]. split; [done|]. intros (_ & Hx & _). by apply Hr in Hx.
  - exists t, (Err ("unknown node `" +:+ k +:+ "` in backpropagation path")).
    split_and!; [done|reflexivity|]. split; [done|]. intros [[? ?] _]. done.
Qed.

Lemma backpropagate_path_run d t path reward :
  wf_tree t →
  ∃ d' t' r, backpropagate_path d t path reward = Some (d', t', r) ∧ same_shape t t' ∧
    (r = Ok tt ↔ f_is_finite reward = true ∧ path ≠ [] ∧ linked_path t None path).
Proof.
  intros W. unfold backpropagate_path. destruct (f_is_finite reward); cbn.
  2: { eexists _, _, _. split_and!; [done|reflexivity|]. by split; [|intros []]. }
  destruct path as [|k path]; [eexists _, _, _; split_and!; [done|reflexivity|]; by split; [|intros (_ & ? & _)]|].
  destruct (credit_path_run (k :: path) reward t None W) as (t' & r & E & Hs & Hr). rewrite E. cbn [mbind option_bind].
  destruct r as [[]|e]; eexists _, _, _; (split_and!; [done|done|]).
  - split; [|done]. intros _. split_and!; [done..|by apply Hr].
  - split; [done|]. intros (_ & _ & Hx). by apply Hr in Hx.
Qed.

(** The nodes of the path up to the first bad key are credited, once for each
    time they occur in it; no other node changes. *)
Lemma credit_path_effect path reward : ∀ t previous t' r, wf_tree t →
  credit_path t previous path reward = Some (t', r) →
  ∃ credited rest, path = credited ++ rest ∧ linked_path t previous credited ∧
    (∀ i n, nodes t !! i = Some n →
      nodes t' !! i = Some (Nat.iter (times (key n) credited) (credit reward) n)) ∧
    (r = Ok tt ↔ rest = []) ∧
    (∀ k rest', rest = k :: rest' → ¬ linked_path t previous (credited ++ [k])).
Proof.
  induction path as [|k path IH]; intros t previous t' r W; cbn.
  { intros [= <- <-]. exists [], []. by split_and!. }
  assert (∀ e, r = Err e → t' = t → ¬ linked_path t previous [k] →
    ∃ credited rest, k :: path = credited ++ rest ∧ linked_path t previous credited ∧
    (∀ i n, nodes t !! i = Some n →
      nodes t' !! i = Some (Nat.iter (times (key n) credited) (credit reward) n)) ∧
    (r = Ok tt ↔ rest = []) ∧
    (∀ k rest', rest = k :: rest' → ¬ linked_path t previous (credited ++ [k]))) as Hbad.
  { intros e -> -> Hk. exists [], (k :: path). split_and!; try done. by intros k' ? [= <- _]. }
  destruct (index_by_key t !! k) as [i|] eqn:Ek.
  2: { intros [= <- <-]. eapply Hbad; [done|done|]. intros [[? ?] _]. congruence. }
  destruct (check_segment_ok t previous k i W Ek) as (c & -> & Hc). cbn. destruct c as [[]|e].
  2: { intros [= <- <-]. eapply Hbad; [done|done|]. intros (_ & Hx & _). by apply Hc in Hx. }
  destruct (index_node _ _ _ W Ek) as (n & Hn & <-). rewrite (update_node_ok _ _ _ _ Hn). cbn.
  pose proof (credit_same_shape reward _ _ _ Hn) as Hs. set (t1 := set_nodes t _) in *.
  intros (credited & rest & -> & Hl & He & Hr & Hbad')%IH; [|by eapply wf_same_shape]. clear Hbad.
  exists (key n :: credited), rest. split_and!; [done| |..].
  - split_and!; [by eexists|by apply Hc|by eapply linked_path_same_shape].
  - intros j m Hm. destruct (decide (j = i)) as [->|Hne].
    + simplify_eq. rewrite count_occ_cons_eq, Nat.iter_succ_r by done. rewrite (He i (credit reward n)); [done|].
      unfold t1. cbn. apply list_lookup_insert_eq. by eapply lookup_lt_Some.
    + rewrite count_occ_cons_neq; [|intros E; apply Hne; by eapply keys_unique].
      apply He. unfold t1. cbn. by rewrite list_lookup_insert_ne.
  - done.
  - intros k' rest' -> (_ & _ & Hx). apply (Hbad' k' rest' eq_refl). by eapply linked_path_same_shape.
Qed.

(** ** Selecting a child *)

Lemma should_expand_total t i n : nodes t !! i = Some n → ∃ b, should_expand_here t i = Some b.
Proof. intros Hn. unfold should_expand_here. rewrite Hn. cbn. destruct (children n); by eexists. Qed.

(** What the loop over the children knows of those it has seen. *)
Definition best_of (t : Mcts) (lnv : f64) (seen : list nat) (best : option nat * f64) : Prop :=
  f_is_nan best.2 = false ∧
  match best.1 with
  | None => best.2 = f64_neg_inf ∧ ∀ c m, c ∈ seen → nodes t !! c = Some m →
      f_is_nan (ucb_score t lnv m) = false → f_rank (ucb_score t lnv m) = f_rank f64_neg_inf
  | Some b => b ∈ seen ∧ ∃ mb, nodes t !! b = Some mb ∧ f_is_nan (ucb_score t lnv mb) = false ∧
      f_rank best.2 = f_rank (ucb_score t lnv mb) ∧ rank_lt (f_rank f64_neg_inf) (f_rank best.2) ∧
      ∀ c m, c ∈ seen → nodes t !! c = Some m → f_is_nan (ucb_score t lnv m) = false →
        ¬ rank_lt (f_rank best.2) (f_rank (ucb_score t lnv m)) ∧
        (f_rank (ucb_score t lnv m) = f_rank best.2 → String.ltb (key m) (key mb) = false)
  end.

Lemma better_child_step t lnv seen best c m :
  best_of t lnv seen best → nodes t !! c = Some m →
  ∃ best', better_child t lnv best c = Some best' ∧ best_of t lnv (seen ++ [c]) best'.
Proof.
  intros [Hnan Hb] Hm. destruct best as [bc bs]. unfold better_child. rewrite Hm. cbn in Hnan, Hb |- *.
  set (s := ucb_score t lnv m). assert (∀ c', c' ∈ seen ++ [c] → c' ∈ seen ∨ c' = c) as Hin
    by (intros c' [?|?%list_elem_of_singleton]%elem_of_app; eauto).
  destruct (f_ltb bs s) eqn:Elt.
  { pose proof (f_ltb_nan _ _ Elt) as [_ Hs]. apply f_ltb_rank in Elt; [|done..].
    eexists. split; [done|]. split; [done|]. cbn. split; [apply elem_of_app; right; by left|].
    exists m. split_and!; [done..| |].
    - destruct bc as [b|]; [destruct Hb as (_ & mb & _ & _ & _ & Hinf & _)|destruct Hb as [-> _]; done].
      unfold rank_lt in *. lia.
    - intros c' m' [Hc'| ->]%Hin Hm' Hn'; [|simplify_eq; split; [apply rank_lt_irrefl|intros; apply string_ltb_irrefl]].
      assert (rank_lt (f_rank (ucb_score t lnv m')) (f_rank s)) as Hlt.
      { destruct bc as [b|]; [destruct Hb as (_ & mb & _ & _ & _ & Hinf & Hall)|destruct Hb as [-> Hall]].
        - destruct (Hall c' m' Hc' Hm' Hn') as [Hle _]. clear Hall Hinf.
          destruct (rank_total (f_rank bs) (f_rank (ucb_score t lnv m'))) as [?|[E|?]]; [done|by rewrite <- E|].
          unfold rank_lt in *. lia.
        - by rewrite (Hall c' m' Hc' Hm' Hn'). }
      split; [|intros E; rewrite E in Hlt]; unfold rank_lt in *; lia. }
  destruct (f_eqb s bs) eqn:Eeq.
  - pose proof (f_eqb_nan _ _ Eeq) as [Hs _]. apply f_eqb_rank in Eeq; [|done..].
    destruct bc as [b|].
    + destruct Hb as (Hbin & mb & Hmb & Hnb & Hbr & Hinf & Hall). rewrite Hmb. cbn. eexists. split; [done|].
      split; [by destruct (String.ltb _ _)|]. destruct (String.ltb (key m) (key mb)) eqn:Ek; cbn.
      * split; [apply elem_of_app; right; by left|]. exists m. split_and!; try done.
        intros c' m' [Hc'| ->]%Hin Hm' Hn'; [|simplify_eq; split; [rewrite <- Eeq; apply rank_lt_irrefl|intros; apply string_ltb_irrefl]].
        destruct (Hall c' m' Hc' Hm' Hn') as [Hle Hk]. split; [done|]. intros E. apply not_true_is_false.
        intros Hx. apply not_true_iff_false in Hk; [|done]. apply Hk. by eapply string_ltb_trans.
      * split; [apply elem_of_app; by left|]. exists mb. split_and!; try done.
        intros c' m' [Hc'| ->]%Hin Hm' Hn'; [by eapply Hall|]. simplify_eq. split; [rewrite <- Eeq; apply rank_lt_irrefl|done].
    + destruct Hb as [-> Hall]. eexists. split; [done|]. split; [done|]. cbn. split; [done|].
      intros c' m' [Hc'| ->]%Hin Hm' Hn'; [by eapply Hall|]. by simplify_eq.
  - eexists. split; [done|]. split; [done|]. cbn.
    assert (f_is_nan s = false → rank_lt (f_rank s) (f_rank bs)) as Hlt.
    { intros Hs. destruct (rank_total (f_rank s) (f_rank bs)) as [?|[E|E]]; [done|exfalso..].
      - apply f_eqb_rank in E; [congruence|done..].
      - apply f_ltb_rank in E; [congruence|done..]. }
    destruct bc as [b|].
    + destruct Hb as (Hbin & mb & Hmb & Hnb & Hbr & Hinf & Hall).
      split; [apply elem_of_app; by left|]. exists mb. split_and!; try done.
      intros c' m' [Hc'| ->]%Hin Hm' Hn'; [by eapply Hall|]. simplify_eq. specialize (Hlt Hn').
      split; [by apply rank_lt_asym|]. intros E. change (f_rank s = f_rank bs) in E. rewrite E in Hlt.
      by apply rank_lt_irrefl in Hlt.
    + destruct Hb as [-> Hall]. split; [done|].
      intros c' m' [Hc'| ->]%Hin Hm' Hn'; [by eapply Hall|]. simplify_eq. specialize (Hlt Hn'). exfalso.
      fold s in Hn'. destruct s as [[]|[]| |[] ? ?]; cbn in *; unfold rank_lt in Hlt; cbn in Hlt; try done; lia.
Qed.

Lemma better_child_run t lnv cs : ∀ seen best,
  best_of t lnv seen best → (∀ c, c ∈ cs → is_Some (nodes t !! c)) →
  ∃ best', run_steps (better_child t lnv) best cs = Some best' ∧ best_of t lnv (seen ++ cs) best'.
Proof.
  induction cs as [|c cs IH]; intros seen best Hb Hcs; cbn; [exists best; by rewrite app_nil_r|].
  destruct (Hcs c) as [m Hm]; [by left|]. destruct (better_child_step t lnv seen best c m Hb Hm) as (b1 & -> & Hb1).
  destruct (IH _ _ Hb1) as (b2 & -> & Hb2); [intros; apply Hcs; by right|]. exists b2. by rewrite <- app_assoc in Hb2.
Qed.

(** The natural logarithm of the parent's visits, as the code computes it. *)
Definition ln_visits (p : Node) : f64 := f64_ln (f64_of_Z (Z.max (visits p) 1)).

Lemma select_best_run t i p :
  wf_tree t → nodes t !! i = Some p →
  ∃ best, select_best_child_by_ucb t i = Some best.1 ∧ best_of t (ln_visits p) (children p) best.
Proof.
  intros W Hp. unfold select_best_child_by_ucb. rewrite Hp. cbn -[ln_visits f64_of_Z run_steps].
  destruct (better_child_run t (ln_visits p) (children p) [] (None, f64_neg_inf)) as ([bc bs] & E & Hb).
  - split; [done|]. cbn. split; [done|]. by intros c m ?%not_elem_of_nil.
  - intros c Hc. destruct (wf_linked t W) as [Hl _]. destruct (Hl _ _ _ Hp Hc) as (m & ? & _). by exists m.
  - exists (bc, bs). split; [|done]. destruct (children p) eqn:Ec; [by injection E as <- <-|].
    unfold ln_visits in E. by rewrite E.
Qed.

(** The child selected is the best one: among the children whose score is a
    number its upper confidence bound is maximal, ties going to the smallest
    key, unvisited children first of all; and there is none only when every
    child's score is negative infinity or not a number. *)
Theorem best_child_is_argmax (t : Mcts) (i : nat) (p : Node) (W : wf_tree t) (Hp : nodes t !! i = Some p) :
  let score := ucb_score t (ln_visits p) in
  match select_best_child_by_ucb t i with
  | None => False
  | Some None => ∀ c m, c ∈ children p → nodes t !! c = Some m →
      f_is_nan (score m) = true ∨ score m = f64_neg_inf
  | Some (Some b) => b ∈ children p ∧ ∃ mb, nodes t !! b = Some mb ∧
      ∀ c m, c ∈ children p → nodes t !! c = Some m → f_is_nan (score m) = false →
        f_leb (score m) (score mb) = true ∧
        (f_eqb (score m) (score mb) = true → String.ltb (key m) (key mb) = false)
  end.
Proof.
  destruct (select_best_run t i p W Hp) as ([b bs] & -> & [Hnan Hb]). cbn in *. destruct b as [b|].
  - destruct Hb as (Hin & mb & Hmb & Hnb & Hr & _ & Hall). split; [done|]. exists mb. split; [done|].
    intros c m Hc Hm Hn. destruct (Hall c m Hc Hm Hn) as [Hle Hk]. rewrite f_leb_rank, f_eqb_rank by done.
    rewrite Hr in Hle, Hk. done.
  - destruct Hb as [-> Hall]. intros c m Hc Hm. destruct (f_is_nan (ucb_score t (ln_visits p) m)) eqn:En; [by left|right].
    apply f_eqb_neg_inf, f_eqb_rank; [done..|]. by eapply Hall.
Qed.

(** ** Selecting a path *)

(** Every key of the path but the last is followed by a child of it. *)
Definition rooted_path (t : Mcts) (path : list string) : Prop :=
  ∃ k rest, path = k :: rest ∧ root_key t = Some k ∧ linked_path t None path.

Lemma linked_path_snoc t previous path a k :
  linked_path t previous (path ++ [a]) → child_of t a k → linked_path t previous ((path ++ [a]) ++ [k]).
Proof.
  revert previous. induction path as [|x path IH]; intros previous; cbn.
  - intros (? & ? & _) Hc. split_and!; try done.
    + by destruct Hc as (? & ? & ? & _ & _ & ? & _).
    + by intros ? [= <-].
  - intros (? & ? & ?) ?. split_and!; [done..|]. by apply IH.
Qed.

Lemma child_of_nodes t i n j m :
  wf_tree t → nodes t !! i = Some n → nodes t !! j = Some m → j ∈ children n → child_of t (key n) (key m).
Proof. intros W Hn Hm Hj. exists i, n, j. split_and!; try done; by apply node_index. Qed.

Lemma select_loop_run t max_depth : wf_tree t → ∀ fuel selected cursor n,
  nodes t !! cursor = Some n → rooted_path t (selected ++ [key n]) →
  length (selected ++ [key n]) ≤ max_depth → max_depth < fuel + length (selected ++ [key n]) →
  ∃ r, select_loop fuel t max_depth (selected ++ [key n]) cursor = Some r ∧
    match r with
    | Ok path => ∃ front m j, path = front ++ [key m] ∧ rooted_path t path ∧ length path ≤ max_depth ∧
        nodes t !! j = Some m ∧ (length path = max_depth ∨ should_expand_here t j = Some true)
    | Err _ => ∃ j m, nodes t !! j = Some m ∧ children m ≠ [] ∧ select_best_child_by_ucb t j = Some None
    end.
Proof.
  intros W. induction fuel as [|fuel IH]; intros selected cursor n Hn Hr Hle Hfuel; [lia|]. cbn.
  destruct (length (selected ++ [key n]) <? max_depth) eqn:El; zb; cbn.
  2: { eexists. split; [done|]. exists selected, n, cursor. split_and!; try done. left. lia. }
  destruct (should_expand_total t cursor n Hn) as [b Eb]. rewrite Eb. cbn. destruct b.
  { eexists. split; [done|]. exists selected, n, cursor. split_and!; try done. by right. }
  destruct (select_best_run t cursor n W Hn) as ([b bs] & Es & [_ Hb]). rewrite Es. cbn in *.
  destruct b as [b|].
  - destruct Hb as (Hin & mb & Hmb & _). rewrite Hmb. cbn. apply (IH (selected ++ [key n]) b mb); [done| | |].
    + destruct Hr as (k & rest & E & Hk & Hl). exists k, (rest ++ [key mb]). rewrite E.
      split_and!; [done..|]. rewrite <- E. apply linked_path_snoc; [done|]. exact (child_of_nodes t cursor n b mb W Hn Hmb Hin).
    + rewrite length_app. cbn. lia.
    + rewrite length_app. cbn. lia.
  - rewrite Hn. cbn. eexists. split; [done|]. exists cursor, n. split_and!; try done.
    unfold should_expand_here in Eb. rewrite Hn in Eb. intros Ec. cbn in Eb. by rewrite Ec in Eb.
Qed.

Lemma root_key_Some t : wf_tree t → ∃ n, nodes t !! root t = Some n ∧ root_key t = Some (key n) ∧ parent n = None.
Proof. intros W. destruct (wf_root t W) as (n & Hn & ?). exists n. unfold root_key. by rewrite Hn. Qed.

Lemma rooted_path_root t n : wf_tree t → nodes t !! root t = Some n → rooted_path t ([] ++ [key n]).
Proof.
  intros W Hn. exists (key n), []. unfold root_key. rewrite Hn. split_and!; [done..|]. cbn.
  split_and!; [|done..]. exists (root t). by apply node_index.
Qed.

Lemma child_of_root t a k : wf_tree t → root_key t = Some k → ¬ child_of t a k.
Proof.
  intros W Hk (i & n & j & _ & Hn & Hj & Hc). destruct (root_key_Some t W) as (r & Hr & E & Hp).
  rewrite Hk in E. injection E as ->. apply (node_index t _ _ W) in Hr as Hi. rewrite Hj in Hi. injection Hi as ->.
  destruct (wf_linked t W) as [Hl _]. destruct (Hl _ _ _ Hn Hc) as (m & ? & ?). congruence.
Qed.

Lemma child_of_inj t a b k : wf_tree t → child_of t a k → child_of t b k → a = b.
Proof.
  intros W (i & n & j & Hi & Hn & Hj & Hc) (i' & n' & j' & Hi' & Hn' & Hj' & Hc'). simplify_eq.
  destruct (wf_linked t W) as [Hl _]. destruct (Hl _ _ _ Hn Hc) as (m & Hm & Hp), (Hl _ _ _ Hn' Hc') as (m' & Hm' & Hp').
  simplify_eq. destruct (index_node _ _ _ W Hi) as (? & ? & <-), (index_node _ _ _ W Hi') as (? & ? & <-). by simplify_eq.
Qed.

Lemma linked_path_lookup t previous path i a b :
  linked_path t previous path → path !! i = Some a → path !! S i = Some b → child_of t a b.
Proof.
  revert previous i. induction path as [|x path IH]; intros previous i; cbn; [by rewrite lookup_nil|].
  intros (_ & _ & Hl). destruct i as [|i]; cbn; [|by eapply IH].
  intros [= ->] Hb. destruct path as [|y path]; [done|]. injection Hb as ->. destruct Hl as (_ & Hc & _). by apply Hc.
Qed.

(** Along links from the root no key comes twice. *)
Lemma rooted_path_NoDup t path : wf_tree t → rooted_path t path → NoDup path.
Proof.
  intros W (k & rest & -> & Hk & Hl). apply NoDup_alt.
  assert (∀ i x, (k :: rest) !! S i = Some x → ∃ a, (k :: rest) !! i = Some a ∧ child_of t a x) as Hpred.
  { intros i x Hx. destruct (lookup_lt_is_Some_2 (k :: rest) i) as [a Ha]; [apply lookup_lt_Some in Hx; lia|].
    exists a. split; [done|]. by eapply linked_path_lookup. }
  assert (∀ i x, (k :: rest) !! S i = Some x → x ≠ k) as Hroot.
  { intros i x Hx ->. destruct (Hpred i k Hx) as (a & _ & Hc). by eapply child_of_root. }
  induction i as [|i IH]; intros [|j] x Hi Hj; [done|..].
  - injection Hi as ->. by apply Hroot in Hj.
  - injection Hj as ->. by apply Hroot in Hi.
  - destruct (Hpred _ _ Hi) as (a & Ha & Hca), (Hpred _ _ Hj) as (b & Hb & Hcb).
    assert (a = b) as -> by (by eapply child_of_inj). f_equal. by eapply IH.
Qed.

(** Selection walks down the tree: it never panics and its bound on rounds is
    enough; the path it returns starts at the root, follows links from parent
    to child, repeats no node, has at most [max_depth] nodes, and ends at that
    depth or at a node that should be expanded; it fails only for depth zero
    or at a node none of whose children can be selected. *)
Theorem select_path_walks_down (t : Mcts) (max_depth : nat) (W : wf_tree t) :
  match select_path t max_depth with
  | None => False
  | Some (Ok path) =>
    rooted_path t path ∧ NoDup path ∧ 1 ≤ length path ≤ max_depth ∧
    ∃ i n, nodes t !! i = Some n ∧ last path = Some (key n) ∧
      (length path = max_depth ∨ should_expand_here t i = Some true)
  | Some (Err _) => max_depth = 0 ∨
      ∃ i n, nodes t !! i = Some n ∧ children n ≠ [] ∧ select_best_child_by_ucb t i = Some None
  end.
Proof.
  unfold select_path. destruct (max_depth =? 0) eqn:E0; zb; [by left|].
  destruct (root_key_Some t W) as (n & Hn & Hk & _). rewrite Hn. cbn [mbind option_bind].
  destruct (select_loop_run t max_depth W max_depth [] (root t) n Hn) as (r & Er & Hr);
    [by apply rooted_path_root|cbn; lia|cbn; lia|].
  cbn [app] in Er. rewrite Er. destruct r as [path|e]; [|by right].
  destruct Hr as (front & m & j & Ep & Hroot & Hlen & Hm & Hend). split_and!; [done|by eapply rooted_path_NoDup| |done|].
  - rewrite Ep, length_app. cbn. lia.
  - exists j, m. split_and!; [done| |done]. by rewrite Ep, last_snoc.
Qed.

(** Backpropagation credits the path: with a finite reward every node of a
    path of linked keys gains one visit (saturating), the reward, and a new
    best if the reward is better, once for each time it occurs, and no other
    node, key or link changes; it fails exactly for a reward that is not a
    finite number, an empty path, or a key that is unknown or not a child of
    the key before it - the keys before such a key stay credited, and nothing
    is saved. *)
Theorem backpropagation_credits_path (d : disk) (t : Mcts) (path : list string) (reward : f64)
    (W : wf_tree t) :
  ∃ d' t' r, backpropagate_path d t path reward = Some (d', t', r) ∧ same_shape t t' ∧ wf_tree t' ∧
    (r = Ok tt ↔ f_is_finite reward = true ∧ path ≠ [] ∧ linked_path t None path) ∧
    (r = Ok tt → d' = persist_best_effort d t') ∧
    (r ≠ Ok tt → d' = d) ∧
    ∃ credited rest, path = credited ++ rest ∧ linked_path t None credited ∧
      (f_is_finite reward = true → ∀ k rest', rest = k :: rest' → ¬ linked_path t None (credited ++ [k])) ∧
      (∀ i n, nodes t !! i = Some n → nodes t' !! i = Some
        (if f_is_finite reward then Nat.iter (times (key n) credited) (credit reward) n else n)).
Proof.
  destruct (backpropagate_path_run d t path reward W) as (d' & t' & r & E & Hs & Hr).
  exists d', t', r. pose proof (wf_same_shape _ _ Hs W) as W'. split_and!; [done..| | |];
    unfold backpropagate_path in E; destruct (f_is_finite reward) eqn:Ef; cbn [negb] in E.
  all: try by (injection E as <- <- <-; by intros ?).
  all: try by (injection E as <- <- <-; exists [], path).
  all: destruct path as [|k path]; [injection E as <- <- <-; try done; by exists [], []|].
  all: destruct (credit_path_run (k :: path) reward t None W) as (t1 & r1 & Ec & _ & Hr1); rewrite Ec in E;
    cbn [mbind option_bind] in E.
  - intros ->. destruct r1 as [[]|]; by injection E as <- <-.
  - intros Hne. destruct r1 as [[]|]; [by destruct Hne; injection E as _ _ <-|by injection E as <- _ _].
  - assert (t1 = t') as -> by (destruct r1 as [[]|]; by injection E as _ <- _).
    destruct (credit_path_effect _ _ _ _ _ _ W Ec) as (credited & rest & ? & ? & Heff & _ & Hbad).
    exists credited, rest. by split_and!.
Qed.

End Operations.
