(* ===== verification/MctsSearch.v ===== *)
(** * Building and searching

    Builders over any disk contents, the alternation of selection and reward
    over any run, and the saving of rewards that are no longer numbers. *)

From S2P Require Export MctsSpec.

#[local] Open Scope nat_scope.

Section Search.
Context `{MctsEnv}.

(** ** Building *)

Lemma wf_fresh k c path : wf_tree (fresh k c path) ∧ root_key (fresh k c path) = Some k.
Proof.
  split; [|done]. split; cbn.
  - intros k' i. rewrite lookup_singleton_Some. split.
    + intros [<- <-]. by eexists.
    + intros (n & Hn & <-). by apply list_lookup_singleton_Some in Hn as [-> <-].
  - split; intros i n c' Hn Hc; apply list_lookup_singleton_Some in Hn as [-> <-]; cbn in Hc; [|done].
    by apply not_elem_of_nil in Hc.
  - by eexists.
Qed.

Lemma wf_tree_config t c path :
  wf_tree t → wf_tree (MkMcts c (root t) (nodes t) (index_by_key t) path).
Proof. by intros [? ? ?]. Qed.

Lemma loaded_root d path loaded :
  maybe_load_from_disk d path = Ok (Some loaded) → wf_tree loaded.
Proof.
  unfold maybe_load_from_disk. destruct (read_to_string d path) as [contents|[]]; [|done..].
  intros (persisted & _ & (t & Ht & [= ->])%bind_Ok)%bind_Ok. by apply from_persisted_ok in Ht as (W & _).
Qed.

Lemma try_build_total d b :
  ∃ r, try_build d b = Some r ∧
    match r with
    | Ok t => wf_tree t ∧ root_key t = Some (b_root_key b) ∧ config t = b_config b ∧
        persistence_path t = b_persistence_path b
    | Err e => ∃ path, b_persistence_path b = Some path ∧ maybe_load_from_disk d path = Err e
    end.
Proof.
  destruct (wf_fresh (b_root_key b) (b_config b) (b_persistence_path b)) as [Wf Rf].
  unfold try_build. destruct (b_persistence_path b) as [path|] eqn:Ep; [|by eexists].
  destruct (maybe_load_from_disk d path) as [[loaded|]|e] eqn:El; [|by eexists|by eexists; split; [done|exists path]].
  pose proof (loaded_root _ _ _ El) as W. destruct (root_key_Some loaded W) as (n & Hn & -> & _). cbn [mbind option_bind].
  eexists. split; [done|]. case_decide as Hk; [|done].
  split_and!; [by apply wf_tree_config| |done..]. unfold root_key. cbn. by rewrite Hn, <- Hk.
Qed.

Lemma build_total d b :
  ∃ t, build d b = Some t ∧ wf_tree t ∧ root_key t = Some (b_root_key b) ∧ config t = b_config b.
Proof.
  unfold build. destruct (try_build_total d b) as (r & -> & Hr). cbn.
  destruct r as [t|e]; [naive_solver|]. eexists. split; [done|].
  by destruct (wf_fresh (b_root_key b) (b_config b) (b_persistence_path b)).
Qed.

(** C40. Building always yields a tree: whatever the file at the persistence path
    holds - nothing, garbage, another tree, a tree with broken links - the
    tree built is well formed and has the builder's root key, settings and
    path; a file that does not pass validation is an error of [try_build]
    and a fresh tree of [build]. *)
Theorem build_is_well_formed (d : disk) (b : MctsBuilder) :
  ∃ t, build d b = Some t ∧ wf_tree t ∧ root_key t = Some (b_root_key b) ∧
    config t = b_config b ∧ persistence_path t = b_persistence_path b ∧
    match try_build d b with
    | None => False
    | Some (Ok t') => t' = t
    | Some (Err e) => t = fresh (b_root_key b) (b_config b) (b_persistence_path b) ∧
        ∃ path, b_persistence_path b = Some path ∧ maybe_load_from_disk d path = Err e
    end.
Proof.
  unfold build. destruct (try_build_total d b) as (r & -> & Hr). cbn. destruct r as [t|e].
  - destruct Hr as (? & ? & ? & ?). by exists t.
  - eexists. split; [done|]. by destruct (wf_fresh (b_root_key b) (b_config b) (b_persistence_path b)).
Qed.

(** ** The search over any run *)

Record search_ok (k : string) (c : MctsConfig) (s : PendingTreeSearch) : Prop := {
  so_tree : wf_tree (tree s);
  so_root : root_key (tree s) = Some k;
  so_config : config (tree s) = c;
  so_pending : ∀ path, pending_selection_path s = Some path → rooted_path (tree s) path;
}.

(** The operations of a search and of the tree it gives access to; other
    programs may change the disk at any time. *)
Inductive search_op : Type :=
| SelectNext (max_depth : nat)
| Reward (current_key : string) (reward : f64) (max_depth : nat)
| EnsureChild (parent_key child_key : string)
| Backpropagate (path : list string) (reward : f64)
| DiskChanges (f : disk → disk).

Definition search_step (ds : disk * PendingTreeSearch) (op : search_op) : option (disk * PendingTreeSearch) :=
  let '(d, s) := ds in
  match op with
  | SelectNext max_depth => '(s, _) ← select_next s max_depth; Some (d, s)
  | Reward k reward max_depth => '(d, s, _) ← backpropagate_and_select d s k reward max_depth; Some (d, s)
  | EnsureChild p k =>
    '(d, t, _) ← ensure_child d (tree s) p k; Some (d, MkSearch t (pending_selection_path s))
  | Backpropagate path reward =>
    '(d, t, _) ← backpropagate_path d (tree s) path reward; Some (d, MkSearch t (pending_selection_path s))
  | DiskChanges f => Some (f d, s)
  end.

Lemma rooted_path_same_shape t t' path : same_shape t t' → rooted_path t path → rooted_path t' path.
Proof.
  intros Hs (k & rest & -> & Hk & Hl). exists k, rest. split_and!; [done| |by eapply linked_path_same_shape].
  rewrite <- Hk. symmetry. by apply root_key_proper.
Qed.

Lemma search_ok_same_shape k c t t' p :
  same_shape t t' → search_ok k c (MkSearch t p) → search_ok k c (MkSearch t' p).
Proof.
  intros Hs [W Hr Hc Hp]. cbn in *. split; cbn.
  - by eapply wf_same_shape.
  - rewrite <- Hr. symmetry. by apply root_key_proper.
  - by destruct Hs as (<- & _).
  - intros path Hpath. eapply rooted_path_same_shape; [done|]. by apply Hp.
Qed.

Lemma root_key_grow t i n k : nodes t !! i = Some n → wf_tree t → root_key (grow t i n k) = root_key t.
Proof.
  intros Hi W. destruct (wf_root t W) as (r & Hr & _).
  destruct (lookup_grow_old t i n k _ _ Hi Hr) as (r' & Hr' & Hk & _). unfold root_key.
  change (root (grow t i n k)) with (root t). rewrite Hr, Hr'. cbn. by rewrite Hk.
Qed.

Lemma linked_path_grow t i n k previous path :
  nodes t !! i = Some n → index_by_key t !! k = None → linked_path t previous path →
  linked_path (grow t i n k) previous path.
Proof.
  intros Hi Hk. revert previous. induction path as [|x path IH]; intros previous; cbn; [done|].
  intros ([j Hj] & Hc & Hl). split_and!.
  - exists j. by rewrite lookup_insert_ne by (intros ->; congruence).
  - intros a Ha. apply child_of_grow; [done..|by apply Hc].
  - by apply IH.
Qed.

Lemma search_ok_grow k c t p i n child :
  nodes t !! i = Some n → index_by_key t !! child = None →
  search_ok k c (MkSearch t p) → search_ok k c (MkSearch (grow t i n child) p).
Proof.
  intros Hi Hk [W Hr Hc Hp]. cbn in *. split; cbn [tree pending_selection_path].
  - by apply wf_grow.
  - by rewrite root_key_grow.
  - done.
  - intros path (k0 & rest & -> & Hk0 & Hl)%Hp. exists k0, rest.
    split_and!; [done|by rewrite root_key_grow|by apply linked_path_grow].
Qed.

Lemma search_ok_ensure_child k c t p d parent_key child_key :
  search_ok k c (MkSearch t p) →
  ∃ d' t' r, ensure_child d t parent_key child_key = Some (d', t', r) ∧ search_ok k c (MkSearch t' p).
Proof.
  intros Hs. destruct (ensure_child_cases d t parent_key child_key (so_tree _ _ _ Hs))
    as [(_ & ->)|[(_ & _ & _ & ->)|[(_ & ->)|(i & n & Hi & Hn & Hc & ->)]]]; eexists _, _, _; (split; [done|]); try done.
  by apply search_ok_grow.
Qed.

Lemma select_pending_run k c s max_depth bp :
  search_ok k c s →
  ∃ s' r, select_pending s max_depth bp = Some (s', r) ∧ search_ok k c s' ∧ tree s' = tree s ∧
    match select_path (tree s) max_depth with
    | None => False
    | Some (Ok path) => pending_selection_path s' = Some path ∧
        ∃ x, last path = Some x ∧ r = Ok (MkStep x path bp)
    | Some (Err e) => r = Err e ∧ s' = s
    end.
Proof.
  intros Hs. pose proof (so_tree _ _ _ Hs) as W. unfold select_pending, select_path.
  destruct (max_depth =? 0) eqn:E0; zb; [by eexists _, _|].
  destruct (root_key_Some _ W) as (n & Hn & _ & _). rewrite Hn. cbn [mbind option_bind].
  destruct (select_loop_run (tree s) max_depth W max_depth [] (root (tree s)) n Hn) as (r & Er & Hr);
    [by apply rooted_path_root|cbn; lia|cbn; lia|].
  cbn [app] in Er. rewrite Er. cbn [mbind option_bind]. destruct r as [path|e]; [|by eexists _, _].
  destruct Hr as (front & m & j & -> & Hroot & _). rewrite last_snoc. eexists _, _. split; [done|].
  split_and!; [|done..|by eexists]. destruct Hs. split; [done..|]. by intros path [= <-].
Qed.

Lemma linked_path_known t previous path k : linked_path t previous path → k ∈ path → is_Some (index_by_key t !! k).
Proof.
  revert previous. induction path as [|x path IH]; intros previous; [by intros _ ?%not_elem_of_nil|].
  intros (? & _ & Hl) [->|]%elem_of_cons; [done|by eapply IH].
Qed.

Lemma count_occ_NoDup (l : list string) x :
  NoDup l → times x l = if decide (x ∈ l) then 1 else 0.
Proof.
  intros Hl. case_decide as Hx.
  - apply NoDup_count_occ'; [by apply NoDup_ListNoDup|by apply list_elem_of_In].
  - apply count_occ_not_In. by rewrite <- list_elem_of_In.
Qed.

(** Visits as the tree reports them. *)
Definition visits_of (t : Mcts) (k : string) : Z :=
  match node_stats t k with Some (Some st) => stats_visits st | _ => 0%Z end.

Lemma visits_of_eq t k :
  wf_tree t →
  visits_of t k = match index_by_key t !! k with
                  | Some i => match nodes t !! i with Some n => visits n | None => 0%Z end
                  | None => 0%Z
                  end.
Proof.
  intros W. unfold visits_of, node_stats. destruct (index_by_key t !! k) as [i|] eqn:E; [|done].
  by destruct (nodes t !! i).
Qed.

Lemma visits_of_grow t i n child k :
  wf_tree t → nodes t !! i = Some n → index_by_key t !! child = None →
  visits_of (grow t i n child) k = visits_of t k.
Proof.
  intros W Hi Hc. rewrite !visits_of_eq by auto using wf_grow. cbn [index_by_key grow].
  destruct (decide (k = child)) as [->|Hne].
  - rewrite lookup_insert_eq, Hc.
    assert (nodes (grow t i n child) !! length (nodes t) = Some (node_new child (Some i))) as ->
      by (apply lookup_grow; [done|by right; right]). done.
  - rewrite lookup_insert_ne by done. destruct (index_by_key t !! k) as [j|] eqn:Ej; [|done].
    destruct (index_node _ _ _ W Ej) as (m & Hm & _). rewrite Hm.
    destruct (decide (j = i)) as [->|Hji]; simplify_eq.
    + assert (nodes (grow t i n child) !! i = Some (push_child (length (nodes t)) n)) as ->
        by (apply lookup_grow; [done|by right; left]). done.
    + assert (nodes (grow t i n child) !! j = Some m) as ->; [|done].
      apply lookup_grow; [done|]. left. split_and!; [by eapply lookup_lt_Some|done..].
Qed.

(** The path the reward is for, before the current key is added. *)
Definition base_path (k : string) (s : PendingTreeSearch) : list string := default [k] (pending_selection_path s).

Lemma base_path_rooted k c s : search_ok k c s → rooted_path (tree s) (base_path k s).
Proof.
  intros Hs. unfold base_path. destruct (pending_selection_path s) as [path|] eqn:E; cbn.
  - by apply (so_pending _ _ _ Hs).
  - destruct (root_key_Some _ (so_tree _ _ _ Hs)) as (n & Hn & Hk & _). rewrite (so_root _ _ _ Hs) in Hk.
    injection Hk as ->. by apply (rooted_path_root _ _ (so_tree _ _ _ Hs)).
Qed.

Lemma extend_path_eq k c d s cur a :
  search_ok k c s → last (base_path k s) = Some a →
  extend_path d s cur = extend_from d (tree s) (base_path k s) a cur.
Proof.
  intros Hs. unfold base_path, extend_path. destruct (pending_selection_path s) as [path|]; cbn.
  - by intros ->.
  - intros [= <-]. by rewrite (so_root _ _ _ Hs).
Qed.

Lemma rooted_path_snoc t path a k :
  rooted_path t path → last path = Some a → child_of t a k → rooted_path t (path ++ [k]).
Proof.
  intros (r & rest & -> & Hr & Hl) Ha Hc. exists r, (rest ++ [k]). split_and!; [done|done|].
  apply last_Some in Ha as [front E]. rewrite E in *. by apply linked_path_snoc.
Qed.

Lemma child_of_grown t i n child :
  wf_tree t → nodes t !! i = Some n → index_by_key t !! child = None → child_of (grow t i n child) (key n) child.
Proof.
  intros W Hi Hc. exists i, (push_child (length (nodes t)) n), (length (nodes t)).
  pose proof (node_index _ _ _ W Hi) as Hk. cbn [index_by_key grow].
  rewrite lookup_insert_ne by congruence. rewrite lookup_insert_eq. split_and!; [done| |done|].
  - apply lookup_grow; [done|by right; left].
  - cbn. apply elem_of_app. right. by left.
Qed.

(** The current key is the node selected, or becomes a child of it. *)
Definition path_for (k : string) (s : PendingTreeSearch) (cur : string) : list string :=
  if decide (last (base_path k s) = Some cur) then base_path k s else base_path k s ++ [cur].

(** The current key is elsewhere in the tree. *)
Definition misplaced (k : string) (s : PendingTreeSearch) (cur : string) : Prop :=
  is_Some (index_by_key (tree s) !! cur) ∧
  ∀ a, last (base_path k s) = Some a → a ≠ cur ∧ ¬ child_of (tree s) a cur.

Lemma extend_path_run k c d s cur :
  search_ok k c s →
  ∃ d' t' r, extend_path d s cur = Some (d', t', r) ∧
    search_ok k c (MkSearch t' (pending_selection_path s)) ∧
    match r with
    | Err _ => d' = d ∧ t' = tree s ∧ misplaced k s cur
    | Ok path => path = path_for k s cur ∧ rooted_path t' path ∧ ¬ misplaced k s cur ∧
        ∀ x, visits_of t' x = visits_of (tree s) x
    end.
Proof.
  intros Hs. pose proof (so_tree _ _ _ Hs) as W. pose proof (base_path_rooted _ _ _ Hs) as Hb.
  assert (∃ a, last (base_path k s) = Some a ∧ is_Some (index_by_key (tree s) !! a)) as (a & Ha & [i Hi]).
  { destruct Hb as (r & rest & E & _ & Hl). destruct (last (base_path k s)) as [a|] eqn:Ea;
      [|by apply last_None in Ea; rewrite Ea in E]. exists a. split; [done|]. eapply linked_path_known; [done|].
    apply last_Some in Ea as [front ->]. apply elem_of_app. right. by left. }
  rewrite (extend_path_eq k c _ _ _ a) by done. unfold extend_from, path_for, misplaced. rewrite Ha.
  assert (search_ok k c (MkSearch (tree s) (pending_selection_path s))) as Hs' by (by destruct s).
  case_decide as Hac; [subst; rewrite decide_True by done|rewrite decide_False by congruence].
  { eexists _, _, _. split; [done|]. split; [done|]. cbn. split_and!; try done. intros [_ Hm]. by destruct (Hm cur eq_refl). }
  destruct (ensure_child_cases d (tree s) a cur W) as [(? & _)|[(_ & Hcur & Hn & ->)|[(Hc & ->)|(j & n & Hj & Hn & Hnone & ->)]]].
  - congruence.
  - eexists _, _, _. split; [done|]. split; [done|]. cbn. split_and!; try done. by intros ? [= <-].
  - eexists _, _, _. split; [done|]. split; [done|]. cbn. split_and!; try done; [by eapply rooted_path_snoc|]. intros [_ Hm]. by destruct (Hm a eq_refl).
  - destruct (index_node _ _ _ W Hj) as (n' & ? & <-). simplify_eq.
    eexists _, _, _. split; [done|]. split; [by apply search_ok_grow|]. cbn.
    split_and!; [done| |intros [[? ?] _]; congruence|intros x; by apply visits_of_grow].
    eapply rooted_path_snoc; [|done|by apply child_of_grown].
    destruct Hb as (r & rest & -> & Hr & Hl). exists r, rest. split_and!; [done|by rewrite root_key_grow|by apply linked_path_grow].
Qed.

(** A reward along a path from the root counts one visit for each node of it. *)
Lemma reward_path d t path reward :
  wf_tree t → rooted_path t path → f_is_finite reward = true →
  ∃ d' t', backpropagate_path d t path reward = Some (d', t', Ok tt) ∧ same_shape t t' ∧
    ∀ x, visits_of t' x = if decide (x ∈ path) then sat_add_u64 (visits_of t x) 1 else visits_of t x.
Proof.
  intros W Hroot Hf. pose proof (rooted_path_NoDup _ _ W Hroot) as Hnd. destruct Hroot as (k0 & rest & -> & _ & Hl).
  unfold backpropagate_path. rewrite Hf. cbn [negb].
  destruct (credit_path_run (k0 :: rest) reward t None W) as (t' & r & E & Hsh & Hr). rewrite E. cbn [mbind option_bind].
  pose proof (proj2 Hr Hl) as ->. eexists _, _. split; [done|]. split; [done|].
  destruct (credit_path_effect _ _ _ _ _ _ W E) as (credited & rest' & Ep & _ & Heff & Hrest & _).
  pose proof (proj1 Hrest eq_refl) as ->. rewrite app_nil_r in Ep. subst credited.
  intros x. rewrite !visits_of_eq by eauto using wf_same_shape. pose proof Hsh as (_ & _ & <- & _).
  destruct (index_by_key t !! x) as [i|] eqn:Ei.
  - destruct (index_node _ _ _ W Ei) as (n & Hn & <-). rewrite Hn, (Heff i n Hn).
    rewrite count_occ_NoDup by done. by case_decide.
  - rewrite decide_False; [done|]. intros Hx. destruct (linked_path_known _ _ _ _ Hl Hx). congruence.
Qed.

Lemma backpropagate_and_select_ok k c d s cur reward max_depth :
  search_ok k c s →
  ∃ d' s' r, backpropagate_and_select d s cur reward max_depth = Some (d', s', r) ∧ search_ok k c s'.
Proof.
  intros Hs. unfold backpropagate_and_select.
  destruct (extend_path_run k c d s cur Hs) as (d1 & t1 & r1 & -> & Hs1 & _). cbn [mbind option_bind].
  destruct r1 as [path|]; [|by eexists _, _, _].
  destruct (backpropagate_path_run d1 t1 path reward (so_tree _ _ _ Hs1)) as (d2 & t2 & r2 & -> & Hsh & _).
  cbn [mbind option_bind pending_selection_path]. pose proof (search_ok_same_shape _ _ _ _ _ Hsh Hs1) as Hs2.
  destruct r2; [|by eexists _, _, _].
  destruct (select_pending_run _ _ _ max_depth path Hs2) as (s' & r & -> & ? & _). by eexists _, _, _.
Qed.

Lemma search_step_ok k c d s op :
  search_ok k c s → ∃ d' s', search_step (d, s) op = Some (d', s') ∧ search_ok k c s'.
Proof.
  intros Hs. destruct op as [depth|cur r depth|p q|path r|f]; [..|by eexists _, _];
    destruct s as [t pending]; cbn [search_step tree pending_selection_path].
  - destruct (select_pending_run _ _ _ depth [] Hs) as (s' & r & E & ? & _). unfold select_next. rewrite E. by eexists _, _.
  - destruct (backpropagate_and_select_ok _ _ d _ cur r depth Hs) as (d' & s' & r' & -> & ?). by eexists _, _.
  - destruct (search_ok_ensure_child k c t pending d p q Hs) as (d' & t' & r & -> & ?).
    by eexists _, _.
  - destruct (backpropagate_path_run d t path r (so_tree _ _ _ Hs)) as (d' & t' & r' & -> & Hsh & _).
    eexists _, _. split; [done|]. by eapply search_ok_same_shape.
Qed.

(** C6. The search never panics and never breaks its tree: from any builder and
    any disk, over any sequence of selections, rewards, direct changes of the
    tree and changes of the disk by others, every index stays in range, the
    keys stay unique, parents and children keep pointing at each other, the
    root and the settings stay, and the pending selection stays a path of
    the tree. *)
Theorem search_invariant (d : disk) (b : MctsBuilder) (ops : list search_op) :
  ∃ t d' s', build d b = Some t ∧ run_steps search_step (d, with_tree t) ops = Some (d', s') ∧
    search_ok (b_root_key b) (b_config b) s'.
Proof.
  destruct (build_total d b) as (t & Hb & W & Hr & Hc).
  assert (search_ok (b_root_key b) (b_config b) (with_tree t)) as Hs by (by split).
  destruct (run_steps_inv search_step (fun ds => search_ok (b_root_key b) (b_config b) ds.2) ops)
    with (s := (d, with_tree t)) as ([d' s'] & E & Hs'); [|done|by eexists _, _, _].
  intros [d0 s0] op H0 _. destruct (search_step_ok _ _ d0 s0 op H0) as (d1 & s1 & E & ?). by exists (d1, s1).
Qed.

(** C28. A reward is credited once, where it belongs: given a finite reward for
    the current key - the node selected last, or one that is or becomes its
    child - the search adds one visit (saturating) to each node from the root
    to that key and to no other, and makes the next selection, which becomes
    the pending one; a key elsewhere in the tree is refused and nothing
    changes. *)
Theorem reward_credited_once (k : string) (c : MctsConfig) (d : disk) (s : PendingTreeSearch)
    (cur : string) (reward : f64) (max_depth : nat)
    (Hs : search_ok k c s) (Hfinite : f_is_finite reward = true) :
  let path := path_for k s cur in
  ∃ d' s' r, backpropagate_and_select d s cur reward max_depth = Some (d', s', r) ∧
    ((misplaced k s cur ∧ is_ok r = false ∧ d' = d ∧ s' = s) ∨
     (¬ misplaced k s cur ∧ rooted_path (tree s') path ∧ last path = Some cur ∧ NoDup path ∧
      (∀ x, visits_of (tree s') x =
        if decide (x ∈ path) then sat_add_u64 (visits_of (tree s) x) 1 else visits_of (tree s) x) ∧
      match select_path (tree s') max_depth with
      | Some (Ok selected) => pending_selection_path s' = Some selected ∧
          ∃ x, last selected = Some x ∧ r = Ok (MkStep x selected path)
      | Some (Err e) => r = Err e ∧ pending_selection_path s' = pending_selection_path s
      | None => False
      end)).
Proof.
  cbn zeta. unfold backpropagate_and_select.
  destruct (extend_path_run k c d s cur Hs) as (d1 & t1 & r1 & -> & Hs1 & Hr1). cbn [mbind option_bind].
  destruct r1 as [path|e]; [|destruct Hr1 as (-> & -> & ?); eexists _, _, _; split; [done|left; by destruct s]].
  destruct Hr1 as (-> & Hroot & Hmis & Hv). set (path := path_for k s cur) in *.
  destruct (reward_path d1 t1 path reward (so_tree _ _ _ Hs1) Hroot Hfinite) as (d2 & t2 & -> & Hsh & Hv2).
  cbn [mbind option_bind pending_selection_path].
  destruct (select_pending_run k c (MkSearch t2 (pending_selection_path s)) max_depth path
    (search_ok_same_shape _ _ _ _ _ Hsh Hs1)) as (s' & r & -> & _ & Et & Hsel). cbn [mbind option_bind tree] in *.
  eexists _, _, _. split; [done|]. right. rewrite Et. split_and!; [done|by eapply rooted_path_same_shape| | |..].
  - unfold path, path_for. by case_decide; [|rewrite last_snoc].
  - eapply rooted_path_NoDup; [|done]. apply Hs1.
  - intros x. by rewrite Hv2, Hv.
  - destruct (select_path t2 max_depth) as [[selected|e]|]; [done| |done]. by destruct Hsel as [-> ->].
Qed.

End Search.

(** ** Rewards *)

(** Normalised rewards lie in [0, 1]: a finite reward is clamped to the unit
    interval, one already there is kept as it is, anything else counts zero,
    and normalising twice changes nothing. *)
Theorem normalize_reward_range (reward : f64) :
  let n := normalize_reward reward in
  f_leb f_zero n = true ∧ f_leb n f64_one = true ∧ f_is_finite n = true ∧ normalize_reward n = n ∧
  n = (if f_is_finite reward && f_leb f_zero reward && f_leb reward f64_one then reward
       else if f_is_finite reward && f_ltb f64_one reward then f64_one else f_zero).
Proof.
  assert (∀ x, f_is_finite x = true → f_is_nan x = false) as Hnan by (by intros []).
  assert (∀ x, f_is_finite x = true → f_leb f_zero x = negb (f_ltb x f_zero) ∧ f_leb x f64_one = negb (f_ltb f64_one x)) as Hle.
  { intros x Hx%Hnan. pose proof (f_leb_rank f_zero x eq_refl Hx). pose proof (f_ltb_rank x f_zero Hx eq_refl).
    pose proof (f_leb_rank x f64_one Hx eq_refl). pose proof (f_ltb_rank f64_one x eq_refl Hx).
    destruct (f_leb f_zero x), (f_ltb x f_zero), (f_leb x f64_one), (f_ltb f64_one x); intuition congruence. }
  cbn zeta. destruct (f_is_finite reward) eqn:Ef; cbn [andb].
  2: { assert (normalize_reward reward = f_zero) as -> by (unfold normalize_reward; by rewrite Ef). by split_and!. }
  destruct (Hle reward Ef) as [Hle0 Hle1].
  destruct (f_ltb reward f_zero) eqn:E0; [|destruct (f_ltb f64_one reward) eqn:E1].
  - assert (normalize_reward reward = f_zero) as -> by (unfold normalize_reward, f64_clamp; by rewrite Ef, E0).
    assert (f_ltb f64_one reward = false) as ->
      by (destruct reward as [[]|[]| |[] ? ?]; try discriminate; reflexivity).
    rewrite Hle0. by split_and!.
  - assert (normalize_reward reward = f64_one) as -> by (unfold normalize_reward, f64_clamp; by rewrite Ef, E0, E1).
    rewrite Hle0, Hle1. by split_and!.
  - assert (normalize_reward reward = reward) as E by (unfold normalize_reward, f64_clamp; by rewrite Ef, E0, E1).
    rewrite !E, Hle0, Hle1. by split_and!.
Qed.

(** The largest finite reward. *)
Definition F64_MAX : f64 := S754_finite false (2 ^ 53 - 1) 971.

(** Finite rewards can make a tree that cannot be loaded again: two rewards of
    the largest finite number are accepted, their sum is infinite, and what is
    saved is refused when loaded. *)
Theorem reward_sum_overflows `{MctsEnv} (d : disk) :
  f_is_finite F64_MAX = true ∧
  ∃ t, ('(d, t, _) ← backpropagate_path d (fresh "root" config_default None) ["root"] F64_MAX;
        '(_, t, r) ← backpropagate_path d t ["root"] F64_MAX;
        Some (t, r)) = Some (t, Ok tt) ∧
    from_persisted (to_persisted t) None = Err "persisted MCTS node `root` had non-finite reward sum".
Proof. split; [done|]. eexists. split; vm_compute; reflexivity. Qed.

(** ** At concrete inputs *)

(** An empty disk that refuses writes; the square root for the power. *)
#[local] Instance plain_env : MctsEnv := {|
  disk := unit;
  path_parent _ := None;
  create_dir_all d _ := (d, Ok tt);
  fs_write d _ _ := (d, Err "read-only");
  read_to_string _ _ := Err NotFound;
  json_from_str _ := Err "invalid";
  json_to_vec_pretty _ := Ok [];
  f64_ln x := x;
  f64_powf x _ := f64_sqrt x;
|}.

Definition root_tree : Mcts := fresh "root" config_default None.

Lemma root_tree_wf : wf_tree root_tree.
Proof. apply wf_fresh. Qed.

Lemma root_search_ok : search_ok "root" config_default (with_tree root_tree).
Proof. split; [exact root_tree_wf|done..]. Qed.

Lemma persisted_roundtrip_witness :
  from_persisted (to_persisted root_tree) (persistence_path root_tree) = Ok root_tree.
Proof. apply (persisted_roundtrip root_tree root_tree_wf).
  constructor; [split; [reflexivity|right; reflexivity]|constructor].
Defined.

(** The root with the children "b" and "a", none visited. *)
Definition one_child : Mcts := grow root_tree 0 (node_new "root" None) "b".
Definition two_children : Mcts := grow one_child 0 (push_child 1 (node_new "root" None)) "a".
Definition two_children_root : Node := push_child 2 (push_child 1 (node_new "root" None)).

Lemma two_children_wf : wf_tree two_children.
Proof. apply wf_grow; [apply wf_grow; [exact root_tree_wf|done..]|done..]. Qed.

Lemma best_child_is_argmax_witness :
  select_best_child_by_ucb two_children 0 = Some (Some 2) ∧
  ∃ mb, nodes two_children !! 2 = Some mb ∧
    ∀ c m, c ∈ children two_children_root → nodes two_children !! c = Some m →
      f_is_nan (ucb_score two_children (ln_visits two_children_root) m) = false →
      f_leb (ucb_score two_children (ln_visits two_children_root) m)
        (ucb_score two_children (ln_visits two_children_root) mb) = true ∧
      (f_eqb (ucb_score two_children (ln_visits two_children_root) m)
         (ucb_score two_children (ln_visits two_children_root) mb) = true → String.ltb (key m) (key mb) = false).
Proof.
  pose proof (best_child_is_argmax two_children 0 two_children_root two_children_wf eq_refl) as Hx.
  assert (select_best_child_by_ucb two_children 0 = Some (Some 2)) as E by (vm_compute; reflexivity).
  split; [exact E|]. cbv zeta in Hx. rewrite E in Hx. exact (proj2 Hx).
Defined.

Lemma select_path_walks_down_witness :
  match select_path root_tree 8 with Some (Ok path) => rooted_path root_tree path | _ => False end.
Proof. exact (proj1 (select_path_walks_down root_tree 8 root_tree_wf)). Defined.

Lemma backpropagation_credits_path_witness :
  ∃ d' t' r, backpropagate_path (H := plain_env) tt root_tree ["root"] f64_one = Some (d', t', r) ∧ same_shape root_tree t'.
Proof.
  destruct (backpropagation_credits_path (H := plain_env) tt root_tree ["root"] f64_one root_tree_wf)
    as (d' & t' & r & E & Hs & _). exists d', t', r. split; assumption.
Defined.

Lemma reward_credited_once_witness :
  ∃ d' s' r, backpropagate_and_select (H := plain_env) tt (with_tree root_tree) "a" f64_one 4 = Some (d', s', r) ∧
    visits_of (tree s') "root" = 1%Z.
Proof.
  destruct (reward_credited_once (H := plain_env) "root" config_default tt (with_tree root_tree) "a" f64_one 4 root_search_ok eq_refl)
    as (d' & s' & r & E & _). exists d', s', r. split; [exact E|].
  vm_compute in E. injection E as <- <- <-. reflexivity.
Defined.
