(* ===== verification/MctsDisk.v ===== *)
(** * The search's file: what a policy finds when it starts again

    A search built with a persistence path writes its tree after each change.
    On a disk that keeps what is written, with a serialiser that reads back what
    it wrote, a policy that is stopped between two operations and started again
    goes on from the tree it had. *)

From S2P Require Export MctsSearch.

#[local] Open Scope nat_scope.

(** ** The disk and the serialiser

    [near] relates a number to the one read back from its text: [serde_json]
    reads back a finite number, possibly another one in its last place. *)
Section Laws.
Context `{MctsEnv}.
Context (near : f64 → f64 → Prop).

Definition near_node (p p' : PersistedNode) : Prop :=
  p_key p = p_key p' ∧ p_parent p = p_parent p' ∧ p_children p = p_children p' ∧ p_visits p = p_visits p' ∧
  near (p_reward_sum p) (p_reward_sum p') ∧ option_Forall2 near (p_best_reward p) (p_best_reward p').

Definition near_tree (p p' : PersistedMcts) : Prop :=
  p_root p = p_root p' ∧ Forall2 near_node (p_nodes p) (p_nodes p').

Definition config_finite (c : MctsConfig) : bool :=
  f_is_finite (exploration_constant c) && f_is_finite (progressive_widening_k c) &&
  f_is_finite (progressive_widening_alpha c).

(** Every number of the data is finite: others are written as [null]. *)
Definition finite_data (p : PersistedMcts) : Prop :=
  config_finite (p_config p) = true ∧
  Forall (fun n => f_is_finite (p_reward_sum n) = true) (p_nodes p) ∧
  Forall (fun n => ∀ best, p_best_reward n = Some best → f_is_finite best = true) (p_nodes p).

Class Disk (path : string) : Prop := {
  near_refl x : near x x;
  near_finite x y : near x y → f_is_finite x = true → f_is_finite y = true;
  parent_made d parent : path_parent path = Some parent → str_is_empty parent = false →
    (create_dir_all d parent).2 = Ok tt;
  serialises p : ∃ b, json_to_vec_pretty p = Ok b;
  kept d p b : json_to_vec_pretty p = Ok b →
    (fs_write d path b).2 = Ok tt ∧ read_to_string (fs_write d path b).1 path = Ok (bytes_str b);
  reads_back p b : json_to_vec_pretty p = Ok b → finite_data p →
    ∃ p', json_from_str (bytes_str b) = Ok p' ∧ near_tree p p';
}.

(** A tree found again: the same but for the last places of its rewards. *)
Definition near_stats (n n' : Node) : Prop :=
  node_shape n = node_shape n' ∧ visits n = visits n' ∧ near (reward_sum n) (reward_sum n') ∧
  near (best_reward n) (best_reward n').

Definition resumes (t t' : Mcts) : Prop := same_shape t t' ∧ Forall2 near_stats (nodes t) (nodes t').

Context (path : string) `{!Disk path}.

Lemma near_loaded n p' : rewards_ok n → near_node (from_node n) p' →
  near_stats n (into_node p') ∧ rewards_ok (into_node p').
Proof.
  intros Hn (Hk & Hp & Hc & Hv & Hs & Hb). pose proof (into_from_node n Hn) as E. destruct Hn as [Hf Hbest].
  unfold near_stats, node_shape, rewards_ok. rewrite <- E at 1 2 3 4. unfold into_node at 1 2 3 4 5 6 7 8. cbn in *.
  rewrite Hk, Hp, Hc, Hv.
  assert (near (best_reward n) (match p_best_reward p' with Some best => best | None => f64_neg_inf end) ∧
    (f_is_finite (match p_best_reward p' with Some best => best | None => f64_neg_inf end) = true ∨
     match p_best_reward p' with Some best => best | None => f64_neg_inf end = f64_neg_inf)) as [Hnear Hok].
  { destruct (f_is_finite (best_reward n)) eqn:Eb; inversion Hb as [? b' Hbb Eq Eq'|Eq Eq']; subst.
    - split; [done|]. left. by apply (near_finite _ _ Hbb).
    - destruct Hbest as [?| ->]; [done|]. split; [apply near_refl|by right]. }
  split_and!; try done. by apply (near_finite _ _ Hs).
Qed.

Lemma near_nodes_loaded l l' :
  Forall rewards_ok l → Forall2 near_node (from_node <$> l) l' →
  Forall2 near_stats l (into_node <$> l') ∧ Forall rewards_ok (into_node <$> l') ∧
  node_shape <$> l = node_shape <$> (into_node <$> l').
Proof.
  intros Hr. revert l'. induction Hr as [|n l Hn _ IH]; intros l' Hl; [by apply Forall2_nil_inv_l in Hl as ->|].
  apply Forall2_cons_inv_l in Hl as (p & l2 & Hp & Hl & ->). destruct (near_loaded n p Hn Hp) as [Hs Ho].
  destruct (IH l2 Hl) as (? & ? & E). split_and!; [by constructor|by constructor|]. cbn. f_equal; [apply Hs|exact E].
Qed.

Lemma near_tree_loaded t p' :
  wf_tree t → Forall rewards_ok (nodes t) → near_tree (to_persisted t) p' →
  ∃ loaded, from_persisted p' (persistence_path t) = Ok loaded ∧ wf_tree loaded ∧
    root loaded = root t ∧ index_by_key loaded = index_by_key t ∧ Forall2 near_stats (nodes t) (nodes loaded).
Proof.
  intros W Hr [Hroot Hn]. cbn in Hroot, Hn.
  destruct (near_nodes_loaded (nodes t) (p_nodes p') Hr Hn) as (Hnear & Hok & Eshape).
  assert (wf_tree (MkMcts (p_config p') (p_root p') (into_node <$> p_nodes p') (index_by_key t) (persistence_path t))) as W'.
  { apply (wf_same_shape (MkMcts (p_config p') (root t) (nodes t) (index_by_key t) (persistence_path t)));
      [by unfold same_shape|by apply wf_tree_config]. }
  rewrite (from_persisted_complete _ _ (index_by_key t)) by done. eexists. split; [done|]. by split_and!.
Qed.

(** ** A tree that is on the disk *)

Definition synced (b : MctsBuilder) (d : disk) (t : Mcts) : Prop :=
  Forall rewards_ok (nodes t) → ∃ t', build d b = Some t' ∧ resumes t t'.

Record builder_tree (b : MctsBuilder) (t : Mcts) : Prop := {
  bt_wf : wf_tree t;
  bt_root : root_key t = Some (b_root_key b);
  bt_config : config t = b_config b;
  bt_path : persistence_path t = b_persistence_path b;
}.

Lemma finite_to_persisted t :
  config_finite (config t) = true → Forall rewards_ok (nodes t) → finite_data (to_persisted t).
Proof.
  intros Hc Hr. split; [done|]. cbn [p_nodes to_persisted]. rewrite !Forall_fmap. split.
  - eapply Forall_impl; [exact Hr|]. by intros n [? _].
  - apply Forall_forall. intros n _ best. cbn. destruct (f_is_finite (best_reward n)) eqn:E; [|done]. by intros [= <-].
Qed.

Lemma persist_written d t : persistence_path t = Some path →
  ∃ bs, json_to_vec_pretty (to_persisted t) = Ok bs ∧
    read_to_string (persist_best_effort d t) path = Ok (bytes_str bs).
Proof.
  intros Hp. destruct (serialises (to_persisted t)) as [bs Hbs]. exists bs. split; [done|].
  unfold persist_best_effort, persist_to_disk. rewrite Hp.
  assert (∃ d', create_parent_dir d path = (d', Ok tt)) as [d' ->].
  { unfold create_parent_dir. destruct (path_parent path) as [parent|] eqn:Epar; [|by eexists].
    destruct (str_is_empty parent) eqn:Ee; [by eexists|]. pose proof (parent_made d parent Epar Ee) as Hm.
    destruct (create_dir_all d parent) as [d' r]. cbn in Hm. subst. by eexists. }
  rewrite Hbs. destruct (kept d' _ _ Hbs) as [_ Hk]. by destruct (fs_write d' path bs).
Qed.

Lemma persisted_synced b d t :
  builder_tree b t → b_persistence_path b = Some path → config_finite (b_config b) = true →
  synced b (persist_best_effort d t) t.
Proof.
  intros [W Hroot Hc Hp] Hpath Hfin Hr. rewrite Hpath in Hp. rewrite <- Hc in Hfin.
  destruct (persist_written d t Hp) as (bs & Hbs & Hread).
  destruct (reads_back _ _ Hbs (finite_to_persisted t Hfin Hr)) as (p' & Hp' & Hnear).
  destruct (near_tree_loaded t p' W Hr Hnear) as (loaded & Hl & Wl & Eroot & Eidx & Hnodes).
  assert (node_shape <$> nodes t = node_shape <$> nodes loaded) as Eshape.
  { apply list_eq_Forall2, Forall2_fmap. eapply Forall2_impl; [exact Hnodes|]. by intros ? ? (? & _). }
  assert (root_key loaded = root_key t) as Ekey.
  { unfold root_key. rewrite Eroot. pose proof (f_equal (lookup (root t)) Eshape) as E. rewrite !list_lookup_fmap in E.
    destruct (nodes t !! root t), (nodes loaded !! root t); try done. injection E as E _ _. cbn. by rewrite E. }
  unfold build, try_build. rewrite Hpath. unfold maybe_load_from_disk. rewrite Hread, Hp'. rewrite <- Hp.
  cbn [map_err mbind result_bind]. rewrite Hl. cbn [mbind result_bind]. rewrite Ekey, Hroot. cbn [mbind option_bind].
  rewrite decide_True by done. eexists. split; [done|]. split; [|done]. unfold same_shape. cbn. by split_and!.
Qed.

(** ** Operations: the tree is left as it was, or written as it is *)

Definition saved (d : disk) (t : Mcts) (d' : disk) (t' : Mcts) : Prop :=
  persistence_path t' = persistence_path t ∧ ((d' = d ∧ t' = t) ∨ ∃ d0, d' = persist_best_effort d0 t').

Lemma saved_refl d t : saved d t d t.
Proof. split; [done|by left]. Qed.

Lemma saved_trans d t d1 t1 d2 t2 : saved d t d1 t1 → saved d1 t1 d2 t2 → saved d t d2 t2.
Proof. intros [Hp Hs] [Hp' [[-> ->]|Hs']]; (split; [congruence|]); [done|by right]. Qed.

Lemma ensure_child_saved d t p k d' t' r :
  wf_tree t → ensure_child d t p k = Some (d', t', r) → saved d t d' t'.
Proof.
  intros W. destruct (ensure_child_cases d t p k W) as [(_ & ->)|[(_ & _ & _ & ->)|[(_ & ->)|(i & n & _ & _ & _ & ->)]]].
  1-3: intros [= <- <- _]; apply saved_refl.
  intros [= <- <- _]. split; [done|]. right. by exists d.
Qed.

Lemma backpropagate_saved d t path' reward d' t' r :
  wf_tree t → rooted_path t path' → backpropagate_path d t path' reward = Some (d', t', r) → saved d t d' t'.
Proof.
  intros W (k & rest & -> & _ & Hl). unfold backpropagate_path.
  destruct (negb _); [intros [= <- <- _]; apply saved_refl|].
  destruct (credit_path_run (k :: rest) reward t None W) as (t2 & r2 & -> & (_ & _ & _ & Hp & _) & Hr).
  pose proof (proj2 Hr Hl) as ->. cbn. intros [= <- <- _]. split; [done|]. right. by exists d.
Qed.

Lemma extend_path_saved k c d s cur d' t' r :
  search_ok k c s → extend_path d s cur = Some (d', t', r) → saved d (tree s) d' t'.
Proof.
  intros Hs. assert (∀ path' a, extend_from d (tree s) path' a cur = Some (d', t', r) → saved d (tree s) d' t') as Hfrom.
  { intros path' a. unfold extend_from. case_decide; [intros [= <- <- _]; apply saved_refl|].
    destruct (ensure_child d (tree s) a cur) as [[[d1 t1] r1]|] eqn:E; [|done]. intros [= <- <- _].
    by eapply ensure_child_saved, E; apply Hs. }
  unfold extend_path. destruct (pending_selection_path s) as [p|].
  - destruct (last p); [apply Hfrom|]. intros [= <- <- _]. apply saved_refl.
  - destruct (root_key (tree s)); [apply Hfrom|done].
Qed.

Lemma reward_saved k c d s cur reward depth d' s' r :
  search_ok k c s → backpropagate_and_select d s cur reward depth = Some (d', s', r) → saved d (tree s) d' (tree s').
Proof.
  intros Hs. unfold backpropagate_and_select.
  destruct (extend_path_run k c d s cur Hs) as (d1 & t1 & r1 & E & Hs1 & Hr1). rewrite E. cbn [mbind option_bind].
  pose proof (extend_path_saved _ _ _ _ _ _ _ _ Hs E) as H1.
  destruct r1 as [p|]; [|by intros [= <- <- _]]. destruct Hr1 as (_ & Hroot & _).
  destruct (backpropagate_path d1 t1 p reward) as [[[d2 t2] r2]|] eqn:E2; [|done]. cbn [mbind option_bind].
  pose proof (saved_trans _ _ _ _ _ _ H1 (backpropagate_saved _ _ _ _ _ _ _ (so_tree _ _ _ Hs1) Hroot E2)) as H2.
  destruct r2; [|by intros [= <- <- _]]. unfold select_pending. cbn [tree].
  destruct (select_path t2 depth) as [[p'|]|]; cbn; [|by intros [= <- <- _]|done].
  destruct (last p'); by intros [= <- <- _].
Qed.

(** The operations of a policy that uses the search alone: selections, rewards
    and new children; nobody else writes the disk. *)
Definition alone (op : search_op) : Prop :=
  match op with SelectNext _ | Reward _ _ _ | EnsureChild _ _ => True | Backpropagate _ _ | DiskChanges _ => False end.

Lemma step_saved k c d s op d' s' :
  search_ok k c s → alone op → search_step (d, s) op = Some (d', s') → saved d (tree s) d' (tree s').
Proof.
  intros Hs Ho. destruct op as [depth|cur r depth|p q| |]; [..|done|done]; cbn [search_step].
  - destruct (select_pending_run _ _ _ depth [] Hs) as (s2 & r & E & _ & Et & _). unfold select_next. rewrite E. cbn.
    intros [= <- <-]. rewrite Et. apply saved_refl.
  - destruct (backpropagate_and_select d s cur r depth) as [[[d2 s2] r2]|] eqn:E; [|done]. cbn. intros [= <- <-].
    by eapply reward_saved, E.
  - destruct (ensure_child d (tree s) p q) as [[[d2 t2] r2]|] eqn:E; [|done]. cbn. intros [= <- <-].
    by eapply ensure_child_saved, E; apply Hs.
Qed.

Lemma resumes_refl t : resumes t t.
Proof.
  split; [done|]. apply Forall_Forall2_diag, Forall_true. intros n. unfold near_stats. split_and!; try done; apply near_refl.
Qed.

(** C36. A policy stopped after any number of operations and started again with the
    same builder has the tree it had: the same keys, links, counts and settings,
    and rewards that differ at most as much as the serialiser makes them; as long
    as they are finite numbers.  Whatever was on the disk at first. *)
Theorem restart_resumes (b : MctsBuilder) (d : disk) (ops : list search_op) :
  b_persistence_path b = Some path → config_finite (b_config b) = true → Forall alone ops →
  ∃ t d' s', build d b = Some t ∧ run_steps search_step (d, with_tree t) ops = Some (d', s') ∧
    (Forall rewards_ok (nodes (tree s')) → ∃ t', build d' b = Some t' ∧ resumes (tree s') t').
Proof.
  intros Hpath Hfin Hops. destruct (build_is_well_formed d b) as (t & Hb & W & Hroot & Hc & Hp & _).
  set (ok := fun ds : disk * PendingTreeSearch => search_ok (b_root_key b) (b_config b) ds.2 ∧
    persistence_path (tree ds.2) = b_persistence_path b ∧ synced b ds.1 (tree ds.2)).
  destruct (run_steps_inv search_step ok ops) with (s := (d, with_tree t)) as ([d' s'] & E & _ & _ & Hsync).
  - intros [d0 s0] op (Hs & Hp0 & Hsync) Hop. cbn in Hs, Hp0, Hsync. rewrite Forall_forall in Hops.
    destruct (search_step_ok _ _ d0 s0 op Hs) as (d1 & s1 & E & Hs1). exists (d1, s1). split; [done|].
    destruct (step_saved _ _ d0 s0 op d1 s1 Hs (Hops _ Hop) E) as [Hp1 Hsaved]. split_and!; [done|by etrans|]. cbn.
    destruct Hsaved as [[-> ->]|(d2 & ->)]; [done|]. apply persisted_synced; [|done..].
    destruct Hs1. split; [done..|]. congruence.
  - split_and!; [by split|done|]. intros _. exists t. split; [done|apply resumes_refl].
  - exists t, d', s'. by split_and!.
Qed.

End Laws.

(** ** A disk in memory

    Data as bits, files as a map: enough to evaluate searches that start again.
    The power is taken at one half, where it is the square root, and the
    logarithm is any function that is zero at one. *)

#[export] Instance f64_eq_dec : EqDecision f64.
Proof. solve_decision. Defined.

#[export] Instance f64_countable : Countable f64.
Proof.
  apply (inj_countable'
    (fun x => match x with
              | S754_zero s => inl (inl s)
              | S754_infinity s => inl (inr s)
              | S754_nan => inr (inl ())
              | S754_finite s m e => inr (inr (s, m, e))
              end)
    (fun c : (bool + bool) + (() + bool * positive * Z) =>
       match c with
       | inl (inl s) => S754_zero s
       | inl (inr s) => S754_infinity s
       | inr (inl _) => S754_nan
       | inr (inr (s, m, e)) => S754_finite s m e
       end)). by intros [].
Defined.

#[export] Instance MctsConfig_eq_dec : EqDecision MctsConfig.
Proof. solve_decision. Defined.
#[export] Instance MctsConfig_countable : Countable MctsConfig.
Proof.
  apply (inj_countable' (fun c => (exploration_constant c, progressive_widening_k c, progressive_widening_alpha c))
    (fun c => MkConfig c.1.1 c.1.2 c.2)). by intros [].
Defined.

#[export] Instance PersistedNode_eq_dec : EqDecision PersistedNode.
Proof. solve_decision. Defined.
#[export] Instance PersistedNode_countable : Countable PersistedNode.
Proof.
  apply (inj_countable' (fun n => (p_key n, p_parent n, p_children n, p_visits n, p_reward_sum n, p_best_reward n))
    (fun n => MkPersistedNode n.1.1.1.1.1 n.1.1.1.1.2 n.1.1.1.2 n.1.1.2 n.1.2 n.2)). by intros [].
Defined.

#[export] Instance PersistedMcts_eq_dec : EqDecision PersistedMcts.
Proof. solve_decision. Defined.
#[export] Instance PersistedMcts_countable : Countable PersistedMcts.
Proof.
  apply (inj_countable' (fun p => (p_config p, p_root p, p_nodes p)) (fun p => MkPersisted p.1.1 p.1.2 p.2)). by intros [].
Defined.

Fixpoint bits_of (p : positive) : bytes :=
  match p with xH => [] | xO p => "0"%char :: bits_of p | xI p => "1"%char :: bits_of p end.

Fixpoint of_bits (l : bytes) : positive :=
  match l with [] => xH | b :: l => if ascii_dec b "0" then xO (of_bits l) else xI (of_bits l) end.

Lemma of_bits_of p : of_bits (bits_of p) = p.
Proof. induction p as [p IH|p IH|]; cbn; by rewrite ?IH. Qed.

Definition memory_env : MctsEnv := {|
  disk := gmap string bytes;
  path_parent _ := Some ".mitb";
  create_dir_all d _ := (d, Ok tt);
  fs_write d path contents := (<[path := contents]> d, Ok tt);
  read_to_string d path := match d !! path with Some contents => Ok (bytes_str contents) | None => Err NotFound end;
  json_from_str text := match decode (of_bits (str_bytes text)) with Some p => Ok p | None => Err "invalid" end;
  json_to_vec_pretty p := Ok (bits_of (encode p));
  f64_ln x := f64_sub x f64_one;
  f64_powf x _ := f64_sqrt x;
|}.

Lemma memory_disk path : @Disk memory_env eq path.
Proof.
  split; cbn; try done.
  - intros x y -> ?. done.
  - intros p. by eexists.
  - intros d p b _. split; [done|]. by rewrite lookup_insert_eq.
  - intros p b [= <-] _. exists p. rewrite str_bytes_str, of_bits_of, decode_encode. split; [done|]. split; [done|].
    apply Forall_Forall2_diag, Forall_true. intros n. unfold near_node. split_and!; try done.
Qed.

Definition on_disk : MctsBuilder := enable_persistence (builder_new "root").

Definition rewards_okb (n : Node) : bool :=
  f_is_finite (reward_sum n) && (f_is_finite (best_reward n) || bool_decide (best_reward n = f64_neg_inf)).

Lemma rewards_okb_Forall l : forallb rewards_okb l = true → Forall rewards_ok l.
Proof.
  intros Hl. apply Forall_forall. intros n Hn. rewrite forallb_forall in Hl.
  specialize (Hl n (proj1 (list_elem_of_In _ _) Hn)). apply andb_prop in Hl as [Hs Hb]. split; [done|].
  apply orb_prop in Hb as [?|Hb]; [by left|right]. by apply bool_decide_eq_true in Hb.
Qed.

(** A policy that rewarded "a" and selected again; then it starts anew. *)
Lemma restart_resumes_witness :
  ∃ t d' s', @build memory_env ∅ on_disk = Some t ∧
    run_steps (@search_step memory_env) (∅, with_tree t)
      [SelectNext 4; Reward "a" (f64_lit 7 10) 4; EnsureChild "root" "b"] = Some (d', s') ∧
    length (nodes (tree s')) = 3 ∧ ∃ t', @build memory_env d' on_disk = Some t' ∧ resumes eq (tree s') t'.
Proof.
  destruct (@restart_resumes memory_env eq DEFAULT_MCTS_PERSISTENCE_PATH (memory_disk _) on_disk ∅
    [SelectNext 4; Reward "a" (f64_lit 7 10) 4; EnsureChild "root" "b"] eq_refl eq_refl
    ltac:(repeat constructor)) as (t & d' & s' & Hb & E & Hr).
  exists t, d', s'. split; [exact Hb|]. split; [exact E|].
  pose proof (f_equal (fmap (fun ds => (length (nodes (tree ds.2)), forallb rewards_okb (nodes (tree ds.2))))) E) as Hn.
  assert (Some t = @build memory_env ∅ on_disk) as Ht by (symmetry; exact Hb). vm_compute in Ht. injection Ht as ->.
  cbn [fmap option_fmap option_map snd] in Hn.
  match type of Hn with ?l = _ => assert (l = Some (3, true)) as El by (vm_compute; reflexivity) end.
  rewrite El in Hn. injection Hn as Hl Hok. split; [symmetry; exact Hl|]. apply Hr, rewards_okb_Forall. symmetry. exact Hok.
Defined.
