(* ===== verification/Agent.v ===== *)
(** * The host's agent: [mitb-host/src/agent.rs] and [mitb-host/src/agent/]

    The client of the signalling server: its messages, the handshake that
    authenticates it, its peers and the rewards it reports to them, the loop of
    a session and the loop that reconnects.  JSON, the hash, the URL parser and
    WebRTC are parameters. *)

From S2P Require Export Float HostTypes Pake.

(** ** Messages: [protocol.rs] *)

Inductive ClientRole : Type := Agent | Zookeeper.

#[export] Instance ClientRole_eq_dec : EqDecision ClientRole.
Proof. solve_decision. Defined.

Inductive SignalingPayload : Type :=
| Offer (sdp : string)
| Answer (sdp : string).

Inductive ClientMessage : Type :=
| PakeInit (role : ClientRole) (room_handle credential_request : string) (client_alias : option string)
| PakeRegistrationRequest (registration_request : string)
| PakeRegistrationUpload (registration_upload credential_request : string)
| PakeCredentialFinalization (candidate_id credential_finalization : string)
| Signal (peer_id : string) (payload : SignalingPayload)
| Ping.

Record PakeCredentialCandidate := Candidate { candidate_id : string; credential_response : string }.

Inductive ServerMessage : Type :=
| PakeRegistrationRequired
| PakeRegistrationResponse (registration_response : string)
| PakeCredentialCandidates (candidates : list PakeCredentialCandidate)
| Connected (client_id : string) (agents zookeepers : list string)
| PeerJoined (role : ClientRole) (client_id : string)
| PeerLeft (role : ClientRole) (client_id : string)
| ServerSignal (peer_id : string) (payload : SignalingPayload)
| ServerError (message : string)
| Pong.

Inductive AgentDataMessage : Type := Terminate.

(** [tungstenite::Message]. *)
Inductive ws_message : Type :=
| WsText (text : string)
| WsBinary (data : bytes)
| WsPing (payload : bytes)
| WsPong (payload : bytes)
| WsClose
| WsFrame.

(** ** Options and errors: [agent.rs] *)

Record AgentOptions := Options {
  server_addr : string;
  agent_secret_code : string;
  agent_alias : option string;
}.

Inductive AgentError : Type :=
| InvalidServerAddr (addr : string)
| PakeFailed (message : string)
| UrlFailed (message : string)
| WebSocket (message : string)
| Json (message : string)
| WebRtc (message : string).

Definition agent_error_string (e : AgentError) : string :=
  match e with
  | InvalidServerAddr addr => "invalid MITB_SERVER_ADDR `" +:+ addr +:+ "`"
  | PakeFailed m | UrlFailed m | WebSocket m | Json m | WebRtc m => m
  end.

Definition is_retryable (e : AgentError) : bool :=
  match e with WebSocket _ => true | _ => false end.

(** [spawn]: what the host's loop is told of the agent's end. *)
Definition agent_spawn (run : result AgentError ()) : option string :=
  match run with Err error => Some (agent_error_string error) | Ok _ => None end.

(** ** Rewards *)

Record RewardReport := Report { reward : f64; reported_at_ms : Z }.

(** [(0.0..=1.0).contains(&reward)]. *)
Definition in_unit_interval (reward : f64) : bool := f_leb f_zero reward && f_leb reward f64_one.

Definition validate_reward (show : f64 → string) (reward : f64) : result string () :=
  if negb (f_is_finite reward) then Err "reward must be finite"
  else if negb (in_unit_interval reward) then Err ("reward must be in [0.0, 1.0], got " +:+ show reward)
  else Ok ().

(** Milliseconds since the epoch, if the clock is not before it. *)
Definition current_timestamp_ms (since_epoch : option Z) : Z :=
  match since_epoch with Some ms => Z.min ms U64_MAX | None => 0 end.

(** ** Reconnecting *)

Definition RECONNECT_DELAY_INITIAL : Z := from_secs 1.
Definition RECONNECT_DELAY_MAX : Z := from_secs 30.

Definition next_reconnect_delay (delay : Z) : Z :=
  Z.min (duration_saturating_mul delay 2) RECONNECT_DELAY_MAX.

(** One round of the loop of [run]: what [shutdown] says before the session,
    how the session ends, and what [shutdown] says then. *)
Record round := Round {
  shutdown_before : bool;
  session : result AgentError ();
  shutdown_after : bool;
}.

(** The delays slept, and the result if the loop ends within the rounds. *)
Fixpoint run_rounds (reconnect_delay : Z) (rounds : list round) : list Z * option (result AgentError ()) :=
  match rounds with
  | [] => ([], None)
  | r :: rounds =>
    if shutdown_before r then ([], Some (Ok ()))
    else
      let retry (delay : Z) :=
        let '(slept, result) := run_rounds (next_reconnect_delay delay) rounds in
        (delay :: slept, result) in
      match session r with
      | Ok _ => if shutdown_after r then ([], Some (Ok ())) else retry RECONNECT_DELAY_INITIAL
      | Err error =>
        if is_retryable error && negb (shutdown_after r) then retry reconnect_delay
        else ([], Some (Err error))
      end
  end.

(** [url::Url]: parsing, the path and its replacement. *)
Class UrlParser : Type := {
  Url : Type;
  url_parse : string → result string Url;
  url_path : Url → string;
  url_set_path : Url → string → Url;
}.

Definition normalize_server_addr (server_addr : string) : result AgentError string :=
  if starts_with server_addr "wss://" then Ok server_addr
  else match strip_prefix server_addr "https://" with
  | Some rest => Ok ("wss://" +:+ rest)
  | None =>
    match strip_prefix server_addr "ws://" with
    | Some rest => Ok ("ws://" +:+ rest)
    | None =>
      match strip_prefix server_addr "http://" with
      | Some rest => Ok ("ws://" +:+ rest)
      | None =>
        if str_contains server_addr "://" then Err (InvalidServerAddr server_addr)
        else Ok ("ws://" +:+ server_addr)
      end
    end
  end.

Definition signaling_url `{UrlParser} (server_addr : string) : result AgentError Url :=
  normalized ← normalize_server_addr server_addr;
  url ← map_err UrlFailed (url_parse normalized);
  Ok (if str_is_empty (url_path url) || bool_decide (url_path url = "/")
      then url_set_path url "/ws" else url).

(** [agent::run] over the rounds of its loop. *)
Definition run `{UrlParser} (options : AgentOptions) (api : result string ()) (rounds : list round)
    : list Z * option (result AgentError ()) :=
  match signaling_url (server_addr options) with
  | Err e => ([], Some (Err e))
  | Ok _ =>
    match map_err WebRtc api with
    | Err e => ([], Some (Err e))
    | Ok _ => run_rounds RECONNECT_DELAY_INITIAL rounds
    end
  end.

(** ** Authentication: [auth.rs] *)

(** SHA-256, serde_json and the debug format of server messages. *)
Class AgentCodec : Type := {
  sha256 : bytes → bytes;
  client_message_to_string : ClientMessage → result string string;
  server_message_from_str : string → result string ServerMessage;
  server_message_debug : ServerMessage → string;
}.

Definition hex_digit (n : nat) : ascii := default "0"%char (str_bytes "0123456789abcdef" !! n).

(** [{byte:02x}]. *)
Definition hex_byte (b : byte) : bytes :=
  let n := nat_of_ascii b in [hex_digit (n / 16); hex_digit (n mod 16)].

Definition derive_room_handle `{AgentCodec} (secret_code : string) : string :=
  "room-" +:+ bytes_str (concat (hex_byte <$> take 12 (sha256 (str_bytes secret_code)))).

Section Authenticate.
Context `{AgentCodec, Opaque, Base64}.
(** The random draws of the session, and what becomes of the frames sent. *)
Context (entropy_at : nat → entropy) (send_frame : nat → result string ()).

Record auth_state := AuthState {
  client : ClientSession;
  draws : nat;
  sent_frames : list ws_message;
}.

(** A client that may fail. *)
Definition authenticating (A : Type) : Type := auth_state → auth_state * result AgentError A.

#[export] Instance authenticating_ret : MRet authenticating := fun A a s => (s, Ok a).
#[export] Instance authenticating_bind : MBind authenticating := fun A B f m s =>
  match m s with (s, Ok a) => f a s | (s, Err e) => (s, Err e) end.

Definition fail {A} (e : AgentError) : authenticating A := fun s => (s, Err e).
Definition lift {A} (r : result AgentError A) : authenticating A := fun s => (s, r).

(** A step of the session that takes [n] random draws. *)
Definition pake_step {A} (n : nat) (f : (nat → entropy) → ClientSession → ClientSession * result string A)
    : authenticating A := fun s =>
  let '(c, r) := f (fun i => entropy_at (draws s + i)%nat) (client s) in
  (AuthState c (draws s + n)%nat (sent_frames s), map_err PakeFailed r).

Definition ws_send (m : ws_message) : authenticating () := fun s =>
  match send_frame (length (sent_frames s)) with
  | Ok _ => (AuthState (client s) (draws s) (sent_frames s ++ [m]), Ok ())
  | Err e => (s, Err (WebSocket e))
  end.

Definition send_ws_message (m : ClientMessage) : authenticating () :=
  text ← lift (map_err Json (client_message_to_string m));
  ws_send (WsText text).

Definition attempt_login (response : bytes) : authenticating (result string bytes) := fun s =>
  let '(c, login) := finish_login (entropy_at (draws s)) (client s) response in
  (AuthState c (S (draws s)) (sent_frames s), Ok login).

Fixpoint select_login_candidate (last_error : option string) (candidates : list PakeCredentialCandidate)
    : authenticating (string * bytes) :=
  match candidates with
  | [] => fail (PakeFailed (default "unknown secret code" last_error))
  | candidate :: candidates =>
    response ← lift (map_err PakeFailed (decode (credential_response candidate)));
    login ← attempt_login response;
    match login with
    | Ok login => mret (candidate_id candidate, login)
    | Err error => select_login_candidate (Some error) candidates
    end
  end.

(** The reply to a server message: [Some] ends the handshake. *)
Definition answer_server (m : ServerMessage) : authenticating (option ServerMessage) :=
  match m with
  | PakeRegistrationRequired =>
    registration_request ← pake_step 1 (fun e => start_registration (e 0%nat));
    _ ← send_ws_message (PakeRegistrationRequest (encode registration_request));
    mret None
  | PakeRegistrationResponse registration_response =>
    response ← lift (map_err PakeFailed (decode registration_response));
    '(upload, credential_request) ←
      pake_step 2 (fun e c => finish_registration (e 0%nat) (e 1%nat) c response);
    _ ← send_ws_message (PakeRegistrationUpload (encode upload) (encode credential_request));
    mret None
  | PakeCredentialCandidates candidates =>
    '(candidate_id, finalization) ← select_login_candidate None candidates;
    _ ← send_ws_message (PakeCredentialFinalization candidate_id (encode finalization));
    mret None
  | Connected _ _ _ => mret (Some m)
  | ServerError message => fail (PakeFailed message)
  | Pong => mret None
  | other => fail (PakeFailed ("unexpected server message during authentication: " +:+
                               server_message_debug other))
  end.

Definition handle_frame (frame : result string ws_message) : authenticating (option ServerMessage) :=
  match frame with
  | Ok (WsText text) =>
    message ← lift (map_err Json (server_message_from_str text));
    answer_server message
  | Ok (WsPing payload) => _ ← ws_send (WsPong payload); mret None
  | Ok (WsPong _) => mret None
  | Ok WsClose | Ok WsFrame => fail (PakeFailed "signaling socket closed during authentication")
  | Ok (WsBinary _) => fail (PakeFailed "unexpected binary websocket frame during authentication")
  | Err error => fail (WebSocket error)
  end.

(** [while let Some(message) = websocket.next().await] *)
Fixpoint handle_frames (frames : list (result string ws_message)) : authenticating ServerMessage :=
  match frames with
  | [] => fail (PakeFailed "signaling socket closed during authentication")
  | frame :: frames =>
    connected ← handle_frame frame;
    match connected with
    | Some connected => mret connected
    | None => handle_frames frames
    end
  end.

Definition authenticate_websocket (options : AgentOptions) (frames : list (result string ws_message))
    : list ws_message * result AgentError ServerMessage :=
  match map_err PakeFailed (client_new (agent_secret_code options)) with
  | Err e => ([], Err e)
  | Ok client =>
    let '(s, r) :=
      (credential_request ← pake_step 1 (fun e => start_login (e 0%nat));
       _ ← send_ws_message (PakeInit Agent (derive_room_handle (agent_secret_code options))
                              (encode credential_request) (agent_alias options));
       handle_frames frames) (AuthState client 0 []) in
    (sent_frames s, r)
  end.

End Authenticate.
