(* ===== verification/AgentServer.v ===== *)
(** * The agent meets the server

    The handshake of the host ([Agent.v]) against that of the server
    ([WsAuth.v]): the frames each sends are the frames the other receives, and
    both succeed. *)

From S2P Require Import Agent.
From S2P Require Export WsRuntime.

(** ** Room handles *)

Lemma hex_digit_ok n : handle_byte (hex_digit n) = true.
Proof. unfold hex_digit. do 16 (destruct n as [|n]; [reflexivity|]). reflexivity. Qed.

Lemma derived_handle_bytes `{AgentCodec} code :
  ∃ h, derive_room_handle code = "room-" +:+ bytes_str h ∧ (length h ≤ 24)%nat ∧
    Forall (fun b => handle_byte b = true) h.
Proof.
  unfold derive_room_handle. eexists. split; [done|].
  assert (length (take 12 (sha256 (str_bytes code))) ≤ 12)%nat as Hl by (rewrite length_take; lia).
  revert Hl. generalize (take 12 (sha256 (str_bytes code))) as l. intros l Hl. split.
  - assert (length (concat (hex_byte <$> l)) = 2 * length l)%nat as ->; [|lia].
    clear Hl. induction l as [|b l IH]; [done|]. cbn. cbn in IH. lia.
  - clear Hl. induction l as [|b l IH]; [constructor|]. cbn. constructor; [apply hex_digit_ok|].
    constructor; [apply hex_digit_ok|done].
Qed.

(** Whatever the hash, the server accepts the handle derived from a secret code
    as it is. *)
Lemma derived_handle_accepted `{AgentCodec} code :
  normalize_room_handle (derive_room_handle code) = Ok (derive_room_handle code).
Proof.
  destruct (derived_handle_bytes code) as (h & -> & Hl & Hh).
  assert (Forall (fun b => handle_byte b = true) (str_bytes ("room-" +:+ bytes_str h))) as Hall.
  { rewrite str_bytes_app, str_bytes_str. apply Forall_app. split; [by repeat constructor|done]. }
  apply normalize_ok_iff. split.
  - symmetry. apply trim_solid. eapply Forall_impl; [exact Hall|]. intros b. apply handle_byte_solid.
  - split; [|done]. rewrite str_len_bytes, str_bytes_app, str_bytes_str, length_app. cbn. unfold MAX_ROOM_HANDLE_LEN. lia.
Qed.

(** ** The same messages on both sides *)

Definition server_role (r : Agent.ClientRole) : ClientRole :=
  match r with Agent.Agent => Agent | Agent.Zookeeper => Zookeeper end.

Definition to_server {Value} (json : SignalingPayload → Value) (m : Agent.ClientMessage) : ClientMessage Value :=
  match m with
  | Agent.PakeInit role room_handle credential_request client_alias =>
    PakeInit (server_role role) room_handle credential_request client_alias
  | Agent.PakeRegistrationRequest r => PakeRegistrationRequest r
  | Agent.PakeRegistrationUpload u c => PakeRegistrationUpload u c
  | Agent.PakeCredentialFinalization i f => PakeCredentialFinalization i f
  | Agent.Signal peer payload => ClientSignal peer (json payload)
  | Agent.Ping => Ping
  end.

Definition agent_role (r : ClientRole) : Agent.ClientRole :=
  match r with Agent => Agent.Agent | Zookeeper => Agent.Zookeeper end.

(** The messages, as the agent reads them; of a signal that depends on its
    payload. *)
Definition from_server {Value} (m : ServerMessage Value) : option Agent.ServerMessage :=
  match m with
  | PakeRegistrationRequired => Some Agent.PakeRegistrationRequired
  | PakeRegistrationResponse r => Some (Agent.PakeRegistrationResponse r)
  | PakeCredentialCandidates l =>
    Some (Agent.PakeCredentialCandidates
            ((fun c => Agent.Candidate (candidate_id c) (credential_response c)) <$> l))
  | Connected id _ agents zookeepers => Some (Agent.Connected id agents zookeepers)
  | PeerJoined role id => Some (Agent.PeerJoined (agent_role role) id)
  | PeerLeft role id => Some (Agent.PeerLeft (agent_role role) id)
  | ServerSignal _ _ => None
  | ServerError m => Some (Agent.ServerError m)
  | Pong => Some Agent.Pong
  end.

(** The two sides declare the same JSON. *)
Class SameProtocol {Value} `{ClientCodec Value, ServerCodec Value, AgentCodec} : Prop := {
  json_of : ∃ json : SignalingPayload → Value, ∀ m, ∃ text,
    client_message_to_string m = Ok text ∧ parse_client_message text = Ok (to_server json m);
  server_text : ∀ m m', from_server m = Some m' → ∃ text,
    server_message_to_string (Value := Value) m = Ok text ∧ server_message_from_str text = Ok m';
}.

Section Handshake.
Context {Value : Type} `{ClientCodec Value, ServerCodec Value, AgentCodec, !SameProtocol,
  Opaque, !OpaqueLaws, Base64, !Base64Laws}.
Context (config : SecurityConfig) (pake : ServerPake) (clock : nat → Z).
Context (server_entropy agent_entropy : nat → entropy) (draw_at : nat → result string bytes).
Context (options : AgentOptions).

Notation serve ip w :=
  (authenticate_socket (Value := Value) config pake (fun _ i => i) clock server_entropy draw_at ip w).
Notation ask frames := (authenticate_websocket agent_entropy (fun _ => Ok ()) options frames).
Notation secret := (str_bytes (trim (agent_secret_code options))).
Notation handle := (derive_room_handle (agent_secret_code options)).

(** The messages [ms], in the text [texts] the sender gives them. *)
Definition sent_as {M} (to_string : M → result string string) (ms : list M) (texts : list string) : Prop :=
  Forall2 (fun m t => to_string m = Ok t) ms texts.

Lemma decode_encode b : decode (encode b) = Ok b.
Proof. apply base64_roundtrip. Qed.

Lemma client_new_ok : secret ≠ [] → client_new (agent_secret_code options) = Ok (Client secret None None).
Proof.
  intros Hs. unfold client_new, str_is_empty. destruct (_ =? 0)%nat eqn:E; [|done]. zb.
  rewrite str_len_bytes in E. apply nil_length_inv in E. done.
Qed.

(** The steps of a registration and login that succeed, as the sessions take
    them. *)
Lemma exchange e0 e1 e2 e3 e4 es :
  ∃ lreq0 lstate0 request state response upload lreq lstate lresp sstate fin,
    client_login_start e0 secret = Ok (lreq0, lstate0) ∧
    client_registration_start e1 secret = Ok (request, state) ∧
    server_registration_start (server_setup pake) request (str_bytes handle) = Ok response ∧
    client_registration_finish e2 state secret response = Ok upload ∧
    client_login_start e3 secret = Ok (lreq, lstate) ∧
    server_login_start es (server_setup pake) (Some (server_registration_finish upload)) lreq (str_bytes handle) =
      Ok (lresp, sstate) ∧
    client_login_finish e4 lstate secret lresp = Ok fin ∧
    server_login_finish sstate fin = Ok ().
Proof.
  destruct (client_login_starts e0 secret) as (lreq0 & lstate0 & R0).
  destruct (registration_succeeds e1 e2 (server_setup pake) secret (str_bytes handle))
    as (request & state & response & upload & R1 & R2 & R3).
  destruct (client_login_starts e3 secret) as (lreq & lstate & R4).
  destruct (login_succeeds _ _ _ e1 e2 e3 es e4 _ _ _ _ _ _ R1 R2 R3 R4) as (lresp & sstate & fin & R5 & R6 & R7).
  by do 11 eexists.
Qed.

Ltac run_agent :=
  repeat (cbn -[decode encode derive_room_handle]; first
    [ rewrite decode_encode | rewrite deserialize_serialize
    | match goal with R : _ = Ok _ |- _ => rewrite R end
    | progress unfold mbind, mret, authenticating_bind, authenticating_ret, lift, send_ws_message, ws_send, pake_step,
        start_login, start_registration, finish_registration, finish_login, attempt_login]); cbn.

(** The agent's side of a registration: from the server's messages to its own. *)
Lemma agent_registers (e : nat → entropy) lreq0 lstate0 request state response upload lreq lstate lresp fin cid
    t0 t1 t2 t3 s1 s2 s3 s4 (connected : Agent.ServerMessage) id agents zookeepers :
  secret ≠ [] → connected = Agent.Connected id agents zookeepers →
  client_login_start (agent_entropy 0%nat) secret = Ok (lreq0, lstate0) →
  client_registration_start (agent_entropy 1%nat) secret = Ok (request, state) →
  client_registration_finish (agent_entropy 2%nat) state secret response = Ok upload →
  client_login_start (agent_entropy 3%nat) secret = Ok (lreq, lstate) →
  client_login_finish (agent_entropy 4%nat) lstate secret lresp = Ok fin →
  client_message_to_string (Agent.PakeInit Agent.Agent handle (encode (serialize lreq0)) (agent_alias options)) = Ok t0 →
  client_message_to_string (Agent.PakeRegistrationRequest (encode (serialize request))) = Ok t1 →
  client_message_to_string (Agent.PakeRegistrationUpload (encode (serialize upload)) (encode (serialize lreq))) = Ok t2 →
  client_message_to_string (Agent.PakeCredentialFinalization cid (encode (serialize fin))) = Ok t3 →
  server_message_from_str s1 = Ok Agent.PakeRegistrationRequired →
  server_message_from_str s2 = Ok (Agent.PakeRegistrationResponse (encode (serialize response))) →
  server_message_from_str s3 = Ok (Agent.PakeCredentialCandidates [Agent.Candidate cid (encode (serialize lresp))]) →
  server_message_from_str s4 = Ok connected →
  ask ((fun t => Ok (Agent.WsText t)) <$> [s1; s2; s3; s4]) = (Agent.WsText <$> [t0; t1; t2; t3], Ok connected).
Proof.
  intros Hs -> R0 R1 R2 R3 R4 T0 T1 T2 T3 S1 S2 S3 S4.
  unfold authenticate_websocket. rewrite client_new_ok by done.
  set (sec := secret) in *. clearbody sec. set (h := handle) in *. clearbody h. cbn [map_err].
  by run_agent.
Qed.

Ltac run_server :=
  repeat (cbn -[decode encode check_auth_rate_limit candidate_login_for_room ensure_room_capacity store_room
                allows_agent_room_creation normalize_room_handle random_token decide]; first
    [ rewrite decode_encode | rewrite deserialize_serialize
    | match goal with R : _ = Ok _ |- _ => rewrite R end
    | match goal with R : _ = (_, Ok _) |- _ => rewrite R end
    | match goal with R : ∀ _ _, _ = (_, Ok _) |- _ => rewrite R end
    | match goal with R : allows_agent_room_creation _ = true |- _ => rewrite R end
    | rewrite decide_True by done | rewrite decide_False by done
    | progress unfold mbind, mret, auth_bind, auth_ret, or_bail, with_state, receive_init, receive_message,
        receive_registration_request, receive_registration_upload, receive_finalization, register_room, existing_login,
        finish_candidate, store_created, send_socket_message, send, recv, count_locks,
        server_registration_response, server_finish_registration, server_start_login, server_session_finish ]); cbn.

(** The server's side of it, from the agent's messages to its own. *)
Lemma server_registers ip inner0 inner1 inner2 inner3 inner4 json (lreq0 : CredentialRequest) request response upload
    lreq lresp sstate fin token t0 t1 t2 t3 :
  allow_agent_room_creation config = true →
  check_auth_rate_limit config inner0 (clock 0%nat) ip = (inner1, Ok ()) →
  (∀ e r, candidate_login_for_room config pake e r inner1 (clock 1%nat) handle (serialize lreq0) = (inner2, Ok None)) →
  ensure_room_capacity config inner2 (clock 2%nat) = (inner3, Ok ()) →
  store_room config inner3 (clock 3%nat) handle (serialize (server_registration_finish upload)) = (inner4, Ok ()) →
  draw_at 3%nat = Ok token →
  server_registration_start (server_setup pake) request (str_bytes handle) = Ok response →
  server_login_start (server_entropy 3%nat) (server_setup pake) (Some (server_registration_finish upload)) lreq
    (str_bytes handle) = Ok (lresp, sstate) →
  server_login_finish sstate fin = Ok () →
  parse_client_message t0 = Ok (to_server (Value := Value) json
    (Agent.PakeInit Agent.Agent handle (encode (serialize lreq0)) (agent_alias options))) →
  parse_client_message t1 = Ok (to_server json (Agent.PakeRegistrationRequest (encode (serialize request)))) →
  parse_client_message t2 =
    Ok (to_server json (Agent.PakeRegistrationUpload (encode (serialize upload)) (encode (serialize lreq)))) →
  parse_client_message t3 =
    Ok (to_server json (Agent.PakeCredentialFinalization (encode token) (encode (serialize fin)))) →
  serve ip (World inner0 ((fun t => RecvMessage (WsText t)) <$> [t0; t1; t2; t3]) [] 0) =
  (World inner4 []
     (OutMessage <$> [PakeRegistrationRequired; PakeRegistrationResponse (encode (serialize response));
                      PakeCredentialCandidates [Candidate (encode token) (encode (serialize lresp))]]) 4,
   Some (handle, Agent, trimmed_alias (agent_alias options))).
Proof.
  intros Hallow Hrate Hnone Hcap Hstore Htoken R2 R5 R7 P0 P1 P2 P3.
  pose proof (derived_handle_accepted (agent_secret_code options)) as Hh. set (h := handle) in *. clearbody h.
  unfold authenticate_socket.
  assert (allows_agent_room_creation config = true) as Hallow' by done.
  run_server. rewrite P3. run_server. rewrite bool_decide_eq_true_2 by done. run_server.
  done.
Qed.

Lemma str_bytes_nonempty s : s ≠ "" → str_bytes s ≠ [].
Proof. intros Hs E. apply Hs, str_bytes_inj. by rewrite E. Qed.

(** There is room for a new room [h]. *)
Definition spare (inner : StateInner) (h : string) : Prop :=
  rooms inner !! h = None ∧ Z.of_nat (size (rooms inner)) < max_rooms config.

Lemma spare_prune inner h now : spare inner h → spare (prune_expired_rooms config inner now) h.
Proof.
  intros [Hn Hs]. split.
  - apply eq_None_not_Some. intros [r [E _]%prune_lookup]. congruence.
  - eapply Z.le_lt_trans; [|exact Hs]. cbn. apply inj_le. rewrite <- !size_dom.
    apply subseteq_size, dom_filter_subseteq.
Qed.

Lemma spare_auth inner h now ip inner' :
  spare inner h → check_auth_rate_limit config inner now ip = (inner', Ok ()) → spare inner' h.
Proof.
  intros Hs%(spare_prune inner h now). unfold check_auth_rate_limit. case_match; [done|]. by intros [= <-].
Qed.

Lemma spare_no_login inner h now e r request :
  spare inner h →
  candidate_login_for_room config pake e r inner now h request = (prune_expired_rooms config inner now, Ok None).
Proof.
  intros Hs%(spare_prune inner h now). unfold candidate_login_for_room. destruct Hs as [-> _]. done.
Qed.

Lemma spare_capacity inner h now :
  spare inner h → ensure_room_capacity config inner now = (prune_expired_rooms config inner now, Ok ()).
Proof.
  intros Hs%(spare_prune inner h now). destruct Hs as [_ Hs]. unfold ensure_room_capacity.
  rewrite (proj2 (Z.leb_gt _ _)) by exact Hs. done.
Qed.

Lemma spare_store inner h now file :
  spare inner h → ∃ inner', store_room config inner now h file = (inner', Ok ()) ∧
    rooms inner' !! h = Some (Room file ∅ ∅ now []).
Proof.
  intros Hs%(spare_prune inner h now). destruct Hs as [Hn Hs]. unfold store_room.
  rewrite (proj2 (Z.leb_gt _ _)) by exact Hs. rewrite Hn. eexists. split; [done|]. cbn.
  apply lookup_insert_eq.
Qed.

(** C4. An agent whose room does not exist yet creates it: when the server
    allows it, has room and does not limit the agent's address, the agent and
    the server complete a handshake whose every frame is what the other side
    sent, whatever both draw; the server then knows the agent by the handle
    derived from its secret code and the trimmed alias, the room is stored with
    no member, and the agent's handshake returns the [Connected] message the
    server sends after registering it. *)
Theorem agent_creates_room (ip : string) (inner0 : StateInner) (token : bytes)
    (Hsecret : trim (agent_secret_code options) ≠ "")
    (Hallow : allow_agent_room_creation config = true)
    (Hlimit : (check_auth_rate_limit config inner0 (clock 0%nat) ip).2 = Ok ())
    (Hspare : spare inner0 handle)
    (Htoken : draw_at 3%nat = Ok token) :
  ∃ texts replies file,
    (let '(w, authenticated) := serve ip (World inner0 ((fun t => RecvMessage (WsText t)) <$> texts) [] 0) in
     authenticated = Some (handle, Agent, trimmed_alias (agent_alias options)) ∧
     outbox w = OutMessage <$> replies ∧ inbox w = [] ∧
     rooms (inner w) !! handle = Some (Room file ∅ ∅ (clock 3%nat) [])) ∧
    (∀ id role agents zookeepers, ∃ reply_texts,
       sent_as server_message_to_string (replies ++ [Connected id role agents zookeepers]) reply_texts ∧
       ask ((fun t => Ok (Agent.WsText t)) <$> reply_texts) =
         (Agent.WsText <$> texts, Ok (Agent.Connected id agents zookeepers))).
Proof.
  apply str_bytes_nonempty in Hsecret.
  destruct (exchange (agent_entropy 0%nat) (agent_entropy 1%nat) (agent_entropy 2%nat) (agent_entropy 3%nat)
    (agent_entropy 4%nat) (server_entropy 3%nat))
    as (lreq0 & lstate0 & request & state & response & upload & lreq & lstate & lresp & sstate & fin &
        R0 & R1 & R2 & R3 & R4 & R5 & R6 & R7).
  destruct json_of as [json Hjson].
  destruct (Hjson (Agent.PakeInit Agent.Agent handle (encode (serialize lreq0)) (agent_alias options)))
    as (t0 & T0 & P0).
  destruct (Hjson (Agent.PakeRegistrationRequest (encode (serialize request)))) as (t1 & T1 & P1).
  destruct (Hjson (Agent.PakeRegistrationUpload (encode (serialize upload)) (encode (serialize lreq))))
    as (t2 & T2 & P2).
  destruct (Hjson (Agent.PakeCredentialFinalization (encode token) (encode (serialize fin)))) as (t3 & T3 & P3).
  destruct (check_auth_rate_limit config inner0 (clock 0%nat) ip) as [inner1 limit] eqn:Hrate.
  cbn in Hlimit. subst limit.
  pose proof (spare_auth _ _ _ _ _ Hspare Hrate) as S1.
  pose proof (spare_prune _ _ (clock 1%nat) S1) as S2. pose proof (spare_prune _ _ (clock 2%nat) S2) as S3.
  destruct (spare_store _ _ (clock 3%nat) (serialize (server_registration_finish upload)) S3)
    as (inner4 & Hstore & Hroom).
  pose proof (server_registers ip inner0 inner1 _ _ inner4 json lreq0 request response upload lreq lresp sstate fin
    token t0 t1 t2 t3 Hallow Hrate (fun e r => spare_no_login _ _ _ e r _ S1) (spare_capacity _ _ _ S2) Hstore
    Htoken R2 R5 R7 P0 P1 P2 P3) as Hserve.
  exists [t0; t1; t2; t3]. eexists _, _. rewrite Hserve. split; [by split_and!|].
  intros id role agents zookeepers.
  destruct (server_text PakeRegistrationRequired _ eq_refl) as (s1 & W1 & S1').
  destruct (server_text (PakeRegistrationResponse (encode (serialize response))) _ eq_refl) as (s2 & W2 & S2').
  destruct (server_text (PakeCredentialCandidates [Candidate (encode token) (encode (serialize lresp))]) _ eq_refl)
    as (s3 & W3 & S3').
  destruct (server_text (Connected id role agents zookeepers) _ eq_refl) as (s4 & W4 & S4').
  exists [s1; s2; s3; s4]. split; [by repeat constructor|].
  by eapply agent_registers.
Qed.

End Handshake.

(** ** A codec

    Messages as the binary digits of their number: enough to instantiate the
    protocol. *)

Fixpoint digits (p : positive) : string :=
  match p with
  | xH => ""
  | xO p => String "0" (digits p)
  | xI p => String "1" (digits p)
  end.

Fixpoint of_digits (s : string) : positive :=
  match s with
  | "" => xH
  | String c s => if Ascii.eqb c "0" then xO (of_digits s) else xI (of_digits s)
  end.

Lemma of_digits_digits p : of_digits (digits p) = p.
Proof. by induction p; cbn; f_equal. Qed.

#[export] Instance ClientRole_countable : Countable Agent.ClientRole.
Proof.
  apply (inj_countable' (fun r => bool_decide (r = Agent.Agent)) (fun b : bool => if b then Agent.Agent else Agent.Zookeeper)).
  by intros [].
Defined.

#[export] Instance SignalingPayload_eq_dec : EqDecision SignalingPayload.
Proof. solve_decision. Defined.

#[export] Instance SignalingPayload_countable : Countable SignalingPayload.
Proof.
  apply (inj_countable' (fun p => match p with Offer s => inl s | Answer s => inr s end)
    (fun s => match s with inl s => Offer s | inr s => Answer s end)).
  by intros [].
Defined.

#[export] Instance ClientMessage_eq_dec : EqDecision Agent.ClientMessage.
Proof. solve_decision. Defined.

#[export] Instance ClientMessage_countable : Countable Agent.ClientMessage.
Proof.
  apply (inj_countable'
    (fun m => match m with
     | Agent.PakeInit r h c a => inl (r, h, c, a)
     | Agent.PakeRegistrationRequest r => inr (inl r)
     | Agent.PakeRegistrationUpload u c => inr (inr (inl (u, c)))
     | Agent.PakeCredentialFinalization i f => inr (inr (inr (inl (i, f))))
     | Agent.Signal p l => inr (inr (inr (inr (inl (p, l)))))
     | Agent.Ping => inr (inr (inr (inr (inr ()))))
     end)
    (fun s => match s with
     | inl (r, h, c, a) => Agent.PakeInit r h c a
     | inr (inl r) => Agent.PakeRegistrationRequest r
     | inr (inr (inl (u, c))) => Agent.PakeRegistrationUpload u c
     | inr (inr (inr (inl (i, f)))) => Agent.PakeCredentialFinalization i f
     | inr (inr (inr (inr (inl (p, l))))) => Agent.Signal p l
     | inr (inr (inr (inr (inr _)))) => Agent.Ping
     end)).
  by intros [].
Defined.

#[export] Instance Candidate_eq_dec : EqDecision Agent.PakeCredentialCandidate.
Proof. solve_decision. Defined.

#[export] Instance Candidate_countable : Countable Agent.PakeCredentialCandidate.
Proof.
  apply (inj_countable' (fun c => (Agent.candidate_id c, Agent.credential_response c))
    (fun p => Agent.Candidate p.1 p.2)).
  by intros [].
Defined.

#[export] Instance AgentServerMessage_eq_dec : EqDecision Agent.ServerMessage.
Proof. solve_decision. Defined.

#[export] Instance AgentServerMessage_countable : Countable Agent.ServerMessage.
Proof.
  apply (inj_countable'
    (fun m => match m with
     | Agent.PakeRegistrationRequired => inl ()
     | Agent.PakeRegistrationResponse r => inr (inl r)
     | Agent.PakeCredentialCandidates l => inr (inr (inl l))
     | Agent.Connected i a z => inr (inr (inr (inl (i, a, z))))
     | Agent.PeerJoined r i => inr (inr (inr (inr (inl (r, i)))))
     | Agent.PeerLeft r i => inr (inr (inr (inr (inr (inl (r, i))))))
     | Agent.ServerSignal p l => inr (inr (inr (inr (inr (inr (inl (p, l)))))))
     | Agent.ServerError m => inr (inr (inr (inr (inr (inr (inr (inl m)))))))
     | Agent.Pong => inr (inr (inr (inr (inr (inr (inr (inr ())))))))
     end)
    (fun s => match s with
     | inl _ => Agent.PakeRegistrationRequired
     | inr (inl r) => Agent.PakeRegistrationResponse r
     | inr (inr (inl l)) => Agent.PakeCredentialCandidates l
     | inr (inr (inr (inl (i, a, z)))) => Agent.Connected i a z
     | inr (inr (inr (inr (inl (r, i))))) => Agent.PeerJoined r i
     | inr (inr (inr (inr (inr (inl (r, i)))))) => Agent.PeerLeft r i
     | inr (inr (inr (inr (inr (inr (inl (p, l))))))) => Agent.ServerSignal p l
     | inr (inr (inr (inr (inr (inr (inr (inl m))))))) => Agent.ServerError m
     | inr (inr (inr (inr (inr (inr (inr (inr _))))))) => Agent.Pong
     end)).
  by intros [].
Defined.

(** Any text the two sides agree on would do. *)
Definition digit_client : ClientCodec SignalingPayload := {|
  parse_client_message s :=
    match countable.decode (A := Agent.ClientMessage) (of_digits s) with
    | Some m => Ok (to_server id m)
    | None => Err "expected value"
    end;
|}.

Definition digit_server : ServerCodec SignalingPayload := {|
  server_message_to_string m :=
    match from_server m with
    | Some m => Ok (digits (countable.encode m))
    | None => Err "unsupported"
    end;
|}.

Definition digit_agent : AgentCodec := {|
  sha256 b := b;
  client_message_to_string m := Ok (digits (countable.encode m));
  server_message_from_str s :=
    match countable.decode (A := Agent.ServerMessage) (of_digits s) with
    | Some m => Ok m
    | None => Err "expected value"
    end;
  server_message_debug _ := "message";
|}.

Lemma digit_protocol : @SameProtocol SignalingPayload digit_client digit_server digit_agent.
Proof.
  split.
  - exists id. intros m. eexists. split; [done|]. cbn. by rewrite of_digits_digits, countable.decode_encode.
  - intros m m' Hm. cbn. rewrite Hm. eexists. split; [done|]. by rewrite of_digits_digits, countable.decode_encode.
Defined.

Definition open_config : SecurityConfig := {|
  allow_agent_room_creation := true; max_rooms := 512; room_ttl := from_secs 3600;
  auth_rate_limit := 30; auth_rate_window := from_secs 60;
  room_signal_rate_limit := 300; room_signal_rate_window := from_secs 10;
|}.

Definition an_agent : AgentOptions := Options "localhost:8080" " tiger-42 " (Some " deep-thought ").

Lemma agent_creates_room_witness :
  ∃ texts, @authenticate_socket SignalingPayload digit_client plain_opaque plain_base64 open_config
    (@server_new plain_opaque ()) (fun _ i => i) (fun n => Z.of_nat n) (fun _ => ()) (fun _ => Ok (str_bytes "nonce"))
    "10.0.0.1" (World inner_default ((fun t => RecvMessage (WsText t)) <$> texts) [] 0) =
    (let '(w, _) := @authenticate_socket SignalingPayload digit_client plain_opaque plain_base64 open_config
       (@server_new plain_opaque ()) (fun _ i => i) (fun n => Z.of_nat n) (fun _ => ()) (fun _ => Ok (str_bytes "nonce"))
       "10.0.0.1" (World inner_default ((fun t => RecvMessage (WsText t)) <$> texts) [] 0) in w,
     Some (@derive_room_handle digit_agent " tiger-42 ", Agent, Some "deep-thought")).
Proof.
  destruct (@agent_creates_room SignalingPayload digit_client digit_server digit_agent digit_protocol
    plain_opaque plain_opaque_laws plain_base64 plain_base64_laws open_config (@server_new plain_opaque ())
    (fun n => Z.of_nat n) (fun _ => ()) (fun _ => ()) (fun _ => Ok (str_bytes "nonce")) an_agent
    "10.0.0.1" inner_default (str_bytes "nonce")
    ltac:(vm_compute; discriminate) eq_refl ltac:(vm_compute; reflexivity)
    ltac:(split; [reflexivity|vm_compute; reflexivity]) eq_refl) as (texts & replies & file & Hs & _).
  exists texts. revert Hs. destruct (authenticate_socket _ _ _ _ _ _ _ _) as [w r]. intros (-> & _).
  vm_compute. reflexivity.
Defined.
