(* ===== verification/AgentSession.v ===== *)
(** * The host's agent in session

    [mitb-host/src/agent.rs] (the report store, the peers, the data channels),
    [agent/signaling.rs] and [agent/signaling_handlers.rs].  The tasks that
    share the state - the session's loop, the callbacks of the data channels,
    the publishers - are interleaved in steps, cut where they wait. *)

From S2P Require Import Agent.

Definition REPORT_BUFFER_CAPACITY : nat := 1024.
Definition DATA_CHANNEL_LABEL : string := "mitb".

(** [RTCDataChannelState]. *)
Inductive ready_state : Type := Connecting | Open | Closing | ChannelClosed.

#[export] Instance ready_state_eq_dec : EqDecision ready_state.
Proof. solve_decision. Defined.

(** The [on_open] callback: it has not run, it still has these reports to
    replay, it is through, or a send failed and it gave up. *)
Inductive replay_state : Type :=
| NotOpened
| Replaying (rest : list RewardReport)
| GaveUp.

(** A data channel with the callbacks of [install_data_channel_callbacks]:
    whose it is, its state, and the reports sent over it. *)
Record channel := Channel {
  zookeeper_id : string;
  ready : ready_state;
  replay : replay_state;
  delivered : list RewardReport;
}.

(** The warnings logged. *)
Inductive warning : Type :=
| Lagged (count : nat)
| SendFailed (zookeeper_id error : string)
| ReplayFailed (error : string)
| UndecodableData (zookeeper_id error : string)
| OtherWarning (message : string).

(** A report being broadcast: the peers it has yet to go to. *)
Record broadcasting := Broadcasting { report : RewardReport; remaining : list (string * nat) }.

(** The connection and the data channel of a peer are named by one reference
    into [channels]. *)
Record session := Session {
  history : list RewardReport;
  publishing : list RewardReport;
  report_rx : list RewardReport;
  missed : nat;
  broadcast : option broadcasting;
  peers : gmap string nat;
  channels : list channel;
  closed : list nat;
  signals : list ClientMessage;
  shutdown : bool;
  host_events : list HostEvent;
  warnings : list warning;
  finished : option (result AgentError ());
}.

(** One field changed. *)
Definition set_channels (s : session) (c : list channel) : session :=
  Session (history s) (publishing s) (report_rx s) (missed s) (broadcast s) (peers s) c (closed s) (signals s)
    (shutdown s) (host_events s) (warnings s) (finished s).
Definition set_broadcast (s : session) (b : option broadcasting) : session :=
  Session (history s) (publishing s) (report_rx s) (missed s) b (peers s) (channels s) (closed s) (signals s)
    (shutdown s) (host_events s) (warnings s) (finished s).
Definition set_queue (s : session) (p q : list RewardReport) (m : nat) : session :=
  Session (history s) p q m (broadcast s) (peers s) (channels s) (closed s) (signals s)
    (shutdown s) (host_events s) (warnings s) (finished s).
Definition set_history (s : session) (h p : list RewardReport) : session :=
  Session h p (report_rx s) (missed s) (broadcast s) (peers s) (channels s) (closed s) (signals s)
    (shutdown s) (host_events s) (warnings s) (finished s).
Definition set_peers (s : session) (p : gmap string nat) (c : list nat) : session :=
  Session (history s) (publishing s) (report_rx s) (missed s) (broadcast s) p (channels s) c (signals s)
    (shutdown s) (host_events s) (warnings s) (finished s).
Definition set_signals (s : session) (m : list ClientMessage) : session :=
  Session (history s) (publishing s) (report_rx s) (missed s) (broadcast s) (peers s) (channels s) (closed s) m
    (shutdown s) (host_events s) (warnings s) (finished s).
Definition set_shutdown (s : session) (events : list HostEvent) : session :=
  Session (history s) (publishing s) (report_rx s) (missed s) (broadcast s) (peers s) (channels s) (closed s)
    (signals s) true events (warnings s) (finished s).
Definition warn (s : session) (w : warning) : session :=
  Session (history s) (publishing s) (report_rx s) (missed s) (broadcast s) (peers s) (channels s) (closed s)
    (signals s) (shutdown s) (host_events s) (warnings s ++ [w]) (finished s).
Definition set_finished (s : session) (r : result AgentError ()) : session :=
  Session (history s) (publishing s) (report_rx s) (missed s) (broadcast s) (peers s) (channels s) (closed s)
    (signals s) (shutdown s) (host_events s) (warnings s) (Some r).

(** A session that starts on the store's history, with the reports pushed to it
    that their publishers have yet to send. *)
Definition session_start (store : list RewardReport) (unsent : list RewardReport) : session :=
  Session store unsent [] 0 None ∅ [] [] [] false [] [] None.

(** ** The report store *)

(** [ReportStore::publish] up to the send. *)
Definition publish_push (show : f64 → string) (s : session) (reward : f64) (since_epoch : option Z)
    : session * result string () :=
  match validate_reward show reward with
  | Err e => (s, Err e)
  | Ok _ =>
    let report := Report reward (current_timestamp_ms since_epoch) in
    (set_history s (history s ++ [report]) (publishing s ++ [report]), Ok ())
  end.

(** [self.tx.send(report)] of one of the publishers: the channel overwrites its
    oldest report when it is full. *)
Definition publish_send (s : session) (i : nat) : option session :=
  report ← publishing s !! i;
  let rest := delete i (publishing s) in
  Some (if (length (report_rx s) <? REPORT_BUFFER_CAPACITY)%nat
        then set_queue s rest (report_rx s ++ [report]) (missed s)
        else set_queue s rest (tail (report_rx s) ++ [report]) (S (missed s))).

(** ** Data channels *)

Definition update_channel (s : session) (c : nat) (f : channel → channel) : session :=
  set_channels s (alter f c (channels s)).

Definition set_replay (r : replay_state) (ch : channel) : channel :=
  Channel (zookeeper_id ch) (ready ch) r (delivered ch).
Definition set_ready (r : ready_state) (ch : channel) : channel :=
  Channel (zookeeper_id ch) r (replay ch) (delivered ch).
Definition deliver (r : RewardReport) (ch : channel) : channel :=
  Channel (zookeeper_id ch) (ready ch) (replay ch) (delivered ch ++ [r]).

(** [send_report]: whether the send succeeds is the channel's. *)
Definition send_report (s : session) (c : nat) (report : RewardReport) (sent : result string ())
    : session * result string () :=
  match sent with
  | Ok _ => (update_channel s c (deliver report), Ok ())
  | Err e => (s, Err e)
  end.

(** The [on_open] callback runs: the snapshot to replay. *)
Definition on_open (s : session) (c : nat) : session := update_channel s c (set_replay (Replaying (history s))).

(** One round of the loop of the replay. *)
Definition replay_next (s : session) (c : nat) (sent : result string ()) : option session :=
  ch ← channels s !! c;
  match replay ch with
  | Replaying (report :: rest) =>
    let '(s, r) := send_report s c report sent in
    Some (match r with
          | Ok _ => update_channel s c (set_replay (Replaying rest))
          | Err error => warn (update_channel s c (set_replay GaveUp)) (ReplayFailed error)
          end)
  | _ => None
  end.

(** The [on_message] callback; [parsed] is what serde_json makes of the text,
    and the host's event channel may be absent. *)
Definition on_message (has_sender : bool) (s : session) (c : nat) (is_string : bool) (text : option string)
    (parsed : string → result string AgentDataMessage) : option session :=
  ch ← channels s !! c;
  Some (if negb is_string then s
        else match text with
        | None => s
        | Some text =>
          match parsed text with
          | Ok Terminate =>
            set_shutdown s (if has_sender
              then host_events s ++
                [SessionEnded ("zookeeper `" +:+ zookeeper_id ch +:+ "` requested terminate")]
              else host_events s)
          | Err error => warn s (UndecodableData (zookeeper_id ch) error)
          end
        end).

(** ** Peers *)

(** What the WebRTC calls of [ensure_peer] answer for one peer. *)
Record peer_calls := PeerCalls {
  new_peer_connection : result string ();
  create_data_channel : result string ();
  create_offer : result string ();
  set_local_description : result string ();
  local_description : option string;
}.

(** A data channel with its callbacks installed; its reference. *)
Definition install_data_channel_callbacks (s : session) (zookeeper_id : string) : session * nat :=
  (set_channels s (channels s ++ [Channel zookeeper_id Connecting NotOpened []]), length (channels s)).

(** [install_peer_callbacks]: what becomes of a channel the peer opens. *)
Definition on_data_channel (s : session) (zookeeper_id label : string) : session :=
  if bool_decide (label = DATA_CHANNEL_LABEL)
  then (install_data_channel_callbacks s zookeeper_id).1 else s.

Definition ensure_peer (calls : peer_calls) (s : session) (zookeeper_id : string)
    : session * result AgentError () :=
  if bool_decide (is_Some (peers s !! zookeeper_id)) then (s, Ok ())
  else match new_peer_connection calls with
  | Err e => (s, Err (WebRtc e))
  | Ok _ =>
    match create_data_channel calls with
    | Err e => (s, Err (WebRtc e))
    | Ok _ =>
      let '(s, data_channel) := install_data_channel_callbacks s zookeeper_id in
      match create_offer calls ≫= (fun _ => set_local_description calls) with
      | Err e => (s, Err (WebRtc e))
      | Ok _ =>
        match local_description calls with
        | None => (s, Err (InvalidServerAddr "missing local description after offer"))
        | Some sdp =>
          let s := set_signals s (signals s ++ [Signal zookeeper_id (Offer sdp)]) in
          (set_peers s (<[zookeeper_id := data_channel]> (peers s)) (closed s), Ok ())
        end
      end
    end
  end.

(** ** Server messages: [signaling_handlers.rs] *)

Section Handlers.
(** What the calls answer for each peer, [RTCSessionDescription::answer] and
    [set_remote_description] together for an answer. *)
Context (calls : string → peer_calls) (accept_answer : string → string → result string ()).

Fixpoint ensure_peers (s : session) (zookeepers : list string) : session * result AgentError () :=
  match zookeepers with
  | [] => (s, Ok ())
  | z :: zookeepers =>
    match ensure_peer (calls z) s z with
    | (s, Ok _) => ensure_peers s zookeepers
    | (s, Err e) => (s, Err e)
    end
  end.

(** [agent/av.rs]: this agent sends no audio or video, and handles no signal of
    a peer of its own. *)
Definition av_handle_connected (client_id : string) (agents : list string) : result AgentError () := Ok ().
Definition av_handle_peer_joined_agent (client_id : string) : result AgentError () := Ok ().
Definition av_handle_peer_left_agent (s : session) (client_id : string) : session := s.
Definition av_handle_signal (peer_id : string) (payload : SignalingPayload) : result AgentError bool := Ok false.

Definition handle_peer_joined (s : session) (role : ClientRole) (client_id : string)
    : session * result AgentError () :=
  match role with
  | Zookeeper => ensure_peer (calls client_id) s client_id
  | Agent.Agent => (s, av_handle_peer_joined_agent client_id)
  end.

Definition handle_peer_left (s : session) (role : ClientRole) (client_id : string) : session :=
  match role with
  | Zookeeper =>
    match peers s !! client_id with
    | Some peer => set_peers s (delete client_id (peers s)) (closed s ++ [peer])
    | None => s
    end
  | Agent.Agent => av_handle_peer_left_agent s client_id
  end.

Definition handle_signal (s : session) (peer_id : string) (payload : SignalingPayload)
    : session * result AgentError () :=
  match peers s !! peer_id with
  | Some _ =>
    match payload with
    | Answer sdp => (s, map_err WebRtc (accept_answer peer_id sdp))
    | Offer _ => (warn s (OtherWarning "ignoring unexpected offer on agent side"), Ok ())
    end
  | None =>
    match av_handle_signal peer_id payload with
    | Ok handled => (if handled then s else warn s (OtherWarning "ignoring signal for unknown peer"), Ok ())
    | Err e => (s, Err e)
    end
  end.

Definition is_ignored_pake_message (m : ServerMessage) : bool :=
  match m with
  | PakeRegistrationRequired | PakeRegistrationResponse _ | PakeCredentialCandidates _ => true
  | _ => false
  end.

Definition handle_server_message (s : session) (message : ServerMessage) : session * result AgentError () :=
  if is_ignored_pake_message message
  then (warn s (OtherWarning "ignoring unexpected PAKE message after authentication"), Ok ())
  else match message with
  | Connected client_id agents zookeepers =>
    match av_handle_connected client_id agents with Ok _ => ensure_peers s zookeepers | Err e => (s, Err e) end
  | PeerJoined role client_id => handle_peer_joined s role client_id
  | PeerLeft role client_id => (handle_peer_left s role client_id, Ok ())
  | ServerSignal peer_id payload => handle_signal s peer_id payload
  | ServerError message => (warn s (OtherWarning "signaling server returned an error"), Ok ())
  | _ => (s, Ok ())
  end.

(** ** The loop: [signaling.rs] *)

Context `{AgentCodec}.

(** [true] is [SessionDirective::Continue]. *)
Definition handle_websocket_event (s : session) (message : option (result string ws_message))
    : session * result AgentError bool :=
  match message with
  | Some (Ok (WsText text)) =>
    match map_err Json (server_message_from_str text) with
    | Err e => (s, Err e)
    | Ok server_message =>
      let '(s, r) := handle_server_message s server_message in
      (s, _ ← r; Ok true)
    end
  | Some (Ok WsClose) | None => (s, Ok false)
  | Some (Ok (WsPing _)) | Some (Ok (WsPong _)) => (s, Ok true)
  | Some (Ok (WsBinary _)) =>
    (warn s (OtherWarning "ignoring binary websocket frame from signaling server"), Ok true)
  | Some (Ok WsFrame) => (s, Ok true)
  | Some (Err error) => (s, Err (WebSocket error))
  end.

(** [report_rx.recv()], when it answers: lag, or the next report, which
    starts its broadcast. *)
Definition handle_report_event (s : session) : option session :=
  if (0 <? missed s)%nat then Some (warn (set_queue s (publishing s) (report_rx s) 0) (Lagged (missed s)))
  else match report_rx s with
  | [] => None
  | report :: rest =>
    Some (set_broadcast (set_queue s (publishing s) rest 0)
            (Some (Broadcasting report (map_to_list (peers s)))))
  end.

(** One round of the loop of [broadcast_report]. *)
Definition broadcast_next (s : session) (sent : result string ()) : option session :=
  b ← broadcast s;
  match remaining b with
  | [] => Some (set_broadcast s None)
  | (zookeeper_id, c) :: rest =>
    let s := set_broadcast s (Some (Broadcasting (report b) rest)) in
    ch ← channels s !! c;
    Some (if decide (ready ch = Open) then
            let '(s, r) := send_report s c (report b) sent in
            match r with
            | Ok _ => s
            | Err error => warn s (SendFailed zookeeper_id error)
            end
          else s)
  end.

(** The loop is left: every peer's connection is closed; an error drops them. *)
Definition leave (s : session) (r : result AgentError ()) : session :=
  set_finished
    (match r with
     | Ok _ => set_peers s ∅ (closed s ++ (map_to_list (peers s)).*2)
     | Err _ => set_peers s ∅ (closed s)
     end) r.

Inductive loop_event : Type :=
| WebsocketEvent (message : option (result string ws_message))
| ReportEvent
| ShutdownTick.

(** A round of the loop, while it is running and not broadcasting. *)
Definition loop_round (s : session) (e : loop_event) : option session :=
  match finished s, broadcast s with
  | None, None =>
    if shutdown s then Some (leave s (Ok ()))
    else match e with
    | WebsocketEvent message =>
      match handle_websocket_event s message with
      | (s, Ok true) => Some s
      | (s, Ok false) => Some (leave s (Ok ()))
      | (s, Err error) => Some (leave s (Err error))
      end
    | ReportEvent => handle_report_event s
    | ShutdownTick => Some s
    end
  | _, _ => None
  end.

(** [run_signaling_session] from the message that ended the handshake to the
    first round. *)
Definition begin_session (store unsent : list RewardReport) (initial_message : ServerMessage) : session :=
  match handle_server_message (session_start store unsent) initial_message with
  | (s, Ok _) => s
  | (s, Err e) => leave s (Err e)
  end.

End Handlers.

(** ** Steps of the tasks *)

Definition ready_rank (r : ready_state) : nat :=
  match r with Connecting => 0 | Open => 1 | Closing => 2 | ChannelClosed => 3 end.

Inductive session_op : Type :=
| PublishPush (reward : f64) (since_epoch : option Z)
| PublishSend (i : nat)
| ChannelReady (c : nat) (r : ready_state)
| OnOpen (c : nat)
| ReplayNext (c : nat) (sent : result string ())
| DataMessage (c : nat) (is_string : bool) (text : option string)
| OnDataChannel (zookeeper_id label : string)
| LoopRound (calls : string → peer_calls) (accept_answer : string → string → result string ()) (e : loop_event)
| BroadcastNext (sent : result string ()).

(** A channel's state only advances; [on_open] runs once, after the channel has
    opened. *)
Definition session_step `{AgentCodec} (show : f64 → string) (has_sender : bool)
    (parsed : string → result string AgentDataMessage) (s : session) (o : session_op) : option session :=
  match o with
  | PublishPush reward since_epoch => Some (publish_push show s reward since_epoch).1
  | PublishSend i => publish_send s i
  | ChannelReady c r =>
    ch ← channels s !! c;
    if (ready_rank (ready ch) <? ready_rank r)%nat then Some (update_channel s c (set_ready r)) else None
  | OnOpen c =>
    ch ← channels s !! c;
    match replay ch with
    | NotOpened => if decide (ready ch = Connecting) then None else Some (on_open s c)
    | _ => None
    end
  | ReplayNext c sent => replay_next s c sent
  | DataMessage c is_string text => on_message has_sender s c is_string text parsed
  | OnDataChannel zookeeper_id label => Some (on_data_channel s zookeeper_id label)
  | LoopRound calls accept_answer e => loop_round calls accept_answer s e
  | BroadcastNext sent => broadcast_next s sent
  end.

(** ** Reports reach the zookeepers *)

Definition fresh_channel (z : string) : channel := Channel z Connecting NotOpened [].

(** What a server message may change. *)
Record grows (s s' : session) : Prop := {
  g_history : history s' = history s;
  g_publishing : publishing s' = publishing s;
  g_rx : report_rx s' = report_rx s;
  g_missed : missed s' = missed s;
  g_broadcast : broadcast s' = broadcast s;
  g_channels : ∃ zs, channels s' = channels s ++ (fresh_channel <$> zs);
  g_peers : ∀ z c, peers s' !! z = Some c → peers s !! z = Some c ∨ channels s' !! c = Some (fresh_channel z);
  g_warnings : ∃ l, warnings s' = warnings s ++ (OtherWarning <$> l);
}.

Lemma grows_refl s : grows s s.
Proof. split; try done; [exists []|by left|exists []]; by rewrite app_nil_r. Qed.

Lemma grows_trans s1 s2 s3 : grows s1 s2 → grows s2 s3 → grows s1 s3.
Proof.
  intros [] []. split; try congruence.
  - destruct g_channels0 as [l1 E1], g_channels1 as [l2 E2]. exists (l1 ++ l2).
    by rewrite E2, E1, fmap_app, app_assoc.
  - intros z c [H|H]%g_peers1; [|by right]. apply g_peers0 in H as [H|H]; [by left|right].
    destruct g_channels1 as [l2 E2]. rewrite E2. by apply lookup_app_l_Some.
  - destruct g_warnings0 as [l1 E1], g_warnings1 as [l2 E2]. exists (l1 ++ l2).
    by rewrite E2, E1, fmap_app, app_assoc.
Qed.

Lemma grows_warn s m : grows s (warn s (OtherWarning m)).
Proof. split; try done; [exists []; by rewrite app_nil_r|by left|by exists [m]]. Qed.

Lemma grows_install s z : grows s (install_data_channel_callbacks s z).1.
Proof. split; try done; [by exists [z]|by left|exists []; by rewrite app_nil_r]. Qed.

Lemma grows_ensure_peer calls s z : grows s (ensure_peer calls s z).1.
Proof.
  unfold ensure_peer. case_bool_decide; [apply grows_refl|].
  pose proof (grows_install s z) as Hi. unfold install_data_channel_callbacks in *. cbn in Hi.
  repeat case_match; try apply grows_refl; simplify_eq; try exact Hi.
  split; try done; [by exists [z]| |exists []; by rewrite app_nil_r].
  cbn. intros z' c. destruct (decide (z' = z)) as [->|]; [|rewrite lookup_insert_ne by done; by left].
  rewrite lookup_insert_eq. intros [= <-]. right. by rewrite lookup_app_r, Nat.sub_diag by done.
Qed.

Lemma grows_ensure_peers calls zs : ∀ s, grows s (ensure_peers calls s zs).1.
Proof.
  induction zs as [|z zs IH]; intros s; cbn; [apply grows_refl|].
  pose proof (grows_ensure_peer (calls z) s z) as Hz. destruct (ensure_peer _ _ _) as [s' [?|?]]; cbn in *; [|done].
  by eapply grows_trans.
Qed.

Lemma grows_left s role id : grows s (handle_peer_left s role id).
Proof.
  destruct role; cbn; [apply grows_refl|]. case_match; [|apply grows_refl].
  split; try done; [by exists []; rewrite app_nil_r| |by exists []; rewrite app_nil_r].
  cbn. intros z c [_ Hz]%lookup_delete_Some. by left.
Qed.

Lemma grows_message calls accept_answer s m : grows s (handle_server_message calls accept_answer s m).1.
Proof.
  unfold handle_server_message. destruct m; cbn; try apply grows_refl; try apply grows_warn.
  - apply grows_ensure_peers.
  - destruct role; cbn; [apply grows_refl|apply grows_ensure_peer].
  - apply grows_left.
  - unfold handle_signal. repeat case_match; try apply grows_refl; apply grows_warn.
Qed.

Lemma grows_websocket `{AgentCodec} calls accept_answer s m :
  grows s (handle_websocket_event calls accept_answer s m).1.
Proof.
  destruct m as [[[text| | | | |]|]|]; cbn; try apply grows_refl; try apply grows_warn.
  destruct (map_err _ _) as [message|]; [|apply grows_refl].
  pose proof (grows_message calls accept_answer s message) as Hm. by destruct (handle_server_message _ _ _ _).
Qed.

(** The reports on their way to a channel: in the broadcast under way, queued
    for the loop, or pushed and not yet sent. *)
Definition inflight (s : session) (c : nat) : list RewardReport :=
  match broadcast s with
  | Some b => if decide (c ∈ (remaining b).*2) then [report b] else []
  | None => []
  end.

Definition pending (s : session) (c : nat) : list RewardReport :=
  inflight s c ++ report_rx s ++ publishing s.

Definition being_broadcast (s : session) : list RewardReport :=
  match broadcast s with Some b => [report b] | None => [] end.

Definition to_replay (ch : channel) : list RewardReport :=
  match replay ch with Replaying rest => rest | _ => [] end.

(** What a channel may have been sent beyond its broadcasts. *)
Definition replayable (s : session) (ch : channel) : list RewardReport :=
  match replay ch with NotOpened => [] | _ => history s end.

(** No warning about lost reports has been logged for the zookeeper. *)
Definition quiet (s : session) (z : string) : Prop :=
  missed s = 0%nat ∧ (∀ n, Lagged n ∉ warnings s) ∧ ∀ e, SendFailed z e ∉ warnings s.

Record session_ok (s : session) : Prop := {
  ok_peers : ∀ z c, peers s !! z = Some c → ∃ ch, channels s !! c = Some ch ∧ zookeeper_id ch = z;
  ok_remaining : ∀ b, broadcast s = Some b →
    NoDup (remaining b).*2 ∧
    Forall (fun p => ∃ ch, channels s !! p.2 = Some ch ∧ zookeeper_id ch = p.1) (remaining b);
  ok_pending : being_broadcast s ++ report_rx s ++ publishing s ⊆+ history s;
  ok_connecting : ∀ c ch, channels s !! c = Some ch → ready ch = Connecting → replay ch = NotOpened;
  ok_upper : ∀ c ch, channels s !! c = Some ch →
    delivered ch ++ to_replay ch ++ pending s c ⊆+ history s ++ replayable s ch;
  ok_lower : ∀ z c ch rest, peers s !! z = Some c → channels s !! c = Some ch → quiet s z →
    ready ch = Open → replay ch = Replaying rest → history s ⊆+ delivered ch ++ rest ++ pending s c;
}.

Lemma start_ok store unsent : unsent ⊆+ store → session_ok (session_start store unsent).
Proof. intros Hs. by split. Qed.

Lemma pending_sub s c : being_broadcast s ++ report_rx s ++ publishing s ⊆+ history s → pending s c ⊆+ history s.
Proof.
  intros Hs. etrans; [|exact Hs]. apply submseteq_skips_r. unfold inflight, being_broadcast.
  repeat case_match; try done. apply submseteq_nil_l.
Qed.

(** A server message keeps the invariant. *)
Lemma grows_ok s s' : grows s s' → session_ok s → session_ok s'.
Proof.
  intros [] [].
  assert (∀ c, pending s' c = pending s c) as Ep.
  { intros c. unfold pending, inflight. by rewrite g_broadcast0, g_rx0, g_publishing0. }
  destruct g_channels0 as [zs Ez].
  assert (∀ c ch, channels s' !! c = Some ch → channels s !! c = Some ch ∨ ∃ z, ch = fresh_channel z) as Hch.
  { intros c ch. rewrite Ez. intros [H|[_ H]]%lookup_app_Some; [by left|right].
    apply list_lookup_fmap_Some in H as (z & -> & _). by exists z. }
  assert (∀ c ch, channels s !! c = Some ch → channels s' !! c = Some ch) as Hold.
  { intros c ch H. rewrite Ez. by apply lookup_app_l_Some. }
  destruct g_warnings0 as [ws Ew].
  split.
  - intros z c [H|H]%g_peers0; [|by eauto].
    apply ok_peers0 in H as (ch & Hc & Hz). by eauto.
  - rewrite g_broadcast0. intros b [Hn Hr]%ok_remaining0. split; [done|].
    eapply Forall_impl; [exact Hr|]. intros [z c] (ch & Hc & Hz). by eauto.
  - unfold being_broadcast. by rewrite g_broadcast0, g_rx0, g_publishing0, g_history0.
  - intros c ch [H|[z ->]]%Hch; [by apply (ok_connecting0 c)|done].
  - intros c ch [H|[z ->]]%Hch; unfold replayable; rewrite Ep, g_history0; [by apply ok_upper0|].
    cbn. rewrite app_nil_r. by apply pending_sub.
  - intros z c ch rest Hz Hc [Hm [Hl Hf]] Ho Hr. rewrite Ep, g_history0.
    apply Hch in Hc as [Hc|[z' ->]]; [|done].
    apply g_peers0 in Hz as [Hz|Hz].
    + eapply ok_lower0; try done. split; [congruence|]. rewrite Ew in Hl, Hf. set_solver.
    + apply Hold in Hc. rewrite Hc in Hz. by simplify_eq.
Qed.

Lemma alter_insert {A} (f : A → A) (l : list A) : ∀ c a, l !! c = Some a → alter f c l = <[c := f a]> l.
Proof.
  induction l as [|b l IH]; intros [|c] a H; try done; [by simplify_eq/=|].
  change (b :: alter f c l = b :: <[c := f a]> l). f_equal. by apply IH.
Qed.

(** One channel changes, the reports on their way to the others do not. *)
Lemma update_ok s s' c ch ch' :
  session_ok s → channels s !! c = Some ch → channels s' = <[c := ch']> (channels s) →
  zookeeper_id ch' = zookeeper_id ch → peers s' = peers s → history s' = history s → missed s' = missed s →
  (∃ l, warnings s' = warnings s ++ l) →
  (∀ c', c' ≠ c → pending s' c' = pending s c') →
  (∀ b', broadcast s' = Some b' → ∃ b l, broadcast s = Some b ∧ remaining b = l ++ remaining b') →
  being_broadcast s' ++ report_rx s' ++ publishing s' ⊆+ history s →
  (ready ch' = Connecting → replay ch' = NotOpened) →
  delivered ch' ++ to_replay ch' ++ pending s' c ⊆+ history s ++ replayable s ch' →
  (∀ z rest, peers s !! z = Some c → zookeeper_id ch = z → quiet s' z → quiet s z → ready ch' = Open →
    replay ch' = Replaying rest → history s ⊆+ delivered ch' ++ rest ++ pending s' c) →
  session_ok s'.
Proof.
  intros [] Hc Ec Ez Ep Eh Em [ws Ew] Hpend Hb Hpending Hconn Hup Hlow.
  assert (c < length (channels s))%nat as Hlt by (by eapply lookup_lt_Some).
  assert (∀ c' d, channels s' !! c' = Some d → (c' = c ∧ d = ch') ∨ (c' ≠ c ∧ channels s !! c' = Some d)) as Hl.
  { intros c' d. rewrite Ec. intros [(-> & -> & _)|[? ?]]%list_lookup_insert_Some; [by left|right; by split]. }
  assert (∀ c' d, channels s !! c' = Some d → ∃ d', channels s' !! c' = Some d' ∧ zookeeper_id d' = zookeeper_id d) as Hl'.
  { intros c' d Hd. rewrite Ec. destruct (decide (c' = c)) as [->|].
    - rewrite list_lookup_insert_eq by done. exists ch'. split; [done|]. congruence.
    - rewrite list_lookup_insert_ne by done. eauto. }
  assert (∀ z, quiet s' z → quiet s z) as Hq.
  { intros z (Hm & Hlag & Hf). split; [congruence|]. rewrite Ew in Hlag, Hf. set_solver. }
  split.
  - rewrite Ep. intros z d (dh & Hd & <-)%ok_peers0. by apply Hl'.
  - intros b' (b & l & Eb & Er)%Hb. apply ok_remaining0 in Eb as [Hn Hr]. rewrite Er in Hn, Hr.
    rewrite fmap_app in Hn. apply NoDup_app in Hn as (_ & _ & Hn). apply Forall_app in Hr as [_ Hr].
    split; [done|]. eapply Forall_impl; [exact Hr|]. intros [z d] (dh & Hd & <-). by apply Hl'.
  - by rewrite Eh.
  - intros c' d [[-> ->]|[_ Hd]]%Hl; [done|by eapply ok_connecting0].
  - intros c' d [[-> ->]|[Hne Hd]]%Hl; unfold replayable in *; rewrite Eh; [done|].
    rewrite Hpend by done. by apply ok_upper0.
  - rewrite Ep. intros z c' d rest Hz Hd Hqz Ho Hr. rewrite Eh. apply Hl in Hd as [[-> ->]|[Hne Hd]].
    + eapply Hlow; try done; [|by apply Hq]. apply ok_peers0 in Hz as (? & ? & ?). by simplify_eq.
    + rewrite Hpend by done. by eapply ok_lower0; try apply Hq.
Qed.

Lemma push_ok show s reward now : session_ok s → session_ok (publish_push show s reward now).1.
Proof.
  unfold publish_push. destruct (validate_reward _ _); [|done]. set (r := Report _ _). intros [].
  assert (∀ c, pending (set_history s (history s ++ [r]) (publishing s ++ [r])) c = pending s c ++ [r]) as Ep.
  { intros c. unfold pending, inflight. cbn. by rewrite !app_assoc. }
  split; cbn; try done.
  - unfold being_broadcast. cbn. rewrite !app_assoc. apply submseteq_app; [|done]. by rewrite <- app_assoc.
  - intros c ch Hc. rewrite Ep. apply ok_upper0 in Hc. unfold replayable in *. cbn.
    rewrite !app_assoc. rewrite !app_assoc in Hc. case_match.
    + rewrite app_nil_r in *. by apply submseteq_app.
    + etrans; [by apply submseteq_app|]. solve_submseteq.
    + etrans; [by apply submseteq_app|]. solve_submseteq.
  - intros z c ch rest Hz Hc Hq Ho Hr. rewrite Ep, !app_assoc. apply submseteq_app; [|done].
    rewrite <- !app_assoc. by eapply ok_lower0.
Qed.

Lemma publish_send_ok s i s' : publish_send s i = Some s' → session_ok s → session_ok s'.
Proof.
  unfold publish_send. destruct (publishing s !! i) as [r|] eqn:Hi; [|done]. cbn. intros [= <-] [].
  apply delete_Permutation in Hi. set (rest := delete i (publishing s)) in *.
  case_match; zb.
  - assert (∀ c, pending (set_queue s rest (report_rx s ++ [r]) (missed s)) c ≡ₚ pending s c) as Ep.
    { intros c. unfold pending, inflight. cbn. rewrite Hi. solve_Permutation. }
    split; cbn; try done.
    + etrans; [|exact ok_pending0]. rewrite Hi. unfold being_broadcast. cbn. solve_submseteq.
    + intros c ch Hc. rewrite Ep. by apply ok_upper0.
    + intros z c ch l Hz Hc Hq Ho Hr. rewrite Ep. by eapply ok_lower0.
  - assert (∀ c, pending (set_queue s rest (tail (report_rx s) ++ [r]) (S (missed s))) c ⊆+ pending s c) as Ep.
    { intros c. unfold pending, inflight. cbn. rewrite Hi. destruct (report_rx s); cbn; solve_submseteq. }
    split; cbn; try done.
    + etrans; [|exact ok_pending0]. rewrite Hi. unfold being_broadcast. cbn.
      destruct (report_rx s); cbn; solve_submseteq.
    + intros c ch Hc. etrans; [|by apply (ok_upper0 c)]. by do 2 apply submseteq_skips_l.
    + intros z c ch l _ _ [Hm _]. done.
Qed.

Lemma leave_ok s r : broadcast s = None → session_ok s → session_ok (leave s r).
Proof. intros Hb []. destruct r; by split. Qed.

Lemma data_message_ok has_sender s c is_string text parsed s' :
  on_message has_sender s c is_string text parsed = Some s' → session_ok s → session_ok s'.
Proof.
  unfold on_message. destruct (channels s !! c) as [ch|]; [|done]. cbn. intros [= <-] Hs.
  repeat case_match; try done; destruct Hs; split; try done.
  intros z c' ch' rest Hz Hc (Hm & Hl & Hf) Ho Hr. eapply ok_lower0; try done. cbn in *. split; set_solver.
Qed.

Lemma ready_ok s c ch r :
  channels s !! c = Some ch → (ready_rank (ready ch) < ready_rank r)%nat →
  session_ok s → session_ok (update_channel s c (set_ready r)).
Proof.
  intros Hc Hr Hs. unfold update_channel. rewrite (alter_insert _ _ _ _ Hc).
  eapply (update_ok s _ c ch (set_ready r ch)); try done; try by destruct Hs.
  - exists []. by rewrite app_nil_r.
  - intros b' Hb. exists b', []. done.
  - cbn. intros ->. cbn in Hr. lia.
  - exact (ok_upper _ Hs c ch Hc).
  - cbn. intros z rest Hz Hid _ Hq -> Hrest. cbn in Hr. assert (ready ch = Connecting) as Hconn by (by destruct (ready ch); cbn in Hr; try lia).
    apply (ok_connecting _ Hs c) in Hconn; [|done]. congruence.
Qed.

Lemma open_ok s c ch :
  channels s !! c = Some ch → replay ch = NotOpened → ready ch ≠ Connecting →
  session_ok s → session_ok (on_open s c).
Proof.
  intros Hc Hn Hr Hs. unfold on_open, update_channel. rewrite (alter_insert _ _ _ _ Hc).
  eapply (update_ok s _ c ch (set_replay (Replaying (history s)) ch)); try done; try by destruct Hs.
  - exists []. by rewrite app_nil_r.
  - intros b' Hb. exists b', []. done.
  - pose proof (ok_upper _ Hs c ch Hc) as Hu. unfold replayable, to_replay in *. rewrite Hn in Hu. cbn in *.
    change (pending _ c) with (pending s c). rewrite app_nil_r in Hu.
    etrans; [|apply (submseteq_app _ _ (history s) (history s) Hu); reflexivity]. solve_submseteq.
  - cbn. intros z rest _ _ _ _ _ [= <-]. solve_submseteq.
Qed.

Lemma replay_ok s c sent s' : replay_next s c sent = Some s' → session_ok s → session_ok s'.
Proof.
  unfold replay_next. destruct (channels s !! c) as [ch|] eqn:Hc; [|done]. cbn.
  destruct (replay ch) as [|[|r rest]|] eqn:Hr; try done. intros Hs' Hs.
  pose proof (ok_upper _ Hs c ch Hc) as Hu. unfold to_replay, replayable in Hu. rewrite Hr in Hu.
  destruct sent as [[]|e]; cbn in Hs'; injection Hs' as <-; unfold update_channel; cbn [set_channels channels].
  - rewrite (alter_insert _ _ _ _ Hc).
    rewrite (alter_insert _ _ c (deliver r ch)) by (apply list_lookup_insert_eq; by eapply lookup_lt_Some).
    rewrite list_insert_insert_eq.
    eapply (update_ok s _ c ch (set_replay (Replaying rest) (deliver r ch))); try done; try by destruct Hs.
    + exists []. by rewrite app_nil_r.
    + intros b' Hb. exists b', []. done.
    + cbn. intros Hconn. apply (ok_connecting _ Hs c ch Hc) in Hconn. congruence.
    + unfold replayable. cbn. change (pending _ c) with (pending s c). etrans; [|exact Hu]. solve_submseteq.
    + cbn. intros z rest' Hz Hid _ Hq Ho [= <-]. pose proof (ok_lower _ Hs z c ch _ Hz Hc Hq Ho Hr) as Hl.
      change (pending _ c) with (pending s c). etrans; [exact Hl|]. solve_submseteq.
  - rewrite (alter_insert _ _ _ _ Hc).
    eapply (update_ok s _ c ch (set_replay GaveUp ch)); try done; try by destruct Hs.
    + by exists [ReplayFailed e].
    + intros b' Hb. exists b', []. done.
    + cbn. intros Hconn. apply (ok_connecting _ Hs c ch Hc) in Hconn. congruence.
    + unfold replayable. cbn. change (pending _ c) with (pending s c). etrans; [|exact Hu]. solve_submseteq.
Qed.

Lemma peer_refs_NoDup s : session_ok s → NoDup (map_to_list (peers s)).*2.
Proof.
  intros Hs. apply NoDup_fmap_2_strong; [|apply NoDup_map_to_list].
  intros [z c] [z' c'] Hz%elem_of_map_to_list Hz'%elem_of_map_to_list ?; cbn in *; subst c'.
  apply (ok_peers _ Hs) in Hz as (ch & Hc & <-), Hz' as (ch' & Hc' & <-). by simplify_eq.
Qed.

Lemma report_event_ok s s' :
  broadcast s = None → handle_report_event s = Some s' → session_ok s → session_ok s'.
Proof.
  unfold handle_report_event. intros Hb. destruct (0 <? missed s)%nat eqn:Hm; zb.
  { intros [= <-] []. split; try done.
    intros z c ch rest _ _ (_ & Hl & _). exfalso. apply (Hl (missed s)). cbn. set_solver. }
  destruct (report_rx s) as [|r rest] eqn:Hrx; [done|]. intros [= <-] Hs.
  pose proof (peer_refs_NoDup s Hs) as Hnd. destruct Hs.
  set (s' := set_broadcast _ _).
  assert (∀ c, pending s' c ⊆+ pending s c) as Hle.
  { intros c. unfold pending, inflight. cbn. rewrite Hb, Hrx. case_decide; [reflexivity|]. apply submseteq_cons, reflexivity. }
  split; try done.
  - cbn. intros b [= <-]. cbn. split; [done|]. apply Forall_forall. intros [z c] Hz%elem_of_map_to_list.
    by apply ok_peers0 in Hz.
  - unfold being_broadcast in *. cbn. by rewrite Hb, Hrx in ok_pending0.
  - intros c ch Hc. etrans; [|by apply (ok_upper0 c)]. by do 2 apply submseteq_skips_l.
  - intros z c ch l Hz Hc (_ & Hlag & Hf) Ho Hr.
    assert (pending s' c = pending s c) as ->; [|eapply ok_lower0; try done; split; [lia|done]].
    unfold pending, inflight. cbn. rewrite Hb, Hrx, decide_True; [done|].
    apply list_elem_of_fmap. exists (z, c). split; [done|]. by apply elem_of_map_to_list.
Qed.

Lemma broadcast_ok s sent s' : broadcast_next s sent = Some s' → session_ok s → session_ok s'.
Proof.
  unfold broadcast_next. destruct (broadcast s) as [[r l]|] eqn:Hb; [|done]. cbn.
  destruct l as [|[z c] rest].
  { intros [= <-] []. assert (∀ c, pending (set_broadcast s None) c = pending s c) as Ep.
    { intros c. unfold pending, inflight. cbn. by rewrite Hb. }
    split; try done.
    - unfold being_broadcast in *. cbn. rewrite Hb in ok_pending0. by apply submseteq_cons_l in ok_pending0 as (? & -> & ?); apply submseteq_cons.
    - intros c ch Hc. rewrite Ep. by apply ok_upper0.
    - intros z c ch l Hz Hc Hq Ho Hr. rewrite Ep. by eapply ok_lower0. }
  intros Hs' Hs. destruct (ok_remaining _ Hs _ Hb) as [Hnd Hall]. cbn in Hnd, Hall.
  apply NoDup_cons in Hnd as [Hnin Hnd]. apply Forall_cons in Hall as [(ch & Hc & Hz) Hall]. cbn in Hc, Hz.
  change (channels (set_broadcast s (Some (Broadcasting r rest)))) with (channels s) in Hs'. rewrite Hc in Hs'. cbn in Hs'.
  assert (pending s c = r :: report_rx s ++ publishing s) as Epc.
  { unfold pending, inflight. rewrite Hb. cbn. rewrite decide_True by apply list_elem_of_here. done. }
  assert (∀ s2, report_rx s2 = report_rx s → publishing s2 = publishing s → broadcast s2 = Some (Broadcasting r rest) →
    pending s2 c = report_rx s ++ publishing s ∧ ∀ c', c' ≠ c → pending s2 c' = pending s c') as Hpend.
  { intros s2 E1 E2 E3. unfold pending, inflight. rewrite E1, E2, E3, Hb. cbn. split; [by rewrite decide_False|].
    intros c' Hne. f_equal. apply decide_ext. set_solver. }
  pose proof (ok_upper _ Hs c ch Hc) as Hu. rewrite Epc in Hu.
  assert (ch = Channel (zookeeper_id ch) (ready ch) (replay ch) (delivered ch)) as Ech by (by destruct ch).
  assert (channels s = <[c := ch]> (channels s)) as Eid by (by rewrite list_insert_id).
  assert (∃ ch' : channel, channels s' = <[c := ch']> (channels s) ∧ zookeeper_id ch' = zookeeper_id ch ∧
    ready ch' = ready ch ∧ replay ch' = replay ch ∧ peers s' = peers s ∧ history s' = history s ∧ missed s' = missed s ∧
    report_rx s' = report_rx s ∧ publishing s' = publishing s ∧ broadcast s' = Some (Broadcasting r rest) ∧
    (delivered ch' = delivered ch ++ [r] ∧ warnings s' = warnings s ∨
     delivered ch' = delivered ch ∧ (ready ch = Open → ∃ e, SendFailed z e ∈ warnings s') ∧ ∃ l, warnings s' = warnings s ++ l))
    as (ch' & E1 & E2 & E3 & E4 & E5 & E6 & E7 & E8 & E9 & E10 & Hd).
  { case_decide as Ho; [destruct sent as [[]|e]|]; cbn in Hs'; injection Hs' as <-.
    - exists (deliver r ch). unfold update_channel. cbn. rewrite (alter_insert _ _ _ _ Hc). split_and!; try done. by left.
    - exists ch. split_and!; try done. right. split_and!; [done|intros _; exists e; cbn; set_solver|by exists [SendFailed z e]].
    - exists ch. split_and!; try done. right. split_and!; [done|done|exists []; by rewrite app_nil_r]. }
  destruct (Hpend s' E8 E9 E10) as [Hpc Hpo].
  apply (update_ok s s' c ch ch'); try done.
  - destruct Hd as [[_ ->]|(_ & _ & Hl)]; [exists []; by rewrite app_nil_r|done].
  - intros b'. rewrite E10. intros [= <-]. exists (Broadcasting r ((z, c) :: rest)), [(z, c)]. done.
  - pose proof (ok_pending _ Hs) as Hp. unfold being_broadcast in *. rewrite Hb in Hp. by rewrite E10, E8, E9.
  - rewrite E3, E4. by apply (ok_connecting _ Hs c).
  - unfold replayable, to_replay in *. rewrite Hpc, E4. etrans; [|exact Hu].
    destruct Hd as [[-> _]|(-> & _)]; solve_submseteq.
  - intros z' l Hz' Hid (_ & _ & Hf) Hq Ho Hr. rewrite E3 in Ho. rewrite E4 in Hr.
    pose proof (ok_lower _ Hs z' c ch l Hz' Hc Hq Ho Hr) as Hl. rewrite Epc in Hl. rewrite Hpc.
    destruct Hd as [[-> _]|(_ & He & _)]; [etrans; [exact Hl|]; solve_submseteq|].
    destruct (He Ho) as [e He']. exfalso. apply (Hf e). congruence.
Qed.

Lemma session_step_ok `{AgentCodec} show has_sender parsed s o s' :
  session_step show has_sender parsed s o = Some s' → session_ok s → session_ok s'.
Proof.
  destruct o; cbn.
  - intros [= <-]. apply push_ok.
  - apply publish_send_ok.
  - destruct (channels s !! c) as [ch|] eqn:Hc; [|done]. cbn. destruct (_ <? _)%nat eqn:Hr; [|done]. zb.
    intros [= <-]. by apply (ready_ok s c ch r).
  - destruct (channels s !! c) as [ch|] eqn:Hc; [|done]. cbn. destruct (replay ch) eqn:Hr; try done.
    case_decide; [done|]. intros [= <-]. by apply (open_ok s c ch).
  - apply replay_ok.
  - apply data_message_ok.
  - intros [= <-]. unfold on_data_channel. case_bool_decide; [|done]. by apply grows_ok, grows_install.
  - unfold loop_round. destruct (finished s); [done|]. destruct (broadcast s) eqn:Hb; [done|].
    destruct (shutdown s); [intros [= <-]; by apply leave_ok|].
    destruct e as [message| |]; [|by apply report_event_ok|by intros [= <-]].
    pose proof (grows_websocket calls accept_answer s message) as Hg.
    destruct (handle_websocket_event _ _ _ _) as [s2 [[|]|e]]; cbn in Hg; intros [= <-] Hs; try (by eapply grows_ok);
      (apply leave_ok; [by rewrite (g_broadcast _ _ Hg)|by eapply grows_ok]).
  - apply broadcast_ok.
Qed.

Lemma begin_ok calls accept_answer store unsent message :
  unsent ⊆+ store → session_ok (begin_session calls accept_answer store unsent message).
Proof.
  intros Hs. unfold begin_session.
  pose proof (grows_message calls accept_answer (session_start store unsent) message) as Hg.
  destruct (handle_server_message _ _ _ _) as [s [?|?]]; cbn in Hg.
  - eapply grows_ok; [done|]. by apply start_ok.
  - apply leave_ok; [by rewrite (g_broadcast _ _ Hg)|]. eapply grows_ok; [done|]. by apply start_ok.
Qed.

(** The reports the operations publish. *)
Definition published (show : f64 → string) (o : session_op) : list RewardReport :=
  match o with
  | PublishPush reward since_epoch =>
    if is_ok (validate_reward show reward) then [Report reward (current_timestamp_ms since_epoch)] else []
  | _ => []
  end.

Lemma grows_history s s' : grows s s' → history s' = history s.
Proof. by intros []. Qed.

Lemma history_leave s r : history (leave s r) = history s.
Proof. by destruct r. Qed.

Lemma session_step_history `{AgentCodec} show has_sender parsed s o s' :
  session_step show has_sender parsed s o = Some s' → history s' = history s ++ published show o.
Proof.
  destruct o; cbn; rewrite ?app_nil_r.
  - intros [= <-]. unfold publish_push. destruct (validate_reward _ _); cbn; [done|]. by rewrite app_nil_r.
  - unfold publish_send. destruct (publishing s !! i); [|done]. cbn. intros [= <-]. by case_match.
  - destruct (channels s !! c); [|done]. cbn. case_match; [|done]. by intros [= <-].
  - destruct (channels s !! c); [|done]. cbn. repeat case_match; try done. by intros [= <-].
  - unfold replay_next. destruct (channels s !! c); [|done]. cbn. repeat (case_match; try done).
    all: destruct sent; cbn in *; simplify_eq; by intros [= <-].
  - unfold on_message. destruct (channels s !! c); [|done]. cbn. intros [= <-]. by repeat case_match.
  - intros [= <-]. unfold on_data_channel. by case_match.
  - unfold loop_round. destruct (finished s); [done|]. destruct (broadcast s); [done|].
    destruct (shutdown s); [by intros [= <-]|]. destruct e as [message| |]; [|unfold handle_report_event|by intros [= <-]].
    + pose proof (grows_history _ _ (grows_websocket calls accept_answer s message)) as Hg.
      destruct (handle_websocket_event _ _ _ _) as [s2 [[|]|e]]; cbn in Hg; intros [= <-]; rewrite ?history_leave; done.
    + repeat (case_match; try done); by intros [= <-].
  - unfold broadcast_next. destruct (broadcast s) as [b|]; [|done]. cbn. destruct (remaining b) as [|[z c] rest]; [by intros [= <-]|].
    cbn. destruct (channels s !! c); [|done]. cbn. intros [= <-]. case_decide; [|done]. by destruct sent.
Qed.

Lemma session_run `{AgentCodec} show has_sender parsed ops : ∀ s s',
  run_steps (session_step show has_sender parsed) s ops = Some s' → session_ok s →
  session_ok s' ∧ history s' = history s ++ concat (published show <$> ops).
Proof.
  induction ops as [|o ops IH]; intros s s'; cbn; [intros [= <-]; by rewrite app_nil_r|].
  destruct (session_step _ _ _ s o) as [s1|] eqn:E; [|done]. intros Hr Hs.
  destruct (IH s1 s' Hr (session_step_ok _ _ _ _ _ _ E Hs)) as [Hok Hh].
  split; [done|]. by rewrite Hh, (session_step_history _ _ _ _ _ _ E), app_assoc.
Qed.

(** C8. Whatever order publishers, data channels and the session's loop run in,
    no report is lost on an open channel whose replay has begun, unless lost
    reports or failed sends to that zookeeper were logged: every report
    published so far, in this session or before it, has been sent over it, or
    waits in its replay, or is on its way to it (pushed and not yet sent, queued
    for the loop, or in the broadcast under way).  So once its replay is through
    and nothing is on its way, the channel has been sent every report; and it is
    sent only published reports, each at most twice. *)
Theorem reports_reach_zookeepers `{AgentCodec} (show : f64 → string) (has_sender : bool)
    (parsed : string → result string AgentDataMessage) (calls : string → peer_calls)
    (accept_answer : string → string → result string ())
    (store unsent : list RewardReport) (initial_message : ServerMessage) (ops : list session_op)
    (s : session) (z : string) (c : nat)
    (Hunsent : unsent ⊆+ store)
    (Hrun : run_steps (session_step show has_sender parsed)
              (begin_session calls accept_answer store unsent initial_message) ops = Some s)
    (Hpeer : peers s !! z = Some c) :
  ∃ ch, channels s !! c = Some ch ∧ zookeeper_id ch = z ∧
    history s = store ++ concat (published show <$> ops) ∧
    delivered ch ⊆+ history s ++ history s ∧
    (∀ rest, ready ch = Open → replay ch = Replaying rest → quiet s z →
       history s ⊆+ delivered ch ++ rest ++ pending s c) ∧
    (ready ch = Open → replay ch = Replaying [] → pending s c = [] → quiet s z → history s ⊆+ delivered ch).
Proof.
  destruct (session_run _ _ _ _ _ _ Hrun (begin_ok calls accept_answer store unsent initial_message Hunsent)) as [Hok Hh].
  destruct (ok_peers _ Hok z c Hpeer) as (ch & Hc & Hz). exists ch. split_and!; try done.
  - rewrite Hh. f_equal. unfold begin_session.
    pose proof (grows_history _ _ (grows_message calls accept_answer (session_start store unsent) initial_message)) as Hg.
    destruct (handle_server_message _ _ _ _) as [s2 [?|?]]; [done|by rewrite history_leave].
  - etrans; [|etrans; [exact (ok_upper _ Hok c ch Hc)|]].
    + apply submseteq_inserts_r, reflexivity.
    + apply submseteq_skips_l. unfold replayable. case_match; try reflexivity. apply submseteq_nil_l.
  - intros rest Ho Hr Hq. exact (ok_lower _ Hok z c ch rest Hpeer Hc Hq Ho Hr).
  - intros Ho Hr Hp Hq. pose proof (ok_lower _ Hok z c ch [] Hpeer Hc Hq Ho Hr) as Hl.
    by rewrite Hp, !app_nil_r in Hl.
Qed.

Definition plain_codec : AgentCodec := {|
  sha256 b := b;
  client_message_to_string _ := Ok "";
  server_message_from_str _ := Ok Pong;
  server_message_debug _ := "";
|}.

Definition webrtc_works : peer_calls := PeerCalls (Ok ()) (Ok ()) (Ok ()) (Ok ()) (Some "sdp").

(** A report is published while the data channel of the zookeeper is opening:
    it is in the replay and broadcast as well. *)
Definition opening_race : list session_op :=
  [ChannelReady 0 Open; PublishPush f64_one (Some 7); OnOpen 0; PublishSend 0; ReplayNext 0 (Ok ());
   LoopRound (fun _ => webrtc_works) (fun _ _ => Ok ()) ReportEvent; BroadcastNext (Ok ()); BroadcastNext (Ok ())].

Definition run_race : option session :=
  run_steps (@session_step plain_codec (fun _ => "") false (fun _ => Err ""))
    (begin_session (fun _ => webrtc_works) (fun _ _ => Ok ()) [] [] (Connected "agent-1" [] ["zookeeper-1"])) opening_race.

Lemma reports_reach_zookeepers_witness :
  ∃ s ch, run_race = Some s ∧ channels s !! 0%nat = Some ch ∧ history s ⊆+ delivered ch.
Proof.
  destruct run_race as [s|] eqn:E; [|exfalso; vm_compute in E; discriminate E].
  assert (peers s !! "zookeeper-1" = Some 0%nat) as Hp by (vm_compute in E; injection E as <-; vm_compute; reflexivity).
  destruct (@reports_reach_zookeepers plain_codec (fun _ => "") false (fun _ => Err "") (fun _ => webrtc_works)
    (fun _ _ => Ok ()) [] [] (Connected "agent-1" [] ["zookeeper-1"]) opening_race s "zookeeper-1" 0%nat
    (submseteq_nil_l []) E Hp) as (ch & Hc & _ & _ & _ & _ & Hall).
  exists s, ch. split; [done|]. split; [done|].
  apply Hall.
  - vm_compute in E. injection E as <-. vm_compute in Hc. injection Hc as <-. reflexivity.
  - vm_compute in E. injection E as <-. vm_compute in Hc. injection Hc as <-. reflexivity.
  - vm_compute in E. injection E as <-. vm_compute. reflexivity.
  - vm_compute in E. injection E as <-. split; [reflexivity|]. split; intros x Hx; by apply not_elem_of_nil in Hx.
Defined.

(** A report published while a data channel opens is sent twice: by the replay
    of the history and by the loop. *)
Example report_sent_twice :
  (s ← run_race; delivered <$> channels s !! 0%nat) = Some [Report f64_one 7; Report f64_one 7].
Proof. vm_compute. reflexivity. Qed.

(** ** Peers follow the room *)

(** The zookeepers present, and those that enter with a message. *)
Definition enter (present : gset string) (z : string) : gset string * list string :=
  if decide (z ∈ present) then (present, []) else ({[z]} ∪ present, [z]).

Fixpoint enter_all (present : gset string) (zs : list string) : gset string * list string :=
  match zs with
  | [] => (present, [])
  | z :: zs =>
    let '(present, entered) := enter present z in
    let '(present, entered') := enter_all present zs in
    (present, entered ++ entered')
  end.

Definition follow (present : gset string) (m : ServerMessage) : gset string * list string :=
  match m with
  | Connected _ _ zookeepers => enter_all present zookeepers
  | PeerJoined Zookeeper z => enter present z
  | PeerLeft Zookeeper z => (present ∖ {[z]}, [])
  | _ => (present, [])
  end.

Fixpoint follow_all (present : gset string) (ms : list ServerMessage) : gset string * list string :=
  match ms with
  | [] => (present, [])
  | m :: ms =>
    let '(present, entered) := follow present m in
    let '(present, entered') := follow_all present ms in
    (present, entered ++ entered')
  end.

(** Server messages handled one after the other, until one fails. *)
Fixpoint handle_messages (calls : string → peer_calls) (accept_answer : string → string → result string ())
    (s : session) (ms : list ServerMessage) : session * result AgentError () :=
  match ms with
  | [] => (s, Ok ())
  | m :: ms =>
    match handle_server_message calls accept_answer s m with
    | (s, Ok _) => handle_messages calls accept_answer s ms
    | (s, Err e) => (s, Err e)
    end
  end.

Section Presence.
Context (sdp : string → string) (calls : string → peer_calls) (accept_answer : string → string → result string ()).
Context (Hcalls : ∀ z, calls z = PeerCalls (Ok ()) (Ok ()) (Ok ()) (Ok ()) (Some (sdp z))).
Context (Hanswer : ∀ z a, accept_answer z a = Ok ()).

Definition offer_to (z : string) : ClientMessage := Signal z (Offer (sdp z)).

Definition tracks (s s' : session) (step : gset string * list string) : Prop :=
  dom (peers s') = step.1 ∧ signals s' = signals s ++ (offer_to <$> step.2).

Lemma ensure_peer_tracks s z :
  ∃ s', ensure_peer (calls z) s z = (s', Ok ()) ∧ tracks s s' (enter (dom (peers s)) z).
Proof.
  unfold ensure_peer, enter. rewrite Hcalls. cbn. case_bool_decide as Hz.
  - eexists. split; [done|]. rewrite decide_True by by apply elem_of_dom. split; [done|]. cbn. by rewrite app_nil_r.
  - eexists. split; [done|]. rewrite decide_False by (by rewrite elem_of_dom). split; cbn; [by rewrite dom_insert_L|done].
Qed.

Lemma tracks_trans s s1 s2 step p :
  tracks s s1 step → tracks s1 s2 p → tracks s s2 (p.1, step.2 ++ p.2).
Proof. intros [_ E1] [E2 E3]. split; [done|]. cbn. by rewrite E3, E1, fmap_app, app_assoc. Qed.

Lemma ensure_peers_tracks zs : ∀ s,
  ∃ s', ensure_peers calls s zs = (s', Ok ()) ∧ tracks s s' (enter_all (dom (peers s)) zs).
Proof.
  induction zs as [|z zs IH]; intros s; cbn.
  { eexists. split; [done|]. split; [done|]. cbn. by rewrite app_nil_r. }
  destruct (ensure_peer_tracks s z) as (s1 & -> & T1). destruct (IH s1) as (s2 & -> & T2).
  exists s2. split; [done|]. pose proof (proj1 T1) as Hd. rewrite Hd in T2.
  destruct (enter _ z) as [p e]. cbn in T1, T2. destruct (enter_all p zs) as [p' e'] eqn:E. exact (tracks_trans _ _ _ _ _ T1 T2).
Qed.

Lemma message_tracks s m :
  ∃ s', handle_server_message calls accept_answer s m = (s', Ok ()) ∧ tracks s s' (follow (dom (peers s)) m).
Proof.
  assert (∀ s', dom (peers s') = dom (peers s) → signals s' = signals s → tracks s s' (dom (peers s), [])) as Hsame.
  { intros s' Hd Hg. split; [done|]. cbn. by rewrite app_nil_r. }
  destruct m; cbn; try (eexists; split; [done|]; by apply Hsame).
  - apply ensure_peers_tracks.
  - destruct role; cbn; [eexists; split; [done|]; by apply Hsame|apply ensure_peer_tracks].
  - eexists. split; [done|]. destruct role; cbn; [by apply Hsame|].
    destruct (peers s !! client_id) as [c|] eqn:E.
    + split; cbn; [by rewrite dom_delete_L|by rewrite app_nil_r].
    + split; cbn; [|by rewrite app_nil_r]. apply not_elem_of_dom in E. set_solver.
  - unfold handle_server_message, handle_signal. cbn. destruct (peers s !! peer_id).
    + destruct payload; [|rewrite Hanswer]; (eexists; split; [done|]; by apply Hsame).
    + eexists. split; [done|]. by apply Hsame.
Qed.

(** Where WebRTC does not fail, handling any server messages succeeds: the
    agent's peers are the zookeepers the messages have announced and not taken
    back, and the agent has sent one offer to each zookeeper each time it
    entered, in that order, and nothing else. *)
Lemma handle_messages_tracks (ms : list ServerMessage) (s : session) :
  ∃ s', handle_messages calls accept_answer s ms = (s', Ok ()) ∧
    dom (peers s') = (follow_all (dom (peers s)) ms).1 ∧
    signals s' = signals s ++ (offer_to <$> (follow_all (dom (peers s)) ms).2).
Proof.
  revert s. induction ms as [|m ms IH]; intros s; cbn.
  { eexists. split_and!; [done..|]. by rewrite app_nil_r. }
  destruct (message_tracks s m) as (s1 & -> & T1). destruct (IH s1) as (s2 & -> & T2).
  exists s2. split; [done|]. pose proof (proj1 T1) as Hd. rewrite Hd in T2.
  destruct (follow _ m) as [p e]. cbn in T1, T2. destruct (follow_all p ms) as [p' e']. exact (tracks_trans _ _ _ _ _ T1 T2).
Qed.

End Presence.

Lemma handle_messages_tracks_witness :
  ∃ s, handle_messages (fun _ => webrtc_works) (fun _ _ => Ok ()) (session_start [] [])
    [Connected "agent-1" [] ["zoo-1"; "zoo-2"]; PeerLeft Zookeeper "zoo-1"; PeerJoined Zookeeper "zoo-1"] = (s, Ok ()) ∧
    signals s = [Signal "zoo-1" (Offer "sdp"); Signal "zoo-2" (Offer "sdp"); Signal "zoo-1" (Offer "sdp")].
Proof.
  destruct (handle_messages_tracks (fun _ => "sdp") (fun _ => webrtc_works) (fun _ _ => Ok ()) (fun _ => eq_refl)
    (fun _ _ => eq_refl)
    [Connected "agent-1" [] ["zoo-1"; "zoo-2"]; PeerLeft Zookeeper "zoo-1"; PeerJoined Zookeeper "zoo-1"]
    (session_start [] [])) as (s & -> & _ & Hs).
  exists s. split; [done|]. rewrite Hs. vm_compute. reflexivity.
Defined.

(** ** Reconnecting *)

(** The wait after the round [i], given the waits before it: a second after a
    session that closed and after the very first if it was lost, otherwise twice
    the wait before, at most half a minute. *)
Definition wait_after (r : round) (before : option Z) : Z :=
  match Agent.session r, before with
  | Err _, Some d => Z.min (2 * d) (from_secs 30)
  | _, _ => from_secs 1
  end.

(** The session let the loop go on: it closed, or was lost to a failure of the
    WebSocket, and nobody asked to shut down. *)
Definition goes_on (r : round) : Prop :=
  shutdown_before r = false ∧ shutdown_after r = false ∧
  match Agent.session r with Ok _ => True | Err e => ∃ m, e = WebSocket m end.

(** How the last round ends the loop. *)
Definition ends_with (r : round) (outcome : result AgentError ()) : Prop :=
  if shutdown_before r then outcome = Ok ()
  else match Agent.session r with
  | Ok _ => shutdown_after r = true ∧ outcome = Ok ()
  | Err e => (shutdown_after r = true ∨ ∀ m, e ≠ WebSocket m) ∧ outcome = Err e
  end.

Fixpoint waits (before : option Z) (rounds : list round) : list Z :=
  match rounds with
  | [] => []
  | r :: rounds => let d := wait_after r before in d :: waits (Some d) rounds
  end.

Lemma next_delay_min d : 0 ≤ d ≤ from_secs 30 → next_reconnect_delay d = Z.min (2 * d) (from_secs 30).
Proof.
  unfold next_reconnect_delay, duration_saturating_mul, RECONNECT_DELAY_MAX, from_secs, DURATION_MAX, U64_MAX.
  unfold NANOS_PER_SEC. lia.
Qed.

Lemma is_retryable_spec e : is_retryable e = true ↔ ∃ m, e = WebSocket m.
Proof. split; [destruct e; try done; by eexists|]. by intros [m ->]. Qed.

(** The loop's delay is that of the next loss. *)
Definition next_wait (before : option Z) : Z :=
  match before with Some d => Z.min (2 * d) (from_secs 30) | None => from_secs 1 end.

Lemma run_rounds_spec rounds : ∀ before,
  (∀ d, before = Some d → 0 ≤ d ≤ from_secs 30) →
  let '(slept, outcome) := run_rounds (next_wait before) rounds in
  ∃ past rest, rounds = past ++ rest ∧ Forall goes_on past ∧ slept = waits before past ∧
    match outcome with
    | None => rest = []
    | Some o => ∃ r rest', rest = r :: rest' ∧ ends_with r o
    end.
Proof.
  induction rounds as [|r rounds IH]; intros before Hb; cbn [run_rounds]; [by exists [], []|].
  assert (∀ o, ends_with r o → ∃ past rest, r :: rounds = past ++ rest ∧ Forall goes_on past ∧
    [] = waits before past ∧ ∃ r' rest', rest = r' :: rest' ∧ ends_with r' o) as Hend.
  { intros o Ho. exists [], (r :: rounds). split_and!; [done..|]. by exists r, rounds. }
  assert (0 ≤ wait_after r before ≤ from_secs 30) as Hw.
  { unfold wait_after. destruct (Agent.session r); [by vm_compute|].
    destruct before as [d|]; [specialize (Hb d eq_refl); lia|by vm_compute]. }
  assert (goes_on r → let '(slept, outcome) :=
      (let '(slept, result) := run_rounds (next_reconnect_delay (wait_after r before)) rounds in
       (wait_after r before :: slept, result)) in
    ∃ past rest, r :: rounds = past ++ rest ∧ Forall goes_on past ∧ slept = waits before past ∧
      match outcome with None => rest = [] | Some o => ∃ r rest', rest = r :: rest' ∧ ends_with r o end) as Hgo.
  { intros Hr. rewrite next_delay_min by done.
    specialize (IH (Some (wait_after r before)) ltac:(by intros d [= <-])). cbn [next_wait] in IH.
    destruct (run_rounds _ _) as [slept outcome]. destruct IH as (past & rest & -> & Hp & -> & Ho).
    exists (r :: past), rest. split_and!; [done|by constructor|done|done]. }
  unfold ends_with in Hend. unfold goes_on in Hgo. unfold wait_after in Hgo.
  destruct (shutdown_before r) eqn:Eb; [by apply Hend|]. destruct (Agent.session r) as [[]|e] eqn:Es.
  - destruct (shutdown_after r) eqn:Ea; [by apply Hend|]. by apply Hgo.
  - destruct (is_retryable e) eqn:Er; [apply is_retryable_spec in Er as [m ->]; destruct (shutdown_after r) eqn:Ea|]; cbn [andb negb].
    + apply Hend. auto.
    + apply Hgo. eauto.
    + apply Hend. split; [|done]. right. intros m ->. done.
Qed.

(** From the start, or from a session that closed, losses in a row double the
    wait: [2^k] seconds, at most thirty. *)
Definition delay_at (k : nat) : Z := Z.min (from_secs (2 ^ Z.of_nat k)) (from_secs 30).

Lemma delay_at_S k : Z.min (2 * delay_at k) (from_secs 30) = delay_at (S k).
Proof.
  unfold delay_at, from_secs. rewrite Nat2Z.inj_succ, Z.pow_succ_r by lia. pose proof (Z.pow_pos_nonneg 2 (Z.of_nat k)).
  unfold NANOS_PER_SEC. lia.
Qed.

Definition is_lost (r : round) : Prop := ∃ e, Agent.session r = Err e.

Lemma waits_lost rounds : ∀ k,
  Forall is_lost rounds → waits (Some (delay_at k)) rounds = delay_at <$> seq (S k) (length rounds).
Proof.
  induction rounds as [|r rounds IH]; intros k Hl; [done|]. inversion_clear Hl as [|? ? [e He] Hl'].
  cbn [waits length seq fmap list_fmap]. unfold wait_after. rewrite He, delay_at_S. f_equal. by apply IH.
Qed.

Lemma waits_first_lost rounds : Forall is_lost rounds → waits None rounds = delay_at <$> seq 0 (length rounds).
Proof.
  intros Hl. destruct Hl as [|r rounds [e He] Hl]; [done|]. cbn [waits length seq fmap list_fmap].
  unfold wait_after. rewrite He. change (from_secs 1) with (delay_at 0). f_equal. by apply waits_lost.
Qed.

Lemma length_waits rounds : ∀ before, length (waits before rounds) = length rounds.
Proof. induction rounds as [|r rounds IH]; intros before; cbn; [done|]. by rewrite IH. Qed.

(** The waits go on from the last one. *)
Lemma waits_app l k : ∀ before,
  waits before (l ++ k) = waits before l ++ waits (match last (waits before l) with Some d => Some d | None => before end) k.
Proof.
  induction l as [|r l IH]; intros before; [done|]. cbn [waits app]. rewrite IH. cbn. do 2 f_equal.
  rewrite last_cons. by destruct (last (waits _ l)).
Qed.

(** After a closed session the last wait is a second. *)
Lemma last_wait_closed l r : Agent.session r = Ok () → ∀ before, last (waits before (l ++ [r])) = Some (delay_at 0).
Proof. intros Hr before. rewrite waits_app. cbn [waits]. rewrite last_snoc. unfold wait_after. by rewrite Hr. Qed.

(** C35. The agent goes on over sessions that close and sessions lost to a failure
    of the WebSocket, and ends at the first round that is none of these or in
    which it is shut down, with that round's error if there is one.  Between two
    rounds it waits: one second after a session that closed and after a first
    session that was lost, and after every other lost session twice as long as
    the time before, at most thirty seconds.  So from the start the sessions lost
    in a row are followed by 1, 2, 4, 8, 16, 30, 30, ... seconds, and after a
    closed session, whose second counts, by 2, 4, 8, 16, 30, 30, .... *)
Theorem reconnects_with_backoff `{UrlParser} (options : AgentOptions) (rounds : list round)
    (Hurl : is_ok (signaling_url (server_addr options)) = true) :
  let '(slept, outcome) := run options (Ok ()) rounds in
  ∃ past rest, rounds = past ++ rest ∧ Forall goes_on past ∧ slept = waits None past ∧
    match outcome with
    | None => rest = []
    | Some o => ∃ r rest', rest = r :: rest' ∧ ends_with r o
    end ∧
    ∀ before lost after, past = before ++ lost ++ after → Forall is_lost lost →
      (∀ r, last before = Some r → Agent.session r = Ok ()) →
      take (length lost) (drop (length before) slept) =
        delay_at <$> seq (if bool_decide (before = []) then 0 else 1) (length lost).
Proof.
  unfold run. destruct (signaling_url _); [|done]. cbn.
  pose proof (run_rounds_spec rounds None ltac:(done)) as Hr. cbn [next_wait] in Hr.
  change (from_secs 1) with RECONNECT_DELAY_INITIAL in Hr.
  destruct (run_rounds _ _) as [slept outcome]. destruct Hr as (past & rest & -> & Hp & -> & Ho).
  exists past, rest. split_and!; [done..|]. intros before lost after -> Hlost Hclosed.
  rewrite waits_app, drop_app_length' by (by rewrite length_waits).
  rewrite waits_app, take_app_length' by (by rewrite length_waits).
  case_bool_decide as Hb; [subst before; by apply waits_first_lost|].
  destruct before as [|r before _] using rev_ind; [done|].
  rewrite last_wait_closed by (apply Hclosed; by rewrite last_snoc). by apply waits_lost.
Qed.

Definition plain_url : UrlParser := {|
  Url := string;
  url_parse s := Ok s;
  url_path _ := "/";
  url_set_path u p := u +:+ p;
|}.

Definition lost_session : round := Round false (Err (WebSocket "reset")) false.

Definition closed_session : round := Round false (Ok ()) false.

Lemma reconnects_with_backoff_witness :
  let rounds := replicate 7 lost_session ++ [closed_session; lost_session; lost_session] in
  ∃ slept, @run plain_url (Options "localhost" "tiger" None) (Ok ()) rounds = (slept, None) ∧
    slept = from_secs <$> [1; 2; 4; 8; 16; 30; 30; 1; 2; 4] ∧ slept = waits None rounds.
Proof.
  intros rounds.
  pose proof (@reconnects_with_backoff plain_url (Options "localhost" "tiger" None) rounds
    ltac:(vm_compute; reflexivity)) as Hb.
  assert (snd (@run plain_url (Options "localhost" "tiger" None) (Ok ()) rounds) = None) as E by (vm_compute; reflexivity).
  destruct (run _ _ _) as [slept outcome]. destruct Hb as (past & rest & Er & _ & -> & Ho & _). cbn in E. subst outcome.
  subst rest. rewrite app_nil_r in Er. subst past. exists (waits None rounds). split_and!; [done| |done].
  vm_compute. reflexivity.
Defined.
