(* ===== verification/Roster.v ===== *)
(** * Who a client believes is there

    What the server sends on a connection ([WsRuntime.v]) against who is in the
    room, and what the agent ([AgentSession.v]) makes of it. *)

From S2P Require Import Agent AgentSession.
From S2P Require Import AgentServer.
From S2P Require Import WsThreads.

(** ** Messages of a registration *)

Definition other (r : ClientRole) : ClientRole :=
  match r with Agent => Zookeeper | Zookeeper => Agent end.

Lemma elem_of_values {A} (m : gmap string A) x : x ∈ values m ↔ ∃ k, m !! k = Some x.
Proof.
  unfold values. rewrite list_elem_of_fmap. split.
  - intros ([k y] & -> & Hy%elem_of_map_to_list). by exists k.
  - intros [k Hk]. exists (k, x). split; [done|]. by apply elem_of_map_to_list.
Qed.

Lemma elem_of_keys {A} (m : gmap string A) k : k ∈ keys m ↔ is_Some (m !! k).
Proof.
  unfold keys. rewrite list_elem_of_fmap. split.
  - intros ([j y] & -> & Hy%elem_of_map_to_list). by eexists.
  - intros [x Hk]. exists (k, x). split; [done|]. by apply elem_of_map_to_list.
Qed.

Section Messages.
Context {Value : Type} (config : SecurityConfig).
Notation Message := (ServerMessage Value).

Definition in_room (inner : StateInner) (h : string) (r : ClientRole) (id : string) : Prop :=
  ∃ hd, member inner h r id hd.

Definition side_of (r : ClientRole) (agents zookeepers : list string) : list string :=
  match r with Agent => agents | Zookeeper => zookeepers end.

Definition to_all (hs : list ClientHandle) (m : Message) : list (ClientHandle * Message) :=
  (fun h => (h, m)) <$> hs.

Lemma peers_are_members inner now h room r :
  rooms (prune_expired_rooms config inner now) !! h = Some room →
  ∀ hd, hd ∈ room_peers room r ↔ ∃ z, member inner h (other r) z hd.
Proof.
  intros Hr hd. assert (room_peers room r = values (room_side room (other r))) as -> by by destruct r.
  rewrite elem_of_values. apply exist_proper. intros z. rewrite <- (member_prune config inner now).
  unfold member. rewrite Hr. naive_solver.
Qed.

(** Who registers is told who is there, and the other side is told of it. *)
Lemma register_messages inner now h role alias own inner' id initial joined :
  register (Value := Value) config inner now h role alias own = Some (inner', Ok (Registered id initial joined)) →
  ∃ ags zks hs, initial = [Connected id role ags zks] ∧ joined = to_all hs (PeerJoined role id) ∧
    (∀ r z, z ∈ side_of r ags zks ↔ in_room inner h r z) ∧
    ∀ hd, hd ∈ hs ↔ ∃ z, member inner h (other role) z hd.
Proof.
  unfold register. destruct (rooms (prune_expired_rooms _ _ _) !! h) as [room|] eqn:E; [|done].
  destruct (choose_client_id _ _ _ _) as [[nid j]|]; [|done]. cbn -[prune_expired_rooms]. intros ?. simplify_eq.
  exists (keys (agents room)), (keys (zookeepers room)), (room_peers room role). split_and!.
  - done.
  - unfold to_all. by destruct role.
  - intros r z. unfold in_room. setoid_rewrite <- (member_prune config inner now). unfold member. rewrite E.
    destruct r; cbn [side_of]; rewrite elem_of_keys; unfold is_Some; cbn; naive_solver.
  - by eapply peers_are_members.
Qed.

(** Who leaves is announced to the other side. *)
Lemma unregister_messages inner now h role id hd0 :
  member inner h role id hd0 →
  ∃ hs, (unregister (Value := Value) config inner now h role id).2 = to_all hs (PeerLeft role id) ∧
    ∀ hd, hd ∈ hs ↔ ∃ z, member inner h (other role) z hd.
Proof.
  intros Hm. apply (member_prune config inner now) in Hm as (room & Hr & Hs).
  unfold unregister. rewrite Hr, Hs. exists (room_peers room role). split.
  - unfold to_all. by destruct role.
  - by eapply peers_are_members.
Qed.

(** ** The roster a client keeps *)

(** The clients of the other side, as its messages tell a client with the role
    [me]. *)
Definition hear (me : ClientRole) (present : gset string) (m : Message) : gset string :=
  match m with
  | Connected _ _ ags zks => present ∪ list_to_set (side_of (other me) ags zks)
  | PeerJoined r id => if decide (r = other me) then {[id]} ∪ present else present
  | PeerLeft r id => if decide (r = other me) then present ∖ {[id]} else present
  | _ => present
  end.

Definition roster (me : ClientRole) (ms : list Message) : gset string := foldl (hear me) ∅ ms.

Definition neutral (m : Message) : Prop := ∀ me present, hear me present m = present.

Lemma roster_app me l k : roster me (l ++ k) = foldl (hear me) (roster me l) k.
Proof. unfold roster. by rewrite foldl_app. Qed.

Lemma roster_neutral me l k : Forall neutral k → roster me (l ++ k) = roster me l.
Proof.
  rewrite roster_app. generalize (roster me l) as X. induction k as [|m k IH]; intros X Hk; [done|].
  inversion_clear Hk as [|? ? Hm Hk']. cbn. by rewrite Hm, IH.
Qed.

(** Announcements heard any number of times. *)
Lemma roster_joined me l r id (hs : list ClientHandle) z :
  z ∈ roster me (l ++ ((fun _ => PeerJoined r id) <$> hs)) ↔
  z ∈ roster me l ∨ (hs ≠ [] ∧ r = other me ∧ z = id).
Proof.
  rewrite roster_app. generalize (roster me l) as X. induction hs as [|h hs IH]; intros X; cbn; [naive_solver|].
  rewrite IH. case_decide; set_solver.
Qed.

Lemma roster_left me l r id (hs : list ClientHandle) z :
  z ∈ roster me (l ++ ((fun _ => PeerLeft r id) <$> hs)) ↔
  z ∈ roster me l ∧ ¬ (hs ≠ [] ∧ r = other me ∧ z = id).
Proof.
  rewrite roster_app. generalize (roster me l) as X. induction hs as [|h hs IH]; intros X; cbn; [naive_solver|].
  rewrite IH. case_decide; set_solver.
Qed.

End Messages.

(** ** What is queued *)

Section Heard.
Context {Value : Type} `{ClientCodec Value, ServerCodec Value}.
Context (config : SecurityConfig).
Notation Message := (ServerMessage Value).
Notation net := (net (Value := Value)).

Definition queue (w : net) (n : nat) : list Message := default [] (queues w !! n).

(** From [w] to [w'] the messages [l] came into the queue of [n], or one was
    dropped and [n] penalised. *)
Definition queued (w w' : net) (n : nat) (l : list Message) : Prop :=
  penalties w ⊆ penalties w' ∧ (n ∉ penalties w' → queue w' n = queue w n ++ l).

Lemma queued_refl w n : queued w w n [].
Proof. split; [done|]. intros _. by rewrite app_nil_r. Qed.

Lemma queued_trans w1 w2 w3 n l k : queued w1 w2 n l → queued w2 w3 n k → queued w1 w3 n (l ++ k).
Proof.
  intros [P1 E1] [P2 E2]. split; [set_solver|]. intros Hn. rewrite E2, E1 by set_solver. by rewrite app_assoc.
Qed.

Definition for_task (n : nat) (h : ClientHandle) (m : Message) : list Message :=
  if decide (tx h = n) then [m] else [].

Lemma queued_send w h m n (w' : net) :
  tx h = penalized h → is_Some (queues w !! n) →
  w' = (match try_send w (tx h) m with
        | (w, Full) => penalize w (penalized h)
        | (w, _) => w
        end) →
  queued w w' n (for_task n h m).
Proof.
  intros Hh [q Hq] ->. unfold for_task, try_send. case_decide as Hn.
  - subst n. rewrite Hq. destruct (_ <=? _)%nat; split; cbn.
    + set_solver.
    + rewrite Hh. set_solver.
    + done.
    + intros _. unfold queue. cbn. by rewrite lookup_insert_eq, Hq.
  - destruct (queues w !! tx h); [|by apply queued_refl]. destruct (_ <=? _)%nat; split; cbn; try set_solver.
    + intros _. by rewrite app_nil_r.
    + intros _. unfold queue. cbn. by rewrite lookup_insert_ne, app_nil_r.
Qed.

Lemma queued_remote w h m n :
  tx h = penalized h → is_Some (queues w !! n) → queued w (enqueue_remote_message w h m) n (for_task n h m).
Proof.
  intros. apply queued_send; [done..|]. unfold enqueue_remote_message. by destruct (try_send _ _ _) as [? []].
Qed.

Lemma queued_local w h m n :
  tx h = penalized h → is_Some (queues w !! n) → queued w (enqueue_local_message w h m).1 n (for_task n h m).
Proof.
  intros. apply queued_send; [done..|]. unfold enqueue_local_message. by destruct (try_send _ _ _) as [? []].
Qed.

Lemma sends_queue (w w' : net) n : sends w w' → is_Some (queues w !! n) → is_Some (queues w' !! n).
Proof. intros (_ & _ & _ & Hq & _). by rewrite <- !elem_of_dom, Hq. Qed.

Lemma queued_broadcast m n hs : Forall (fun h => tx h = penalized h) hs → ∀ w,
  is_Some (queues w !! n) →
  queued w (broadcast_all w (to_all hs m)) n ((fun _ => m) <$> filter (fun h => tx h = n) hs).
Proof.
  induction 1 as [|h hs Hh Hhs IH]; intros w Hq; [apply queued_refl|].
  unfold to_all, broadcast_all. cbn [fmap list_fmap foldl fst snd].
  pose proof (queued_trans _ _ _ n _ _ (queued_remote w h m n Hh Hq)
    (IH _ (sends_queue _ _ _ (sends_remote w h m) Hq))) as Hqd.
  unfold for_task in Hqd. rewrite filter_cons. case_decide; exact Hqd.
Qed.

Lemma members_handles (w : net) h r id hd : net_ok w → member (shared w) h r id hd → tx hd = penalized hd.
Proof. intros (_ & _ & _ & Hm) (n & c & _ & -> & _)%Hm. done. Qed.

Lemma net_ok_queue (w : net) n : net_ok w → is_Some (connections w !! n) → is_Some (queues w !! n).
Proof. intros (_ & Hq & _). by rewrite <- !elem_of_dom, Hq. Qed.

(** Whose queue a broadcast to a side of a room reaches. *)
Lemma recipients (w : net) h r hs n c :
  net_ok w → connections w !! n = Some c →
  (∀ hd, hd ∈ hs ↔ ∃ z, member (shared w) h r z hd) →
  Forall (fun hd => tx hd = penalized hd) hs ∧
  (filter (fun hd => tx hd = n) hs ≠ [] ↔ conn_room c = h ∧ conn_role c = r).
Proof.
  intros Hok Hc Hhs. split.
  { apply Forall_forall. intros hd [z Hz]%Hhs. by eapply members_handles. }
  destruct Hok as (_ & _ & _ & Hm). split.
  - intros Hne. destruct (filter _ hs) as [|hd l] eqn:E; [done|].
    assert (hd ∈ filter (fun hd => tx hd = n) hs) as Hin by (rewrite E; set_solver).
    apply list_elem_of_filter in Hin as [Htx [z (k & d & Hd & -> & E1 & E2 & _)%Hm]%Hhs].
    cbn in Htx. subst k. by simplify_eq.
  - intros [E1 E2] Hnil. assert (own_handle n ∈ hs) as Hin.
    { apply Hhs. exists (conn_id c). apply Hm. by exists n, c. }
    assert (own_handle n ∈ filter (fun hd => tx hd = n) hs) as Hf by (by apply list_elem_of_filter).
    rewrite Hnil in Hf. by apply not_elem_of_nil in Hf.
Qed.

(** ** The roster is the room *)

(** What the task of [n] takes from its queue for its socket in a step. *)
Definition taken (w : net) (o : net_op (Value := Value)) (n : nat) : list Message :=
  match o with
  | NetEvent k (Outbound _) =>
    if decide (k = n ∧ is_Some (connections w !! n)) then take 1 (queue w n) else []
  | _ => []
  end.

Fixpoint received (w : net) (ops : list (Z * net_op (Value := Value))) (n : nat) : list Message :=
  match ops with
  | [] => []
  | (now, o) :: ops =>
    taken w o n ++ match net_step config w now o with Some w => received w ops n | None => [] end
  end.

(** After what [hist] says each task has taken. *)
Definition rosters_ok (hist : nat → list Message) (w : net) : Prop :=
  net_ok w ∧ (∀ n, (next_connection w ≤ n)%nat → hist n = []) ∧
  ∀ n c, connections w !! n = Some c → n ∉ penalties w →
  ∀ z, z ∈ roster (conn_role c) (hist n ++ queue w n) ↔
    in_room (shared w) (conn_room c) (other (conn_role c)) z.

(** A turn that changes no room and brings neutral messages only. *)
Lemma rosters_ok_turn hist hist' (w w' : net) :
  net_ok w' → next_connection w' = next_connection w →
  (∀ n, (next_connection w ≤ n)%nat → hist' n = hist n) →
  (∀ h r id hd, member (shared w') h r id hd ↔ member (shared w) h r id hd) →
  penalties w ⊆ penalties w' →
  (∀ n c', connections w' !! n = Some c' → ∃ c, connections w !! n = Some c ∧
    conn_room c' = conn_room c ∧ conn_role c' = conn_role c) →
  (∀ n, is_Some (connections w !! n) → n ∉ penalties w' →
    ∃ l, hist' n ++ queue w' n = (hist n ++ queue w n) ++ l ∧ Forall neutral l) →
  rosters_ok hist w → rosters_ok hist' w'.
Proof.
  intros Hok' Hn Hhist Hmem Hpen Hconn Hq (Hok & Hnew & Hr). split; [done|]. split.
  - intros n Hle. rewrite Hn in Hle. rewrite Hhist by done. auto.
  - intros n c' Hc' Hp z. destruct (Hconn n c' Hc') as (c & Hc & -> & ->).
    destruct (Hq n ltac:(by eexists) Hp) as (l & -> & Hl). rewrite roster_neutral by done.
    rewrite Hr by set_solver. unfold in_room. by setoid_rewrite Hmem.
Qed.

Lemma for_task_neutral n h (m : Message) : neutral m → Forall neutral (for_task n h m).
Proof. intros Hm. unfold for_task. case_decide; by repeat constructor. Qed.

(** A signal goes to a member of the room. *)
Lemma forward_to_member inner now h s p (payload : Value) peer m :
  (forward_signal config inner now h s p payload).2 = Ok (peer, m) →
  m = ServerSignal s payload ∧ ∃ r, member inner h r p peer.
Proof.
  unfold forward_signal. destruct (rooms _ !! h) as [room|] eqn:E; [|done].
  destruct (_ <=? _); [done|]. cbn [snd]. unfold route_signal. cbn [room_event room_touch agents zookeepers].
  destruct (role_in _ s); [|done]. destruct (role_in _ p); [|done]. cbn. destruct (_ && _); [done|].
  assert (∀ r hd, room_side room r !! p = Some hd → member inner h r p hd) as Hm.
  { intros r hd Hs. apply (member_prune config inner now). by exists room. }
  destruct (agents room !! p) as [hd|] eqn:Ea.
  - cbn. intros [= <- <-]. split; [done|]. exists Agent. by apply Hm.
  - destruct (zookeepers room !! p) as [hd|] eqn:Ez; [|done]. cbn. intros [= <- <-].
    split; [done|]. exists Zookeeper. by apply Hm.
Qed.

(** A message from a client: answers and signals only. *)
Lemma incoming_queued (w w0 : net) now c n m k :
  net_ok w → is_Some (queues w !! k) → queues w0 = queues w → penalties w0 = penalties w → shared w0 = shared w →
  ∃ l, queued w (handle_incoming_message config w0 now (conn_room c) (conn_id c) (Handle n n) m).1 k l ∧
    Forall neutral l.
Proof.
  intros Hok Hq Eq Ep Es.
  assert (∀ x, queues x = queues w → penalties x = penalties w → ∀ y l, queued x y k l → queued w y k l) as Hsame.
  { intros x Eqx Epx y l [P E]. split; [by rewrite <- Epx|]. unfold queue in *. by rewrite <- Eqx. }
  assert (∀ x m, queues x = queues w → penalties x = penalties w → neutral m →
    ∃ l, queued w (enqueue_local_message x (Handle n n) m).1 k l ∧ Forall neutral l) as Hl.
  { intros x m' Ex Epx Hm. eexists. split; [|by apply (for_task_neutral k (Handle n n))].
    apply (Hsame x Ex Epx). apply queued_local; [done|by rewrite Ex]. }
  assert (∃ l, queued w w0 k l ∧ Forall neutral l) as Hnone.
  { exists []. split; [|by constructor]. exact (Hsame w0 Eq Ep _ _ (queued_refl w0 k)). }
  destruct m as [text| | | |]; cbn; try done; try (by apply Hl).
  destruct (parse_client_message text) as [[| | | |peer payload|]|e]; try (by apply Hl).
  pose proof (forward_to_member (shared w0) now (conn_room c) (conn_id c) peer payload) as Hf.
  destruct (forward_signal _ _ _ _ _ _ _) as [i [[p msg]|e]]; [|by apply Hl].
  destruct (Hf p msg eq_refl) as (-> & r & Hm). rewrite Es in Hm. cbn [fst].
  eexists. split; [|by apply (for_task_neutral k p (ServerSignal (conn_id c) payload))]. apply (Hsame (set_shared w0 i) Eq Ep).
  apply queued_remote; [by eapply members_handles|cbn; by rewrite Eq].
Qed.

Lemma select_statics (w : net) now n c e k d :
  connections w !! n = Some c → connections (select_event config w now n c e).1 !! k = Some d →
  ∃ d', connections w !! k = Some d' ∧ conn_room d = conn_room d' ∧ conn_role d = conn_role d'.
Proof.
  intros Hc. assert (connections w !! k = Some d → ∃ d', connections w !! k = Some d' ∧
    conn_room d = conn_room d' ∧ conn_role d = conn_role d') as Hsame by (intros; by exists d).
  destruct e as [|sink_ok|m| |]; cbn; try done.
  - destruct (bool_decide _); [done|]. by destruct (_ <=? _).
  - destruct (queues w !! n) as [[|x q]|]; done.
  - rewrite connections_incoming. cbn. intros [[<- <-]|[_ Hd]]%lookup_insert_Some; [by exists c|by apply Hsame].
Qed.

Lemma select_members (w : net) now n c e h r id hd :
  member (shared (select_event config w now n c e).1) h r id hd ↔ member (shared w) h r id hd.
Proof.
  destruct e as [|sink_ok|m| |]; cbn; try done.
  - destruct (bool_decide _); [done|]. by destruct (_ <=? _).
  - destruct (queues w !! n) as [[|x q]|]; done.
  - assert (∀ (x : net) o m, shared (enqueue_local_message x o m).1 = shared x) as Hl.
    { intros x o m'. by destruct (sends_local x o m') as (-> & _). }
    destruct m as [text| | | |]; cbn; rewrite ?Hl; try done.
    destruct (parse_client_message text) as [[| | | |peer payload|]|err]; cbn; rewrite ?Hl; try done.
    rewrite <- (member_signal config (shared w) now (conn_room c) (conn_id c) peer payload).
    destruct (forward_signal _ _ _ _ _ _ _) as [i [[p msg]|e]]; cbn; [|by rewrite Hl].
    by destruct (sends_remote (set_shared (touch_connection w now n c) i) p msg) as (-> & _).
Qed.

(** One [select!], before the task may leave. *)
Lemma rosters_ok_select hist (w : net) now n c e :
  connections w !! n = Some c → rosters_ok hist w →
  rosters_ok (fun k => hist k ++ taken w (NetEvent n e) k) (select_event config w now n c e).1.
Proof.
  intros Hc Hr. pose proof (proj1 Hr) as Hok.
  destruct (select_event_ok config w now n c e Hc) as [Hturn _].
  assert (∀ k, is_Some (connections w !! k) → k ∉ penalties (select_event config w now n c e).1 →
    ∃ l, (hist k ++ taken w (NetEvent n e) k) ++ queue (select_event config w now n c e).1 k =
      (hist k ++ queue w k) ++ l ∧ Forall neutral l) as Hq.
  { intros k Hk. assert ((hist k ++ []) ++ queue w k = (hist k ++ queue w k) ++ []) as Hno by by rewrite !app_nil_r.
    destruct e as [|sink_ok|m| |]; cbn; try (by eauto).
    - destruct (bool_decide _); cbn; [by eauto|]. destruct (_ <=? _); by eauto.
    - destruct (queues w !! n) as [[|x q]|] eqn:E; cbn; intros _; exists []; (split; [|done]);
        rewrite !app_nil_r; case_decide as Hd; rewrite ?app_nil_r; try done.
      + destruct Hd as [-> _]. unfold queue. rewrite E. cbn. by rewrite app_nil_r.
      + destruct Hd as [-> _]. unfold queue. cbn. rewrite lookup_insert_eq, E. cbn. by rewrite <- app_assoc.
      + unfold queue. cbn. destruct (decide (n = k)) as [->|]; [tauto|]. by rewrite lookup_insert_ne.
      + destruct Hd as [-> _]. unfold queue. rewrite E. cbn. by rewrite app_nil_r.
    - intros Hp. destruct (incoming_queued w (touch_connection w now n c) now c n m k Hok
        (net_ok_queue w k Hok Hk) eq_refl eq_refl eq_refl) as (l & [_ E] & Hl).
      exists l. split; [|done]. rewrite E by done. by rewrite app_nil_r, app_assoc. }
  eapply rosters_ok_turn; [by eapply turns_ok|by destruct Hturn as (_ & _ & _ & -> & _)| |by apply select_members| | |exact Hq|exact Hr].
  - intros k Hk. cbn. destruct e; try (by rewrite app_nil_r). case_decide as Hd; [|by rewrite app_nil_r].
    destruct Hd as [-> Hs]. destruct Hok as (_ & _ & Hlt & _). apply Hlt in Hs. lia.
  - destruct e as [|sink_ok|m| |]; cbn; try done.
    + destruct (bool_decide _); [done|]. by destruct (_ <=? _).
    + destruct (queues w !! n) as [[|x q]|]; done.
    + destruct (incoming_queued w (touch_connection w now n c) now c n m n Hok
        (net_ok_queue w n Hok ltac:(by eexists)) eq_refl eq_refl eq_refl) as (l & [P _] & _). exact P.
  - intros k d Hd. by eapply select_statics.
Qed.

Lemma member_of (w : net) n c : net_ok w → connections w !! n = Some c →
  member (shared w) (conn_room c) (conn_role c) (conn_id c) (own_handle n).
Proof. intros (_ & _ & _ & Hm) Hc. apply Hm. by exists n, c. Qed.

Lemma rosters_ok_disconnect hist (w : net) now n c :
  connections w !! n = Some c → rosters_ok hist w → rosters_ok hist (disconnect config w now n c).
Proof.
  intros Hc (Hok & Hnew & Hr). split; [by apply net_ok_disconnect|].
  pose proof (member_of w n c Hok Hc) as Hown.
  destruct (unregister_messages (Value := Value) config (shared w) now _ _ _ _ Hown) as (hs & Egone & Hhs).
  pose proof (member_unregister (Value := Value) config (shared w) now (conn_room c) (conn_role c) (conn_id c)) as Hmem.
  unfold disconnect. destruct (unregister _ _ _ _ _ _) as [i gone]. cbn [fst snd] in Egone, Hmem. subst gone.
  set (w0 := set_shared w i). pose proof (sends_broadcast w0 (to_all hs (PeerLeft (conn_role c) (conn_id c))))
    as (Es & Ec & En & _ & _).
  split; cbn; rewrite ?En; [exact Hnew|]. intros k d Hd Hp z.
  rewrite Ec in Hd. apply lookup_delete_Some in Hd as [Hne Hd]. cbn in Hd.
  destruct (recipients w (conn_room c) (other (conn_role c)) hs k d Hok Hd Hhs) as [Hall Hrec].
  assert (is_Some (queues w0 !! k)) as Hq by (apply (net_ok_queue w); [done|by eexists]).
  destruct (queued_broadcast (PeerLeft (conn_role c) (conn_id c)) k hs Hall w0 Hq) as [P E].
  unfold queue at 1. cbn [queues]. rewrite lookup_delete_ne by done. fold (queue (broadcast_all w0
    (to_all hs (PeerLeft (conn_role c) (conn_id c)))) k). rewrite E by done. rewrite app_assoc, roster_left.
  assert (k ∉ penalties w) as Hpw by (intros Hin; apply Hp, P; exact Hin).
  change (queue w0 k) with (queue w k). rewrite (Hr k d Hd Hpw), Hrec, Es. unfold in_room. cbn [w0 set_shared shared].
  setoid_rewrite Hmem. destruct (conn_role c), (conn_role d); cbn; naive_solver.
Qed.

Lemma rosters_ok_connect hist (w : net) now h r alias w' :
  connect config w now h r alias = Some w' → rosters_ok hist w → rosters_ok hist w'.
Proof.
  intros E (Hok & Hnew & Hr). split; [by eapply net_ok_connect|]. revert E. unfold connect.
  set (n := next_connection w).
  destruct (register _ _ _ _ _ _ _) as [[i [[id initial joined]|e]]|] eqn:Er; [..|done]; intros [= <-].
  2: { split; cbn; [intros k Hk; apply Hnew; lia|]. intros k d Hd Hp z. rewrite (Hr k d Hd Hp).
       unfold in_room. setoid_rewrite (register_refused _ _ _ _ _ _ _ _ _ Er). done. }
  destruct (register_messages config (shared w) now h r alias _ i id initial joined Er)
    as (ags & zks & hs & -> & -> & Hsnap & Hhs).
  apply member_register in Er as [Hfresh Hmem]. cbn [client_id initial_messages broadcasts].
  set (c := Connection h r id now). set (w0 := Net i (<[n := c]> (connections w)) (<[n := []]> (queues w)) _ _).
  set (w1 := set_queue w0 n [Connected id r ags zks]).
  assert (enqueue_initial w0 (Handle n n) [Connected id r ags zks] = w1) as ->.
  { cbn. unfold enqueue_local_message, try_send. cbn. by rewrite lookup_insert_eq. }
  pose proof (sends_broadcast w1 (to_all hs (PeerJoined r id))) as (Es & Ec & En & _ & _).
  split; rewrite ?En; cbn [w1 w0 set_queue next_connection]; [intros k Hk; apply Hnew; lia|].
  intros k d Hd Hp z. rewrite Ec in Hd. cbn [w1 w0 set_queue connections] in Hd.
  assert (Forall (fun hd => tx hd = penalized hd) hs) as Hall.
  { apply Forall_forall. intros hd [x Hx]%Hhs. by eapply members_handles. }
  assert (is_Some (queues w1 !! k)) as Hq.
  { cbn. apply lookup_insert_Some in Hd as [[<- _]|[Hne Hd]]; [by rewrite lookup_insert_eq|].
    rewrite !lookup_insert_ne by done. apply net_ok_queue; [done|by eexists]. }
  destruct (queued_broadcast (PeerJoined r id) k hs Hall w1 Hq) as [P E].
  rewrite E by done. rewrite app_assoc, roster_joined, Es. unfold in_room. cbn [w1 w0 set_queue shared].
  setoid_rewrite Hmem. apply lookup_insert_Some in Hd as [[<- <-]|[Hne Hd]].
  - assert (filter (fun hd => tx hd = n) hs = []) as ->.
    { destruct (filter _ hs) as [|hd l] eqn:Ef; [done|].
      assert (hd ∈ filter (fun hd => tx hd = n) hs) as Hin by (rewrite Ef; set_solver).
      apply list_elem_of_filter in Hin as [Htx [x Hx]%Hhs]. destruct Hok as (_ & _ & Hlt & Hm).
      apply Hm in Hx as (k & d & Hd & -> & _). cbn in Htx. subst k.
      assert (n < next_connection w)%nat as Hn by (apply Hlt; by eexists). unfold n in Hn. lia. }
    assert (hist n = []) as -> by by apply Hnew. unfold queue. cbn. rewrite lookup_insert_eq. cbn.
    rewrite union_empty_l_L, elem_of_list_to_set, Hsnap. unfold in_room. destruct r; cbn; naive_solver.
  - destruct (recipients w h (other r) hs k d Hok Hd Hhs) as [_ Hrec].
    assert (queue w1 k = queue w k) as -> by (unfold queue; cbn; by rewrite !lookup_insert_ne).
    rewrite (Hr k d Hd) by (intros Hin; apply Hp, P; exact Hin). rewrite Hrec. unfold in_room.
    destruct r, (conn_role d); cbn; naive_solver.
Qed.

Lemma rosters_ok_ext hist hist' (w : net) :
  (∀ n, hist' n = hist n) → rosters_ok hist w → rosters_ok hist' w.
Proof. intros E (Hok & Hnew & Hr). unfold rosters_ok. setoid_rewrite E. done. Qed.

Lemma rosters_ok_step hist (w : net) now o w' :
  net_step config w now o = Some w' → rosters_ok hist w →
  rosters_ok (fun n => hist n ++ taken w o n) w'.
Proof.
  intros E Hr. assert ((∀ n, taken w o n = []) → rosters_ok hist w' →
    rosters_ok (fun n => hist n ++ taken w o n) w') as Hno.
  { intros Ht (Hok & Hnew & Hr'). unfold rosters_ok. setoid_rewrite Ht. setoid_rewrite app_nil_r. done. }
  destruct o as [h r alias|n e|o]; cbn [net_step] in E.
  - apply Hno; [done|]. by eapply rosters_ok_connect.
  - destruct (connections w !! n) as [c|] eqn:Hc.
    2: { injection E as <-. apply Hno; [|done]. intros k. cbn. destruct e; try done.
         case_decide as Hd; [|done]. destruct Hd as [-> [? Hs]]. congruence. }
    pose proof (rosters_ok_select hist w now n c e Hc Hr) as Hsel.
    destruct (select_event_ok config w now n c e Hc) as (_ & c' & Hc' & E1 & E2 & E3).
    destruct (select_event config w now n c e) as [w1 []]; cbn [fst] in *; injection E as <-; [done|].
    pose proof (rosters_ok_disconnect _ w1 now n c' Hc' Hsel) as Hd.
    unfold disconnect in *. by rewrite E1, E2, E3 in Hd.
  - apply Hno; [done|]. destruct (is_handshake_op o) eqn:Eo; [|by injection E as <-].
    destruct (step config (shared w) now o) as [i|] eqn:Es; [|done]. cbn in E. injection E as <-.
    assert (∀ h r id hd, member i h r id hd ↔ member (shared w) h r id hd) as Hm
      by (intros; by eapply member_handshake).
    eapply (rosters_ok_turn hist hist w); try done.
    + apply net_ok_shared; [done|exact (proj1 Hr)].
    + intros k d Hd. by exists d.
    + intros k _ _. exists []. by rewrite app_nil_r.
Qed.

Lemma rosters_ok_run ops : ∀ hist (w w' : net), net_run config w ops = Some w' →
  rosters_ok hist w → rosters_ok (fun n => hist n ++ received w ops n) w'.
Proof.
  induction ops as [|[now o] ops IH]; intros hist w w' E Hr.
  - injection E as <-. eapply rosters_ok_ext; [|exact Hr]. intros n. cbn. by rewrite app_nil_r.
  - unfold net_run in E. cbn in E. destruct (net_step config w now o) as [w1|] eqn:E1; [|done].
    eapply rosters_ok_ext; [|exact (IH _ w1 w' E (rosters_ok_step hist w now o w1 E1 Hr))].
    intros n. cbn [received]. by rewrite E1, app_assoc.
Qed.

Lemma rosters_ok_new : rosters_ok (fun _ => []) (net_new (Value := Value)).
Proof. split; [apply net_new_ok|]. split; [done|]. intros n c Hc. cbn in Hc. by rewrite lookup_empty in Hc. Qed.

Lemma net_run_rosters ops (w : net) : net_run config net_new ops = Some w →
  rosters_ok (received net_new ops) w.
Proof. intros E. exact (rosters_ok_run ops _ _ _ E rosters_ok_new). Qed.

(** One worker thread: whatever connections come, go and talk, a client that
    was never penalised is told who is there.  What its socket was given and
    what its queue still holds, taken together, announce and take back exactly
    the clients of the other role now connected to its room. *)
Theorem client_is_told_who_is_there (ops : list (Z * net_op (Value := Value))) (w : net) (n : nat)
    (c : connection) (Hrun : net_run config net_new ops = Some w)
    (Hc : connections w !! n = Some c) (Hp : n ∉ penalties w) :
  ∀ z, z ∈ roster (conn_role c) (received net_new ops n ++ queue w n) ↔
    ∃ k d, connections w !! k = Some d ∧
      conn_room d = conn_room c ∧ conn_role d = other (conn_role c) ∧ conn_id d = z.
Proof.
  intros z. destruct (net_run_rosters ops w Hrun) as ((_ & _ & _ & Hm) & _ & Hr).
  rewrite (Hr n c Hc Hp). unfold in_room. setoid_rewrite Hm. naive_solver.
Qed.

End Heard.

(** ** What the agent makes of it *)

Section AgentPeers.
Context {Value : Type} `{ClientCodec Value, ServerCodec Value}.
Context (config : SecurityConfig).
Notation Message := (ServerMessage Value).

(** The message [a] is what the agent reads for [m], whose payload it can
    read if [m] is a signal. *)
Definition agent_reads (m : Message) (a : Agent.ServerMessage) : Prop :=
  match m with
  | ServerSignal peer _ => ∃ payload, a = Agent.ServerSignal peer payload
  | _ => from_server m = Some a
  end.

Lemma enter_all_set zs : ∀ X, (enter_all X zs).1 = X ∪ list_to_set zs.
Proof.
  induction zs as [|z zs IH]; intros X; cbn; [set_solver|].
  specialize (IH (enter X z).1). destruct (enter X z) as [Y e] eqn:E. cbn in IH.
  destruct (enter_all Y zs) as [Y' e'] eqn:E'. cbn in IH |- *. unfold enter in E. case_decide; simplify_eq; set_solver.
Qed.

Lemma follow_hears m a X : agent_reads m a → (follow X a).1 = hear Agent X m.
Proof.
  destruct m as [| | |id r ags zks|r id|r id|p v|e|]; cbn; try (by intros [= <-]).
  - intros [= <-]. cbn. apply enter_all_set.
  - intros [= <-]. cbn. destruct r; cbn; [done|]. unfold enter. case_decide; cbn; set_solver.
  - intros [= <-]. by destruct r.
  - by intros [payload ->].
Qed.

Lemma follow_all_hears ms az : Forall2 agent_reads ms az → ∀ X,
  (follow_all X az).1 = foldl (hear Agent) X ms.
Proof.
  induction 1 as [|m a ms az Hm Hms IH]; intros X; [done|]. cbn.
  rewrite <- (follow_hears m a X Hm). destruct (follow X a) as [Y e]. specialize (IH Y).
  destruct (follow_all Y az) as [Y' e']. exact IH.
Qed.

(** Who is present has entered. *)
Lemma entered_all zs : ∀ X z, z ∈ (enter_all X zs).1 → z ∈ X ∨ z ∈ (enter_all X zs).2.
Proof.
  induction zs as [|y zs IH]; intros X z; cbn; [auto|].
  specialize (IH (enter X y).1 z). destruct (enter X y) as [Y e] eqn:E. cbn in IH.
  destruct (enter_all Y zs) as [Y' e'] eqn:E'. cbn in IH |- *. intros [HY|He]%IH; [|set_solver].
  unfold enter in E. case_decide; simplify_eq; set_solver.
Qed.

Lemma entered_one X a z : z ∈ (follow X a).1 → z ∈ X ∨ z ∈ (follow X a).2.
Proof.
  destruct a as [| | |id ags zks|[] id|[] id| | |]; cbn; auto.
  - apply entered_all.
  - unfold enter. case_decide; cbn; set_solver.
  - set_solver.
Qed.

Lemma entered az : ∀ X z, z ∈ (follow_all X az).1 → z ∈ X ∨ z ∈ (follow_all X az).2.
Proof.
  induction az as [|a az IH]; intros X z; cbn; [auto|].
  pose proof (entered_one X a z) as H1. destruct (follow X a) as [Y e]. specialize (IH Y z).
  destruct (follow_all Y az) as [Y' e']. cbn in *. set_solver.
Qed.

(** C31. One worker thread: whatever connections come, go and talk, an agent
    that was not penalised and has handled all it was sent, from the
    [Connected] that ends its handshake on, has as its peers exactly the
    zookeepers now connected to its room, and has sent each of them an offer
    (where WebRTC does not fail and it can read the signals' payloads). *)
Theorem agent_peers_are_room (sdp : string → string) (calls : string → peer_calls)
    (accept_answer : string → string → result string ())
    (Hcalls : ∀ z, calls z = PeerCalls (Ok ()) (Ok ()) (Ok ()) (Ok ()) (Some (sdp z)))
    (Hanswer : ∀ z a, accept_answer z a = Ok ())
    (ops : list (Z * net_op (Value := Value))) (w : net) (n : nat) (c : connection)
    (Hrun : net_run config net_new ops = Some w) (Hc : connections w !! n = Some c)
    (Hagent : conn_role c = Agent) (Hp : n ∉ penalties w) (Hdrained : queue w n = [])
    (connected : Agent.ServerMessage) (messages : list Agent.ServerMessage)
    (Hreads : Forall2 agent_reads (received config net_new ops n) (connected :: messages))
    (store unsent : list RewardReport) :
  ∃ s, handle_messages calls accept_answer (begin_session calls accept_answer store unsent connected) messages
      = (s, Ok ()) ∧
    (∀ z, z ∈ dom (peers s) ↔ ∃ k d, connections w !! k = Some d ∧
      conn_room d = conn_room c ∧ conn_role d = Zookeeper ∧ conn_id d = z) ∧
    ∀ z, z ∈ dom (peers s) → offer_to sdp z ∈ signals s.
Proof.
  destruct (handle_messages_tracks sdp calls accept_answer Hcalls Hanswer (connected :: messages)
    (session_start store unsent)) as (s & Hs & Hpeers & Hsig).
  exists s. cbn [handle_messages] in Hs. unfold begin_session.
  destruct (handle_server_message _ _ _ connected) as [s1 [u|e]]; [|done]. split; [done|].
  pose proof (follow_all_hears _ _ Hreads (dom (peers (session_start store unsent)))) as Hf.
  assert (∀ z, z ∈ dom (peers s) ↔ ∃ k d, connections w !! k = Some d ∧
    conn_room d = conn_room c ∧ conn_role d = Zookeeper ∧ conn_id d = z) as Hz.
  { intros z. rewrite Hpeers, Hf.
    destruct (net_run_rosters config ops w Hrun) as ((_ & _ & _ & Hm) & _ & Hr).
    specialize (Hr n c Hc Hp z). rewrite Hdrained, app_nil_r, Hagent in Hr. cbn [other] in Hr.
    unfold roster in Hr. cbn [session_start peers]. rewrite dom_empty_L, Hr.
    unfold in_room. setoid_rewrite Hm. naive_solver. }
  split; [exact Hz|]. intros z Hin. rewrite Hpeers in Hin. apply entered in Hin as [Hin|Hin].
  - cbn in Hin. by rewrite dom_empty_L in Hin.
  - rewrite Hsig. apply elem_of_app. right. by apply list_elem_of_fmap_2.
Qed.

End AgentPeers.

Section Sample.
#[local] Existing Instance sample_client_codec.
#[local] Existing Instance sample_server_codec.

(** Two zookeepers come, the first goes, and the agent's socket takes all. *)
Definition visit_ops : list (Z * net_op (Value := unit)) :=
  [(1, NetHandshake (OpStoreRoom "room" [])); (2, NetConnect "room" Agent (Some "bob"));
   (3, NetConnect "room" Zookeeper (Some "eve")); (4, NetConnect "room" Zookeeper (Some "zoe"));
   (5, NetEvent 1 InboundEnd)] ++ replicate 4 (6, NetEvent 0 (Outbound true)).

Definition visit_net : net (Value := unit) := default net_new (net_run sample_config net_new visit_ops).

Lemma visit_runs : net_run sample_config net_new visit_ops = Some visit_net.
Proof. vm_compute. reflexivity. Qed.

Lemma client_is_told_who_is_there_witness :
  ∀ z, z ∈ roster Agent (received sample_config net_new visit_ops 0 ++ queue visit_net 0) ↔
    ∃ k d, connections visit_net !! k = Some d ∧
      conn_room d = "room" ∧ conn_role d = Zookeeper ∧ conn_id d = z.
Proof.
  exact (client_is_told_who_is_there sample_config visit_ops visit_net 0 (Connection "room" Agent "bob" 2)
    visit_runs ltac:(vm_compute; reflexivity) ltac:(vm_compute; discriminate)).
Defined.

Lemma agent_peers_are_room_witness :
  ∃ s, handle_messages (fun _ => webrtc_works) (fun _ _ => Ok ())
      (begin_session (fun _ => webrtc_works) (fun _ _ => Ok ()) [] [] (Agent.Connected "bob" [] []))
      [Agent.PeerJoined Agent.Zookeeper "eve"; Agent.PeerJoined Agent.Zookeeper "zoe";
       Agent.PeerLeft Agent.Zookeeper "eve"] = (s, Ok ()) ∧
    "zoe" ∈ dom (peers s).
Proof.
  destruct (agent_peers_are_room sample_config (fun _ => "sdp") (fun _ => webrtc_works) (fun _ _ => Ok ())
    (fun _ => eq_refl) (fun _ _ => eq_refl) visit_ops visit_net 0 (Connection "room" Agent "bob" 2)
    visit_runs ltac:(vm_compute; reflexivity) eq_refl ltac:(vm_compute; discriminate)
    ltac:(vm_compute; reflexivity) (Agent.Connected "bob" [] [])
    [Agent.PeerJoined Agent.Zookeeper "eve"; Agent.PeerJoined Agent.Zookeeper "zoe";
     Agent.PeerLeft Agent.Zookeeper "eve"] ltac:(vm_compute; repeat constructor) [] []) as (s & Hs & Hz & _).
  exists s. split; [exact Hs|]. apply Hz. exists 2%nat, (Connection "room" Zookeeper "zoe" 4).
  vm_compute. repeat split.
Defined.
End Sample.

(** ** Two worker threads *)

(** The agent has logged in and a zookeeper that joins at that moment is
    announced to it before its [Connected] (see [race_ops]).  The agent takes
    the announcement for a failed authentication, an error after which it does
    not reconnect. *)
Theorem announcement_ends_agent {Value} `{ClientCodec Value, ServerCodec Value, AgentCodec, !SameProtocol,
    Opaque, Base64} (entropy_at : nat → entropy) (send_frame : nat → result string ()) (s : auth_state) :
  ∃ t announcement rest text,
    task_run (Value := Value) sample_config tasks_new race_ops = Some t ∧
    queue (net_of t) 0 = announcement :: rest ∧ server_message_to_string announcement = Ok text ∧
    ∀ frames, ∃ e, handle_frames entropy_at send_frame (Ok (Agent.WsText text) :: frames) s = (s, Err e) ∧
      is_retryable e = false.
Proof.
  destruct (server_text (Value := Value) (PeerJoined Zookeeper "eve") _ eq_refl) as (text & Hsent & Hread).
  exists (default tasks_new (task_run (Value := Value) sample_config tasks_new race_ops)),
    (PeerJoined Zookeeper "eve"), [Connected "bob" Agent [] []], text.
  split; [vm_compute; reflexivity|]. split; [vm_compute; reflexivity|]. split; [exact Hsent|].
  intros frames. eexists. split.
  - cbn [handle_frames]. unfold handle_frame, lift. cbn. rewrite Hread. reflexivity.
  - reflexivity.
Qed.

Lemma announcement_ends_agent_witness :
  ∃ t announcement rest text,
    @task_run SignalingPayload digit_client digit_server sample_config tasks_new race_ops = Some t ∧
    queue (net_of t) 0 = announcement :: rest ∧ @server_message_to_string _ digit_server announcement = Ok text.
Proof.
  destruct (@announcement_ends_agent SignalingPayload digit_client digit_server digit_agent digit_protocol
    plain_opaque plain_base64 (fun _ => ()) (fun _ => Ok ()) (AuthState (Client [] None None) 0 []))
    as (t & m & rest & text & Ht & Hq & Hm & _).
  exists t, m, rest, text. exact (conj Ht (conj Hq Hm)).
Defined.
