(* ===== verification/StreamBridge.v ===== *)
(** * Component streams over bounded channels: [mitb-host/src/stream_bridge.rs]

    [tokio::sync::mpsc] channels, and the adapters that turn a receiver into a
    stream the guest reads and a stream the guest writes into a sender. *)

From S2P Require Export HostTypes.

(** ** Bounded channels *)

(** The items queued, the capacity, and whether each end still exists. *)
Record channel (T : Type) := Chan { queue : list T; capacity : nat; has_sender : bool; has_receiver : bool }.
Arguments Chan {T}.
Arguments queue {T}.
Arguments capacity {T}.
Arguments has_sender {T}.
Arguments has_receiver {T}.

Definition set_queue {T} (ch : channel T) (q : list T) : channel T :=
  Chan q (capacity ch) (has_sender ch) (has_receiver ch).

Definition new_channel {T} (capacity : nat) : channel T := Chan [] capacity true true.
Definition drop_sender {T} (ch : channel T) : channel T := Chan (queue ch) (capacity ch) false (has_receiver ch).
Definition drop_receiver {T} (ch : channel T) : channel T := Chan [] (capacity ch) (has_sender ch) false.

Inductive try_send_result (T : Type) : Type := Sent | Full (item : T) | Closed (item : T).
Arguments Sent {T}.
Arguments Full {T}.
Arguments Closed {T}.

Definition try_send {T} (ch : channel T) (item : T) : channel T * try_send_result T :=
  if negb (has_receiver ch) then (ch, Closed item)
  else if (length (queue ch) <? capacity ch)%nat then (set_queue ch (queue ch ++ [item]), Sent)
  else (ch, Full item).

Inductive poll (T : Type) : Type := Ready (a : T) | Pending.
Arguments Ready {T}.
Arguments Pending {T}.

Definition poll_recv {T} (ch : channel T) : channel T * poll (option T) :=
  match queue ch with
  | item :: rest => (set_queue ch rest, Ready (Some item))
  | [] => (ch, if has_sender ch then Pending else Ready None)
  end.

Definition channel_ok {T} (ch : channel T) : Prop := (length (queue ch) ≤ capacity ch)%nat.

(** ** Producing *)

Inductive stream_result : Type := Completed | Dropped | Cancelled.

#[export] Instance stream_result_eq_dec : EqDecision stream_result.
Proof. solve_decision. Defined.

(** The loop of [poll_produce]: the receiver, the buffer given to the
    destination and the answer.  The runtime may make a poll pending when the
    task has used up its [budget] of polls. *)
Fixpoint produce_loop {T} (budget count : nat) (rx : channel T) (buf : list T)
    : channel T * list T * poll stream_result :=
  let pending := (rx, buf, match buf with [] => Pending | _ => Ready Completed end) in
  match budget with
  | O => pending
  | S budget =>
    match poll_recv rx with
    | (rx, Ready (Some item)) =>
      let buf := buf ++ [item] in
      if (count <=? length buf)%nat then (rx, buf, Ready Completed) else produce_loop budget count rx buf
    | (rx, Ready None) => (rx, buf, Ready Dropped)
    | (_, Pending) => pending
    end
  end.

Definition poll_produce {T} (budget : nat) (remaining : option nat) (rx : channel T)
    : channel T * list T * poll stream_result :=
  let count := default 32%nat remaining in
  if (count =? 0)%nat then (rx, [], Ready Completed) else produce_loop budget count rx [].

(** ** Consuming *)

Record MpscStreamConsumer (T : Type) := Consumer { tx : channel T; pending : list T }.
Arguments Consumer {T}.
Arguments tx {T}.
Arguments pending {T}.

Definition consumer_new {T} (tx : channel T) : MpscStreamConsumer T := Consumer tx [].

(** The loop that sends the items put aside. *)
Fixpoint send_pending {T} (tx : channel T) (items : list T) : MpscStreamConsumer T * option (poll stream_result) :=
  match items with
  | [] => (Consumer tx [], None)
  | item :: items =>
    match try_send tx item with
    | (tx, Sent) => send_pending tx items
    | (tx, Full item) => (Consumer tx (item :: items), Some Pending)
    | (tx, Closed _) => (Consumer tx items, Some (Ready Dropped))
    end
  end.

(** The loop over the items read from the source. *)
Fixpoint send_items {T} (tx : channel T) (pending : list T) (items : list T)
    : MpscStreamConsumer T * poll stream_result :=
  match items with
  | [] => (Consumer tx pending, Ready Completed)
  | item :: items =>
    match try_send tx item with
    | (tx, Sent) => send_items tx pending items
    | (tx, Full item) => (Consumer tx ((pending ++ [item]) ++ items), Pending)
    | (tx, Closed _) => (Consumer tx pending, Ready Dropped)
    end
  end.

(** The consumer, what is left in the source, and the answer. *)
Definition poll_consume {T} (c : MpscStreamConsumer T) (source : list T) (finish : bool)
    : MpscStreamConsumer T * list T * poll stream_result :=
  match send_pending (tx c) (pending c) with
  | (c, Some answer) => (c, source, answer)
  | (c, None) =>
    if (0 <? length source)%nat then
      let '(c, answer) := send_items (tx c) (pending c) source in (c, [], answer)
    else (c, source, Ready (if finish then Cancelled else Completed))
  end.

(** ** Nothing is lost or reordered *)

Section Spec.
Context {T : Type}.

Lemma produce_loop_spec budget count (rx : channel T) buf :
  (length buf < count)%nat →
  let '(rx', buf', answer) := produce_loop budget count rx buf in
  ∃ taken, buf' = buf ++ taken ∧ queue rx = taken ++ queue rx' ∧ (length buf' ≤ count)%nat ∧
    capacity rx' = capacity rx ∧ has_sender rx' = has_sender rx ∧ has_receiver rx' = has_receiver rx ∧
    match answer with
    | Ready Completed => buf' ≠ []
    | Ready Dropped => has_sender rx = false ∧ queue rx' = []
    | Ready Cancelled => False
    | Pending => buf' = [] ∧ (queue rx ≠ [] → budget = 0%nat)
    end.
Proof.
  revert rx buf. induction budget as [|budget IH]; intros rx buf Hl; cbn [produce_loop].
  { exists []. rewrite app_nil_r. split_and!; try done; [lia|]. by destruct buf. }
  unfold poll_recv. destruct (queue rx) as [|item rest] eqn:Eq.
  - destruct (has_sender rx) eqn:Es; cbn.
    + exists []. rewrite app_nil_r, Eq. split_and!; try done; [lia|]. by destruct buf.
    + exists []. rewrite app_nil_r, Eq. split_and!; try done. lia.
  - destruct (count <=? _)%nat eqn:E; zb; rewrite length_app in E; cbn in E.
    + exists [item]. cbn. rewrite length_app. cbn. split_and!; try done; [lia|]. by destruct buf.
    + specialize (IH (set_queue rx rest) (buf ++ [item])). rewrite length_app in IH. cbn in IH.
      specialize (IH ltac:(lia)).
      destruct (produce_loop _ _ _ _) as [[rx' buf'] answer]. destruct IH as (taken & -> & -> & Hc & ? & ? & ? & Ha).
      exists (item :: taken). rewrite <- app_assoc in *. cbn in *. split_and!; try done.
      destruct answer as [[]|]; try done. destruct Ha as [Ha _]. by destruct buf.
Qed.

(** Polling the stream of a receiver takes items off the front of the
    queue in order, at most as many as the guest asks for, and loses none; it
    ends the stream only when every item has been taken and no sender is left,
    and it waits only when nothing was there to take (or the task used up its
    budget), in which case it takes nothing. *)
Theorem poll_produce_spec (budget : nat) (remaining : option nat) (rx : channel T) :
  let '(rx', buf, answer) := poll_produce budget remaining rx in
  queue rx = buf ++ queue rx' ∧ (length buf ≤ default 32%nat remaining)%nat ∧
  match answer with
  | Ready Completed => remaining = Some 0%nat ∨ buf ≠ []
  | Ready Dropped => has_sender rx = false ∧ queue rx' = []
  | Ready Cancelled => False
  | Pending => buf = [] ∧ (queue rx ≠ [] → budget = 0%nat)
  end.
Proof.
  unfold poll_produce. destruct (_ =? 0)%nat eqn:E; zb.
  { split_and!; try done; [cbn; lia|]. destruct remaining; cbn in E; [subst; by left|lia]. }
  pose proof (produce_loop_spec budget (default 32%nat remaining) rx []) as Hp.
  specialize (Hp ltac:(cbn; lia)). destruct (produce_loop _ _ _ _) as [[rx' buf] answer].
  destruct Hp as (taken & -> & Hq & Hl & _ & _ & _ & Ha). split_and!; try done.
  destruct answer as [[]|]; try done. by right.
Qed.

Lemma try_send_spec (ch : channel T) item :
  channel_ok ch →
  let '(ch', r) := try_send ch item in
  channel_ok ch' ∧ capacity ch' = capacity ch ∧ has_receiver ch' = has_receiver ch ∧ has_sender ch' = has_sender ch ∧
  match r with
  | Sent => queue ch' = queue ch ++ [item] ∧ has_receiver ch = true
  | Full i => ch' = ch ∧ i = item ∧ has_receiver ch = true ∧ length (queue ch) = capacity ch
  | Closed i => ch' = ch ∧ i = item ∧ has_receiver ch = false
  end.
Proof.
  unfold try_send, channel_ok. intros Hok. destruct (has_receiver ch) eqn:Er; cbn; [|done].
  destruct (_ <? _)%nat eqn:E; zb; cbn; [|split_and!; try done; lia].
  rewrite length_app. cbn. split_and!; try done. lia.
Qed.

Lemma send_pending_spec items : ∀ ch : channel T, channel_ok ch → has_receiver ch = true →
  let '(c, r) := send_pending ch items in
  channel_ok (tx c) ∧ has_receiver (tx c) = true ∧ capacity (tx c) = capacity ch ∧
  queue (tx c) ++ pending c = queue ch ++ items ∧
  match r with
  | None => pending c = []
  | Some Pending => pending c ≠ [] ∧ length (queue (tx c)) = capacity ch
  | Some (Ready _) => False
  end.
Proof.
  induction items as [|item items IH]; intros ch Hok Hr; cbn; [done|].
  pose proof (try_send_spec ch item Hok) as Hs. destruct (try_send ch item) as [ch' [|i|i]].
  - destruct Hs as (Hok' & Hcap & Hr' & _ & Hq & _). rewrite Hr in Hr'. specialize (IH ch' Hok' Hr').
    destruct (send_pending _ _) as [c r]. rewrite Hcap, Hq, <- app_assoc in IH. exact IH.
  - destruct Hs as (Hok' & _ & _ & _ & -> & -> & _ & Hf). cbn. by split_and!.
  - destruct Hs as (_ & _ & _ & _ & _ & _ & Hf). congruence.
Qed.

Lemma send_items_spec items : ∀ (ch : channel T), channel_ok ch → has_receiver ch = true →
  let '(c, r) := send_items ch [] items in
  channel_ok (tx c) ∧ has_receiver (tx c) = true ∧ capacity (tx c) = capacity ch ∧
  queue (tx c) ++ pending c = queue ch ++ items ∧
  match r with
  | Pending => pending c ≠ [] ∧ length (queue (tx c)) = capacity ch
  | Ready r => r = Completed ∧ pending c = []
  end.
Proof.
  induction items as [|item items IH]; intros ch Hok Hr; cbn; [done|].
  pose proof (try_send_spec ch item Hok) as Hs. destruct (try_send ch item) as [ch' [|i|i]].
  - destruct Hs as (Hok' & Hcap & Hr' & _ & Hq & _). rewrite Hr in Hr'. specialize (IH ch' Hok' Hr').
    destruct (send_items _ _ _) as [c r]. rewrite Hcap, Hq, <- app_assoc in IH. exact IH.
  - destruct Hs as (Hok' & _ & _ & _ & -> & -> & _ & Hf). cbn. by split_and!.
  - destruct Hs as (_ & _ & _ & _ & _ & _ & Hf). congruence.
Qed.

(** While the channel's receiver exists, consuming what the guest writes
    neither loses nor reorders an item - queue, items put aside and source
    together stay what they were - and never exceeds the channel's capacity; it
    is pending exactly when items had to be put aside because the channel is
    full, and otherwise everything the guest offered is in the queue. *)
Theorem poll_consume_spec (c : MpscStreamConsumer T) (source : list T) (finish : bool)
    (Hok : channel_ok (tx c)) (Hrx : has_receiver (tx c) = true) :
  let '(c', source', answer) := poll_consume c source finish in
  channel_ok (tx c') ∧ has_receiver (tx c') = true ∧ capacity (tx c') = capacity (tx c) ∧
  queue (tx c') ++ pending c' ++ source' = queue (tx c) ++ pending c ++ source ∧
  match answer with
  | Pending => pending c' ≠ [] ∧ length (queue (tx c')) = capacity (tx c)
  | Ready r => pending c' = [] ∧ source' = [] ∧ r = (if finish && bool_decide (source = []) then Cancelled else Completed)
  end.
Proof.
  unfold poll_consume. pose proof (send_pending_spec (pending c) (tx c) Hok Hrx) as Hp.
  destruct (send_pending _ _) as [c1 [[r|]|]]; destruct Hp as (Hok1 & Hr1 & Hcap1 & Hq1 & H1); [done| |].
  { split_and!; try done; try apply H1. by rewrite !app_assoc, Hq1. }
  rewrite H1, app_nil_r in Hq1. destruct source as [|a source].
  { change (0 <? length (@nil T))%nat with false. cbn. rewrite H1, Hq1, !app_nil_r. split_and!; try done. by destruct finish. }
  change (0 <? length (a :: source))%nat with true. cbv iota. rewrite H1.
  pose proof (send_items_spec (a :: source) (tx c1) Hok1 Hr1) as Hs.
  destruct (send_items _ _ _) as [c2 r]. destruct Hs as (Hok2 & Hr2 & Hcap2 & Hq2 & H2).
  split_and!; try done; [congruence| |].
  - by rewrite app_nil_r, Hq2, Hq1, <- app_assoc.
  - rewrite <- Hcap1. destruct r as [r|]; [|done]. destruct H2 as [-> ->]. split_and!; try done. by destruct finish.
Qed.
End Spec.

Lemma poll_consume_spec_witness :
  ∃ c, poll_consume (Consumer (Chan [1; 2] 3 true true) []) [3; 4; 5] false = (c, [], Pending) ∧
    queue (tx c) = [1; 2; 3] ∧ pending c = [4; 5] ∧ channel_ok (tx c).
Proof.
  pose proof (poll_consume_spec (Consumer (Chan [1; 2] 3 true true) []) [3; 4; 5] false ltac:(cbv; lia) eq_refl) as Hs.
  destruct (poll_consume _ _ _) as [[c source] answer] eqn:E. exists c.
  destruct Hs as (Hok & _ & _ & Hq & _). vm_compute in E. injection E as <- <- <-. by split_and!.
Defined.
