(* ===== verification/HostChild.v ===== *)
(** * Child processes of the policy: [mitb-host/src/lib.rs]

    Spawning a child for the guest, the tasks that move its output and input,
    and the waiting for and killing of it by any number of calls at once.  The
    operating system's answers are arbitrary. *)

From S2P Require Export StreamBridge.

(** ** Spawning *)

(** [std::process::ExitStatus]: whether it is a success, and its code. *)
Record std_status := StdStatus { std_success : bool; std_code : option Z }.

(** [code as u32] of an [i32]. *)
Definition exit_status_from_std (status : std_status) : exit_status :=
  ExitStatus (std_success status) (wrap_u32 <$> std_code status).

Definition spawn_error_kind_for_io (error : io_error) : spawn_error_kind :=
  match kind error with
  | NotFound => SpawnNotFound
  | PermissionDeniedKind => SpawnPermissionDenied
  | InvalidInput => SpawnInvalidCommand
  | OtherKind => SpawnOther
  | Interrupted | AnotherKind _ => SpawnIo
  end.

Definition spawn_disabled_error : spawn_error :=
  SpawnError SpawnPermissionDenied "process spawning disabled by host configuration".

(** The pipes of a child the system has spawned. *)
Record pipes := Pipes { has_stdin : bool; has_stdout : bool; has_stderr : bool }.

(** [spawn_process_child] up to the tasks it starts: [command_spawn] is the
    system's answer. *)
Definition spawn_process_child (command_spawn : string → list string → result io_error pipes)
    (name : string) (args : list string) : result spawn_error () :=
  if str_is_empty (trim name) then Err (SpawnError SpawnInvalidCommand "process name cannot be empty")
  else
    child ← map_err (fun error => SpawnError (spawn_error_kind_for_io error)
      ("failed spawning process `" +:+ name +:+ "`: " +:+ io_message error)) (command_spawn name args);
    let missing stream := Err (SpawnError SpawnOther ("process `" +:+ name +:+ "` did not expose " +:+ stream)) in
    if negb (has_stdin child) then missing "stdin"
    else if negb (has_stdout child) then missing "stdout"
    else if negb (has_stderr child) then missing "stderr"
    else Ok ().

(** [HostWithStore::spawn]: the commands given to the system, and the answer. *)
Definition spawn (disable_spawn : bool) (command_spawn : string → list string → result io_error pipes)
    (name : string) (args : list string) : list (string * list string) * result spawn_error () :=
  if disable_spawn then ([], Err spawn_disabled_error)
  else (if str_is_empty (trim name) then [] else [(name, args)], spawn_process_child command_spawn name args).

(** A receiver that can be taken once; the slot's mutex may be poisoned. *)
Definition take_stream_receiver {R} (poisoned : bool) (slot : option R) (stream_name : string)
    : option R * result string R :=
  if poisoned then (slot, Err (stream_name +:+ " stream lock poisoned"))
  else match slot with
  | Some receiver => (None, Ok receiver)
  | None => (None, Err (stream_name +:+ " stream already taken"))
  end.

(** ** Waiting and killing *)

Definition CHILD_WAIT_POLL : Z := from_millis 50.

(** A call of [wait_for_child], possibly under [wait_for_child_timeout]: where
    it is in its loop, or what it has returned. *)
Inductive waiter_pc : Type :=
| AtExitCheck
| AtPoll
| AtStore (status : exit_status)
| Waiting
| Returned (r : result string exit_status)
| TimedOut.

Record waiter := Waiter { with_timeout : bool; pc : waiter_pc }.

(** A call of [kill_child]. *)
Inductive killer : Type :=
| KillExitCheck
| KillPoll
| KillReturned (r : result string ()).

Record control := Control {
  exit : option (result string exit_status);
  waiters : list waiter;
  killers : list killer;
  kills : nat;
}.

Definition set_pc (p : waiter_pc) (w : waiter) : waiter := Waiter (with_timeout w) p.
Definition set_waiters (c : control) (l : list waiter) : control := Control (exit c) l (killers c) (kills c).
Definition set_killers (c : control) (l : list killer) (n : nat) : control := Control (exit c) (waiters c) l n.

(** [exit_notify.notify_waiters()]: the calls that are waiting check again. *)
Definition notify_waiters (l : list waiter) : list waiter :=
  (fun w => match pc w with Waiting => set_pc AtExitCheck w | _ => w end) <$> l.

Definition try_wait_error (error : io_error) : string := "failed polling child exit status: " +:+ io_message error.

(** The sections of [wait_for_child] between its waits, for the call [i]. *)
Definition wait_exit_check (c : control) (i : nat) : option control :=
  w ← waiters c !! i;
  match pc w with
  | AtExitCheck =>
    Some (set_waiters c (<[i := set_pc (match exit c with Some result => Returned result | None => AtPoll end) w]>
                           (waiters c)))
  | _ => None
  end.

Definition wait_poll (c : control) (i : nat) (try_wait : result io_error (option std_status)) : option control :=
  w ← waiters c !! i;
  match pc w with
  | AtPoll =>
    let p := match map_err try_wait_error try_wait with
             | Err e => Returned (Err e)
             | Ok (Some status) => AtStore (exit_status_from_std status)
             | Ok None => Waiting
             end in
    Some (set_waiters c (<[i := set_pc p w]> (waiters c)))
  | _ => None
  end.

Definition store_child_exit (c : control) (i : nat) : option control :=
  w ← waiters c !! i;
  match pc w with
  | AtStore status =>
    Some (match exit c with
          | Some existing => set_waiters c (<[i := set_pc (Returned existing) w]> (waiters c))
          | None =>
            let result := Ok status in
            Control (Some result) (notify_waiters (<[i := set_pc (Returned result) w]> (waiters c)))
              (killers c) (kills c)
          end)
  | _ => None
  end.

(** The sleep of [CHILD_WAIT_POLL] ends. *)
Definition wait_wake (c : control) (i : nat) : option control :=
  w ← waiters c !! i;
  match pc w with
  | Waiting => Some (set_waiters c (<[i := set_pc AtExitCheck w]> (waiters c)))
  | _ => None
  end.

(** The timeout of [wait_for_child_timeout] elapses: the call is dropped. *)
Definition wait_elapsed (c : control) (i : nat) : option control :=
  w ← waiters c !! i;
  match pc w with
  | Returned _ | TimedOut => None
  | _ => if with_timeout w then Some (set_waiters c (<[i := set_pc TimedOut w]> (waiters c))) else None
  end.

(** What the call answers the guest, once it has. *)
Definition wait_answer (w : waiter) : option (result string (option exit_status)) :=
  match pc w with
  | Returned r => Some (Some <$> r)
  | TimedOut => Some (Ok None)
  | _ => None
  end.

Definition kill_exit_check (c : control) (j : nat) : option control :=
  k ← killers c !! j;
  match k with
  | KillExitCheck =>
    Some (set_killers c (<[j := match exit c with Some _ => KillReturned (Ok ()) | None => KillPoll end]> (killers c)) (kills c))
  | _ => None
  end.

Definition kill_poll (c : control) (j : nat) (try_wait : result io_error (option std_status))
    (start_kill : result io_error ()) : option control :=
  k ← killers c !! j;
  match k with
  | KillPoll =>
    Some (match map_err (fun e => "failed polling child before kill: " +:+ io_message e) try_wait with
          | Err e => set_killers c (<[j := KillReturned (Err e)]> (killers c)) (kills c)
          | Ok (Some _) => set_killers c (<[j := KillReturned (Ok ())]> (killers c)) (kills c)
          | Ok None =>
            set_killers c (<[j := KillReturned (map_err (fun e => "failed killing child process: " +:+ io_message e) start_kill)]>
                             (killers c)) (S (kills c))
          end)
  | _ => None
  end.

Inductive control_op : Type :=
| NewWait (timeout : bool)
| WaitExitCheck (i : nat)
| WaitPoll (i : nat) (try_wait : result io_error (option std_status))
| StoreExit (i : nat)
| WaitWake (i : nat)
| WaitElapsed (i : nat)
| NewKill
| KillCheck (j : nat)
| KillPollOp (j : nat) (try_wait : result io_error (option std_status)) (start_kill : result io_error ()).

Definition control_step (c : control) (o : control_op) : option control :=
  match o with
  | NewWait timeout => Some (set_waiters c (waiters c ++ [Waiter timeout AtExitCheck]))
  | WaitExitCheck i => wait_exit_check c i
  | WaitPoll i try_wait => wait_poll c i try_wait
  | StoreExit i => store_child_exit c i
  | WaitWake i => wait_wake c i
  | WaitElapsed i => wait_elapsed c i
  | NewKill => Some (set_killers c (killers c ++ [KillExitCheck]) (kills c))
  | KillCheck j => kill_exit_check c j
  | KillPollOp j try_wait start_kill => kill_poll c j try_wait start_kill
  end.

Definition control_new : control := Control None [] [] 0.

(** ** All waits agree *)

Definition reported (ops : list control_op) (st : exit_status) : Prop :=
  ∃ i status, WaitPoll i (Ok (Some status)) ∈ ops ∧ st = exit_status_from_std status.

Definition waiter_ok (ops : list control_op) (exit : option (result string exit_status)) (w : waiter) : Prop :=
  match pc w with
  | Returned (Ok st) => exit = Some (Ok st)
  | Returned (Err e) => ∃ i err, WaitPoll i (Err err) ∈ ops ∧ e = try_wait_error err
  | AtStore st => reported ops st
  | TimedOut => with_timeout w = true
  | _ => True
  end.

Definition control_ok (ops : list control_op) (c : control) : Prop :=
  Forall (waiter_ok ops (exit c)) (waiters c) ∧
  ∀ r, exit c = Some r → ∃ st, r = Ok st ∧ reported ops st.

Lemma reported_snoc ops o st : reported ops st → reported (ops ++ [o]) st.
Proof. intros (i & status & Hin & ->). exists i, status. set_solver. Qed.

Lemma waiter_ok_snoc ops o exit w : waiter_ok ops exit w → waiter_ok (ops ++ [o]) exit w.
Proof.
  unfold waiter_ok. destruct (pc w) as [| |st| |[st|e]|]; try done.
  - apply reported_snoc.
  - intros (i & err & Hin & ->). exists i, err. set_solver.
Qed.

Lemma waiters_ok_snoc ops o exit l : Forall (waiter_ok ops exit) l → Forall (waiter_ok (ops ++ [o]) exit) l.
Proof. intros H. eapply Forall_impl; [exact H|]. intros w. apply waiter_ok_snoc. Qed.

Lemma waiters_insert ops exit l i w :
  Forall (waiter_ok ops exit) l → waiter_ok ops exit w → Forall (waiter_ok ops exit) (<[i := w]> l).
Proof. intros. by apply Forall_insert. Qed.

(** A result that appears is compatible with what the calls know. *)
Lemma waiter_ok_store ops w st : waiter_ok ops None w → waiter_ok ops (Some (Ok st)) w.
Proof. unfold waiter_ok. by destruct (pc w) as [| | | |[]|]. Qed.

Lemma notify_ok ops exit l : Forall (waiter_ok ops exit) l → Forall (waiter_ok ops exit) (notify_waiters l).
Proof.
  intros H. apply Forall_fmap. eapply Forall_impl; [exact H|]. intros w Hw. cbn. unfold waiter_ok in *. by destruct (pc w) eqn:E; rewrite ?E.
Qed.

Lemma control_step_ok ops c o c' :
  control_step c o = Some c' → control_ok ops c →
  control_ok (ops ++ [o]) c' ∧ (∀ r, exit c = Some r → exit c' = Some r).
Proof.
  intros Hs [Hw He].
  assert (∀ r, exit c = Some r → ∃ st, r = Ok st ∧ reported (ops ++ [o]) st) as He'.
  { intros r (st & -> & Hr)%He. exists st. split; [done|]. by apply reported_snoc. }
  pose proof (waiters_ok_snoc ops o _ _ Hw) as Hw'.
  assert (∀ i p w, waiters c !! i = Some w → waiter_ok (ops ++ [o]) (exit c) (set_pc p w) →
    control_ok (ops ++ [o]) (set_waiters c (<[i := set_pc p w]> (waiters c))) ∧
    (∀ r, exit c = Some r → exit c = Some r)) as Hset.
  { intros i p w _ Hp. split; [|done]. split; [|done]. by apply waiters_insert. }
  destruct o as [timeout|i|i try_wait|i|i|i| |j|j try_wait start_kill]; cbn in Hs.
  - injection Hs as <-. split; [|done]. split; [|done]. apply Forall_app. split; [done|]. by repeat constructor.
  - unfold wait_exit_check in Hs. destruct (waiters c !! i) as [w|] eqn:Hi; [|done]. cbn in Hs.
    destruct (pc w); try done. injection Hs as <-. apply Hset; [done|]. unfold waiter_ok. cbn.
    destruct (exit c) as [r|] eqn:E; [|done]. destruct (He r eq_refl) as (st & -> & _). done.
  - unfold wait_poll in Hs. destruct (waiters c !! i) as [w|] eqn:Hi; [|done]. cbn in Hs.
    destruct (pc w); try done. injection Hs as <-. apply Hset; [done|]. unfold waiter_ok. cbn.
    destruct try_wait as [[status|]|err]; cbn; [|done|].
    + exists i, status. set_solver.
    + exists i, err. set_solver.
  - unfold store_child_exit in Hs. destruct (waiters c !! i) as [w|] eqn:Hi; [|done]. cbn in Hs.
    destruct (pc w) as [| |st| | |] eqn:Ep; try done. injection Hs as <-.
    destruct (exit c) as [r|] eqn:E.
    + cbn [set_waiters exit]. rewrite E. apply (Hset i _ w Hi). by destruct (He r eq_refl) as (st' & -> & _).
    + pose proof (Forall_lookup_1 _ _ _ _ Hw' Hi) as Hst. unfold waiter_ok in Hst. rewrite Ep in Hst.
      split; [|done]. split; [|intros r [= <-]; by exists st]. cbn. apply notify_ok, waiters_insert; [|done].
      eapply Forall_impl; [exact Hw'|]. intros w'. apply waiter_ok_store.
  - unfold wait_wake in Hs. destruct (waiters c !! i) as [w|] eqn:Hi; [|done]. cbn in Hs.
    destruct (pc w); try done. injection Hs as <-. by apply Hset.
  - unfold wait_elapsed in Hs. destruct (waiters c !! i) as [w|] eqn:Hi; [|done]. cbn in Hs.
    destruct (pc w); try done; destruct (with_timeout w) eqn:Et; try done; injection Hs as <-; by apply Hset.
  - injection Hs as <-. by split.
  - unfold kill_exit_check in Hs. destruct (killers c !! j) as [k|]; [|done]. cbn in Hs. destruct k; try done.
    injection Hs as <-. by split.
  - unfold kill_poll in Hs. destruct (killers c !! j) as [k|]; [|done]. cbn in Hs. destruct k; try done.
    injection Hs as <-. destruct try_wait as [[|]|]; by split.
Qed.

Lemma control_run ops' : ∀ ops c c',
  run_steps control_step c ops' = Some c' → control_ok ops c →
  control_ok (ops ++ ops') c' ∧ (∀ r, exit c = Some r → exit c' = Some r).
Proof.
  induction ops' as [|o ops' IH]; intros ops c c'; cbn; [intros [= <-]; by rewrite app_nil_r|].
  destruct (control_step c o) as [c1|] eqn:E; [|done]. intros Hr Hc.
  destruct (control_step_ok _ _ _ _ E Hc) as [Hc1 He1]. destruct (IH _ _ _ Hr Hc1) as [Hc' He'].
  rewrite <- app_assoc in Hc'. split; [done|]. eauto.
Qed.

Lemma control_new_ok : control_ok [] control_new.
Proof. split; [constructor|done]. Qed.

(** C22. However the waits for a child and its kills interleave, and whatever the
    system answers: all waits that return a status return the same one, which a
    poll of the child reported and which stays the answer for good; an error is
    the error of a poll; and only a wait with a timeout times out. *)
Theorem waits_agree (ops : list control_op) (c : control)
    (Hrun : run_steps control_step control_new ops = Some c) :
  (∀ w w' st st', w ∈ waiters c → w' ∈ waiters c → pc w = Returned (Ok st) → pc w' = Returned (Ok st') →
     st = st' ∧ reported ops st ∧
     ∀ ops' c', run_steps control_step c ops' = Some c' → exit c' = Some (Ok st)) ∧
  (∀ w e, w ∈ waiters c → pc w = Returned (Err e) → ∃ i err, WaitPoll i (Err err) ∈ ops ∧ e = try_wait_error err) ∧
  (∀ w, w ∈ waiters c → pc w = TimedOut → with_timeout w = true).
Proof.
  destruct (control_run ops [] _ _ Hrun control_new_ok) as [Hok _]. cbn in Hok. pose proof Hok as [Hw He].
  rewrite Forall_forall in Hw. unfold waiter_ok in Hw. split_and!.
  - intros w w' st st' Hin Hin' Hp Hp'. apply Hw in Hin, Hin'. rewrite Hp in Hin. rewrite Hp' in Hin'.
    destruct (He _ Hin) as (st2 & [= <-] & Hr). split; [congruence|]. split; [done|].
    intros ops' c' Hr'. destruct (control_run ops' ops _ _ Hr' Hok) as [_ Hex]. by apply Hex.
  - intros w e Hin Hp. apply Hw in Hin. by rewrite Hp in Hin.
  - intros w Hin Hp. apply Hw in Hin. by rewrite Hp in Hin.
Qed.

(** Two waits, the second told another status by the system after the first has
    stored its own. *)
Definition two_waits : list control_op :=
  [NewWait false; NewWait true; WaitExitCheck 0; WaitExitCheck 1;
   WaitPoll 0 (Ok (Some (StdStatus true (Some 0)))); WaitPoll 1 (Ok (Some (StdStatus false None)));
   StoreExit 0; StoreExit 1].

Lemma waits_agree_witness :
  ∃ c, run_steps control_step control_new two_waits = Some c ∧
    (pc <$> waiters c) = [Returned (Ok (ExitStatus true (Some 0))); Returned (Ok (ExitStatus true (Some 0)))] ∧
    reported two_waits (ExitStatus true (Some 0)).
Proof.
  destruct (run_steps control_step control_new two_waits) as [c|] eqn:E; [|exfalso; vm_compute in E; discriminate E].
  exists c. split; [done|]. pose proof (waits_agree two_waits c E) as (Ha & _ & _).
  vm_compute in E. injection E as <-. split; [reflexivity|].
  by apply (Ha (Waiter false (Returned (Ok (ExitStatus true (Some 0))))) (Waiter false (Returned (Ok (ExitStatus true (Some 0))))) _
    (ExitStatus true (Some 0)));
    [apply list_elem_of_here|apply list_elem_of_here| |].
Defined.

(** ** The child's output *)

(** What one [reader.read] answers: at most 4096 bytes, none at the end. *)
Inductive read_outcome : Type :=
| ReadOk (chunk : bytes)
| ReadErr (e : io_error).

Definition STREAM_CAPACITY : nat := 8 * 1024.

(** The task of [spawn_output_reader], its channel, and the guest's end of the
    stream with what has come out of it. *)
Record output_stream := OutputStream {
  unread : list read_outcome;
  in_hand : bytes;
  ch : channel ascii;
  done : option (result string ());
  received : bytes;
  ended : bool;
}.

Definition output_new (reads : list read_outcome) : output_stream :=
  OutputStream reads [] (new_channel STREAM_CAPACITY) None [] false.

Definition read_error (stream_name : string) (e : io_error) : string :=
  "failed reading child " +:+ stream_name +:+ ": " +:+ io_message e.

(** The task's result: the sender is dropped, [done] is sent. *)
Definition reader_done (s : output_stream) (r : result string ()) : output_stream :=
  OutputStream (unread s) [] (drop_sender (ch s)) (Some r) (received s) (ended s).

(** A step of the task: it reads when it has nothing in hand and sends the next
    byte otherwise, which waits for room. *)
Definition reader_step (stream_name : string) (s : output_stream) : option output_stream :=
  match done s with
  | Some _ => None
  | None =>
    match in_hand s with
    | [] =>
      match unread s with
      | [] => None
      | ReadErr e :: reads => Some (reader_done s (Err (read_error stream_name e)))
      | ReadOk [] :: reads => Some (reader_done s (Ok ()))
      | ReadOk chunk :: reads => Some (OutputStream reads chunk (ch s) None (received s) (ended s))
      end
    | byte :: rest =>
      match try_send (ch s) byte with
      | (c, Sent) => Some (OutputStream (unread s) rest c None (received s) (ended s))
      | (_, Full _) => None
      | (_, Closed _) => Some (reader_done s (Ok ()))
      end
    end
  end.

(** The guest reads from the stream. *)
Definition guest_read (s : output_stream) (budget : nat) (remaining : option nat) : option output_stream :=
  if ended s || negb (has_receiver (ch s)) then None
  else
    let '(c, buf, answer) := poll_produce budget remaining (ch s) in
    Some (OutputStream (unread s) (in_hand s) c (done s) (received s ++ buf)
            (match answer with Ready Dropped => true | _ => false end)).

Inductive output_op : Type :=
| ReaderStep
| GuestRead (budget : nat) (remaining : option nat)
| GuestDrop.

Definition output_step (stream_name : string) (s : output_stream) (o : output_op) : option output_stream :=
  match o with
  | ReaderStep => reader_step stream_name s
  | GuestRead budget remaining => guest_read s budget remaining
  | GuestDrop =>
    Some (OutputStream (unread s) (in_hand s) (drop_receiver (ch s)) (done s) (received s) (ended s))
  end.

(** [wait_for_stream_completion] once the task has ended: what it left, or
    success when its sender is gone without a result. *)
Definition wait_for_stream_completion (done : option (result string ())) : result string () :=
  match done with Some result => result | None => Ok () end.

(** What the child writes, up to its end or an error, and how it ends. *)
Fixpoint output_of (reads : list read_outcome) : bytes :=
  match reads with
  | [] | ReadErr _ :: _ | ReadOk [] :: _ => []
  | ReadOk chunk :: reads => chunk ++ output_of reads
  end.

Fixpoint completion (stream_name : string) (reads : list read_outcome) : option (result string ()) :=
  match reads with
  | [] => None
  | ReadErr e :: _ => Some (Err (read_error stream_name e))
  | ReadOk [] :: _ => Some (Ok ())
  | ReadOk _ :: reads => completion stream_name reads
  end.

Record output_ok (stream_name : string) (reads : list read_outcome) (s : output_stream) : Prop := {
  o_channel : channel_ok (ch s);
  o_capacity : capacity (ch s) = STREAM_CAPACITY;
  o_bytes : has_receiver (ch s) = true →
    output_of reads = received s ++ queue (ch s) ++ in_hand s ++ (if done s then [] else output_of (unread s));
  o_prefix : received s `prefix_of` output_of reads;
  o_done : has_receiver (ch s) = true → match done s with
    | Some r => completion stream_name reads = Some r
    | None => completion stream_name reads = completion stream_name (unread s)
    end;
  o_sender : has_sender (ch s) = bool_decide (done s = None);
  o_hand : is_Some (done s) → in_hand s = [];
  o_ended : ended s = true → has_receiver (ch s) = true → is_Some (done s) ∧ queue (ch s) = [];
}.

Lemma output_new_ok name reads : output_ok name reads (output_new reads).
Proof. split; try done; [unfold channel_ok; cbn; lia|apply prefix_nil]. Qed.

Lemma reader_done_ok name reads s r :
  output_ok name reads s → in_hand s = [] → done s = None →
  (has_receiver (ch s) = true → output_of (unread s) = [] ∧ completion name (unread s) = Some r) →
  output_ok name reads (reader_done s r).
Proof.
  intros [] Eh Ed Hc. split; try done.
  - cbn. intros Hr. rewrite o_bytes0, Eh, Ed by done. by rewrite (proj1 (Hc Hr)).
  - cbn. intros Hr. specialize (o_done0 Hr). rewrite Ed in o_done0. rewrite o_done0. by apply Hc.
  - cbn. intros He Hr. destruct (o_ended0 He Hr) as [[? ?] _]. congruence.
Qed.

Lemma output_step_ok name reads s o s' :
  output_step name s o = Some s' → output_ok name reads s → output_ok name reads s'.
Proof.
  destruct o as [|budget remaining|]; cbn [output_step].
  - unfold reader_step. destruct (done s) eqn:Ed; [done|]. destruct (in_hand s) as [|b rest] eqn:Eh.
    + destruct (unread s) as [|[[|b chunk]|e] l] eqn:Eu; [done|intros [= <-]|intros [= <-]|intros [= <-]]; intros Hs.
      * apply reader_done_ok; try done. by rewrite Eu.
      * destruct Hs. split; try done; cbn.
        -- intros Hr. rewrite o_bytes0, Eh, Ed, Eu by done. cbn. done.
        -- intros Hr. specialize (o_done0 Hr). by rewrite Ed, Eu in o_done0.
        -- by rewrite o_sender0, Ed.
        -- by intros [].
        -- intros He Hr. destruct (o_ended0 He Hr) as [[? ?] _]. congruence.
      * apply reader_done_ok; try done. by rewrite Eu.
    + intros Hstep Hs. pose proof (try_send_spec (ch s) b (o_channel _ _ _ Hs)) as Ht.
      destruct (try_send (ch s) b) as [c [|i|i]]; [injection Hstep as <-|done|injection Hstep as <-].
      * destruct Ht as (Hok & Hcap & Hrx & Htx & Hq & Hr). destruct Hs. split; cbn; try done.
        -- by rewrite Hcap.
        -- intros _. rewrite o_bytes0, Eh, Ed, Hq by congruence. by rewrite <- !app_assoc.
        -- intros _. specialize (o_done0 Hr). by rewrite Ed in o_done0.
        -- by rewrite Htx, o_sender0, Ed.
        -- intros He _. destruct (o_ended0 He Hr) as [[? ?] _]. congruence.
      * destruct Ht as (_ & _ & _ & _ & _ & _ & Hr). destruct Hs. split; cbn; try done; rewrite ?Hr; try done.
  - unfold guest_read. destruct (ended s) eqn:Ee; [done|]. destruct (has_receiver (ch s)) eqn:Er; [|done]. cbn.
    assert (∃ c buf answer, poll_produce budget remaining (ch s) = (c, buf, answer) ∧
      queue (ch s) = buf ++ queue c ∧ capacity c = capacity (ch s) ∧ has_sender c = has_sender (ch s) ∧
      has_receiver c = true ∧ (answer = Ready Dropped → has_sender (ch s) = false ∧ queue c = []))
      as (c & buf & answer & -> & Hq & Hcap & Htx & Hrx & Ha).
    { unfold poll_produce. destruct (_ =? 0)%nat eqn:E; zb; [by eexists _, _, _|].
      pose proof (produce_loop_spec budget (default 32%nat remaining) (ch s) [] ltac:(cbn; lia)) as Hp.
      destruct (produce_loop _ _ _ _) as [[c buf] answer]. destruct Hp as (taken & -> & Hq & _ & ? & ? & ? & Ha).
      eexists _, _, _. split_and!; try done; [congruence|]. by intros ->. }
    intros [= <-] []. split; cbn; try done.
    + unfold channel_ok in *. rewrite Hq, length_app in o_channel0. rewrite Hcap. lia.
    + by rewrite Hcap.
    + intros _. rewrite o_bytes0, Hq by done. by rewrite <- !app_assoc.
    + rewrite o_bytes0, Hq by done. rewrite <- app_assoc. apply prefix_app, prefix_app_r. done.
    + intros _. by apply o_done0.
    + congruence.
    + intros He _. destruct answer as [[]|]; try done. destruct (Ha eq_refl) as [Hs Hqe]. split; [|done].
      rewrite o_sender0 in Hs. zb. destruct (done s); [by eexists|done].
  - intros [= <-] []. split; cbn; try done. unfold channel_ok. cbn. lia.
Qed.

Lemma output_run name reads ops : ∀ s s',
  run_steps (output_step name) s ops = Some s' → output_ok name reads s → output_ok name reads s'.
Proof.
  intros s s' Hr Hs. eapply (run_steps_preserve (output_step name) (output_ok name reads)); [|done|done].
  intros. by eapply output_step_ok.
Qed.

(** Each step of the task or the guest that does something uses up one of these. *)
Fixpoint read_work (reads : list read_outcome) : nat :=
  match reads with
  | [] => 0
  | ReadOk chunk :: reads => 1 + 3 * length chunk + read_work reads
  | ReadErr _ :: reads => 1 + read_work reads
  end.

Definition output_work (s : output_stream) : nat :=
  (if ended s then 0 else 1) + length (queue (ch s)) + 2 * length (in_hand s) +
  (if done s then 0 else 1 + read_work (unread s)).

Lemma guest_takes s :
  ended s = false → has_receiver (ch s) = true → (queue (ch s) ≠ [] ∨ has_sender (ch s) = false) →
  ∃ s', guest_read s 1 (Some 1%nat) = Some s' ∧ has_receiver (ch s') = true ∧ (output_work s' < output_work s)%nat.
Proof.
  intros He Hr Hq. unfold guest_read, poll_produce, output_work. rewrite He, Hr. cbn.
  change (1 =? 0)%nat with false. cbn. unfold poll_recv.
  destruct (queue (ch s)) as [|b q] eqn:Eq; cbn.
  - destruct Hq as [|Hs]; [done|]. rewrite Hs. cbn. eexists. split; [done|]. cbn. rewrite Eq. split; [done|]. cbn. lia.
  - change (1 <=? 1)%nat with true. cbn. eexists. split; [done|]. cbn. split; [done|]. lia.
Qed.

Lemma output_progress name reads s :
  output_ok name reads s → has_receiver (ch s) = true → ended s = false → completion name reads ≠ None →
  ∃ o s', output_step name s o = Some s' ∧ has_receiver (ch s') = true ∧ (output_work s' < output_work s)%nat.
Proof.
  intros Hs Hr He Hc.
  assert ((queue (ch s) ≠ [] ∨ has_sender (ch s) = false) → ∃ o s', output_step name s o = Some s' ∧
    has_receiver (ch s') = true ∧ (output_work s' < output_work s)%nat) as Hguest.
  { intros Hq. destruct (guest_takes s He Hr Hq) as (s' & Hs' & ?). by exists (GuestRead 1 (Some 1%nat)), s'. }
  pose proof (o_sender _ _ _ Hs) as Htx. pose proof (o_done _ _ _ Hs Hr) as Hd.
  destruct (done s) as [r|] eqn:Ed; [apply Hguest; by right|].
  destruct (in_hand s) as [|b rest] eqn:Eh.
  - exists ReaderStep. cbn [output_step]. unfold reader_step, output_work. rewrite Ed, Eh, He.
    destruct (unread s) as [|[[|b chunk]|e] l] eqn:Eu; [by rewrite Hd in Hc| | |];
      (eexists; split; [done|]; cbn; rewrite ?He; split; [done|]; lia).
  - pose proof (try_send_spec (ch s) b (o_channel _ _ _ Hs)) as Ht.
    destruct (try_send (ch s) b) as [c [|i|i]] eqn:Et.
    + exists ReaderStep. cbn [output_step]. unfold reader_step, output_work. rewrite Ed, Eh, Et, He.
      destruct Ht as (_ & _ & Hrx & _ & Hq & _). eexists. split; [done|]. cbn. rewrite Hq, length_app. cbn.
      split; [congruence|lia].
    + destruct Ht as (_ & _ & _ & _ & _ & _ & _ & Hl). rewrite (o_capacity _ _ _ Hs) in Hl. apply Hguest. left.
      intros Hq. rewrite Hq in Hl. done.
    + destruct Ht as (_ & _ & _ & _ & _ & _ & Hf). congruence.
Qed.

Lemma output_finishes name reads n : ∀ s,
  (output_work s ≤ n)%nat → output_ok name reads s → has_receiver (ch s) = true → completion name reads ≠ None →
  ∃ ops s', run_steps (output_step name) s ops = Some s' ∧ ended s' = true ∧ has_receiver (ch s') = true.
Proof.
  induction n as [|n IH]; intros s Hn Hs Hr Hc; destruct (ended s) eqn:He; try (by exists [], s);
    destruct (output_progress _ _ _ Hs Hr He Hc) as (o & s1 & Ho & Hr1 & Hw); [lia|].
  destruct (IH s1) as (ops & s2 & Hops & He2 & Hr2); [lia|by eapply output_step_ok|done|done|].
  exists (o :: ops), s2. cbn. by rewrite Ho.
Qed.

(** C24. Whatever order the task that reads the child, the guest and the drop of
    the stream run in: the guest has received a prefix of what the child wrote;
    when the stream ends for a guest that still holds it, it has received all of
    it, and the completion it awaits is success at the end of the output and the
    error of the read that failed; and a guest that keeps reading is never stuck
    before that. *)
Theorem child_output_arrives (stream_name : string) (reads : list read_outcome) (ops : list output_op)
    (s : output_stream)
    (Hrun : run_steps (output_step stream_name) (output_new reads) ops = Some s) :
  received s `prefix_of` output_of reads ∧
  (ended s = true → has_receiver (ch s) = true →
     received s = output_of reads ∧ is_Some (done s) ∧
     completion stream_name reads = Some (wait_for_stream_completion (done s))) ∧
  (has_receiver (ch s) = true → completion stream_name reads ≠ None →
     ∃ ops' s', run_steps (output_step stream_name) s ops' = Some s' ∧ ended s' = true ∧
       received s' = output_of reads).
Proof.
  pose proof (output_run _ reads _ _ _ Hrun (output_new_ok _ _)) as Hs.
  assert (∀ s, output_ok stream_name reads s → ended s = true → has_receiver (ch s) = true →
    received s = output_of reads ∧ is_Some (done s)) as Hend.
  { intros s0 [] He Hr. destruct (o_ended0 He Hr) as [Hd Hq]. split; [|done].
    rewrite o_bytes0, Hq, o_hand0 by done. destruct (done s0); [|by destruct Hd]. by rewrite !app_nil_r. }
  split_and!.
  - apply Hs.
  - intros He Hr. destruct (Hend s Hs He Hr) as [Hb [r Hd]]. split; [done|]. split; [by eexists|].
    pose proof (o_done _ _ _ Hs Hr) as Hc. by rewrite Hd in *.
  - intros Hr Hc. destruct (output_finishes _ _ _ s (le_n _) Hs Hr Hc) as (ops' & s' & Ho & He & Hr').
    exists ops', s'. split_and!; try done. by apply Hend; [eapply output_run| |].
Qed.

Lemma child_output_arrives_witness :
  ∃ s, run_steps (output_step "stdout") (output_new [ReadOk (str_bytes "hi"); ReadOk []])
    [ReaderStep; ReaderStep; GuestRead 8 None; ReaderStep; ReaderStep; GuestRead 8 None] = Some s ∧
    bytes_str (received s) = "hi" ∧ wait_for_stream_completion (done s) = Ok ().
Proof.
  destruct (run_steps (output_step "stdout") (output_new [ReadOk (str_bytes "hi"); ReadOk []])
    [ReaderStep; ReaderStep; GuestRead 8 None; ReaderStep; ReaderStep; GuestRead 8 None]) as [s|] eqn:E;
    [|exfalso; vm_compute in E; discriminate E].
  destruct (child_output_arrives _ _ _ s E) as (_ & Hend & _). exists s. split; [done|].
  assert (ended s = true ∧ has_receiver (ch s) = true) as [He Hr] by (vm_compute in E; injection E as <-; by split).
  destruct (Hend He Hr) as (-> & _ & Hc). split; [reflexivity|]. by injection Hc as <-.
Defined.

(** ** The child's input *)

Definition WRITE_BUFFER : nat := 4096.

(** The guest's writes through a stream consumer, the channel it feeds, and the
    task of [spawn_stdin_writer] with what it has written to the child. *)
Record input_stream := InputStream {
  consumer : MpscStreamConsumer ascii;
  offered : bytes;
  buffer : option bytes;
  written : bytes;
}.

Definition input_new : input_stream := InputStream (consumer_new (new_channel STREAM_CAPACITY)) [] None [].

Definition set_tx (c : MpscStreamConsumer ascii) (ch : channel ascii) : MpscStreamConsumer ascii :=
  Consumer ch (pending c).

(** [rx.recv()], then [rx.try_recv()] while it answers and the buffer has room. *)
Definition fill_buffer (q : bytes) : bytes * bytes := (take WRITE_BUFFER q, drop WRITE_BUFFER q).

Definition writer_recv (s : input_stream) : option input_stream :=
  match buffer s, queue (tx (consumer s)) with
  | None, _ :: _ as q =>
    if has_receiver (tx (consumer s)) then
      let '(b, rest) := fill_buffer (queue (tx (consumer s))) in
      Some (InputStream (set_tx (consumer s) (set_queue (tx (consumer s)) rest)) (offered s) (Some b) (written s))
    else None
  | _, _ => None
  end.

(** [write_all] and [flush]: an error ends the task and drops the receiver. *)
Definition writer_write (s : input_stream) (write_all flush : result io_error ()) : option input_stream :=
  b ← buffer s;
  let stop written := InputStream (set_tx (consumer s) (drop_receiver (tx (consumer s)))) (offered s) None written in
  Some (if is_ok write_all then
          if is_ok flush then InputStream (consumer s) (offered s) None (written s ++ b)
          else stop (written s ++ b)
        else stop (written s)).

(** The guest's stream offers bytes, or is only polled again; what is not taken
    stays with the guest. *)
Definition guest_write (s : input_stream) (source : bytes) (finish : bool) : input_stream * bytes * poll stream_result :=
  let '(c, rest, answer) := poll_consume (consumer s) source finish in
  (InputStream c (offered s ++ take (length source - length rest) source) (buffer s) (written s), rest, answer).

Inductive input_op : Type :=
| GuestWrite (source : bytes) (finish : bool)
| WriterRecv
| WriterWrite (write_all flush : result io_error ()).

Definition input_step (s : input_stream) (o : input_op) : option input_stream :=
  match o with
  | GuestWrite source finish => Some (guest_write s source finish).1.1
  | WriterRecv => writer_recv s
  | WriterWrite write_all flush => writer_write s write_all flush
  end.

Record input_ok (s : input_stream) : Prop := {
  i_channel : channel_ok (tx (consumer s));
  i_capacity : capacity (tx (consumer s)) = STREAM_CAPACITY;
  i_bytes : has_receiver (tx (consumer s)) = true →
    offered s = written s ++ default [] (buffer s) ++ queue (tx (consumer s)) ++ pending (consumer s);
  i_prefix : written s `prefix_of` offered s;
  i_stopped : has_receiver (tx (consumer s)) = false → buffer s = None ∧ queue (tx (consumer s)) = [];
  i_buffer : ∀ b, buffer s = Some b → (0 < length b ≤ WRITE_BUFFER)%nat;
}.

Lemma input_new_ok : input_ok input_new.
Proof. split; try done. unfold channel_ok. cbn. lia. Qed.

(** Without the task, nothing goes in. *)
Lemma consume_stopped (c : MpscStreamConsumer ascii) source finish :
  has_receiver (tx c) = false →
  tx (poll_consume c source finish).1.1 = tx c.
Proof.
  intros Hr. unfold poll_consume. destruct (pending c) as [|i l] eqn:Ep; cbn.
  - destruct (0 <? _)%nat; [|done]. destruct source as [|a source]; [done|]. cbn. unfold try_send. by rewrite Hr.
  - unfold try_send. by rewrite Hr.
Qed.

Lemma input_step_ok s o s' : input_step s o = Some s' → input_ok s → input_ok s'.
Proof.
  destruct o as [source finish| |wr fl]; cbn [input_step].
  - intros [= <-] Hs. unfold guest_write. destruct (has_receiver (tx (consumer s))) eqn:Er.
    + pose proof (poll_consume_spec (consumer s) source finish (i_channel _ Hs) Er) as Hc.
      destruct (poll_consume _ _ _) as [[c rest] answer] eqn:E. destruct Hc as (Hok & Hr & Hcap & Hq & Ha).
      assert (rest = source ∧ queue (tx c) ++ pending c = queue (tx (consumer s)) ++ pending (consumer s) ∨
              rest = [] ∧ queue (tx c) ++ pending c = (queue (tx (consumer s)) ++ pending (consumer s)) ++ source) as Hrest.
      { unfold poll_consume in E. destruct (send_pending _ _) as [c1 [a|]].
        - injection E as <- <- <-. left. split; [done|]. rewrite !app_assoc in Hq. by apply app_inv_tail in Hq.
        - right. destruct (0 <? length source)%nat eqn:El; zb.
          + destruct (send_items _ _ _). injection E as <- <- <-. split; [done|]. rewrite app_nil_r in Hq. by rewrite Hq, app_assoc.
          + assert (source = []) as -> by (destruct source; [done|cbn in El; lia]). injection E as <- <- <-.
            split; [done|]. by rewrite !app_nil_r in *. }
      destruct Hs. split; cbn; try done.
      * by rewrite Hcap.
      * intros _. destruct Hrest as [[-> Hrest]|[-> Hrest]]; rewrite Hrest, (i_bytes0 Er).
        -- rewrite Nat.sub_diag. cbn. by rewrite app_nil_r.
        -- rewrite Nat.sub_0_r, take_ge by done. by rewrite <- !app_assoc.
      * by apply prefix_app_r.
      * intros. congruence.
    + pose proof (consume_stopped (consumer s) source finish Er) as Hc.
      destruct (poll_consume _ _ _) as [[c rest] answer]. cbn in Hc. destruct Hs.
      split; cbn; rewrite ?Hc; try done; [congruence|]. by apply prefix_app_r.
  - unfold writer_recv. destruct (buffer s) eqn:Eb; [done|]. destruct (queue (tx (consumer s))) as [|b q] eqn:Eq; [done|].
    destruct (has_receiver (tx (consumer s))) eqn:Er; [|done]. unfold fill_buffer.
    intros [= <-] []. split; try done.
    + unfold channel_ok in *. rewrite Eq in i_channel0. cbn [set_tx set_queue tx consumer queue capacity]. rewrite length_drop. cbn [length] in i_channel0. lia.
    + intros _. cbn -[take drop WRITE_BUFFER]. rewrite i_bytes0, Eb, Eq by done. cbn -[take drop WRITE_BUFFER].
      rewrite app_assoc, take_drop. done.
    + cbn. intros. congruence.
    + intros b' Hb'. cbn [buffer] in Hb'. apply (inj Some) in Hb' as <-. cbn [length].
      rewrite length_take. unfold WRITE_BUFFER. lia.
  - unfold writer_write. destruct (buffer s) as [b|] eqn:Eb; [|done]. cbn.
    destruct (has_receiver (tx (consumer s))) eqn:Er; [|intros _ []; destruct (i_stopped0 Er); congruence].
    intros [= <-] Hs. pose proof (i_bytes _ Hs Er) as Hb. rewrite Eb in Hb. cbn in Hb. destruct Hs.
    assert (written s ++ b `prefix_of` offered s) as Hpre by (rewrite Hb, app_assoc; by apply prefix_app_r).
    destruct (is_ok wr), (is_ok fl); split; cbn; try done; try (unfold channel_ok; cbn; lia).
    + intros _. by rewrite Hb, <- app_assoc.
    + congruence.
Qed.

(** C25. However the guest's writes and the task that writes to the child
    interleave, the child has been given a prefix of the bytes the guest's stream
    has handed over, in order; nothing is lost while the child takes what it is
    given: those bytes are what was written, what the task holds, what is queued
    and what is put aside, so that when none of that is left the child has them
    all. *)
Theorem child_input_arrives (ops : list input_op) (s : input_stream)
    (Hrun : run_steps input_step input_new ops = Some s) :
  written s `prefix_of` offered s ∧
  (length (queue (tx (consumer s))) ≤ STREAM_CAPACITY)%nat ∧
  ((∀ wr fl, WriterWrite wr fl ∈ ops → wr = Ok () ∧ fl = Ok ()) →
   offered s = written s ++ default [] (buffer s) ++ queue (tx (consumer s)) ++ pending (consumer s)).
Proof.
  assert (input_ok s) as Hs.
  { eapply (run_steps_preserve input_step input_ok); [|exact Hrun|apply input_new_ok]. intros. by eapply input_step_ok. }
  split; [apply Hs|]. split; [rewrite <- (i_capacity _ Hs); apply Hs|]. intros Hops. apply (i_bytes _ Hs).
  assert (∀ ops s0 s1, run_steps input_step s0 ops = Some s1 → (∀ wr fl, WriterWrite wr fl ∈ ops → wr = Ok () ∧ fl = Ok ()) →
    input_ok s0 → has_receiver (tx (consumer s0)) = true → has_receiver (tx (consumer s1)) = true) as Hkeep.
  { clear. intros ops. induction ops as [|o ops IH]; intros s0 s1; cbn; [by intros [= <-]|].
    destruct (input_step s0 o) as [s2|] eqn:E; [|done]. intros Hr Ho Hok Hrx.
    apply (IH s2); [done|intros; apply Ho; set_solver|by eapply input_step_ok|].
    destruct o as [source finish| |wr fl]; cbn in E.
    - injection E as <-. unfold guest_write. pose proof (poll_consume_spec (consumer s0) source finish (i_channel _ Hok) Hrx) as Hc.
      destruct (poll_consume _ _ _) as [[c rest] answer]. cbn. apply Hc.
    - unfold writer_recv in E. repeat (case_match; try done). by simplify_eq.
    - destruct (Ho wr fl) as [-> ->]; [set_solver|]. unfold writer_write in E. destruct (buffer s0); [|done]. by simplify_eq/=. }
  exact (Hkeep ops input_new s Hrun Hops input_new_ok eq_refl).
Qed.

Lemma child_input_arrives_witness :
  ∃ s, run_steps input_step input_new
    [GuestWrite (str_bytes "yes") false; WriterRecv; GuestWrite [LF] true; WriterWrite (Ok ()) (Ok ());
     WriterRecv; WriterWrite (Ok ()) (Ok ())] = Some s ∧
    bytes_str (written s) = "yes" +:+ bytes_str [LF] ∧ offered s = written s.
Proof.
  destruct (run_steps input_step input_new
    [GuestWrite (str_bytes "yes") false; WriterRecv; GuestWrite [LF] true; WriterWrite (Ok ()) (Ok ());
     WriterRecv; WriterWrite (Ok ()) (Ok ())]) as [s|] eqn:E; [|exfalso; vm_compute in E; discriminate E].
  destruct (child_input_arrives _ s E) as (_ & _ & Ho). exists s. split; [done|].
  specialize (Ho ltac:(intros wr fl Hin; set_solver)).
  vm_compute in E. injection E as <-. split; reflexivity.
Defined.
