(* ===== verification/HostTable.v ===== *)
(** * The handles of child processes: [mitb-host/src/lib.rs]

    The guest's handles in wasmtime's resource table and the host functions on
    them: spawning, taking the output streams, writing the input, waiting,
    killing and dropping, while the calls under way move on. *)

From S2P Require Export HostChild.

(** ** The table *)

Inductive output : Type := Stdout | Stderr.
#[export] Instance output_eq_dec : EqDecision output.
Proof. solve_decision. Defined.

Definition output_name (o : output) : string := match o with Stdout => "stdout" | Stderr => "stderr" end.

(** A receiver: of which child's which output. *)
Notation receiver := (nat * output)%type.

(** The receivers not taken yet, and which control is the child's. *)
Record process_child := ProcessChild {
  stdout_rx : option receiver;
  stderr_rx : option receiver;
  control_ref : nat;
}.

Definition rx (o : output) (c : process_child) : option receiver := match o with Stdout => stdout_rx c | Stderr => stderr_rx c end.

Definition set_rx (o : output) (r : option receiver) (c : process_child) : process_child :=
  match o with
  | Stdout => ProcessChild r (stderr_rx c) (control_ref c)
  | Stderr => ProcessChild (stdout_rx c) r (control_ref c)
  end.

(** The table, the controls of all children there were (a call under way keeps
    its own reference), and the commands given to the system. *)
Record store := Store {
  table : gmap Z process_child;
  controls : list control;
  commands : list (string * list string);
}.

Definition store_new : store := Store ∅ [] [].

Inductive answer : Type :=
| Trap (error : string)
| SpawnFailed (error : spawn_error)
| Handle (rep : Z)
| Reader (r : receiver)
| Piped (child : nat)
| Call (child : nat)
| Gone.

Section Handles.
Context (disable_spawn : bool) (table_error : string).

Definition with_table (s : store) (t : gmap Z process_child) : store := Store t (controls s) (commands s).

(** A call on a child's control: a new one, or a step of one under way. *)
Definition control_call (s : store) (child : nat) (op : control_op) : option store :=
  c ← controls s !! child;
  c ← control_step c op;
  Some (Store (table s) (<[child := c]> (controls s)) (commands s)).

(** [HostWithStore::spawn]; [pushed] is the table's answer.  If it is full, the
    child is dropped, which kills it. *)
Definition host_spawn (s : store) (command_spawn : string → list string → result io_error pipes)
    (name : string) (args : list string) (pushed : result string Z) : store * answer :=
  let '(given, r) := spawn disable_spawn command_spawn name args in
  let s := Store (table s) (controls s) (commands s ++ given) in
  match r with
  | Err error => (s, SpawnFailed error)
  | Ok _ =>
    match pushed with
    | Err error => (s, Trap error)
    | Ok rep =>
      let child := length (controls s) in
      (Store (<[rep := ProcessChild (Some (child, Stdout)) (Some (child, Stderr)) child]> (table s))
         (controls s ++ [control_new]) (commands s), Handle rep)
    end
  end.

(** [HostChild::drop]: the handle goes, a kill is started. *)
Definition host_drop (s : store) (rep : Z) : option (store * answer) :=
  match table s !! rep with
  | None => Some (s, Trap table_error)
  | Some child => s ← control_call (with_table s (delete rep (table s))) (control_ref child) NewKill; Some (s, Gone)
  end.

(** [write_stdin]: a sender is cloned for the guest's stream. *)
Definition host_write_stdin (s : store) (rep : Z) : store * answer :=
  match table s !! rep with None => (s, Trap table_error) | Some child => (s, Piped (control_ref child)) end.

(** [read_stdout] and [read_stderr]. *)
Definition host_read (o : output) (s : store) (rep : Z) : store * answer :=
  match table s !! rep with
  | None => (s, Trap table_error)
  | Some child =>
    let '(slot, r) := take_stream_receiver false (rx o child) (output_name o) in
    let s := with_table s (<[rep := set_rx o slot child]> (table s)) in
    match r with Ok receiver => (s, Reader receiver) | Err error => (s, Trap error) end
  end.

(** [wait], [wait_timeout] and [kill]: a call on the control starts. *)
Definition host_call (op : control_op) (s : store) (rep : Z) : option (store * answer) :=
  match table s !! rep with
  | None => Some (s, Trap table_error)
  | Some child => s ← control_call s (control_ref child) op; Some (s, Call (control_ref child))
  end.

Inductive table_op : Type :=
| Spawn (command_spawn : string → list string → result io_error pipes) (name : string) (args : list string)
    (pushed : result string Z)
| Drop (rep : Z)
| WriteStdin (rep : Z)
| Read (o : output) (rep : Z)
| Wait (rep : Z)
| WaitTimeout (rep : Z)
| Kill (rep : Z)
| Step (child : nat) (op : control_op).

(** A call under way moves on. *)
Definition moves_on (op : control_op) : bool := match op with NewWait _ | NewKill => false | _ => true end.

(** [None]: not possible.  The table gives a handle that is not in use. *)
Definition guest_call (s : store) (o : table_op) : option (store * answer) :=
  match o with
  | Spawn command_spawn name args pushed =>
    match pushed with
    | Ok rep => if decide (is_Some (table s !! rep)) then None else Some (host_spawn s command_spawn name args pushed)
    | Err _ => Some (host_spawn s command_spawn name args pushed)
    end
  | Drop rep => host_drop s rep
  | WriteStdin rep => Some (host_write_stdin s rep)
  | Read o rep => Some (host_read o s rep)
  | Wait rep => host_call (NewWait false) s rep
  | WaitTimeout rep => host_call (NewWait true) s rep
  | Kill rep => host_call NewKill s rep
  | Step _ _ => None
  end.

Definition table_step (sa : store * list answer) (o : table_op) : option (store * list answer) :=
  match o with
  | Step child op => if moves_on op then s ← control_call sa.1 child op; Some (s, sa.2) else None
  | _ => '(s, a) ← guest_call sa.1 o; Some (s, sa.2 ++ [a])
  end.

(** ** No child is lost, no stream is given twice *)

(** The children whose handles the guest has. *)
Definition held (s : store) (child : nat) : Prop := ∃ rep c, table s !! rep = Some c ∧ control_ref c = child.

(** The receivers given to the guest. *)
Definition given (answers : list answer) : list receiver := omap (fun a => match a with Reader r => Some r | _ => None end) answers.

Record table_ok (s : store) (answers : list answer) : Prop := {
  refs_valid rep c : table s !! rep = Some c → (control_ref c < length (controls s))%nat;
  refs_unique rep rep' c c' : table s !! rep = Some c → table s !! rep' = Some c' → control_ref c = control_ref c' → rep = rep';
  slots rep c o r : table s !! rep = Some c → rx o c = Some r → r = (control_ref c, o) ∧ r ∉ given answers;
  given_valid child o : (child, o) ∈ given answers → (child < length (controls s))%nat;
  given_once : NoDup (given answers);
  not_lost child c : controls s !! child = Some c → held s child ∨ killers c ≠ [];
}.

Lemma killers_grow c op c' : control_step c op = Some c' → (length (killers c) ≤ length (killers c'))%nat.
Proof.
  destruct op; cbn [control_step];
    unfold wait_exit_check, wait_poll, store_child_exit, wait_wake, wait_elapsed, kill_exit_check, kill_poll.
  1, 7: intros [= <-]; cbn; rewrite ?length_app; cbn; lia.
  all: intros (w & _ & H)%bind_Some; revert H; repeat case_match; intros [= <-]; cbn; rewrite ?length_insert; done.
Qed.

(** A call on a control leaves the handles and the receivers. *)
Lemma control_call_ok s answers child op s' :
  table_ok s answers → control_call s child op = Some s' → table_ok s' answers ∧ table s' = table s.
Proof.
  intros [Hv Hu Hs Hg Hn Hl] (c & Hc & (c' & Hc' & [= <-])%bind_Some)%bind_Some. split; [|done]. split; cbn; try done.
  - intros rep k Hk. rewrite length_insert. by eapply Hv.
  - intros k o Hk. rewrite length_insert. by eapply Hg.
  - intros k ck [(-> & <- & _)|[Hne Hk]]%list_lookup_insert_Some; [|by apply Hl].
    destruct (Hl _ _ Hc) as [?|Hkill]; [by left|right]. pose proof (killers_grow _ _ _ Hc').
    destruct (killers c), (killers c'); cbn in *; (done || lia).
Qed.

(** An answer that gives no receiver. *)
Lemma answer_ok s answers a : table_ok s answers → (∀ r, a ≠ Reader r) → table_ok s (answers ++ [a]).
Proof.
  intros Hok Ha. assert (given (answers ++ [a]) = given answers) as E.
  { unfold given. rewrite omap_app. destruct a; cbn; rewrite ?app_nil_r; try done. by destruct (Ha r). }
  destruct Hok. split; rewrite ?E; done.
Qed.

Lemma given_snoc answers r : given (answers ++ [Reader r]) = given answers ++ [r].
Proof. unfold given. by rewrite omap_app. Qed.

Lemma spawn_ok s answers command_spawn name args pushed s' a :
  table_ok s answers → (∀ rep, pushed = Ok rep → table s !! rep = None) →
  host_spawn s command_spawn name args pushed = (s', a) → table_ok s' (answers ++ [a]).
Proof.
  intros Hok Hfree. unfold host_spawn. destruct (spawn _ _ _ _) as [cmds [[]|e]].
  2: { intros [= <- <-]. apply answer_ok; [|done]. by destruct Hok. }
  destruct pushed as [rep|e]; intros [= <- <-]; (apply answer_ok; [|done]); [|by destruct Hok].
  specialize (Hfree rep eq_refl). destruct Hok as [Hv Hu Hs Hg Hn Hl].
  set (n := length (controls s)). split; cbn; rewrite ?length_app; cbn.
  - intros k c [[<- <-]|[_ Hk]]%lookup_insert_Some; cbn; [lia|]. specialize (Hv _ _ Hk). lia.
  - intros k k' c c' [[<- <-]|[Hne Hk]]%lookup_insert_Some [[<- <-]|[Hne' Hk']]%lookup_insert_Some; cbn; try done.
    + intros E. specialize (Hv _ _ Hk'). lia.
    + intros E. specialize (Hv _ _ Hk). lia.
    + by apply Hu.
  - intros k c o r [[<- <-]|[_ Hk]]%lookup_insert_Some; [|by eapply Hs].
    destruct o; cbn; intros [= <-]; (split; [done|]); intros Hin%Hg; lia.
  - intros k o Hk%Hg. lia.
  - done.
  - intros k c [Hk|[Hge Hk]]%lookup_app_Some.
    + destruct (Hl _ _ Hk) as [(k' & ck & Hk' & <-)|?]; [left|by right]. exists k', ck. split; [|done].
      cbn. rewrite lookup_insert_ne; [done|]. intros ->. congruence.
    + apply list_lookup_singleton_Some in Hk as [Hk _]. left. exists rep. eexists. cbn.
      split; [apply lookup_insert_eq|]. cbn. lia.
Qed.

(** A slot is emptied, its receiver given. *)
Lemma taken_ok o s answers rep c (s' := with_table s (<[rep := set_rx o None c]> (table s))) :
  table_ok s answers → table s !! rep = Some c →
  table_ok s' answers ∧ ∀ r, rx o c = Some r → table_ok s' (answers ++ [Reader r]).
Proof.
  intros [Hv Hu Hs Hg Hn Hl] Hc.
  assert (∀ k c', table s' !! k = Some c' → ∃ c0, table s !! k = Some c0 ∧ control_ref c' = control_ref c0 ∧
    (∀ o' r, rx o' c' = Some r → rx o' c0 = Some r ∧ (k, o') ≠ (rep, o))) as Hold.
  { intros k c' Hk. change (<[rep := set_rx o None c]> (table s) !! k = Some c') in Hk.
    apply lookup_insert_Some in Hk as [[<- <-]|[Hne Hk]].
    - exists c. split_and!; [done|by destruct o|]. by destruct o; intros [] r.
    - exists c'. split_and!; [done..|]. intros o' r ?. split; [done|]. by intros [= -> _]. }
  assert (table_ok s' answers) as Hok.
  { split; try done.
    - intros k c' (c0 & ? & -> & _)%Hold. by eapply Hv.
    - intros k k' c1 c2 (c1' & Hk1 & -> & _)%Hold (c2' & Hk2 & -> & _)%Hold. by apply Hu.
    - intros k c' o' r (c0 & Hk & -> & Hr)%Hold [Hr' _]%Hr. by eapply Hs.
    - intros k ck [(k' & c' & Hk' & <-)|?]%Hl; [left|by right]. destruct (decide (rep = k')) as [<-|Hne].
      + exists rep, (set_rx o None c). cbn. rewrite lookup_insert_eq. simplify_eq. split; [done|by destruct o].
      + exists k', c'. split; [|done]. cbn. by rewrite lookup_insert_ne. }
  split; [done|]. intros r Hr. destruct (Hs _ _ _ _ Hc Hr) as [-> Hnew].
  destruct Hok as [Hv' Hu' Hs' _ _ Hl']. split; rewrite ?given_snoc; try done.
  - intros k c' o' r' Hk Hr'. destruct (Hs' _ _ _ _ Hk Hr') as [-> Hnot]. split; [done|].
    apply not_elem_of_app. split; [done|]. intros Heq%list_elem_of_singleton. injection Heq as Heq ->.
    destruct (Hold _ _ Hk) as (c0 & Hk0 & E & Hd). rewrite E in Heq. pose proof (Hu _ _ _ _ Hk0 Hc Heq) as ->.
    by destruct (Hd _ _ Hr') as [_ []].
  - intros k o' [Hk|Heq%list_elem_of_singleton]%elem_of_app; [by eapply Hg|]. injection Heq as -> ->. by eapply Hv.
  - apply NoDup_app. split_and!; [done|by intros x Hx ->%list_elem_of_singleton|apply NoDup_singleton].
Qed.

Lemma read_ok o s answers rep s' a :
  table_ok s answers → host_read o s rep = (s', a) → table_ok s' (answers ++ [a]).
Proof.
  intros Hok. unfold host_read. destruct (table s !! rep) as [c|] eqn:Er; [|intros [= <- <-]; by apply answer_ok].
  destruct (taken_ok o s answers rep c Hok Er) as [Hn Ht].
  unfold take_stream_receiver. destruct (rx o c) as [r|]; intros [= <- <-]; [by apply Ht|by apply answer_ok].
Qed.

Lemma drop_ok s answers rep s' a :
  table_ok s answers → host_drop s rep = Some (s', a) → table_ok s' (answers ++ [a]).
Proof.
  intros Hok. unfold host_drop. destruct (table s !! rep) as [c|] eqn:Er; [|intros [= <- <-]; by apply answer_ok].
  unfold control_call. cbn. intros (s1 & (k & Hk & [= <-])%bind_Some & [= <- <-])%bind_Some.
  apply answer_ok; [|done]. destruct Hok as [Hv Hu Hs Hg Hn Hl]. split; cbn; rewrite ?length_insert; try done.
  - intros k' c' [_ Hk']%lookup_delete_Some. by eapply Hv.
  - intros k1 k2 c1 c2 [_ H1]%lookup_delete_Some [_ H2]%lookup_delete_Some. by apply Hu.
  - intros k1 c1 o r [_ H1]%lookup_delete_Some. by eapply Hs.
  - intros i ci [(-> & <- & _)|[Hne Hi]]%list_lookup_insert_Some; [right; cbn; by destruct (killers k)|].
    destruct (Hl _ _ Hi) as [(k' & c' & Hk' & <-)|?]; [left|by right]. exists k', c'. split; [|done].
    cbn. rewrite lookup_delete_ne; [done|]. intros ->. congruence.
Qed.

Lemma host_call_ok op s answers rep s' a :
  table_ok s answers → host_call op s rep = Some (s', a) → table_ok s' (answers ++ [a]).
Proof.
  intros Hok. unfold host_call. destruct (table s !! rep) as [c|]; [|intros [= <- <-]; by apply answer_ok].
  intros (s1 & E & [= <- <-])%bind_Some. apply answer_ok; [|done]. by eapply control_call_ok.
Qed.

Lemma table_step_ok sa o sa' : table_ok sa.1 sa.2 → table_step sa o = Some sa' → table_ok sa'.1 sa'.2.
Proof.
  destruct sa as [s answers]. cbn. intros Hok.
  assert (∀ '(s', a), guest_call s o = Some (s', a) → table_ok s' (answers ++ [a])) as Hcall.
  { intros [s' a]. destruct o as [cs name args pushed|rep|rep|o rep|rep|rep|rep|child op]; cbn [guest_call].
    - intros H. destruct pushed as [rep|e]; [case_decide as Hd; [done|]|]; injection H as H;
        (eapply spawn_ok; [done| |exact H]); [|done]. intros ? [= <-]. by apply eq_None_not_Some.
    - by apply drop_ok.
    - unfold host_write_stdin. destruct (table s !! rep); intros [= <- <-]; by apply answer_ok.
    - intros [= H]. by eapply read_ok.
    - by apply host_call_ok.
    - by apply host_call_ok.
    - by apply host_call_ok.
    - done. }
  assert (('(s, a) ← guest_call s o; Some (s, answers ++ [a])) = Some sa' → table_ok sa'.1 sa'.2) as Hrun.
  { intros ([s' a] & E & [= <-])%bind_Some. by apply (Hcall (s', a)). }
  destruct o; try exact Hrun. cbn. destruct (moves_on op); [|done].
  intros (s' & E & [= <-])%bind_Some. by eapply control_call_ok.
Qed.

Lemma store_new_ok : table_ok store_new [].
Proof. split; cbn; try done; [intros ? ? []%not_elem_of_nil|constructor]. Qed.

(** The guest functions that take a handle. *)
Definition on_handle (rep : Z) : list table_op :=
  [Drop rep; WriteStdin rep; Read Stdout rep; Read Stderr rep; Wait rep; WaitTimeout rep; Kill rep].

(** C20. Whatever the guest does with its handles and however the calls under way move
    on: a child that runs has a handle the guest holds, one and no other, or a
    kill has been started on it; no output stream is given to the guest twice;
    and a handle that is not in the table traps and does nothing.  A kill that
    has been started takes at most two steps of its own and, unless it reports an
    error, the child has ended or was sent the signal. *)
Theorem no_child_is_lost (ops : list table_op) (s : store) (answers : list answer) :
  run_steps table_step (store_new, []) ops = Some (s, answers) →
  (∀ child c, controls s !! child = Some c →
     killers c ≠ [] ∨ ∃ rep h, table s !! rep = Some h ∧ control_ref h = child ∧
       ∀ rep' h', table s !! rep' = Some h' → control_ref h' = child → rep' = rep) ∧
  NoDup (given answers) ∧
  (∀ rep o, table s !! rep = None → o ∈ on_handle rep → guest_call s o = Some (s, Trap table_error)) ∧
  (∀ child c j try_wait start_kill, controls s !! child = Some c → killers c !! j = Some KillExitCheck →
     ∃ c', if exit c then control_step c (KillCheck j) = Some c' ∧ killers c' !! j = Some (KillReturned (Ok ()))
       else run_steps control_step c [KillCheck j; KillPollOp j try_wait start_kill] = Some c' ∧
         ∃ r, killers c' !! j = Some (KillReturned r) ∧
           (r = Ok () → (∃ status, try_wait = Ok (Some status)) ∨ (start_kill = Ok () ∧ kills c' = S (kills c)))).
Proof.
  intros Hrun. assert (table_ok s answers) as [Hv Hu Hs Hg Hn Hl].
  { assert (∀ sa, table_ok sa.1 sa.2 → ∀ sa', run_steps table_step sa ops = Some sa' → table_ok sa'.1 sa'.2) as Hall.
    { clear. induction ops as [|o ops IH]; intros sa Hok sa'; cbn; [by intros [= <-]|].
      destruct (table_step sa o) as [sa1|] eqn:E; [|done]. apply IH. by eapply table_step_ok. }
    exact (Hall (store_new, []) store_new_ok _ Hrun). }
  split_and!.
  - intros child c Hc. destruct (Hl _ _ Hc) as [(rep & h & Hh & <-)|?]; [right|by left].
    exists rep, h. split_and!; [done..|]. intros rep' h' Hh' E. by eapply Hu.
  - done.
  - intros rep o Hr Ho. unfold on_handle in Ho. repeat (apply elem_of_cons in Ho as [-> |Ho]); [..|by apply not_elem_of_nil in Ho];
      cbn; unfold host_drop, host_write_stdin, host_read, host_call; by rewrite Hr.
  - intros child c j tw sk _ Hj. assert (j < length (killers c))%nat by (by eapply lookup_lt_Some).
    cbn [run_steps control_step]. unfold kill_exit_check. rewrite Hj. cbn. destruct (exit c) as [e|] eqn:Ee.
    + eexists. split; [done|]. cbn. by apply list_lookup_insert_eq.
    + unfold kill_poll. cbn. rewrite list_lookup_insert_eq by done. cbn. eexists. split; [done|].
      destruct tw as [[status|]|err]; cbn; (eexists; split; [apply list_lookup_insert_eq; by rewrite length_insert|]); [|intros Hr|done].
      * intros _. left. by exists status.
      * right. by destruct sk as [[]|].
Qed.

End Handles.

(** ** At concrete inputs *)

Definition all_pipes (_ : string) (_ : list string) : result io_error pipes := Ok (Pipes true true true).

(** A child is spawned, read from, waited for and dropped; a second keeps running. *)
Definition two_children : list table_op :=
  [Spawn all_pipes "cat" [] (Ok 7); Read Stdout 7; Wait 7; Spawn all_pipes "ls" ["-l"] (Ok 8); Read Stdout 7; Drop 7; Kill 7].

Lemma no_child_is_lost_witness :
  ∃ s, run_steps (table_step false "not present") (store_new, []) two_children =
    Some (s, [Handle 7; Reader (0%nat, Stdout); Call 0; Handle 8; Trap "stdout stream already taken"; Gone; Trap "not present"]) ∧
  ∃ c, controls s !! 0%nat = Some c ∧
    (killers c ≠ [] ∨ ∃ rep h, table s !! rep = Some h ∧ control_ref h = 0%nat ∧
       ∀ rep' h', table s !! rep' = Some h' → control_ref h' = 0%nat → rep' = rep).
Proof.
  destruct (run_steps (table_step false "not present") (store_new, []) two_children) as [[s a]|] eqn:E;
    [|vm_compute in E; discriminate E].
  pose proof (no_child_is_lost false "not present" two_children s a E) as [H _].
  exists s. assert (a = [Handle 7; Reader (0%nat, Stdout); Call 0; Handle 8; Trap "stdout stream already taken"; Gone; Trap "not present"]
    ∧ is_Some (controls s !! 0%nat)) as [-> [c Hc]] by (vm_compute in E; injection E as <- <-; split; [reflexivity|by eexists]).
  split; [reflexivity|]. exists c. split; [exact Hc|exact (H _ _ Hc)].
Defined.
