(* ===== verification/Runtime.v ===== *)
(** * The policy runtime: [mitb-host/src/runtime.rs]

    The polling loop over the policy component, the terminal session it drives
    ([PtySession] of [mitb-host/src/lib.rs]), the capabilities a policy is given
    and the host functions it may call.  wasmtime, the child and the clock's
    ticks answer as they like. *)

From S2P Require Import Agent HostChild.
From S2P Require Export PtyIo.

(** ** Options: [lib.rs] *)

Record HostOptions := HostOpts {
  policy_component : string;
  command : string;
  command_args : list string;
  disable_spawn : bool;
  disable_networking : bool;
  disable_filesystem : bool;
  alias : option string;
  poll_interval : Z;
  max_transcript_bytes : nat;
  has_event_sender : bool;
  has_shutdown : bool;
  agent : option AgentOptions;
}.

Definition host_options_new (policy_component command : string) (command_args : list string) : HostOptions := {|
  policy_component := policy_component;
  command := command;
  command_args := command_args;
  disable_spawn := false;
  disable_networking := false;
  disable_filesystem := false;
  alias := None;
  poll_interval := from_secs 5;
  max_transcript_bytes := 512 * 1024;
  has_event_sender := false;
  has_shutdown := false;
  agent := None;
|}.

(** ** Errors: [error.rs] *)

Definition host_error_string (e : HostError) : string :=
  match e with
  | Io e => "I/O error: " +:+ io_message e
  | Wasmtime m => "component runtime error: " +:+ m
  | HostTypes.Join m => "task join error: " +:+ m
  | Policy m => "policy error: " +:+ m
  | HostTypes.Agent m => "agent transport error: " +:+ m
  | PoisonedLock name => "mutex for `" +:+ name +:+ "` is poisoned"
  | MissingExport name => "missing generated export: " +:+ name
  end.

(** ** Capabilities *)

Definition MITB_HOME_DIR_ENV : string := "MITB_HOME_DIR".
Definition MITB_ALIAS_ENV : string := "MITB_ALIAS".

(** The calls made on [WasiCtxBuilder]. *)
Inductive wasi_call : Type :=
| InheritStdin
| Stdout (writer : string)
| Stderr (writer : string)
| InheritEnv
| AllowTcp (b : bool)
| AllowUdp (b : bool)
| AllowIpNameLookup (b : bool)
| SocketAddrCheck (allowed : bool)
| Env (name value : string)
| PreopenedDir (host_path guest_path : string).

(** The context [instantiate_policy] builds, given the user's home directory,
    the working directory and what opening it answers. *)
Definition wasi_calls (options : HostOptions) (home_dir : option string) (current_dir : result io_error string)
    (preopen : string → result string ()) : result HostError (list wasi_call) :=
  let calls := [InheritStdin; Stdout "stdout"; Stderr "stderr"; InheritEnv] in
  let calls := calls ++
    (if disable_networking options
     then [AllowTcp false; AllowUdp false; AllowIpNameLookup false; SocketAddrCheck false] else []) in
  let calls := calls ++
    match home_dir with
    | Some home_dir => if negb (disable_filesystem options) then [Env MITB_HOME_DIR_ENV home_dir] else []
    | None => []
    end in
  let calls := calls ++ match alias options with Some alias => [Env MITB_ALIAS_ENV alias] | None => [] end in
  if negb (disable_filesystem options) then
    cwd ← map_err Io current_dir;
    _ ← map_err Wasmtime (preopen cwd);
    Ok (calls ++ [PreopenedDir cwd "."])
  else Ok calls.

(** [HostHttpCtx]. *)
Definition is_supported_scheme (disable_networking : bool) (scheme : string) : bool :=
  if disable_networking then false else bool_decide (scheme = "http") || bool_decide (scheme = "https").

Definition default_scheme (disable_networking : bool) : option string :=
  if disable_networking then None else Some "https".

(** ** Host functions *)

Definition host_head (t : SharedTranscript) : result string Z := map_err host_error_string (transcript_head t).
Definition host_snapshot (t : SharedTranscript) (max_bytes : Z) : result string bytes :=
  map_err host_error_string (transcript_snapshot_bytes t (Z.to_nat max_bytes)).
Definition host_read_since (t : SharedTranscript) (cursor max_bytes : Z) : result string (Z * bytes) :=
  map_err host_error_string (transcript_bytes_since t cursor (Z.to_nat max_bytes)).

(** ** The terminal session: [PtySession] *)

(** What the blocking task that asks the child answers: the join, the child's
    mutex, and [try_wait] (whether it has exited). *)
Record child_answer := ChildAnswer {
  joined : result string ();
  child_poisoned : bool;
  try_wait : result io_error bool;
}.

Definition child_exited (a : child_answer) : result HostError bool :=
  _ ← map_err HostTypes.Join (joined a);
  _ ← lock "child" (child_poisoned a) ();
  map_err Io (try_wait a).

Record terminate_answer := TerminateAnswer {
  on_child : child_answer;
  kill : result io_error ();
  wait : result io_error ();
  reader_task : result string (result HostError ());
}.

(** Whether [kill] is called, and the result. *)
Definition terminate (a : terminate_answer) : bool * result HostError () :=
  match child_exited (on_child a) with
  | Err e => (false, Err e)
  | Ok exited =>
    (negb exited,
     _ ← (if exited then Ok () else _ ← map_err Io (kill a); map_err Io (wait a));
     finished ← map_err HostTypes.Join (reader_task a);
     finished)
  end.

(** [PtySession::spawn]: what the system's calls answer, in their order. *)
Record spawn_answers := SpawnAnswers {
  openpty : result string ();
  current_dir : result io_error string;
  spawn_command : result string ();
  try_clone_reader : result string ();
  take_writer : result string ();
}.

(** The terminal's errors are [anyhow] errors, as wasmtime's are. *)
Definition pty_spawn (a : spawn_answers) : result HostError () :=
  _ ← map_err Wasmtime (openpty a);
  _ ← map_err Io (current_dir a);
  _ ← map_err Wasmtime (spawn_command a);
  _ ← map_err Wasmtime (try_clone_reader a);
  map_err Wasmtime (take_writer a).

(** ** The loop *)

Section Run.
Context `{Device}.

(** What happens at one tick: the agent's fatal error if it has sent one,
    whether others have requested shutdown since, what the child and the policy
    answer. *)
Record tick := Tick {
  agent_fatal : option string;
  shutdown_requested : bool;
  child : child_answer;
  polled : result string (result string action);
}.

Record host := Host {
  pty : writer;
  shutdown : bool;
  events : option (list HostEvent);
  polls : nat;
}.

Definition notify (s : host) (e : HostEvent) : host := Host (pty s) (shutdown s) (send_event (events s) e) (polls s).
Definition request_shutdown (s : host) : host := Host (pty s) true (events s) (polls s).

(** What the policy's answer to a poll does; [None] goes on. *)
Definition act (s : host) (answer : result string (result string action)) : host * option (result HostError ()) :=
  match answer with
  | Err e => (s, Some (Err (Wasmtime e)))
  | Ok (Ok (Perturb inputs)) =>
    let '(w, r) := write_inputs inputs (pty s) in
    (Host w (shutdown s) (events s) (polls s), match r with Ok _ => None | Err e => Some (Err e) end)
  | Ok (Ok Wait) => (s, None)
  | Ok (Err error) => (notify s (SessionEnded ("policy error: " +:+ error)), Some (Err (Policy error)))
  end.

(** One round of the loop: [Some (Ok ())] breaks it, [Some (Err e)] returns. *)
Definition on_tick (has_agent : bool) (s : host) (t : tick) : host * option (result HostError ()) :=
  let s := if shutdown_requested t then request_shutdown s else s in
  match if has_agent then agent_fatal t else None with
  | Some message => (request_shutdown s, Some (Err (HostTypes.Agent message)))
  | None =>
    if shutdown s then (notify s (SessionEnded "shutdown requested by application"), Some (Ok ()))
    else match child_exited (child t) with
    | Err e => (s, Some (Err e))
    | Ok true => (notify s (SessionEnded "child process exited"), Some (Ok ()))
    | Ok false => act (Host (pty s) (shutdown s) (events s) (S (polls s))) (polled t)
    end
  end.

Fixpoint poll_loop (has_agent : bool) (s : host) (ticks : list tick) : host * option (result HostError ()) :=
  match ticks with
  | [] => (s, None)
  | t :: ticks =>
    match on_tick has_agent s t with
    | (s, None) => poll_loop has_agent s ticks
    | (s, r) => (s, r)
    end
  end.

(** How a run ended: its result, and what [terminate] did if it was called. *)
Record ending := Ending { outcome : result HostError (); terminated : bool; killed : bool }.

(** [runtime::run]; [None] when the loop is still running after the ticks. *)
Definition run (options : HostOptions) (instantiated constructed : result HostError ())
    (spawned : result HostError ()) (w : writer) (already_shutdown : bool) (ticks : list tick)
    (at_end : terminate_answer) : host * option ending :=
  let s := Host w (has_shutdown options && already_shutdown) (if has_event_sender options then Some [] else None) 0 in
  match (_ ← instantiated; _ ← constructed; spawned) with
  | Err e => (s, Some (Ending (Err e) false false))
  | Ok _ =>
    match poll_loop (bool_decide (is_Some (agent options))) s ticks with
    | (s, None) => (s, None)
    | (s, Some (Err e)) => (s, Some (Ending (Err e) false false))
    | (s, Some (Ok _)) =>
      let '(killed, r) := terminate at_end in
      (notify (request_shutdown s) Disconnected, Some (Ending r true killed))
    end
  end.

End Run.

(** ** Capabilities *)

(** What the options grant, call by call: the standard streams and the
    environment always, the streams through the host's log; network restrictions
    exactly without networking; the home directory's name and the working
    directory exactly with the file system; the alias as given. *)
Definition granted (options : HostOptions) (home_dir : option string) (cwd : result io_error string)
    (c : wasi_call) : Prop :=
  match c with
  | InheritStdin | InheritEnv => True
  | Stdout writer => writer = "stdout"
  | Stderr writer => writer = "stderr"
  | AllowTcp b | AllowUdp b | AllowIpNameLookup b | SocketAddrCheck b =>
    b = false ∧ disable_networking options = true
  | Env name value =>
    name = MITB_HOME_DIR_ENV ∧ disable_filesystem options = false ∧ home_dir = Some value ∨
    name = MITB_ALIAS_ENV ∧ alias options = Some value
  | PreopenedDir host guest => disable_filesystem options = false ∧ cwd = Ok host ∧ guest = "."
  end.

#[local] Instance wasi_call_eq_dec : EqDecision wasi_call.
Proof. solve_decision. Defined.

Definition is_env (c : wasi_call) : bool := match c with Env _ _ => true | _ => false end.

Lemma wasi_calls_Ok options home_dir cwd preopen calls :
  wasi_calls options home_dir cwd preopen = Ok calls →
  NoDup calls ∧ (∀ c, c ∈ calls ↔ granted options home_dir cwd c) ∧
  ∃ before after, calls = before ++ InheritEnv :: after ∧ existsb is_env before = false.
Proof.
  unfold wasi_calls, granted. intros Hcalls. split_and!.
  - destruct (disable_filesystem options); cbn in Hcalls;
      [|destruct cwd as [dir|]; [|done]; cbn in Hcalls; destruct (preopen dir); [|done]; cbn in Hcalls];
      injection Hcalls as <-; destruct (disable_networking options), home_dir, (alias options);
      repeat (apply NoDup_cons; split; [set_solver|]); apply NoDup_nil_2.
  - intros c. destruct (disable_filesystem options); cbn in Hcalls;
      [|destruct cwd as [dir|]; [|done]; cbn in Hcalls; destruct (preopen dir); [|done]; cbn in Hcalls];
      injection Hcalls as <-; destruct (disable_networking options), home_dir, (alias options);
      cbn [app negb]; rewrite !elem_of_cons, elem_of_nil; destruct c; naive_solver.
  - exists [InheritStdin; Stdout "stdout"; Stderr "stderr"]. cbn in Hcalls.
    destruct (disable_filesystem options); cbn in Hcalls;
      [|destruct cwd as [dir|]; [|done]; cbn in Hcalls; destruct (preopen dir); [|done]; cbn in Hcalls];
      injection Hcalls as <-; eexists; done.
Qed.

Lemma wasi_calls_Err options home_dir cwd preopen e :
  wasi_calls options home_dir cwd preopen = Err e ↔
  disable_filesystem options = false ∧
  ((∃ error, cwd = Err error ∧ e = Io error) ∨ ∃ dir m, cwd = Ok dir ∧ preopen dir = Err m ∧ e = Wasmtime m).
Proof.
  unfold wasi_calls. destruct (disable_filesystem options); cbn; [by split; [|intros [? _]]|].
  destruct cwd as [dir|error]; cbn.
  - destruct (preopen dir) as [[]|m] eqn:Ep; cbn; split.
    + done.
    + intros [_ [(? & ? & _)|(d & m & [= <-] & Em & _)]]; congruence.
    + intros [= <-]. split; [done|]. right. by exists dir, m.
    + intros [_ [(? & ? & _)|(d & m' & [= <-] & Em & ->)]]; congruence.
  - split; [intros [= <-]; split; [done|]; left; by exists error|].
    intros [_ [(? & [= <-] & ->)|(d & m' & ? & _)]]; congruence.
Qed.

Lemma spawn_process_child_Ok command_spawn name args :
  HostChild.spawn_process_child command_spawn name args = Ok () ↔
  str_is_empty (trim name) = false ∧
  command_spawn name args = Ok (Pipes true true true).
Proof.
  unfold HostChild.spawn_process_child. destruct (str_is_empty (trim name)); [naive_solver|].
  destruct (command_spawn name args) as [[[] [] []]|]; cbn; naive_solver.
Qed.

(** C18. A policy gets exactly the capabilities the options leave it.  Building its
    context fails exactly when the file system is left to it and the working
    directory cannot be found or opened; otherwise each call on the context is
    made once and is one of those granted, all of which are made: the standard
    streams, the host's environment (before anything set on top of it), the home
    directory and the working directory alone exactly with the file system, the
    four refusals of sockets and names exactly without networking, the alias as
    given.  HTTP is let through exactly with networking, for http and https, the
    latter by default.  A command is given to the system exactly with spawning
    and a name that is not blank; spawning succeeds exactly when the system
    gives a child with all three streams, and without spawning the answer is a
    permission error. *)
Theorem capabilities_follow_options (options : HostOptions) (home_dir : option string)
    (cwd : result io_error string) (preopen : string → result string ())
    (command_spawn : string → list string → result io_error pipes) (name : string) (args : list string) :
  match wasi_calls options home_dir cwd preopen with
  | Err e => disable_filesystem options = false ∧
      ((∃ error, cwd = Err error ∧ e = Io error) ∨ ∃ dir m, cwd = Ok dir ∧ preopen dir = Err m ∧ e = Wasmtime m)
  | Ok calls => NoDup calls ∧ (∀ c, c ∈ calls ↔ granted options home_dir cwd c) ∧
      (∃ before after, calls = before ++ InheritEnv :: after ∧ existsb is_env before = false) ∧
      ∀ dir, disable_filesystem options = false → cwd = Ok dir → preopen dir = Ok ()
  end ∧
  (∀ scheme, is_supported_scheme (disable_networking options) scheme = true ↔
     disable_networking options = false ∧ (scheme = "http" ∨ scheme = "https")) ∧
  (∀ scheme, default_scheme (disable_networking options) = Some scheme ↔
     disable_networking options = false ∧ scheme = "https") ∧
  let '(given, answer) := HostChild.spawn (disable_spawn options) command_spawn name args in
  (given = [(name, args)] ∨ given = []) ∧
  (given ≠ [] ↔ disable_spawn options = false ∧ str_bytes (trim name) ≠ []) ∧
  (answer = Ok () ↔ given ≠ [] ∧ command_spawn name args = Ok (Pipes true true true)) ∧
  (disable_spawn options = true → ∃ text, answer = Err (SpawnError SpawnPermissionDenied text)).
Proof.
  split_and!.
  - destruct (wasi_calls _ _ _ _) as [calls|e] eqn:E; [|by apply wasi_calls_Err in E].
    destruct (wasi_calls_Ok _ _ _ _ _ E) as (? & ? & ?). split_and!; [done..|].
    intros dir Hd ->. unfold wasi_calls in E. rewrite Hd in E. cbn in E. by destruct (preopen dir) as [[]|].
  - intros scheme. unfold is_supported_scheme. destruct (disable_networking options); [naive_solver|].
    rewrite orb_true_iff, !bool_decide_eq_true. naive_solver.
  - intros scheme. unfold default_scheme. destruct (disable_networking options); naive_solver.
  - unfold HostChild.spawn. destruct (disable_spawn options).
    { split_and!; [by right|naive_solver|naive_solver|]. intros _. by eexists. }
    rewrite spawn_process_child_Ok. unfold str_is_empty. rewrite str_len_bytes.
    destruct (str_bytes (trim name)) as [|b l]; cbn; split_and!; auto; naive_solver.
Qed.

(** ** A run from start to end *)

Section RunSpec.
Context `{Device}.

(** The tick lets the loop go on: the answers call for no end. *)
Definition goes_on (has_agent : bool) (t : tick) : Prop :=
  (has_agent = true → agent_fatal t = None) ∧ shutdown_requested t = false ∧ child_exited (child t) = Ok false ∧
  ∃ a, polled t = Ok (Ok a).

(** What the policy's answer at a tick types. *)
Definition typed (t : tick) : list effect :=
  match polled t with Ok (Ok (Perturb inputs)) => plan None inputs | _ => [] end.

Lemma on_tick_goes_on has_agent s t s' :
  shutdown s = false → on_tick has_agent s t = (s', None) →
  goes_on has_agent t ∧ shutdown s' = false ∧ events s' = events s ∧ polls s' = S (polls s) ∧
  trace (pty s') = trace (pty s) ++ typed t ∧ wpoisoned (pty s') = wpoisoned (pty s).
Proof.
  intros Hsh. unfold on_tick, goes_on, typed. destruct (shutdown_requested t) eqn:Er; cbn.
  { by case_match. }
  destruct (if has_agent then agent_fatal t else None) eqn:Ea; [done|]. rewrite Hsh.
  destruct (child_exited (child t)) as [[|]|e] eqn:Ec; try done.
  assert (has_agent = true → agent_fatal t = None) as Hag by by intros ->.
  destruct (polled t) as [[[inputs|]|error]|e] eqn:Ep; cbn; try done.
  - destruct (emits_inputs None inputs (pty s)) as (d & rest & Hd & Ht & Hp & Hok & _). fold (write_inputs inputs) in *.
    destruct (write_inputs inputs (pty s)) as [w [u|e]]; [|done]. cbn in *. intros [= <-]. cbn.
    rewrite Ht, Hd, (Hok eq_refl), app_nil_r. split_and!; try done. by eexists.
  - intros [= <-]. cbn. rewrite app_nil_r. split_and!; try done. by eexists.
Qed.

(** A tick that ends the loop. *)
Lemma on_tick_ends `{!Reliable} has_agent s t s' r :
  shutdown s = false → wpoisoned (pty s) = false → on_tick has_agent s t = (s', Some r) →
  ¬ goes_on has_agent t ∧ trace (pty s') = trace (pty s) ∧
  match r with
  | Ok _ => ∃ reason, events s' = send_event (events s) (SessionEnded reason)
  | Err e => events s' = events s ∨ ∃ m, e = Policy m ∧ events s' = send_event (events s) (SessionEnded ("policy error: " +:+ m))
  end.
Proof.
  intros Hsh Hw. unfold on_tick, goes_on. destruct (shutdown_requested t) eqn:Er.
  { cbn. case_match; intros [= <- <-]; (split; [naive_solver|]); (split; [done|]); first [by left|by eexists]. }
  destruct (if has_agent then agent_fatal t else None) as [m|] eqn:Ea.
  { intros [= <- <-]. split; [|split; [done|by left]]. destruct has_agent; [|done]. naive_solver. }
  rewrite Hsh. destruct (child_exited (child t)) as [[|]|e] eqn:Ec.
  - intros [= <- <-]. split; [naive_solver|]. split; [done|]. by eexists.
  - destruct (polled t) as [[[inputs|]|error]|e] eqn:Ep; cbn; try done.
    + destruct (emits_inputs None inputs (pty s)) as (d & rest & _ & _ & _ & _ & Hr). fold (write_inputs inputs) in *.
      specialize (Hr _ Hw). destruct (write_inputs inputs (pty s)) as [w [u|e]]; done.
    + intros [= <- <-]. split; [naive_solver|]. split; [done|]. right. by eexists.
    + intros [= <- <-]. split; [naive_solver|]. split; [done|]. by left.
  - intros [= <- <-]. split; [naive_solver|]. split; [done|]. by left.
Qed.

Lemma poll_loop_spec `{!Reliable} has_agent ticks : ∀ s,
  shutdown s = false → wpoisoned (pty s) = false →
  let '(s', r) := poll_loop has_agent s ticks in
  ∃ before rest, ticks = before ++ rest ∧ Forall (goes_on has_agent) before ∧
    trace (pty s') = trace (pty s) ++ concat (typed <$> before) ∧
    match r with
    | None => rest = [] ∧ events s' = events s ∧ polls s' = (polls s + length ticks)%nat
    | Some r =>
      (∃ t rest', rest = t :: rest' ∧ ¬ goes_on has_agent t) ∧
      match r with
      | Ok _ => ∃ reason, events s' = send_event (events s) (SessionEnded reason)
      | Err e => events s' = events s ∨
                 ∃ m, e = Policy m ∧ events s' = send_event (events s) (SessionEnded ("policy error: " +:+ m))
      end
    end.
Proof.
  induction ticks as [|t ticks IH]; intros s Hsh Hw; cbn [poll_loop].
  { exists [], []. cbn. rewrite app_nil_r, Nat.add_0_r. by split_and!. }
  destruct (on_tick has_agent s t) as [s1 [r|]] eqn:E.
  - destruct (on_tick_ends _ _ _ _ _ Hsh Hw E) as (Hg & Ht & He).
    exists [], (t :: ticks). cbn. rewrite app_nil_r. split_and!; try done. by eexists _, _.
  - destruct (on_tick_goes_on _ _ _ _ Hsh E) as (Hg & Hsh1 & He & Hn & Ht & Hw1).
    specialize (IH s1 Hsh1 ltac:(congruence)). destruct (poll_loop has_agent s1 ticks) as [s2 r].
    destruct IH as (before & rest & -> & Hb & Ht2 & Hr). exists (t :: before), rest. cbn.
    rewrite Ht2, Ht, <- app_assoc. rewrite He, Hn in Hr. split_and!; try done; [by constructor|].
    destruct r; [done|]. destruct Hr as (-> & -> & ->). cbn. split_and!; [done..|lia].
Qed.

(** C17. A run that starts polls its policy at every tick at which the agent, the
    application and the child let it go on and types exactly what the policy asks
    for, in order; it ends at the first tick that does not go on.  When the loop
    is left, the child is terminated and the application is told that the session
    ended and that the host is disconnected, in this order; when the run fails,
    it is told at most of a policy error, and neither is the child terminated nor
    the disconnection told. *)
Theorem run_types_until_it_ends `{!Reliable} (options : HostOptions) (w : writer) (ticks : list tick)
    (at_end : terminate_answer)
    (Hw : wpoisoned w = false) :
  let '(s, ended) := run options (Ok ()) (Ok ()) (Ok ()) w false ticks at_end in
  ∃ before rest, ticks = before ++ rest ∧ Forall (goes_on (bool_decide (is_Some (agent options)))) before ∧
    trace (pty s) = trace w ++ concat (typed <$> before) ∧
    match ended with
    | None => rest = [] ∧ polls s = length ticks
    | Some e =>
      (∃ t rest', rest = t :: rest' ∧ ¬ goes_on (bool_decide (is_Some (agent options))) t) ∧
      if terminated e
      then shutdown s = true ∧ outcome e = (terminate at_end).2 ∧
           (has_event_sender options = true → ∃ reason, events s = Some [SessionEnded reason; Disconnected])
      else is_ok (outcome e) = false ∧
           (has_event_sender options = true →
            events s = Some [] ∨ ∃ m, outcome e = Err (Policy m) ∧ events s = Some [SessionEnded ("policy error: " +:+ m)])
    end.
Proof.
  unfold run. cbn. rewrite andb_false_r.
  set (s0 := Host w false _ 0).
  pose proof (poll_loop_spec (bool_decide (is_Some (agent options))) ticks s0 eq_refl Hw) as Hl.
  destruct (poll_loop _ s0 ticks) as [s [r|]]; destruct Hl as (before & rest & -> & Hb & Ht & Hr).
  - destruct r as [u|e].
    + destruct (terminate at_end) as [killed r] eqn:Et. exists before, rest. cbn. split_and!; try done; [apply Hr|].
      intros Hs. destruct Hr as [_ [reason Hr]]. exists reason. rewrite Hr. cbn. by rewrite Hs.
    + exists before, rest. cbn. split_and!; try done; [apply Hr|]. intros Hs. destruct Hr as [_ Hr]. cbn in Hr.
      rewrite Hs in Hr. destruct Hr as [->|(m & -> & ->)]; [by left|right]. by exists m.
  - exists before, rest. destruct Hr as (-> & _ & Hn). by split_and!.
Qed.

End RunSpec.

Definition alive : child_answer := ChildAnswer (Ok ()) false (Ok false).
Definition gone : child_answer := ChildAnswer (Ok ()) false (Ok true).

Definition with_window : HostOptions :=
  HostOpts "policy.wasm" "vi" [] false false false None (from_secs 2) 1024 true true None.

(** A run of three ticks: the policy types, waits, and the child exits. *)
Definition short_run : list tick :=
  [Tick None false alive (Ok (Ok (Perturb [Text "ls"; Key Enter]))); Tick None false alive (Ok (Ok Wait));
   Tick None false gone (Ok (Ok Wait))].

Definition new_writer : @writer sink := @Writer sink false () [].

Lemma run_types_until_it_ends_witness :
  ∃ s e, @run sink with_window (Ok ()) (Ok ()) (Ok ()) new_writer false short_run
    (TerminateAnswer gone (Ok ()) (Ok ()) (Ok (Ok ()))) = (s, Some e) ∧
    outcome e = Ok () ∧
    ∃ reason, @events sink s = Some [SessionEnded reason; Disconnected].
Proof.
  pose proof (@run_types_until_it_ends sink sink_reliable with_window new_writer short_run
    (TerminateAnswer gone (Ok ()) (Ok ()) (Ok (Ok ()))) eq_refl) as Hr.
  destruct (run _ _ _ _ _ _ _ _) as [s [e|]] eqn:E.
  - destruct Hr as (before & rest & _ & _ & _ & _ & Hr). exists s, e. split; [done|].
    assert (terminated e = true) as Ht by (vm_compute in E; injection E as <- <-; reflexivity).
    rewrite Ht in Hr. destruct Hr as (_ & -> & Hev). split; [reflexivity|]. by apply Hev.
  - exfalso. vm_compute in E. discriminate E.
Defined.

(** A policy that fails leaves its child running and its application without
    the disconnection. *)
Example policy_error_skips_shutdown :
  let '(s, e) := @run sink with_window (Ok ()) (Ok ()) (Ok ()) new_writer false
    [Tick None false alive (Ok (Err "no plan"))] (TerminateAnswer gone (Ok ()) (Ok ()) (Ok (Ok ()))) in
  (terminated <$> e, @shutdown sink s, @events sink s) =
  (Some false, false, Some [SessionEnded "policy error: no plan"]).
Proof. vm_compute. reflexivity. Qed.

Lemma capabilities_follow_options_witness :
  let options := HostOpts "policy.wasm" "vi" [] true false true (Some "hal") (from_secs 2) 1024 true true None in
  (∃ calls, wasi_calls options (Some "/home/user") (Ok "/tmp") (fun _ => Ok ()) = Ok calls ∧
    (∀ h g, PreopenedDir h g ∉ calls) ∧ AllowTcp false ∉ calls ∧ Env MITB_ALIAS_ENV "hal" ∈ calls) ∧
  is_supported_scheme (disable_networking options) "https" = true.
Proof.
  intros options.
  destruct (capabilities_follow_options options (Some "/home/user") (Ok "/tmp") (fun _ => Ok ())
    (fun _ _ => Err (IoError NotFound "")) "ls" []) as (Hc & Hs & _).
  split; [|apply Hs; auto].
  destruct (wasi_calls _ _ _ _) as [calls|] eqn:E; [|discriminate E].
  destruct Hc as (_ & Hg & _). exists calls. split; [done|]. split_and!.
  - intros h g Hin. apply Hg in Hin as [Hd _]. discriminate Hd.
  - intros Hin. apply Hg in Hin as [_ Hd]. discriminate Hd.
  - apply Hg. right. split; reflexivity.
Defined.
