(* ===== verification/Cli.v ===== *)
(** * The command line: [src/main.rs]

    From clap's matches and the environment to the options of the host, and the
    result of the whole program. *)

From S2P Require Import Sdk Agent Runtime.

(** ** The arguments declared

    [clap] reads the command line by this table; what it matches is a parameter.
    [get_one], [get_many] and [get_flag] panic on an argument that is not
    declared, or not of the type asked for. *)

Inductive arg_type : Type := StringArg | U64Arg | UsizeArg | FlagArg.
#[export] Instance arg_type_eq_dec : EqDecision arg_type.
Proof. solve_decision. Defined.

Record Arg := MkArg {
  arg_id : string;
  long : option string;
  required : bool;
  many : bool;
  conflicts_with : option string;
  default_value : option string;
  ty : arg_type;
}.

Definition positional (id : string) (required many : bool) (conflicts : option string) : Arg :=
  MkArg id None required many conflicts None StringArg.
Definition flag (id name : string) : Arg := MkArg id (Some name) false false None None FlagArg.
Definition option_arg (id name : string) (conflicts default_value : option string) (ty : arg_type) : Arg :=
  MkArg id (Some name) false false conflicts default_value ty.

Definition cli : list Arg :=
  [positional "policy" true false None;
   positional "command" false false (Some "cmd");
   positional "command_args" false true None;
   option_arg "cmd" "cmd" (Some "command") None StringArg;
   option_arg "alias" "alias" None None StringArg;
   flag "disable_spawn" "disable-spawn";
   flag "disable_networking" "disable-networking";
   flag "disable_filesystem" "disable-filesystem";
   option_arg "interval_ms" "interval-ms" None (Some "2000") U64Arg;
   option_arg "max_transcript_bytes" "max-transcript-bytes" None (Some "524288") UsizeArg;
   flag "headless" "headless"].

Definition declared (id : string) : option Arg := snd <$> list_find (fun a => arg_id a = id) cli.

(** What [parse_options] asks for: the argument, its type, and whether many. *)
Definition accesses : list (string * arg_type * bool) :=
  [("policy", StringArg, false); ("command", StringArg, false); ("cmd", StringArg, false); ("command_args", StringArg, true);
   ("alias", StringArg, false); ("disable_spawn", FlagArg, false); ("disable_networking", FlagArg, false);
   ("disable_filesystem", FlagArg, false); ("interval_ms", U64Arg, false); ("max_transcript_bytes", UsizeArg, false);
   ("headless", FlagArg, false)].

(** What clap has matched; the intervals have default values. *)
Record matches := Matches {
  arg_policy : option string;
  arg_command : option string;
  arg_cmd : option string;
  arg_command_args : list string;
  arg_alias : option string;
  flag_disable_spawn : bool;
  flag_disable_networking : bool;
  flag_disable_filesystem : bool;
  arg_interval_ms : option Z;
  arg_max_transcript_bytes : option nat;
  flag_headless : bool;
}.

Record CliOptions := CliOpts {
  policy_component : string;
  command : string;
  command_args : list string;
  disable_spawn : bool;
  disable_networking : bool;
  disable_filesystem : bool;
  alias : option string;
  interval_ms : Z;
  max_transcript_bytes : nat;
  headless : bool;
}.

Inductive CliError : Type :=
| MissingArgument (name : string)
| InvalidArgument (field message : string)
| HostFailed (e : HostError)
| BoxUi (message : string)
| RuntimeInit (e : io_error)
| HostThreadPanic.

(** A trimmed, non-empty environment variable. *)
Definition env_text (value : option string) : option string :=
  match trim <$> value with
  | Some value => if str_is_empty value then None else Some value
  | None => None
  end.

(** The command to run and its arguments. *)
Definition parse_command (shell_env : option string) (command shell_command : option string)
    (command_args : list string) : result CliError (string * list string) :=
  match command, shell_command with
  | Some command, None => Ok (command, command_args)
  | None, Some shell_command =>
    if str_is_empty (trim shell_command) then Err (InvalidArgument "cmd" "must not be empty")
    else if negb (bool_decide (command_args = [])) then
      Err (InvalidArgument "command_args" "cannot be used with `--cmd`")
    else
      shell ← ok_or (InvalidArgument "cmd" "requires `$SHELL` to be set to a shell executable") (env_text shell_env);
      Ok (shell, ["-ic"; shell_command])
  | Some _, Some _ => Err (InvalidArgument "command" "cannot be used with `--cmd`")
  | None, None => Err (MissingArgument "command or --cmd")
  end.

Definition parse_options (shell_env : option string) (m : matches) : result CliError CliOptions :=
  policy ← ok_or (MissingArgument "policy") (arg_policy m);
  let alias := trim <$> arg_alias m in
  interval_ms ← ok_or (MissingArgument "interval_ms") (arg_interval_ms m);
  max_transcript_bytes ← ok_or (MissingArgument "max_transcript_bytes") (arg_max_transcript_bytes m);
  if interval_ms =? 0 then Err (InvalidArgument "interval_ms" "must be greater than zero")
  else if (max_transcript_bytes =? 0)%nat then
    Err (InvalidArgument "max_transcript_bytes" "must be greater than zero")
  else if bool_decide (alias = Some "") then Err (InvalidArgument "alias" "must not be empty")
  else
    '(command, command_args) ← parse_command shell_env (arg_command m) (arg_cmd m) (arg_command_args m);
    Ok (CliOpts policy command command_args (flag_disable_spawn m) (flag_disable_networking m)
          (flag_disable_filesystem m) alias interval_ms max_transcript_bytes (flag_headless m)).

(** The agent's options, and whether a warning says that only one of the two
    variables is set. *)
Definition agent_options_from_env (server_addr secret_code : option string) (alias : option string)
    : option AgentOptions * bool :=
  match env_text server_addr, env_text secret_code with
  | Some server_addr, Some secret_code => (Some (Options server_addr secret_code alias), false)
  | None, None => (None, false)
  | _, _ => (None, true)
  end.

(** The host's options in [main]. *)
Definition host_options (o : CliOptions) (server_addr secret_code : option string) : HostOptions := {|
  Runtime.policy_component := policy_component o;
  Runtime.command := command o;
  Runtime.command_args := command_args o;
  Runtime.disable_spawn := disable_spawn o;
  Runtime.disable_networking := disable_networking o;
  Runtime.disable_filesystem := disable_filesystem o;
  Runtime.alias := alias o;
  poll_interval := from_millis (interval_ms o);
  Runtime.max_transcript_bytes := max_transcript_bytes o;
  has_event_sender := negb (headless o);
  has_shutdown := negb (headless o);
  agent := (agent_options_from_env server_addr secret_code (alias o)).1;
|}.

(** [run_host_blocking]: tokio's runtime may not start. *)
Definition run_host_blocking (build : result io_error ()) (host : result HostError ()) : result CliError () :=
  _ ← map_err RuntimeInit build;
  map_err HostFailed host.

(** [main]: what the host ([None] if it panics) and the window answer; a panic
    of the host is the program's own when there is no window. *)
Definition main (shell_env : option string) (m : matches) (host : option (result CliError ()))
    (window : result string ()) : option (result CliError ()) :=
  match parse_options shell_env m with
  | Err e => Some (Err e)
  | Ok options =>
    if headless options then host
    else
      let host_result := match host with Some r => r | None => Err HostThreadPanic end in
      Some (_ ← map_err BoxUi window; host_result)
  end.

Lemma env_text_Some v t : env_text v = Some t ↔ ∃ s, v = Some s ∧ t = trim s ∧ trim s ≠ "".
Proof.
  unfold env_text, str_is_empty. destruct v as [s|]; cbn; [|naive_solver].
  destruct (_ =? 0)%nat eqn:E; zb.
  - split; [done|]. intros (s' & [= <-] & _ & Hne). destruct (trim s); done.
  - split; [intros [= <-]; exists s; split_and!; try done; intros Ht; by rewrite Ht in E|]. by intros (s' & [= <-] & -> & _).
Qed.

Lemma str_is_empty_spec s : str_is_empty s = bool_decide (s = "").
Proof. unfold str_is_empty. by destruct s. Qed.

(** The command line that gives a command, or one that gives a line for the
    shell. *)
Definition command_of (shell_env : option string) (m : matches) (c : string) (args : list string) : Prop :=
  (arg_command m = Some c ∧ arg_cmd m = None ∧ args = arg_command_args m) ∨
  (arg_command m = None ∧ ∃ line, arg_cmd m = Some line ∧ trim line ≠ "" ∧ arg_command_args m = [] ∧
     env_text shell_env = Some c ∧ args = ["-ic"; line]).

Lemma parse_command_spec shell_env m c args :
  parse_command shell_env (arg_command m) (arg_cmd m) (arg_command_args m) = Ok (c, args) ↔
  command_of shell_env m c args.
Proof.
  unfold parse_command, command_of. destruct (arg_command m) as [c'|], (arg_cmd m) as [line|]; try naive_solver.
  rewrite str_is_empty_spec. case_bool_decide; [naive_solver|]. case_bool_decide; cbn; [|naive_solver].
  destruct (env_text shell_env); cbn; naive_solver.
Qed.

(** The program accepts a command line exactly when it names a policy, positive
    intervals, no blank alias, and either a command or a line for the shell that
    [$SHELL] names, but not both; the options are then those, with the alias
    trimmed and the shell's line passed whole after [-ic]. *)
Theorem parse_options_spec (shell_env : option string) (m : matches) (o : CliOptions) :
  parse_options shell_env m = Ok o ↔
  arg_policy m = Some (policy_component o) ∧
  arg_interval_ms m = Some (interval_ms o) ∧ interval_ms o ≠ 0 ∧
  arg_max_transcript_bytes m = Some (max_transcript_bytes o) ∧ max_transcript_bytes o ≠ 0%nat ∧
  alias o = trim <$> arg_alias m ∧ alias o ≠ Some "" ∧
  disable_spawn o = flag_disable_spawn m ∧ disable_networking o = flag_disable_networking m ∧
  disable_filesystem o = flag_disable_filesystem m ∧ headless o = flag_headless m ∧
  command_of shell_env m (command o) (command_args o).
Proof.
  unfold parse_options. destruct (arg_policy m) as [p|]; cbn; [|naive_solver].
  destruct (arg_interval_ms m) as [i|]; cbn; [|naive_solver].
  destruct (arg_max_transcript_bytes m) as [b|]; cbn; [|naive_solver].
  destruct (i =? 0) eqn:Ei; zb; [naive_solver|]. destruct (b =? 0)%nat eqn:Eb; zb; [naive_solver|].
  case_bool_decide as Ha.
  { split; [done|]. intros (_ & _ & _ & _ & _ & Hal & Hne & _). by rewrite Hal in Hne. }
  destruct (parse_command _ _ _ _) as [[c args]|e] eqn:E; cbn.
  - apply parse_command_spec in E. split; [intros [= <-]; by split_and!|].
    intros (? & ? & ? & ? & ? & ? & ? & ? & ? & ? & ? & Hc). apply parse_command_spec in E, Hc. destruct o. cbn in *. congruence.
  - split; [done|]. intros (_ & _ & _ & _ & _ & _ & _ & _ & _ & _ & _ & Hc). apply parse_command_spec in Hc. congruence.
Qed.

(** Reporting is on exactly when the address and the secret code are both set
    to more than white space; the secret code is then one that trimming leaves
    alone, so the room handle, derived from the code as it stands, and the key
    exchange, which trims it, use the same text. *)
Theorem agent_options_spec `{Opaque} (server_addr secret_code alias : option string) (o : AgentOptions) :
  (agent_options_from_env server_addr secret_code alias).1 = Some o ↔
  ∃ a s, server_addr = Some a ∧ secret_code = Some s ∧ trim a ≠ "" ∧ trim s ≠ "" ∧
    o = Options (trim a) (trim s) alias ∧
    trim (agent_secret_code o) = agent_secret_code o ∧
    client_new (agent_secret_code o) = Ok (Client (str_bytes (agent_secret_code o)) None None).
Proof.
  unfold agent_options_from_env. split.
  - destruct (env_text server_addr) as [a'|] eqn:Ea, (env_text secret_code) as [s'|] eqn:Es; try done.
    cbn. intros [= <-]. apply env_text_Some in Ea as (a & -> & -> & Ha), Es as (s & -> & -> & Hs).
    exists a, s. unfold client_new. cbv zeta. cbn [agent_secret_code]. rewrite !trim_trim, str_is_empty_spec, bool_decide_eq_false_2 by done.
    by split_and!.
  - intros (a & s & -> & -> & Ha & Hs & -> & _).
    rewrite (proj2 (env_text_Some (Some a) (trim a))) by eauto.
    by rewrite (proj2 (env_text_Some (Some s) (trim s))) by eauto.
Qed.

(** ** The declared arguments serve what is read *)

(** A default is a number of its argument's type. *)
Definition default_ok (a : Arg) : bool :=
  match default_value a with
  | None => true
  | Some text => bool_decide (is_Some (parse_uint U64_MAX text))
  end.

(** No access panics, no two arguments share a name, conflicts name declared
    arguments and go both ways, defaults are numbers, only the last positional
    takes many and none that is required follows one that is not. *)
Definition cli_consistent : bool :=
  let positionals := filter (fun a => long a = None) cli in
  forallb (fun x => let '(id, t, m) := x in
    match declared id with Some a => bool_decide (ty a = t) && Bool.eqb (many a) m | None => false end) accesses &&
  bool_decide (NoDup (arg_id <$> cli)) && bool_decide (NoDup (omap long cli)) &&
  forallb (fun a => match conflicts_with a with
    | Some id => match declared id with Some b => bool_decide (conflicts_with b = Some (arg_id a)) | None => false end
    | None => true end) cli &&
  forallb default_ok cli &&
  forallb (fun a => negb (many a)) (removelast positionals) &&
  forallb (fun a => negb (required a)) (drop 1 positionals).

Example cli_is_consistent : cli_consistent = true.
Proof. vm_compute. reflexivity. Qed.

(** Without options the transcript kept is exactly what a policy asks for. *)
Example default_transcript_is_snapshot :
  (default_value <$> declared "max_transcript_bytes") = Some (Some (pretty (Z.to_N Sdk.DEFAULT_TERMINAL_MAX_BYTES))).
Proof. vm_compute. reflexivity. Qed.
