(* ===== verification/SdkHttp.v ===== *)
(** * The SDK's HTTP client: [mitb-sdk/src/lib.rs], module [http]

    Requests, URL parsing and [send].  [wasi:http] is a parameter: what it
    answers to each call of the program. *)

From S2P Require Import Sdk.

Inductive HttpMethod : Type :=
| Get | Head | Post | Put | Delete | Connect | Options | Trace | Patch
| OtherMethod (name : string).

Record HttpRequest := HttpReq {
  method : HttpMethod;
  url : string;
  headers : list (string * bytes);
  body : bytes;
  connect_timeout : option Z;
  first_byte_timeout : option Z;
  between_bytes_timeout : option Z;
}.

Record HttpResponse := HttpResp {
  status : Z;
  response_headers : list (string * bytes);
  response_body : bytes;
}.

(** [wasi:http]'s scheme. *)
Inductive Scheme : Type := Http | Https | OtherScheme (name : string).

Record ParsedUrl := Parsed {
  scheme : Scheme;
  authority : string;
  path_with_query : string;
}.

(** ** Building requests *)

Definition request_new (method : HttpMethod) (url : string) : HttpRequest :=
  HttpReq method url [] [] None None None.
Definition get (url : string) : HttpRequest := request_new Get url.
Definition post (url : string) : HttpRequest := request_new Post url.
Definition with_header (name : string) (value : bytes) (r : HttpRequest) : HttpRequest :=
  HttpReq (method r) (url r) (headers r ++ [(name, value)]) (body r) (connect_timeout r) (first_byte_timeout r)
    (between_bytes_timeout r).
Definition with_body (b : bytes) (r : HttpRequest) : HttpRequest :=
  HttpReq (method r) (url r) (headers r) b (connect_timeout r) (first_byte_timeout r) (between_bytes_timeout r).
Definition with_connect_timeout (d : Z) (r : HttpRequest) : HttpRequest :=
  HttpReq (method r) (url r) (headers r) (body r) (Some d) (first_byte_timeout r) (between_bytes_timeout r).
Definition with_first_byte_timeout (d : Z) (r : HttpRequest) : HttpRequest :=
  HttpReq (method r) (url r) (headers r) (body r) (connect_timeout r) (Some d) (between_bytes_timeout r).
Definition with_between_bytes_timeout (d : Z) (r : HttpRequest) : HttpRequest :=
  HttpReq (method r) (url r) (headers r) (body r) (connect_timeout r) (first_byte_timeout r) (Some d).

(** The library's error text of [String::from_utf8] is a parameter. *)
Definition text (utf8_error : bytes → string) (r : HttpResponse) : result string string :=
  match from_utf8 (response_body r) with
  | Some s => Ok s
  | None => Err ("response body was not valid utf-8: " +:+ utf8_error (response_body r))
  end.

Definition header (r : HttpResponse) (name : string) : option bytes :=
  snd ∘ snd <$> list_find (fun p : string * bytes => eq_ignore_ascii_case p.1 name = true) (response_headers r).

(** ** Formatting *)

Definition format_method (m : HttpMethod) : string :=
  match m with
  | Get => "GET" | Head => "HEAD" | Post => "POST" | Put => "PUT" | Delete => "DELETE"
  | Connect => "CONNECT" | Options => "OPTIONS" | Trace => "TRACE" | Patch => "PATCH"
  | OtherMethod name => name
  end.

Definition format_request_label (r : HttpRequest) : string := format_method (method r) +:+ " " +:+ url r.

(** ** URLs *)

Definition is_authority_end (b : byte) : bool :=
  bool_decide (b = "/"%char) || bool_decide (b = "?"%char) || bool_decide (b = "#"%char).

Definition scheme_of (scheme_text : string) : Scheme :=
  if bool_decide (scheme_text = "http") then Http
  else if bool_decide (scheme_text = "https") then Https else OtherScheme scheme_text.

Definition quoted (url : string) : string := "url `" +:+ url +:+ "`".

Definition parse_url (url : string) : result string ParsedUrl :=
  '(scheme_text, remainder) ← ok_or (quoted url +:+ " must be absolute and include a scheme")
    (split_once_bytes (str_bytes "://") (str_bytes url));
  let scheme := scheme_of (bytes_str scheme_text) in
  match remainder with
  | [] => Err (quoted url +:+ " is missing an authority")
  | _ =>
    let split_index := default (length remainder) (position is_authority_end remainder) in
    let authority := take split_index remainder in
    match authority with
    | [] => Err (quoted url +:+ " is missing an authority")
    | _ =>
      let suffix := drop split_index remainder in
      match suffix with
      | [] => Ok (Parsed scheme (bytes_str authority) "/")
      | b :: _ =>
        if bool_decide (b = "/"%char) then Ok (Parsed scheme (bytes_str authority) (bytes_str suffix))
        else if bool_decide (b = "?"%char) then
          Ok (Parsed scheme (bytes_str authority) ("/" +:+ bytes_str suffix))
        else Err (quoted url +:+ " must not include a fragment")
      end
    end
  end.

(** ** Sending *)

(** What is handed to the host. *)
Record wasi_request := WasiRequest {
  wasi_method : HttpMethod;
  wasi_scheme : Scheme;
  wasi_authority : string;
  wasi_path_with_query : string;
  wasi_headers : list (string * bytes);
  wasi_options : option (option Z * option Z * option Z);
  wasi_body : option bytes;
}.

(** The host's answers; errors are their debug texts. *)
Class HttpHost : Type := {
  fields_from_list : list (string * bytes) → result string ();
  set_connect_timeout : option Z → result string ();
  set_first_byte_timeout : option Z → result string ();
  set_between_bytes_timeout : option Z → result string ();
  accepts_method : HttpMethod → bool;
  accepts_scheme : Scheme → bool;
  accepts_authority : string → bool;
  accepts_path : string → bool;
  unwritten : wasi_request → nat;
  client_send : wasi_request → result string HttpResponse;
  trailers : wasi_request → result string ();
  finalization : wasi_request → result string ();
}.

Definition format_http_error (error : string) : string := "wasi:http request failed: " +:+ error.
Definition format_header_error (error : string) : string := "invalid HTTP headers: " +:+ error.
Definition format_request_options_error (error : string) : string := "request options were rejected: " +:+ error.

Section Send.
Context `{HttpHost}.

Definition build_request_options (r : HttpRequest) : result string (option (option Z * option Z * option Z)) :=
  match connect_timeout r, first_byte_timeout r, between_bytes_timeout r with
  | None, None, None => Ok None
  | _, _, _ =>
    let connect := duration_to_nanos_u64 <$> connect_timeout r in
    let first_byte := duration_to_nanos_u64 <$> first_byte_timeout r in
    let between_bytes := duration_to_nanos_u64 <$> between_bytes_timeout r in
    _ ← map_err format_request_options_error (set_connect_timeout connect);
    _ ← map_err format_request_options_error (set_first_byte_timeout first_byte);
    _ ← map_err format_request_options_error (set_between_bytes_timeout between_bytes);
    Ok (Some (connect, first_byte, between_bytes))
  end.

Definition accepted (b : bool) (what : string) : result string () :=
  if b then Ok () else Err ("request " +:+ what +:+ " was rejected by wasi:http").

(** [send] up to the request it hands to the host. *)
Definition prepare (r : HttpRequest) : result string wasi_request :=
  let label := format_request_label r in
  parsed ← parse_url (url r);
  _ ← map_err (fun e => "failed constructing HTTP request `" +:+ label +:+ "`: " +:+ format_header_error e)
    (fields_from_list (headers r));
  options ← map_err (fun e => "failed configuring HTTP request `" +:+ label +:+ "`: " +:+ e) (build_request_options r);
  _ ← accepted (accepts_method (method r)) "method";
  _ ← accepted (accepts_scheme (scheme parsed)) "scheme";
  _ ← accepted (accepts_authority (authority parsed)) "authority";
  _ ← accepted (accepts_path (path_with_query parsed)) "path/query";
  Ok (WasiRequest (method r) (scheme parsed) (authority parsed) (path_with_query parsed) (headers r) options
        (match body r with [] => None | b => Some b end)).

(** The rest: the body's writer and the host's client run together, the
    writer's failure comes first. *)
Definition complete (label : string) (w : wasi_request) : result string HttpResponse :=
  _ ← (match wasi_body w with
       | None => Ok ()
       | Some _ =>
         if (unwritten w =? 0)%nat then Ok ()
         else Err ("request body stream stopped before all bytes were written (" +:+ pretty (unwritten w) +:+
                   " bytes remaining)")
       end);
  response ← map_err (fun e => "HTTP request `" +:+ label +:+ "` failed: " +:+ format_http_error e) (client_send w);
  _ ← map_err (fun e => "HTTP response trailers for `" +:+ label +:+ "` failed: " +:+ format_http_error e) (trailers w);
  _ ← map_err (fun e => "HTTP request finalization for `" +:+ label +:+ "` failed: " +:+ format_http_error e)
    (finalization w);
  Ok response.

(** The request the host gets, if any, and the result. *)
Definition send (r : HttpRequest) : option wasi_request * result string HttpResponse :=
  match prepare r with
  | Err e => (None, Err e)
  | Ok w => (Some w, complete (format_request_label r) w)
  end.

End Send.

(** ** What parsing accepts *)

Definition scheme_text (s : Scheme) : string :=
  match s with Http => "http" | Https => "https" | OtherScheme name => name end.

(** The URL a parsed one stands for. *)
Definition render (p : ParsedUrl) : string :=
  scheme_text (scheme p) +:+ "://" +:+ authority p +:+ path_with_query p.

Lemma scheme_text_of t : scheme_text (scheme_of t) = t.
Proof. unfold scheme_of. repeat case_bool_decide; by subst. Qed.

(** The first occurrence of a pattern depends on what comes before its end. *)
Lemma find_bytes_app p a x y : ∀ i,
  find_bytes p (a ++ y) = Some i → (i + length p ≤ length a)%nat → find_bytes p (a ++ x) = Some i.
Proof.
  induction a as [|b a IH]; intros i Hi Hl.
  { cbn in Hl. destruct i; [|lia]. destruct p; [|cbn in Hl; lia]. by destruct x. }
  cbn [find_bytes app] in *. destruct (strip_prefix_bytes p (b :: a ++ y)) as [r|] eqn:E.
  - injection Hi as <-. cbn in Hl. apply strip_prefix_bytes_Some in E.
    destruct (strip_prefix_bytes p (b :: a ++ x)) eqn:E'; [done|]. exfalso.
    assert (b :: a = p ++ drop (length p) (b :: a)) as Hp.
    { rewrite <- (take_drop (length p) (b :: a)) at 1. f_equal.
      rewrite <- (take_app_le (b :: a) y) by (cbn; lia). cbn [app]. rewrite E. by rewrite take_app_length. }
    assert (strip_prefix_bytes p (b :: a ++ x) = Some (drop (length p) (b :: a) ++ x)) as Hs; [|congruence].
    apply strip_prefix_bytes_Some. change (b :: a ++ x) with ((b :: a) ++ x). rewrite Hp at 1. by rewrite <- app_assoc.
  - destruct i as [|i]; [by destruct (find_bytes p (a ++ y))|].
    assert (find_bytes p (a ++ y) = Some i) as Hi' by (destruct (find_bytes p (a ++ y)); cbn in Hi; congruence).
    destruct (strip_prefix_bytes p (b :: a ++ x)) as [r|] eqn:E'.
    + exfalso. apply strip_prefix_bytes_Some in E'.
      assert (b :: a = p ++ drop (length p) (b :: a)) as Hp.
      { rewrite <- (take_drop (length p) (b :: a)) at 1. f_equal.
        rewrite <- (take_app_le (b :: a) x) by (cbn in *; lia). cbn [app]. rewrite E'. by rewrite take_app_length. }
      assert (strip_prefix_bytes p (b :: a ++ y) = Some (drop (length p) (b :: a) ++ y)) as Hs; [|congruence].
      apply strip_prefix_bytes_Some. change (b :: a ++ y) with ((b :: a) ++ y). rewrite Hp at 1. by rewrite <- app_assoc.
    + rewrite (IH i Hi') by (cbn in Hl; lia). done.
Qed.

Lemma split_once_Some p l a b :
  split_once_bytes p l = Some (a, b) ↔ find_bytes p l = Some (length a) ∧ l = a ++ p ++ b.
Proof.
  unfold split_once_bytes. rewrite fmap_Some. split.
  - intros (i & Hi & [= -> ->]). pose proof (find_bytes_Some _ _ _ Hi) as [Hl Hle]. split; [|done].
    rewrite length_take, Nat.min_l by lia. done.
  - intros [Hi ->]. exists (length a). split; [done|]. rewrite take_app_length.
    by rewrite <- drop_drop, !drop_app_length.
Qed.

(** The first occurrence stays where it is when what follows it changes. *)
Lemma split_once_replace p a b c :
  split_once_bytes p (a ++ p ++ b) = Some (a, b) → split_once_bytes p (a ++ p ++ c) = Some (a, c).
Proof.
  intros [Hf _]%split_once_Some. apply split_once_Some. split; [|done].
  rewrite app_assoc in Hf. rewrite app_assoc. eapply find_bytes_app; [exact Hf|]. rewrite length_app. lia.
Qed.

Lemma position_app_end f l b r :
  Forall (fun c => f c = false) l → f b = true → position f (l ++ b :: r) = Some (length l).
Proof. intros Hl Hb. induction Hl as [|c l Hc _ IH]; cbn; [by rewrite Hb|]. by rewrite Hc, IH. Qed.

(** Where the authority ends. *)
Lemma authority_split l :
  let i := default (length l) (position is_authority_end l) in
  l = take i l ++ drop i l ∧ Forall (fun c => is_authority_end c = false) (take i l) ∧
  match drop i l with [] => True | b :: _ => is_authority_end b = true end.
Proof.
  cbn. split; [by rewrite take_drop|]. destruct (position _ l) as [i|] eqn:E; cbn.
  - apply position_Some in E as (b & Hb & Hf & Hall). split; [done|]. by rewrite (drop_S _ _ _ Hb).
  - apply position_None in E. rewrite take_ge, drop_ge by done. done.
Qed.

Definition slash_first (s : string) : Prop := ∃ r, str_bytes s = "/"%char :: r.

Lemma parse_parts t a q :
  split_once_bytes (str_bytes "://") (str_bytes t ++ str_bytes "://" ++ str_bytes a ++ str_bytes q) =
    Some (str_bytes t, str_bytes a ++ str_bytes q) →
  a ≠ "" → Forall (fun c => is_authority_end c = false) (str_bytes a) → slash_first q →
  parse_url (t +:+ "://" +:+ a +:+ q) = Ok (Parsed (scheme_of t) a q).
Proof.
  intros Hs Ha Hall [r Hq]. unfold parse_url. rewrite !str_bytes_app, Hs. cbn [ok_or mbind result_bind].
  cbv zeta. rewrite Hq, (position_app_end _ _ _ _ Hall) by reflexivity. cbn [default from_option id].
  rewrite take_app_length, drop_app_length.
  assert (str_bytes a ≠ []) as Hne by (intros E; apply Ha, str_bytes_inj; by rewrite E).
  destruct (str_bytes a) as [|x l] eqn:E; [done|]. cbn [app]. rewrite bool_decide_eq_true_2 by done.
  rewrite <- E, <- Hq, !bytes_str_bytes. done.
Qed.

(** A URL that parses is its scheme, [://], its authority and its path and
    query, except that a missing path becomes [/]; the authority is not empty and
    stops at the first slash, question mark or hash sign; and the URL so
    completed parses to the same parts. *)
Theorem parse_url_roundtrip (u : string) (p : ParsedUrl)
    (Hp : parse_url u = Ok p) :
  (∃ rest, u = scheme_text (scheme p) +:+ "://" +:+ authority p +:+ rest ∧
     (path_with_query p = rest ∨ ((rest = "" ∨ ∃ q, rest = "?" +:+ q) ∧ path_with_query p = "/" +:+ rest))) ∧
  authority p ≠ "" ∧ Forall (fun c => is_authority_end c = false) (str_bytes (authority p)) ∧
  slash_first (path_with_query p) ∧
  parse_url (render p) = Ok p.
Proof.
  unfold parse_url in Hp. destruct (split_once_bytes _ _) as [[t r]|] eqn:Es; [|done].
  cbn [ok_or mbind result_bind] in Hp. destruct r as [|x l] eqn:El; [done|]. rewrite <- El in *. clear El x l.
  set (i := default _ _) in Hp. destruct (authority_split r) as (Hr & Hall & Hend). fold i in Hr, Hall, Hend.
  destruct (take i r) as [|a0 al] eqn:Ea; [done|]. rewrite <- Ea in *. assert (take i r ≠ []) as Hne by (by rewrite Ea).
  clear Ea a0 al. set (a := take i r) in *. clearbody a.
  pose proof (proj1 (split_once_Some _ _ _ _) Es) as [_ Hu].
  assert (∀ q, slash_first q → p = Parsed (scheme_of (bytes_str t)) (bytes_str a) q →
    (∃ rest, u = bytes_str t +:+ "://" +:+ bytes_str a +:+ rest ∧
      (q = rest ∨ ((rest = "" ∨ ∃ q', rest = "?" +:+ q') ∧ q = "/" +:+ rest))) →
    (∃ rest, u = scheme_text (scheme p) +:+ "://" +:+ authority p +:+ rest ∧
      (path_with_query p = rest ∨ ((rest = "" ∨ ∃ q, rest = "?" +:+ q) ∧ path_with_query p = "/" +:+ rest))) ∧
    authority p ≠ "" ∧ Forall (fun c => is_authority_end c = false) (str_bytes (authority p)) ∧
    slash_first (path_with_query p) ∧ parse_url (render p) = Ok p) as Hgoal.
  { intros q Hq -> Hrest. unfold render. cbn. rewrite scheme_text_of, str_bytes_str. split_and!; try done.
    - intros E. apply Hne. apply (f_equal str_bytes) in E. by rewrite str_bytes_str in E.
    - apply parse_parts; rewrite ?str_bytes_str; try done.
      + rewrite Hu in Es. eapply split_once_replace. exact Es.
      + intros E. apply Hne. apply (f_equal str_bytes) in E. by rewrite str_bytes_str in E. }
  assert (∀ rest, drop i r = str_bytes rest → u = bytes_str t +:+ "://" +:+ bytes_str a +:+ rest) as Hform.
  { intros rest Hd. apply str_bytes_inj. rewrite !str_bytes_app, !str_bytes_str, <- Hd, <- Hr. exact Hu. }
  destruct (drop i r) as [|b s] eqn:Ed.
  - injection Hp as <-. apply (Hgoal "/"); [by exists []|done|]. exists "". split; [by apply Hform|]. right. split; [by left|done].
  - case_bool_decide as Eb; [|case_bool_decide as Eq; [|done]]; subst b; injection Hp as <-.
    + apply (Hgoal (bytes_str ("/"%char :: s))); [exists s; by rewrite str_bytes_str|done|].
      exists (bytes_str ("/"%char :: s)). split; [apply Hform; by rewrite str_bytes_str|by left].
    + apply (Hgoal ("/" +:+ bytes_str ("?"%char :: s))); [|done|].
      * exists ("?"%char :: s). by rewrite str_bytes_app, str_bytes_str.
      * exists (bytes_str ("?"%char :: s)). split; [apply Hform; by rewrite str_bytes_str|]. right. split; [|done].
        right. by exists (bytes_str s).
Qed.

Lemma parse_url_roundtrip_witness :
  parse_url "https://example.org?q=1" = Ok (Parsed Https "example.org" "/?q=1") ∧
  parse_url "https://example.org/?q=1" = Ok (Parsed Https "example.org" "/?q=1").
Proof.
  split; [reflexivity|].
  by destruct (parse_url_roundtrip "https://example.org?q=1" (Parsed Https "example.org" "/?q=1") eq_refl) as (_ & _ & _ & _ & Hp).
Defined.

(** A fragment is refused right after the authority, and sent as part of the
    path elsewhere. *)
Example fragment_is_sent :
  is_ok (parse_url "http://example.org#top") = false ∧
  parse_url "http://example.org/page#top" = Ok (Parsed Http "example.org" "/page#top").
Proof. split; reflexivity. Qed.

(** ** What is sent *)

Section SendSpec.
Context `{HttpHost}.

Definition no_timeouts (r : HttpRequest) : Prop :=
  connect_timeout r = None ∧ first_byte_timeout r = None ∧ between_bytes_timeout r = None.

(** The host takes every part of the request, whose URL stands for [p]. *)
Record acceptable (r : HttpRequest) (p : ParsedUrl) : Prop := {
  acc_url : parse_url (url r) = Ok p;
  acc_headers : fields_from_list (headers r) = Ok ();
  acc_timeouts : no_timeouts r ∨
    set_connect_timeout (duration_to_nanos_u64 <$> connect_timeout r) = Ok () ∧
    set_first_byte_timeout (duration_to_nanos_u64 <$> first_byte_timeout r) = Ok () ∧
    set_between_bytes_timeout (duration_to_nanos_u64 <$> between_bytes_timeout r) = Ok ();
  acc_method : accepts_method (method r) = true;
  acc_scheme : accepts_scheme (scheme p) = true;
  acc_authority : accepts_authority (authority p) = true;
  acc_path : accepts_path (path_with_query p) = true;
}.

(** The request's timeouts in nanoseconds; no options when it sets none. *)
Definition timeouts_in_nanos (r : HttpRequest) (options : option (option Z * option Z * option Z)) : Prop :=
  (options = None ↔ no_timeouts r) ∧
  ∀ o, options = Some o →
    o = (duration_to_nanos_u64 <$> connect_timeout r, duration_to_nanos_u64 <$> first_byte_timeout r,
         duration_to_nanos_u64 <$> between_bytes_timeout r).

Lemma unit_ok {E} (r : result E ()) (a : ()) : r = Ok a → r = Ok ().
Proof. by destruct a. Qed.

Lemma build_request_options_Ok r options :
  build_request_options r = Ok options ↔
  timeouts_in_nanos r options ∧
  (no_timeouts r ∨
    set_connect_timeout (duration_to_nanos_u64 <$> connect_timeout r) = Ok () ∧
    set_first_byte_timeout (duration_to_nanos_u64 <$> first_byte_timeout r) = Ok () ∧
    set_between_bytes_timeout (duration_to_nanos_u64 <$> between_bytes_timeout r) = Ok ()).
Proof.
  unfold build_request_options, timeouts_in_nanos, no_timeouts.
  destruct (connect_timeout r) as [c|], (first_byte_timeout r) as [f|], (between_bytes_timeout r) as [b|]; cbn.
  8: { split; [intros [= <-]; naive_solver|]. intros [[Hn _] _]. f_equal. symmetry. by apply Hn. }
  all: split; [intros Ho|intros [[Hn Ho] [(? & ? & ?)|(E1 & E2 & E3)]]; try done].
  all: try (rewrite E1, E2, E3; cbn; destruct options as [o|]; [by rewrite (Ho o eq_refl)|];
            by destruct (proj1 Hn eq_refl) as (? & ? & ?)).
  all: destruct (set_connect_timeout _) as [[]|]; [|done]; destruct (set_first_byte_timeout _) as [[]|]; [|done];
       destruct (set_between_bytes_timeout _) as [[]|]; [|done]; cbn in Ho; injection Ho as <-; naive_solver.
Qed.

Lemma accepted_Ok b what : accepted b what = Ok () ↔ b = true.
Proof. unfold accepted. by destruct b. Qed.

(** What is prepared is the request, and it is prepared exactly when the host
    takes it. *)
Lemma prepare_Ok r w : prepare r = Ok w ↔
  ∃ p, acceptable r p ∧
    w = WasiRequest (method r) (scheme p) (authority p) (path_with_query p) (headers r) (wasi_options w)
          (match body r with [] => None | b => Some b end) ∧
    timeouts_in_nanos r (wasi_options w).
Proof.
  unfold prepare. split.
  - intros E. apply bind_Ok in E as (p & Hp & E). apply bind_Ok in E as ([] & Hh & E).
    apply bind_Ok in E as (o & Ho & E).
    apply bind_Ok in E as ([] & Hm & E). apply bind_Ok in E as ([] & Hs & E).
    apply bind_Ok in E as ([] & Ha & E). apply bind_Ok in E as ([] & Hq & E).
    rewrite accepted_Ok in Hm, Hs, Ha, Hq. injection E as <-. exists p.
    destruct (fields_from_list (headers r)) as [[]|] eqn:Ef; [|done].
    destruct (build_request_options r) as [o'|] eqn:Eo; [|done]. injection Ho as ->.
    apply build_request_options_Ok in Eo as [? ?]. by split_and!.
  - intros (p & [Hp Hh Ht Hm Hs Ha Hq] & Hw & Hn). rewrite Hp. cbn [mbind result_bind]. rewrite Hh. cbn [map_err mbind result_bind].
    assert (build_request_options r = Ok (wasi_options w)) as -> by by apply build_request_options_Ok.
    cbn [map_err mbind result_bind]. rewrite Hm, Hs, Ha, Hq. cbn. by rewrite Hw at 2.
Qed.

Lemma timeouts_exist r : ∃ o, timeouts_in_nanos r o.
Proof.
  unfold timeouts_in_nanos, no_timeouts.
  destruct (connect_timeout r) as [c|], (first_byte_timeout r) as [f|], (between_bytes_timeout r) as [b|];
    try (exists None; by split); eexists (Some _); (split; [naive_solver|by intros o [= <-]]).
Qed.

(** C33. [send] hands a request to the host exactly when its URL parses and the host
    takes its headers, its timeouts (if it sets any), its method and the parts
    of its URL.  What it hands over is the request, unchanged: its method, the
    parts of its URL, its headers, its body if there is one, and its timeouts in
    nanoseconds.  Otherwise the answer is an error; and it is a success exactly
    when the host answered, took the whole body, and reported neither a trailer
    nor a finalization error. *)
Theorem send_spec (r : HttpRequest) :
  match send r with
  | (None, answer) => is_ok answer = false ∧ ∀ p, ¬ acceptable r p
  | (Some w, answer) =>
    (∃ p, acceptable r p ∧
      w = WasiRequest (method r) (scheme p) (authority p) (path_with_query p) (headers r) (wasi_options w)
            (match body r with [] => None | b => Some b end)) ∧
    timeouts_in_nanos r (wasi_options w) ∧
    ∀ resp, answer = Ok resp ↔
      client_send w = Ok resp ∧ (body r ≠ [] → unwritten w = 0%nat) ∧ trailers w = Ok () ∧ finalization w = Ok ()
  end.
Proof.
  unfold send. destruct (prepare r) as [w|e] eqn:E.
  2: { split; [done|]. intros p Hp. destruct (timeouts_exist r) as [o Ho].
       assert (prepare r = Ok (WasiRequest (method r) (scheme p) (authority p) (path_with_query p) (headers r) o
         (match body r with [] => None | b => Some b end))) as E'; [|congruence].
       apply prepare_Ok. by exists p. }
  apply prepare_Ok in E as (p & Hp & Hw & Hn). split; [by exists p|]. split; [done|].
  assert (wasi_body w = match body r with [] => None | b => Some b end) as Hb by (by rewrite Hw).
  clear Hw Hn Hp. intros resp. unfold complete. rewrite Hb. split.
  - intros Hc. inv_ok. split_and!.
    + destruct (client_send _); cbn in *; congruence.
    + destruct (body r); [done|]. intros _. destruct (_ =? 0)%nat eqn:Eu; [by zb|done].
    + destruct (trailers _) as [[]|]; [done|discriminate].
    + destruct (finalization _) as [[]|]; [done|discriminate].
  - intros (-> & Hu & -> & ->). destruct (body r); [done|]. rewrite Hu by done. done.
Qed.
End SendSpec.

(** ** At concrete inputs *)

(** A host that takes everything but the method TRACE, and answers at once. *)
#[local] Instance open_host : HttpHost := {|
  fields_from_list _ := Ok ();
  set_connect_timeout _ := Ok ();
  set_first_byte_timeout _ := Ok ();
  set_between_bytes_timeout _ := Ok ();
  accepts_method m := match m with Trace => false | _ => true end;
  accepts_scheme _ := true;
  accepts_authority _ := true;
  accepts_path _ := true;
  unwritten _ := 0%nat;
  client_send _ := Ok (HttpResp 200 [] []);
  trailers _ := Ok ();
  finalization _ := Ok ();
|}.

(** A request with a body and a time-out is sent as it is; a [TRACE] is not. *)
Definition a_post : HttpRequest :=
  with_connect_timeout (from_millis 5) (with_body (str_bytes "guess=42") (post "https://example.org/game?round=1")).

Lemma send_spec_witness :
  (∃ w, send a_post = (Some w, Ok (HttpResp 200 [] [])) ∧
     (∃ p, acceptable a_post p ∧
        w = WasiRequest Post (scheme p) (authority p) (path_with_query p) [] (wasi_options w) (Some (str_bytes "guess=42"))) ∧
     timeouts_in_nanos a_post (wasi_options w)) ∧
  ∀ p, ¬ acceptable (request_new Trace "https://example.org/") p.
Proof.
  split.
  - pose proof (send_spec a_post) as Hs. destruct (send a_post) as [[w|] a] eqn:E; [|vm_compute in E; discriminate E].
    destruct Hs as (Hw & Ht & _). exists w. split; [|exact (conj Hw Ht)].
    vm_compute in E. injection E as <- <-. reflexivity.
  - pose proof (send_spec (request_new Trace "https://example.org/")) as Hs.
    destruct (send _) as [[w|] a] eqn:E; [vm_compute in E; discriminate E|]. exact (proj2 Hs).
Defined.
