(* ===== verification/SdkFs.v ===== *)
(** * The SDK's file system helpers: [mitb-sdk/src/fs.rs]

    Paths, [.gitignore] rules, reading, and the recursive searches.  The guest's
    WASI file system, the glob and the regex crates are parameters. *)

From S2P Require Import Sdk.

Record PathMatch := PMatch { path : string; is_dir : bool }.

Inductive DirEntryKind : Type := KFile | KDirectory | KSymlink | KOther.

Record DirEntry := Entry { entry_name : string; entry_kind : DirEntryKind }.

Record FindOptions := FindOpts {
  include_files : bool;
  include_directories : bool;
  respect_gitignore : bool;
}.

Definition find_options_default : FindOptions := FindOpts true false true.

Record GrepOptions := GrepOpts {
  path_pattern : string;
  case_sensitive : bool;
  literal : bool;
  grep_respect_gitignore : bool;
}.

Definition grep_options_default : GrepOptions := GrepOpts "*" true false true.

Record GrepMatch := GMatch { match_path : string; line_number : Z; match_line : string }.

(** [glob]: patterns, and matching with the options of [glob_matches_pattern]
    (case-sensitive, a separator is matched literally, a leading dot is not). *)
Class Glob : Type := {
  Pattern : Type;
  pattern_new : string → result string Pattern;
  pattern_as_str : Pattern → string;
  matches_with : Pattern → string → bool;
}.

(** ** Paths *)

Definition slash : byte := "/"%char.
Definition is_slash (b : byte) : bool := bool_decide (b = slash).

(** [path.rsplit('/').next().unwrap_or(path)]. *)
Definition basename (path : string) : string :=
  match rsplit_once_byte slash (str_bytes path) with
  | Some (_, name) => bytes_str name
  | None => path
  end.

Definition join_relative_path (base child : string) : string :=
  if str_is_empty base then child else base +:+ "/" +:+ child.

Definition display_path (path : string) : string := if str_is_empty path then "." else path.

Definition normalize_relative_path (path : string) : result string string :=
  let path := trim path in
  if str_is_empty path || bool_decide (path = ".") then Err "path must reference a file"
  else if starts_with path "/" then
    Err ("absolute paths are not supported in guest fs: `" +:+ path +:+ "`")
  else Ok (default path (strip_prefix path "./")).

Definition normalize_dir_path (path : string) : string :=
  let path := trim path in
  if str_is_empty path then "." else default path (strip_prefix path "./").

(** The slashes of [directory_path] from [search_from] on, and what is before
    each; the length of the path is enough fuel. *)
Fixpoint prefix_loop (fuel : nat) (directory_path : bytes) (search_from : nat) : list bytes :=
  match fuel with
  | O => []
  | S fuel =>
    match position is_slash (drop search_from directory_path) with
    | Some relative_index =>
      let slash_index := (search_from + relative_index)%nat in
      take slash_index directory_path :: prefix_loop fuel directory_path (S slash_index)
    | None => []
    end
  end.

Definition directory_prefixes (path : string) (is_dir : bool) : list string :=
  let path := str_bytes path in
  let stop := if is_dir then length path else default 0%nat (rposition is_slash path) in
  if (stop =? 0)%nat then []
  else
    let directory_path := take stop path in
    bytes_str <$> (prefix_loop (length directory_path) directory_path 0 ++ [directory_path]).

Definition count_lines_in_bytes (contents : bytes) : Z :=
  match last contents with
  | None => 0
  | Some b =>
    let newline_count := Z.of_nat (length (filter (fun b => b = LF) contents)) in
    if bool_decide (b = LF) then newline_count else newline_count + 1
  end.

(** ** Ignore rules *)

Section Ignore.
Context `{Glob}.

Record GitignoreRule := Rule {
  base_dir : string;
  pattern : Pattern;
  negated : bool;
  directory_only : bool;
  anchored : bool;
  has_slash : bool;
}.

(** [line.trim_end_matches('\r')]. *)
Fixpoint trim_start_cr (l : bytes) : bytes :=
  match l with b :: l' => if bool_decide (b = CR) then trim_start_cr l' else l | [] => [] end.
Definition trim_end_cr (l : bytes) : bytes := rev (trim_start_cr (rev l)).

Definition backslash : byte := chr 92.

(** [strip_prefix(c)] and [strip_suffix(c)] with whether there was one. *)
Definition strip_first (c : byte) (l : bytes) : bool * bytes :=
  match l with b :: l' => if bool_decide (b = c) then (true, l') else (false, l) | [] => (false, []) end.
Definition strip_last (c : byte) (l : bytes) : bool * bytes :=
  let '(b, r) := strip_first c (rev l) in (b, rev r).

(** A line of a [.gitignore]; [None] where the loop goes on without a rule. *)
Definition parse_gitignore_line (base_dir : string) (original_line : bytes)
    : result string (option GitignoreRule) :=
  let line := trim_end_cr original_line in
  match line with
  | [] => Ok None
  | b :: _ =>
    if bool_decide (b = "#"%char) then Ok None
    else
      let '(negated, line) := strip_first "!"%char line in
      if bool_decide (line = []) then Ok None
      else
        let '(anchored, line) := strip_first slash line in
        if bool_decide (line = []) then Ok None
        else
          let '(directory_only, line) := strip_last slash line in
          if bool_decide (line = []) then Ok None
          else
            let has_slash := existsb is_slash line in
            let normalized_pattern := (fun b => if bool_decide (b = backslash) then slash else b) <$> line in
            pattern ← map_err (fun error => "invalid `.gitignore` pattern `" +:+ bytes_str line +:+ "` under `" +:+
                                            display_path base_dir +:+ "`: " +:+ error)
                        (pattern_new (bytes_str normalized_pattern));
            Ok (Some (Rule base_dir pattern negated directory_only anchored has_slash))
  end.

Fixpoint parse_gitignore_loop (base_dir : string) (contents : list bytes) (rules : list GitignoreRule)
    : result string (list GitignoreRule) :=
  match contents with
  | [] => Ok rules
  | line :: contents =>
    rule ← parse_gitignore_line base_dir line;
    parse_gitignore_loop base_dir contents (match rule with Some rule => rules ++ [rule] | None => rules end)
  end.

Definition parse_gitignore_rules (contents : string) (base_dir : string) (rules : list GitignoreRule)
    : result string (list GitignoreRule) :=
  parse_gitignore_loop base_dir (lines (str_bytes contents)) rules.

(** Whether the rule, which is in scope for [path_from_base], matches. *)
Definition rule_matches (rule : GitignoreRule) (basename_ path_from_base : string) (is_dir : bool) : bool :=
  if directory_only rule then
    existsb (fun directory_path =>
      if anchored rule || has_slash rule then matches_with (pattern rule) directory_path
      else matches_with (pattern rule) (basename directory_path))
      (directory_prefixes path_from_base is_dir)
  else if anchored rule || has_slash rule then matches_with (pattern rule) path_from_base
  else matches_with (pattern rule) basename_.

(** The path below the rule's directory, if it is. *)
Definition path_from_base (rule : GitignoreRule) (relative_path : string) : option string :=
  if str_is_empty (base_dir rule) then Some relative_path
  else strip_prefix relative_path (base_dir rule +:+ "/").

Fixpoint ignored_loop (rules : list GitignoreRule) (relative_path : string) (is_dir : bool) (ignored : bool) : bool :=
  match rules with
  | [] => ignored
  | rule :: rules =>
    let ignored :=
      match path_from_base rule relative_path with
      | None => ignored
      | Some path_from_base =>
        if str_is_empty path_from_base then ignored
        else if rule_matches rule (basename relative_path) path_from_base is_dir then negb (negated rule) else ignored
      end in
    ignored_loop rules relative_path is_dir ignored
  end.

Definition path_is_ignored (rules : list GitignoreRule) (relative_path : string) (is_dir : bool) : bool :=
  ignored_loop rules relative_path is_dir false.

Definition matches_path_pattern (pattern : Pattern) (relative_path : string) : bool :=
  if str_contains (pattern_as_str pattern) "/" then matches_with pattern relative_path
  else matches_with pattern (basename relative_path).

End Ignore.

(** ** The guest's file system

    [wasi:filesystem] as the functions call it, for one state of the files: an
    open descriptor, a file's stream and a directory's stream, collected, each
    with the result of its future.  Path flags are always empty and every
    descriptor is opened for reading; [open_at]'s flag is
    [OpenFlags::DIRECTORY]. *)
Class GuestFs : Type := {
  Descriptor : Type;
  DescriptorType : Type;
  DescriptorType_eq_dec :: EqDecision DescriptorType;
  Directory : DescriptorType;
  RegularFile : DescriptorType;
  SymbolicLink : DescriptorType;
  ErrorCode : Type;
  ErrorCode_eq_dec :: EqDecision ErrorCode;
  NoEntry : ErrorCode;
  error_name : ErrorCode → string;
  get_directories : list (Descriptor * string);
  open_at : Descriptor → string → bool → result ErrorCode Descriptor;
  read_via_stream : Descriptor → bytes * result ErrorCode unit;
  read_directory : Descriptor → list (string * DescriptorType) * result ErrorCode unit;
}.

Section Files.
Context `{GuestFs}.

(** The loop of [select_root_preopen] with its [fallback]. *)
Fixpoint preopen_loop (dirs : list (Descriptor * string)) (fallback : option Descriptor) : option Descriptor :=
  match dirs with
  | [] => fallback
  | (descriptor, path) :: dirs =>
    if bool_decide (path = ".") then Some descriptor
    else preopen_loop dirs (match fallback with None => Some descriptor | Some _ => fallback end)
  end.

Definition select_root_preopen : result string Descriptor :=
  ok_or "wasi preopens are empty; no guest filesystem root" (preopen_loop get_directories None).

Definition read_file_descriptor (file : Descriptor) (display_name : string) : result string bytes :=
  let '(contents, read_result) := read_via_stream file in
  _ ← map_err (fun error => "failed reading file `" +:+ display_path display_name +:+ "`: " +:+ error_name error)
        read_result;
  Ok contents.

Definition read_directory_entries (directory : Descriptor) (path : string)
    : result string (list (string * DescriptorType)) :=
  let '(entries, entries_result) := read_directory directory in
  _ ← map_err (fun error => "failed reading directory `" +:+ display_path path +:+ "`: " +:+ error_name error)
        entries_result;
  Ok entries.

Definition open_directory (path : string) : result string Descriptor :=
  root ← select_root_preopen;
  if str_is_empty path || bool_decide (path = ".") then Ok root
  else
    map_err (fun error => "failed opening directory `" +:+ display_path path +:+ "`: " +:+ error_name error)
      (open_at root path true).

Definition read (path : string) : result string bytes :=
  normalized_path ← normalize_relative_path path;
  root ← select_root_preopen;
  file ← map_err (fun error => "failed opening file `" +:+ display_path normalized_path +:+ "`: " +:+ error_name error)
           (open_at root normalized_path false);
  read_file_descriptor file normalized_path.

(** The library's error text of [String::from_utf8] is a parameter. *)
Definition read_text (utf8_error : bytes → string) (path : string) : result string string :=
  contents ← read path;
  ok_or ("file `" +:+ display_path path +:+ "` is not valid utf-8: " +:+ utf8_error contents) (from_utf8 contents).

Definition descriptor_type_to_dir_entry_kind (t : DescriptorType) : DirEntryKind :=
  if bool_decide (t = Directory) then KDirectory
  else if bool_decide (t = RegularFile) then KFile
  else if bool_decide (t = SymbolicLink) then KSymlink
  else KOther.

Definition read_dir (path : string) : result string (list DirEntry) :=
  let normalized_path := normalize_dir_path path in
  directory ← open_directory normalized_path;
  entries ← read_directory_entries directory normalized_path;
  Ok (map (fun '(name, t) => Entry name (descriptor_type_to_dir_entry_kind t)) entries).

(** ** [find] *)

Context `{Glob}.

Definition load_gitignore_rules (directory : Descriptor) (base_dir : string) (rules : list GitignoreRule)
    : result string (list GitignoreRule) :=
  let name := join_relative_path base_dir ".gitignore" in
  match open_at directory ".gitignore" false with
  | Ok gitignore_descriptor =>
    contents ← read_file_descriptor gitignore_descriptor name;
    parse_gitignore_rules (from_utf8_lossy contents) base_dir rules
  | Err error =>
    if bool_decide (error = NoEntry) then Ok rules
    else Err ("failed opening `" +:+ display_path name +:+ "`: " +:+ error_name error)
  end.

Record PendingDirectory := Pending {
  descriptor : Descriptor;
  relative_path : string;
  inherited_rules_len : nat;
}.

Section Find.
Variable include_pattern : Pattern.
Variable options : FindOptions.

(** The [for] loop over a directory's entries: what it pushes onto the stack
    and onto the matches. *)
Fixpoint entries_loop (directory : Descriptor) (dir_path : string) (rules : list GitignoreRule)
    (entries : list (string * DescriptorType)) (stack : list PendingDirectory) (matches : list PathMatch)
    : result string (list PendingDirectory * list PathMatch) :=
  match entries with
  | [] => Ok (stack, matches)
  | (name, type_) :: entries =>
    let is_directory := bool_decide (type_ = Directory) in
    if respect_gitignore options && bool_decide (name = ".git") && is_directory then
      entries_loop directory dir_path rules entries stack matches
    else
      let child_relative_path := join_relative_path dir_path name in
      if respect_gitignore options && path_is_ignored rules child_relative_path is_directory then
        entries_loop directory dir_path rules entries stack matches
      else if is_directory then
        let matches :=
          if include_directories options && matches_path_pattern include_pattern child_relative_path
          then matches ++ [PMatch child_relative_path true] else matches in
        child_directory ← map_err (fun error => "failed opening directory `" +:+ display_path child_relative_path +:+
                                               "`: " +:+ error_name error)
                            (open_at directory name true);
        entries_loop directory dir_path rules entries
          (stack ++ [Pending child_directory child_relative_path (length rules)]) matches
      else
        let matches :=
          if bool_decide (type_ = RegularFile) && include_files options &&
             matches_path_pattern include_pattern child_relative_path
          then matches ++ [PMatch child_relative_path false] else matches in
        entries_loop directory dir_path rules entries stack matches
  end.

(** The body of the [while] loop for the directory it popped. *)
Definition find_step (directory : PendingDirectory) (gitignore_rules : list GitignoreRule)
    (stack : list PendingDirectory) (matches : list PathMatch)
    : result string (list GitignoreRule * list PendingDirectory * list PathMatch) :=
  let gitignore_rules := take (inherited_rules_len directory) gitignore_rules in
  gitignore_rules ← (if respect_gitignore options
                     then load_gitignore_rules (descriptor directory) (relative_path directory) gitignore_rules
                     else Ok gitignore_rules);
  entries ← read_directory_entries (descriptor directory) (relative_path directory);
  '(stack, matches) ← entries_loop (descriptor directory) (relative_path directory) gitignore_rules entries stack matches;
  Ok (gitignore_rules, stack, matches).

(** The [while] loop; the stack's top is the end of the list.  [None]: out of
    fuel. *)
Fixpoint find_loop (fuel : nat) (gitignore_rules : list GitignoreRule) (stack : list PendingDirectory)
    (matches : list PathMatch) : option (result string (list PathMatch)) :=
  match last stack with
  | None => Some (Ok matches)
  | Some directory =>
    match fuel with
    | O => None
    | S fuel =>
      match find_step directory gitignore_rules (removelast stack) matches with
      | Err e => Some (Err e)
      | Ok (gitignore_rules, stack, matches) => find_loop fuel gitignore_rules stack matches
      end
    end
  end.

End Find.

Definition find (fuel : nat) (pattern : string) (options : FindOptions) : option (result string (list PathMatch)) :=
  match map_err (fun error => "invalid include pattern `" +:+ pattern +:+ "`: " +:+ error) (pattern_new pattern) with
  | Err e => Some (Err e)
  | Ok include_pattern =>
    match select_root_preopen with
    | Err e => Some (Err e)
    | Ok root => find_loop include_pattern options fuel [] [Pending root "" 0] []
    end
  end.

(** ** [grep] and [count_lines] *)

(** The [regex] crate: [escape], and the matcher a pattern and its case flag
    build, or the error's text. *)
Section Grep.
Context (regex_escape : string → string).
Context (regex_build : string → bool → result string (string → bool)).

Fixpoint grep_lines (is_match : string → bool) (path : string) (line_index : nat) (text : list bytes) : list GrepMatch :=
  match text with
  | [] => []
  | line :: text =>
    (if is_match (bytes_str line) then [GMatch path (Z.of_nat line_index + 1) (bytes_str line)] else []) ++
    grep_lines is_match path (S line_index) text
  end.

Fixpoint grep_files (is_match : string → bool) (files : list PathMatch) (matches : list GrepMatch)
    : result string (list GrepMatch) :=
  match files with
  | [] => Ok matches
  | file :: files =>
    contents ← read (path file);
    grep_files is_match files
      (matches ++ grep_lines is_match (path file) 0 (lines (str_bytes (from_utf8_lossy contents))))
  end.

Definition grep (fuel : nat) (query : string) (options : GrepOptions) : option (result string (list GrepMatch)) :=
  let pattern := if literal options then regex_escape query else query in
  match map_err (fun error => "invalid grep query `" +:+ query +:+ "`: " +:+ error)
          (regex_build pattern (negb (case_sensitive options))) with
  | Err e => Some (Err e)
  | Ok regex =>
    r ← find fuel (path_pattern options) (FindOpts true false (grep_respect_gitignore options));
    match r with
    | Err e => Some (Err e)
    | Ok files => Some (grep_files regex files [])
    end
  end.

End Grep.

Fixpoint count_files (files : list PathMatch) (total : Z) : result string Z :=
  match files with
  | [] => Ok total
  | file :: files =>
    contents ← read (path file);
    count_files files (sat_add_u64 total (count_lines_in_bytes contents))
  end.

Definition count_lines (fuel : nat) (pattern : string) : option (result string Z) :=
  r ← find fuel pattern (FindOpts true false true);
  match r with
  | Err e => Some (Err e)
  | Ok files => Some (count_files files 0)
  end.

End Files.
