(* ===== verification/SdkFind.v ===== *)
(** * What [find] finds: theorems on [mitb-sdk/src/fs.rs]

    The prefix enumeration, the ignore rules and the line count against their
    meanings, and the search loop, whose directories share one truncated vector
    of rules, against reachability in the directory tree, each directory with
    the rules of its own ancestors. *)

From S2P Require Import Sdk SdkFs.

(** ** Ignore rules: the last rule that applies decides *)

Section Ignore.
Context `{Glob}.

Definition rule_applies (relative_path : string) (is_dir : bool) (rule : GitignoreRule) : bool :=
  match path_from_base rule relative_path with
  | Some p => negb (str_is_empty p) && rule_matches rule (basename relative_path) p is_dir
  | None => false
  end.

Lemma ignored_loop_snoc rules rule p d b :
  ignored_loop (rules ++ [rule]) p d b =
  if rule_applies p d rule then negb (negated rule) else ignored_loop rules p d b.
Proof.
  revert b. induction rules as [|r rules IH]; intros b; cbn [ignored_loop app]; [|apply IH].
  unfold rule_applies. destruct (path_from_base rule p) as [q|]; [|done].
  by destruct (str_is_empty q), (rule_matches rule (basename p) q d).
Qed.

(** As git does: the last rule of those that apply to a path decides, a negated
    one un-ignores it, and with none it is not ignored. *)
Theorem path_is_ignored_last rules p d :
  path_is_ignored rules p d =
  match last (filter (λ r, rule_applies p d r = true) rules) with
  | Some rule => negb (negated rule)
  | None => false
  end.
Proof.
  unfold path_is_ignored. induction rules as [|r rules IH] using rev_ind; [done|].
  rewrite ignored_loop_snoc, filter_app, filter_cons, filter_nil, IH.
  destruct (rule_applies p d r) eqn:E; [rewrite decide_True by done; by rewrite last_snoc|].
  rewrite decide_False by done. by rewrite app_nil_r.
Qed.

Lemma parse_gitignore_loop_extends base_dir contents rules rules' :
  parse_gitignore_loop base_dir contents rules = Ok rules' → rules `prefix_of` rules'.
Proof.
  revert rules. induction contents as [|line contents IH]; intros rules; cbn [parse_gitignore_loop].
  - by intros [= ->].
  - intros E. apply bind_Ok in E as ([rule|] & _ & E); apply IH in E; [|done].
    etrans; [|exact E]. by eexists.
Qed.

End Ignore.

(** ** Directory prefixes *)

Lemma prefix_loop_spec fuel dir from x : (length dir ≤ fuel + from)%nat → (from ≤ length dir)%nat →
  x ∈ prefix_loop fuel dir from ↔ ∃ i, (from ≤ i)%nat ∧ dir !! i = Some slash ∧ x = take i dir.
Proof.
  revert from. induction fuel as [|fuel IH]; intros from Hf Hl; cbn [prefix_loop].
  - split; [set_solver|]. intros (i & ? & Hi%lookup_lt_Some & _). lia.
  - destruct (position is_slash (drop from dir)) as [k|] eqn:E.
    + apply position_Some in E as (c & Hc & Hs & Hbefore).
      apply bool_decide_eq_true in Hs as ->. rewrite lookup_drop in Hc.
      pose proof (lookup_lt_Some _ _ _ Hc) as Hk.
      rewrite elem_of_cons, IH by lia. split.
      * intros [-> | (i & ? & ? & ?)]; [exists (from + k)%nat | exists i]; repeat split; try done; lia.
      * intros (i & Hi & Hs & ->).
        destruct (decide (i < from + k)%nat) as [Hlt|]; [|destruct (decide (i = from + k)%nat) as [->|]].
        -- exfalso. replace i with (from + (i - from))%nat in Hs by lia. rewrite <- lookup_drop in Hs.
           rewrite <- (lookup_take_lt _ k) in Hs by lia.
           apply (Forall_lookup_1 _ _ _ _ Hbefore) in Hs. by vm_compute in Hs.
        -- by left.
        -- right. exists i. split; [lia|done].
    + apply position_None in E. split; [set_solver|].
      intros (i & Hi & Hs & _). replace i with (from + (i - from))%nat in Hs by lia.
      rewrite <- lookup_drop in Hs. apply (Forall_lookup_1 _ _ _ _ E) in Hs. by vm_compute in Hs.
Qed.

Lemma ancestor_iff (x p : bytes) : (∃ rest, p = x ++ slash :: rest) ↔ ∃ i, p !! i = Some slash ∧ x = take i p.
Proof.
  split.
  - intros [rest ->]. exists (length x). by rewrite list_lookup_middle, take_app_length.
  - intros (i & Hi & ->). exists (drop (S i) p). by rewrite (take_drop_middle _ _ _ Hi).
Qed.

Lemma prefix_loop_take n p x : (n ≤ length p)%nat →
  x ∈ prefix_loop (length (take n p)) (take n p) 0 ↔ ∃ i, (i < n)%nat ∧ p !! i = Some slash ∧ x = take i p.
Proof.
  intros Hn. rewrite prefix_loop_spec by lia. split.
  - intros (i & _ & Hi & ->). pose proof (lookup_lt_Some _ _ _ Hi) as Hl. rewrite length_take in Hl.
    rewrite lookup_take_lt in Hi by lia. exists i. rewrite take_take, Nat.min_l by lia. repeat split; [lia|done].
  - intros (i & Hi & Hs & ->). exists i. rewrite lookup_take_lt, take_take, Nat.min_l by lia. repeat split; [lia|done].
Qed.

(** Where the last slash is, no slash is after it. *)
Lemma rposition_slash p : match rposition is_slash p with
  | Some n => p !! n = Some slash ∧ ∀ i, p !! i = Some slash → (i ≤ n)%nat
  | None => ∀ i, p !! i ≠ Some slash
  end.
Proof.
  assert (Hno : ∀ l i, Forall (λ c, is_slash c = false) l → l !! i ≠ Some slash).
  { intros l i Hl Hi. apply (Forall_lookup_1 _ _ _ _ Hl) in Hi. by vm_compute in Hi. }
  destruct (rposition is_slash p) as [n|] eqn:E.
  - apply rposition_Some in E as (b & Hb & Hs & Hafter). apply bool_decide_eq_true in Hs as ->.
    split; [done|]. intros i Hi. destruct (decide (i ≤ n)%nat) as [|]; [done|]. exfalso.
    apply (Hno _ (i - S n)%nat Hafter). rewrite lookup_drop. by replace (S n + (i - S n))%nat with i by lia.
  - intros i. by apply Hno, rposition_None.
Qed.

Lemma directory_prefixes_bytes (p x : string) (is_dir : bool) : str_bytes p !! 0%nat ≠ Some slash →
  x ∈ directory_prefixes p is_dir ↔
  (∃ i, str_bytes p !! i = Some slash ∧ str_bytes x = take i (str_bytes p)) ∨ (is_dir = true ∧ p ≠ "" ∧ x = p).
Proof.
  intros Hhead. unfold directory_prefixes. cbn zeta.
  assert (Hmem : ∀ n, (n ≤ length (str_bytes p))%nat → n ≠ 0%nat →
    x ∈ (if (n =? 0)%nat then [] else bytes_str <$> (prefix_loop (length (take n (str_bytes p))) (take n (str_bytes p)) 0
           ++ [take n (str_bytes p)])) ↔
    (∃ i, (i < n)%nat ∧ str_bytes p !! i = Some slash ∧ str_bytes x = take i (str_bytes p)) ∨
    str_bytes x = take n (str_bytes p)).
  { intros n Hn Hn0. rewrite (proj2 (Nat.eqb_neq _ _) Hn0), list_elem_of_fmap.
    setoid_rewrite elem_of_app. setoid_rewrite list_elem_of_singleton. setoid_rewrite prefix_loop_take; [|done].
    split; [intros (y & -> & Hy); by rewrite str_bytes_str | intros Hy; exists (str_bytes x); by rewrite bytes_str_bytes]. }
  destruct is_dir.
  - destruct p as [|c p]; [cbn; split; [set_solver|intros [(i & Hi & _)|(_ & [] & _)]; done]|].
    rewrite Hmem by (cbn; lia). rewrite take_ge by done. split.
    + intros [(i & _ & ?)|Hx]; [left; by exists i|right; split_and!; [done..|by apply str_bytes_inj]].
    + intros [(i & Hi & Hx)|(_ & _ & ->)]; [|by right]. left. exists i. split; [by eapply lookup_lt_Some|done].
  - pose proof (rposition_slash (str_bytes p)) as Hr. destruct (rposition is_slash (str_bytes p)) as [n|]; cbn [default from_option id].
    + destruct Hr as [Hn Hlast]. rewrite Hmem; [|apply lookup_lt_Some in Hn; lia|by intros ->]. split.
      * intros [(i & _ & ?)|Hx]; left; [by exists i|by exists n].
      * intros [(i & Hi & Hx)|[? _]]; [|done]. destruct (decide (i = n)) as [->|]; [by right|].
        left. exists i. specialize (Hlast i Hi). split; [lia|done].
    + split; [set_solver|]. intros [(i & Hi & _)|[? _]]; [by destruct (Hr i)|done].
Qed.

(** The directories a [directory_only] rule is tried on are the proper
    ancestors of the path, and the path itself when it is a directory. *)
Theorem directory_prefixes_spec (p : string) (is_dir : bool) (x : string) : starts_with p "/" = false →
  x ∈ directory_prefixes p is_dir ↔
  (∃ rest, p = x +:+ "/" +:+ rest) ∨ (is_dir = true ∧ p ≠ "" ∧ x = p).
Proof.
  intros Hstart. rewrite directory_prefixes_bytes.
  - rewrite <- ancestor_iff. apply or_iff_compat_r. split; intros [rest Hp].
    + exists (bytes_str rest). apply str_bytes_inj. by rewrite !str_bytes_app, str_bytes_str.
    + exists (str_bytes rest). by rewrite Hp, !str_bytes_app.
  - intros Hp. apply bool_decide_eq_false in Hstart as []. destruct p as [|c p]; [done|].
    injection Hp as ->. exists p. by apply strip_prefix_Some.
Qed.

(** ** Lines *)

Lemma split_lf_length l : length (split_lf l) = S (length (filter (λ b, b = LF) l)).
Proof.
  induction l as [|b l IH]; [done|]. cbn [split_lf]. rewrite filter_cons.
  destruct (split_lf l) as [|h t]; [done|]. destruct (decide (b = LF)); cbn in *; lia.
Qed.

Lemma split_lf_one l h : split_lf l = [h] → l = h ∧ LF ∉ l.
Proof.
  revert h. induction l as [|b l IH]; intros h; cbn [split_lf]; [intros [= <-]; split; [done|set_solver]|].
  pose proof (split_lf_length l). destruct (split_lf l) as [|h' t]; [done|].
  destruct (decide (b = LF)); [done|]. intros [= <- ->].
  destruct (IH h' eq_refl) as [-> ?]. split; [done|]. by apply not_elem_of_cons.
Qed.

Lemma split_lf_last l : last (split_lf l) = Some [] ↔ l = [] ∨ last l = Some LF.
Proof.
  induction l as [|b l IH]; [cbn; split; [by left|done]|]. cbn [split_lf]. pose proof (split_lf_length l).
  pose proof (split_lf_one l) as Hone. destruct (split_lf l) as [|h t]; [done|].
  assert (Hl : l ≠ [] → (l = [] ∨ last l = Some LF) ↔ (b :: l = [] ∨ last (b :: l) = Some LF)).
  { intros ?. destruct l; [done|]. split; (intros [?|?]; [done|by right]). }
  destruct (decide (l = [])) as [->|Hne].
  { destruct t; [|done]. destruct (Hone h eq_refl) as [<- _].
    destruct (decide (b = LF)) as [->|]; cbn; (split; [|intros [|E]; try injection E as ->]; try done). by right. }
  rewrite <- (Hl Hne), <- IH. destruct (decide (b = LF)); [done|].
  destruct t as [|h' t]; [|done]. destruct (Hone h eq_refl) as [<- Hno]. cbn. split; [done|].
  intros [= ->]. done.
Qed.

(** [count_lines_in_bytes] is the number of [str::lines]. *)
Theorem count_lines_in_bytes_lines l : count_lines_in_bytes l = Z.of_nat (length (lines l)).
Proof.
  unfold count_lines_in_bytes, lines. pose proof (split_lf_length l) as Hlen. pose proof (split_lf_last l) as Hlast.
  destruct (rev (split_lf l)) as [|h t] eqn:E.
  - apply (f_equal length) in E. rewrite length_rev in E. cbn in E. lia.
  - assert (Hs : split_lf l = rev t ++ [h]) by (rewrite <- (rev_involutive (split_lf l)), E; done).
    rewrite Hs, last_snoc in Hlast. rewrite Hs, length_app in Hlen. cbn in Hlen.
    rewrite length_app, length_fmap.
    destruct (last l) as [b|] eqn:El.
    + case_bool_decide as Hb.
      * subst b. destruct Hlast as [_ Hlast]. specialize (Hlast (or_intror eq_refl)) as [= ->]. rewrite decide_True by done. cbn. lia.
      * destruct (decide (h = [])) as [->|]; [|cbn; lia].
        destruct Hlast as [Hlast _]. destruct (Hlast eq_refl) as [->|[= ?]]; done.
    + apply last_None in El as ->. by injection E as <- <-.
Qed.

(** ** The directories [find] enters

    A directory of the tree, as the search meets it: its descriptor, its path,
    and the rules of its ancestors. *)
Section Tree.
Context `{GuestFs} `{Glob}.
Variable include_pattern : Pattern.
Variable options : FindOptions.

Record Dir := MkDir { dir : Descriptor; dir_path : string; inherited : list GitignoreRule }.

(** What is read of a directory: the rules in force in it and its entries. *)
Definition contents (x : Dir) : result string (list GitignoreRule * list (string * DescriptorType)) :=
  rules ← (if respect_gitignore options then load_gitignore_rules (dir x) (dir_path x) (inherited x)
           else Ok (inherited x));
  es ← read_directory_entries (dir x) (dir_path x);
  Ok (rules, es).

(** An entry the search does not skip. *)
Definition kept (rules : list GitignoreRule) (p name : string) (t : DescriptorType) : bool :=
  let d := bool_decide (t = Directory) in
  negb (respect_gitignore options && (bool_decide (name = ".git") && d || path_is_ignored rules (join_relative_path p name) d)).

Definition wanted (t : DescriptorType) : bool :=
  if bool_decide (t = Directory) then include_directories options
  else bool_decide (t = RegularFile) && include_files options.

Definition open_failure (p : string) (error : ErrorCode) : string :=
  "failed opening directory `" +:+ display_path p +:+ "`: " +:+ error_name error.

(** Of an entry [e] of [x]: the subdirectory the search enters, the match it
    is, the failure to open it. *)
Definition entry_child (x : Dir) (rules : list GitignoreRule) (e : string * DescriptorType) (y : Dir) : Prop :=
  e.2 = Directory ∧ kept rules (dir_path x) e.1 e.2 = true ∧
  ∃ c, open_at (dir x) e.1 true = Ok c ∧ y = MkDir c (join_relative_path (dir_path x) e.1) rules.
Definition entry_match (x : Dir) (rules : list GitignoreRule) (e : string * DescriptorType) (m : PathMatch) : Prop :=
  let p := join_relative_path (dir_path x) e.1 in
  kept rules (dir_path x) e.1 e.2 = true ∧ wanted e.2 && matches_path_pattern include_pattern p = true ∧
  m = PMatch p (bool_decide (e.2 = Directory)).
Definition entry_fails (x : Dir) (rules : list GitignoreRule) (e : string * DescriptorType) (message : string) : Prop :=
  e.2 = Directory ∧ kept rules (dir_path x) e.1 e.2 = true ∧
  ∃ error, open_at (dir x) e.1 true = Err error ∧
           message = open_failure (join_relative_path (dir_path x) e.1) error.

(** [y] is a subdirectory of [x] the search enters, with the rules in force in
    [x]; [m] is an entry of [x] that is asked for; [x] cannot be searched: it
    cannot be read or a subdirectory not opened. *)
Definition child (x y : Dir) : Prop :=
  ∃ rules es, contents x = Ok (rules, es) ∧ Exists (λ e, entry_child x rules e y) es.
Definition owns (x : Dir) (m : PathMatch) : Prop :=
  ∃ rules es, contents x = Ok (rules, es) ∧ Exists (λ e, entry_match x rules e m) es.
Definition fails (x : Dir) (message : string) : Prop :=
  contents x = Err message ∨
  ∃ rules es, contents x = Ok (rules, es) ∧ Exists (λ e, entry_fails x rules e message) es.

(** *** One directory *)

Definition pending (x : Dir) : PendingDirectory := Pending (dir x) (dir_path x) (length (inherited x)).

(** One entry: what it adds to the stack and to the matches. *)
Definition entry_visit (x : Dir) (rules : list GitignoreRule) (e : string * DescriptorType)
    : result string (list Dir * list PathMatch) :=
  let p := join_relative_path (dir_path x) e.1 in
  let own := if wanted e.2 && matches_path_pattern include_pattern p
             then [PMatch p (bool_decide (e.2 = Directory))] else [] in
  if kept rules (dir_path x) e.1 e.2 then
    if bool_decide (e.2 = Directory) then
      c ← map_err (open_failure p) (open_at (dir x) e.1 true);
      Ok ([MkDir c p rules], own)
    else Ok ([], own)
  else Ok ([], []).

Lemma entry_visit_spec x rules e :
  match entry_visit x rules e with
  | Err message => entry_fails x rules e message
  | Ok (cs, own) =>
    (∀ y, y ∈ cs ↔ entry_child x rules e y) ∧ (∀ m, m ∈ own ↔ entry_match x rules e m) ∧
    ∀ message, ¬ entry_fails x rules e message
  end.
Proof.
  destruct e as [name t]. unfold entry_visit, entry_child, entry_match, entry_fails. cbn [fst snd]. cbv zeta.
  set (p := join_relative_path (dir_path x) name).
  destruct (kept rules (dir_path x) name t).
  2:{ split_and!; [intros y|intros m|intros m]; [set_solver..|by intros (_ & [=] & _)]. }
  assert (Hown : ∀ m, m ∈ (if wanted t && matches_path_pattern include_pattern p
                            then [PMatch p (bool_decide (t = Directory))] else []) ↔
                   true = true ∧ wanted t && matches_path_pattern include_pattern p = true ∧
                   m = PMatch p (bool_decide (t = Directory))).
  { intros m. destruct (wanted t && matches_path_pattern include_pattern p); set_solver. }
  destruct (decide (t = Directory)) as [->|Ht].
  - rewrite bool_decide_eq_true_2 in Hown |- * by done. destruct (open_at (dir x) name true) as [c|error]; cbn.
    + split_and!; [|done|by intros m (_ & _ & ? & [=] & _)].
      intros y. rewrite list_elem_of_singleton.
      split; [intros ->; split_and!; [done..|by exists c]|by intros (_ & _ & ? & [= <-] & ->)].
    + split_and!; [done..|by exists error].
  - rewrite bool_decide_eq_false_2 in Hown |- * by done. split_and!; [|done|by intros m [? _]].
    intros y. split; [set_solver|by intros [? _]].
Qed.

Lemma entries_loop_cons x rules e es stack matches :
  entries_loop include_pattern options (dir x) (dir_path x) rules (e :: es) stack matches =
  '(cs, own) ← entry_visit x rules e;
  entries_loop include_pattern options (dir x) (dir_path x) rules es (stack ++ (pending <$> cs)) (matches ++ own).
Proof.
  destruct e as [name t]. cbn [entries_loop]. unfold entry_visit, kept, wanted. cbv zeta. cbn [fst snd].
  set (p := join_relative_path (dir_path x) name).
  assert (Hif : ∀ (b : bool) (m : PathMatch),
            (if b then matches ++ [m] else matches) = matches ++ (if b then [m] else [])).
  { intros [] m; [done|by rewrite app_nil_r]. }
  rewrite !Hif. unfold open_failure. destruct (open_at (dir x) name true);
    destruct (respect_gitignore options), (bool_decide (name = ".git")), (bool_decide (t = Directory));
    cbn [andb orb negb]; try (destruct (path_is_ignored rules p _)); cbn; by rewrite ?app_nil_r.
Qed.

Lemma entries_loop_spec x rules es stack matches :
  match entries_loop include_pattern options (dir x) (dir_path x) rules es stack matches with
  | Err e => Exists (λ n, entry_fails x rules n e) es
  | Ok (stack', matches') => ∃ cs own,
      stack' = stack ++ (pending <$> cs) ∧ matches' = matches ++ own ∧
      (∀ y, y ∈ cs ↔ Exists (λ e, entry_child x rules e y) es) ∧
      (∀ m, m ∈ own ↔ Exists (λ e, entry_match x rules e m) es) ∧
      ∀ e, ¬ Exists (λ n, entry_fails x rules n e) es
  end.
Proof.
  revert stack matches. induction es as [|e es IH]; intros stack matches.
  { exists [], []. rewrite !app_nil_r. split_and!; try done.
    - intros y. rewrite Exists_nil. set_solver.
    - intros m. rewrite Exists_nil. set_solver.
    - intros m Hm. by apply Exists_nil in Hm. }
  rewrite entries_loop_cons. pose proof (entry_visit_spec x rules e) as Hv.
  destruct (entry_visit x rules e) as [[cs own]|message]; cbn [mbind result_bind]; [|by apply Exists_cons_hd].
  destruct Hv as (Hcs & Hown & Hok). specialize (IH (stack ++ (pending <$> cs)) (matches ++ own)).
  destruct (entries_loop _ _ _ _ _ _ _ _) as [[stack' matches']|message]; [|by apply Exists_cons_tl].
  destruct IH as (cs' & own' & -> & -> & Hcs' & Hown' & Hok').
  exists (cs ++ cs'), (own ++ own'). rewrite fmap_app, <- !(assoc_L app). split_and!; try done.
  - intros y. by rewrite elem_of_app, Exists_cons, Hcs, Hcs'.
  - intros m. by rewrite elem_of_app, Exists_cons, Hown, Hown'.
  - intros m. rewrite Exists_cons. by intros [?%Hok|?%Hok'].
Qed.

Lemma contents_extends x rules es : contents x = Ok (rules, es) → inherited x `prefix_of` rules.
Proof.
  intros E. apply bind_Ok in E as (r & Hr & E). apply bind_Ok in E as (? & _ & [= <- <-]).
  destruct (respect_gitignore options); [|by injection Hr as <-].
  unfold load_gitignore_rules in Hr. destruct (open_at (dir x) _ _) as [d|error].
  - apply bind_Ok in Hr as (c & _ & Hr). by eapply parse_gitignore_loop_extends.
  - case_bool_decide; [by injection Hr as <-|done].
Qed.

(** A step of the loop on a directory whose rules are still in the vector. *)
Lemma find_step_spec x vector stack matches : inherited x `prefix_of` vector →
  match find_step include_pattern options (pending x) vector stack matches with
  | Err e => fails x e
  | Ok (vector', stack', matches') => ∃ cs own,
      stack' = stack ++ (pending <$> cs) ∧ matches' = matches ++ own ∧ inherited x `prefix_of` vector' ∧
      (∀ y, y ∈ cs → inherited y = vector') ∧
      (∀ y, y ∈ cs ↔ child x y) ∧ (∀ m, m ∈ own ↔ owns x m) ∧ ∀ e, ¬ fails x e
  end.
Proof.
  intros [new ->]. unfold find_step. cbv zeta. cbn [inherited_rules_len descriptor relative_path pending].
  rewrite take_app_length.
  assert (Hc : (rules ← (if respect_gitignore options then load_gitignore_rules (dir x) (dir_path x) (inherited x)
                         else Ok (inherited x));
                es ← read_directory_entries (dir x) (dir_path x); Ok (rules, es)) = contents x) by done.
  unfold child, owns, fails.
  destruct (if respect_gitignore options then _ else _) as [rules|e]; cbn [mbind result_bind] in Hc |- *; [|by left].
  destruct (read_directory_entries (dir x) (dir_path x)) as [es|e]; cbn [mbind result_bind] in Hc |- *; [|by left].
  pose proof (entries_loop_spec x rules es stack matches) as Hl.
  destruct (entries_loop _ _ _ _ _ _ _ _) as [[stack' matches']|e]; cbn [mbind result_bind]; [|by right; exists rules, es].
  destruct Hl as (cs & own & -> & -> & Hcs & Hown & Hok). exists cs, own.
  rewrite <- Hc. split_and!; try done.
  - by apply (contents_extends x rules es).
  - intros y Hy. apply Hcs, Exists_exists in Hy as (? & _ & _ & _ & ? & _ & ->). done.
  - intros y. rewrite Hcs. split; [intros ?; by exists rules, es|by intros (? & ? & [= <- <-] & ?)].
  - intros m. rewrite Hown. split; [intros ?; by exists rules, es|by intros (? & ? & [= <- <-] & ?)].
  - intros e [?|(? & ? & [= <- <-] & ?)]; [done|by apply (Hok e)].
Qed.

(** *** The stack

    The directories on the stack, the top first; the rules each inherited are a
    prefix of those above it inherited, and so of the vector. *)
Inductive stacked : list GitignoreRule → list Dir → Prop :=
| stacked_nil vector : stacked vector []
| stacked_cons vector x xs :
    inherited x `prefix_of` vector → stacked (inherited x) xs → stacked vector (x :: xs).

Lemma stacked_mono vector vector' xs : vector `prefix_of` vector' → stacked vector xs → stacked vector' xs.
Proof. intros Hp Hs. destruct Hs; constructor; [by etrans|done]. Qed.

Lemma stacked_children vector cs xs : (∀ y, y ∈ cs → inherited y = vector) → stacked vector xs → stacked vector (cs ++ xs).
Proof.
  intros Hcs Hxs. induction cs as [|c cs IH]; [done|]. pose proof (Hcs c (list_elem_of_here _ _)) as Hc.
  constructor; rewrite Hc; [done|]. apply IH. intros y Hy. apply Hcs. by right.
Qed.

Notation stack_of xs := (pending <$> reverse xs).

Lemma stack_top x xs : last (stack_of (x :: xs)) = Some (pending x) ∧ removelast (stack_of (x :: xs)) = stack_of xs.
Proof. rewrite reverse_cons, fmap_app. split; [apply last_snoc|apply removelast_last]. Qed.

(** What the loop still has to find, of the directories [xs]. *)
Definition below (xs : list Dir) (y : Dir) : Prop := ∃ x, x ∈ xs ∧ rtc child x y.

Lemma below_cons x xs cs y : (∀ z, z ∈ cs ↔ child x z) → below (x :: xs) y ↔ y = x ∨ below (reverse cs ++ xs) y.
Proof.
  intros Hcs. unfold below. split.
  - intros (z & [->|Hz]%elem_of_cons & Hy).
    + apply rtc_inv in Hy as [->|(z & Hz & Hy)]; [by left|]. right. exists z. split; [|done].
      apply elem_of_app. left. by rewrite elem_of_reverse, Hcs.
    + right. exists z. rewrite elem_of_app. auto.
  - intros [->|(z & [Hz|Hz]%elem_of_app & Hy)].
    + exists x. split; [left|done].
    + exists x. split; [left|]. rewrite elem_of_reverse, Hcs in Hz. by eapply rtc_l.
    + exists z. split; [by right|done].
Qed.

Definition outcome (xs : list Dir) (matches : list PathMatch) (r : result string (list PathMatch)) : Prop :=
  match r with
  | Ok ms => (∀ m, m ∈ ms ↔ m ∈ matches ∨ ∃ y, below xs y ∧ owns y m) ∧ ∀ y e, below xs y → ¬ fails y e
  | Err e => ∃ y, below xs y ∧ fails y e
  end.

Lemma outcome_nil matches : outcome [] matches (Ok matches).
Proof.
  assert (Hb : ∀ y, ¬ below [] y) by (intros y (x & Hx & _); by apply not_elem_of_nil in Hx).
  split; [|intros y e Hy; by apply Hb in Hy].
  intros m. split; [by left|intros [?|(y & Hy & _)]; [done|by apply Hb in Hy]].
Qed.

Lemma find_loop_sound fuel vector xs matches r : stacked vector xs →
  find_loop include_pattern options fuel vector (stack_of xs) matches = Some r → outcome xs matches r.
Proof.
  revert vector xs matches. induction fuel as [|fuel IH]; intros vector xs matches Hs;
    (destruct xs as [|x xs]; cbn [find_loop]; [intros [= <-]; apply outcome_nil|]);
    destruct (stack_top x xs) as [Htop Hpop]; rewrite Htop; [done|].
  rewrite Hpop.
  inversion_clear Hs as [|? ? ? Hx Hxs]. pose proof (find_step_spec x vector (stack_of xs) matches Hx) as Hstep.
  destruct (find_step _ _ _ _ _ _) as [[[vector' stack'] matches']|e]; intros E.
  - destruct Hstep as (cs & own & -> & -> & Hv & Hin & Hcs & Hown & Hok).
    assert (Hs : stacked vector' (reverse cs ++ xs)).
    { apply stacked_children; [intros y Hy; apply Hin; by rewrite elem_of_reverse in Hy|by eapply stacked_mono]. }
    assert (Hst : stack_of xs ++ (pending <$> cs) = stack_of (reverse cs ++ xs)).
    { by rewrite reverse_app, reverse_involutive, fmap_app. }
    rewrite Hst in E. apply IH in E; [|done]. unfold outcome in E |- *. destruct r as [ms|e].
    + destruct E as [E1 E2]. split.
      * intros m. rewrite E1, elem_of_app, Hown. setoid_rewrite (below_cons x xs cs _ Hcs). naive_solver.
      * intros y e. rewrite (below_cons x xs cs _ Hcs). intros [->|Hy]; [apply Hok|by apply E2].
    + destruct E as (y & Hy & He). exists y. rewrite (below_cons x xs cs _ Hcs). auto.
  - injection E as <-. exists x. split; [|done]. exists x. split; [left|done].
Qed.

(** *** Termination: a tree without infinite descending chains *)

Lemma find_loop_ends x : Acc (flip child) x → ∀ xs,
  (∀ vector matches, stacked vector xs → ∃ n r, ∀ fuel, (n ≤ fuel)%nat →
     find_loop include_pattern options fuel vector (stack_of xs) matches = Some r) →
  ∀ vector matches, stacked vector (x :: xs) → ∃ n r, ∀ fuel, (n ≤ fuel)%nat →
     find_loop include_pattern options fuel vector (stack_of (x :: xs)) matches = Some r.
Proof.
  induction 1 as [x _ IH]. intros xs Hxs vector matches Hs. inversion_clear Hs as [|? ? ? Hx Hstack].
  destruct (stack_top x xs) as [Htop Hpop].
  assert (Hstep : ∀ fuel, find_loop include_pattern options (S fuel) vector (stack_of (x :: xs)) matches =
            match find_step include_pattern options (pending x) vector (stack_of xs) matches with
            | Err e => Some (Err e)
            | Ok (vector', stack', matches') => find_loop include_pattern options fuel vector' stack' matches'
            end).
  { intros fuel. cbn [find_loop]. by rewrite Htop, Hpop. }
  pose proof (find_step_spec x vector (stack_of xs) matches Hx) as Hspec.
  destruct (find_step _ _ _ _ _ _) as [[[vector' stack'] matches']|e].
  2:{ exists 1%nat, (Err e). intros [|fuel] ?; [lia|]. by rewrite Hstep. }
  destruct Hspec as (cs & own & -> & -> & Hv & Hin & Hcs & _).
  assert (Hst : stack_of xs ++ (pending <$> cs) = stack_of (reverse cs ++ xs)).
  { by rewrite reverse_app, reverse_involutive, fmap_app. }
  assert (Hall : ∀ ds, (∀ y, y ∈ ds → y ∈ cs) → ∀ vector matches, stacked vector (ds ++ xs) →
    ∃ n r, ∀ fuel, (n ≤ fuel)%nat → find_loop include_pattern options fuel vector (stack_of (ds ++ xs)) matches = Some r).
  { induction ds as [|y ds IHds]; intros Hds; [done|]. apply (IH y).
    - apply Hcs, Hds. left.
    - apply IHds. intros z Hz. apply Hds. by right. }
  destruct (Hall (reverse cs)) with vector' (matches ++ own) as (n & r & Hn).
  - intros y. by rewrite elem_of_reverse.
  - apply stacked_children; [intros y Hy; apply Hin; by rewrite elem_of_reverse in Hy|by eapply stacked_mono].
  - exists (S n), r. intros [|fuel] ?; [lia|]. rewrite Hstep, Hst. apply Hn. lia.
Qed.

End Tree.

(** C5. [find] ends on a directory tree without infinite descent, and then finds
    exactly the entries asked for of the directories it can reach from the
    root, each directory judged with the ignore rules of its own ancestors and
    itself (though one shared, truncated vector holds them); it fails exactly
    when a directory it reaches cannot be searched. *)
Theorem find_spec `{GuestFs} `{Glob} (pattern : string) (include_pattern : Pattern) (options : FindOptions)
    (root : Descriptor) :
  pattern_new pattern = Ok include_pattern →
  select_root_preopen = Ok root →
  Acc (flip (child options)) (MkDir root "" []) →
  ∃ n r, (∀ fuel, (n ≤ fuel)%nat → find fuel pattern options = Some r) ∧
  match r with
  | Ok ms =>
    (∀ m, m ∈ ms ↔ ∃ y, rtc (child options) (MkDir root "" []) y ∧ owns include_pattern options y m) ∧
    ∀ y e, rtc (child options) (MkDir root "" []) y → ¬ fails options y e
  | Err e => ∃ y, rtc (child options) (MkDir root "" []) y ∧ fails options y e
  end.
Proof.
  intros Hp Hroot Hacc. set (x := MkDir root "" []) in *.
  assert (Hs : stacked [] [x]) by (constructor; [done|constructor]).
  assert (Hb : ∀ y, below options [x] y ↔ rtc (child options) x y).
  { intros y. unfold below. setoid_rewrite list_elem_of_singleton. split; [by intros (? & -> & ?)|intros ?; by exists x]. }
  destruct (find_loop_ends include_pattern options x Hacc []) with ([] : list GitignoreRule) ([] : list PathMatch)
    as (n & r & Hr); [|done|].
  { intros vector matches _. exists 0%nat, (Ok matches). by intros [|fuel] _. }
  exists n, r. split.
  - intros fuel Hn. unfold find. rewrite Hp, Hroot. by apply Hr.
  - specialize (Hr n (Nat.le_refl n)). apply find_loop_sound in Hr; [|done]. destruct r as [ms|e]; cbn in Hr.
    + destruct Hr as [Hm Hf]. split; [|intros y e; rewrite <- Hb; apply Hf].
      intros m. rewrite Hm. setoid_rewrite Hb. split; [by intros [?%not_elem_of_nil|?]|by right].
    + by setoid_rewrite Hb in Hr.
Qed.

(** ** [grep] and [count_lines] *)

Section Contents.
Context `{GuestFs} `{Glob}.

Lemma grep_lines_spec is_match p k text m :
  m ∈ grep_lines is_match p k text ↔
  ∃ i line, text !! i = Some line ∧ is_match (bytes_str line) = true ∧
            m = GMatch p (Z.of_nat (k + i) + 1) (bytes_str line).
Proof.
  revert k. induction text as [|l text IH]; intros k; cbn [grep_lines].
  { split; [by intros ?%not_elem_of_nil|by intros (? & ? & ? & _)]. }
  rewrite elem_of_app, IH. split.
  - intros [Hm|(i & line & ? & ? & ->)].
    + destruct (is_match (bytes_str l)) eqn:E; [|by apply not_elem_of_nil in Hm].
      apply list_elem_of_singleton in Hm as ->. exists 0%nat, l. by rewrite Nat.add_0_r.
    + exists (S i), line. by replace (k + S i)%nat with (S k + i)%nat by lia.
  - intros ([|i] & line & E & Hmatch & ->).
    + left. injection E as ->. rewrite Hmatch, Nat.add_0_r. left.
    + right. exists i, line. by replace (k + S i)%nat with (S k + i)%nat by lia.
Qed.

(** A line of one of [files] that matches. *)
Definition matching_line (is_match : string → bool) (files : list PathMatch) (m : GrepMatch) : Prop :=
  ∃ file contents i line, file ∈ files ∧ read (path file) = Ok contents ∧
    lines (str_bytes (from_utf8_lossy contents)) !! i = Some line ∧ is_match (bytes_str line) = true ∧
    m = GMatch (path file) (Z.of_nat i + 1) (bytes_str line).

Lemma grep_files_spec is_match files ms :
  match grep_files is_match files ms with
  | Ok ms' => ∀ m, m ∈ ms' ↔ m ∈ ms ∨ matching_line is_match files m
  | Err e => ∃ file, file ∈ files ∧ read (path file) = Err e
  end.
Proof.
  revert ms. induction files as [|file files IH]; intros ms; cbn [grep_files].
  { intros m. split; [by left|]. by intros [?|(? & ? & ? & ? & ?%not_elem_of_nil & _)]. }
  destruct (read (path file)) as [contents|e] eqn:E; cbn [mbind result_bind]; [|exists file; split; [left|done]].
  specialize (IH (ms ++ grep_lines is_match (path file) 0 (lines (str_bytes (from_utf8_lossy contents))))).
  destruct (grep_files _ _ _) as [ms'|e]; [|destruct IH as (f & ? & ?); exists f; split; [by right|done]].
  intros m. rewrite IH, elem_of_app, grep_lines_spec. split.
  - intros [[?|(i & line & ? & ? & ->)]|(f & c & i & line & ? & ?)]; [by left|right|right].
    + exists file, contents, i, line. split_and!; [left|done..].
    + exists f, c, i, line. split; [by right|done].
  - intros [?|(f & c & i & line & [->|Hf]%elem_of_cons & Hc & ? & ? & ->)]; [by left; left|left; right|right].
    + rewrite E in Hc. injection Hc as <-. by exists i, line.
    + by exists f, c, i, line.
Qed.

(** [grep] returns exactly the matching lines of the files [find] finds, each
    with its 1-based number, or the failure to read one of the files. *)
Theorem grep_spec escape build (query : string) (options : GrepOptions) (is_match : string → bool) fuel files :
  build (if literal options then escape query else query) (negb (case_sensitive options)) = Ok is_match →
  find fuel (path_pattern options) (FindOpts true false (grep_respect_gitignore options)) = Some (Ok files) →
  match grep escape build fuel query options with
  | Some (Ok ms) => ∀ m, m ∈ ms ↔ matching_line is_match files m
  | Some (Err e) => ∃ file, file ∈ files ∧ read (path file) = Err e
  | None => False
  end.
Proof.
  intros Hb Hf. unfold grep. rewrite Hb, Hf. cbn [map_err mbind option_bind].
  pose proof (grep_files_spec is_match files []) as Hs. destruct (grep_files is_match files []); [|done].
  intros m. rewrite Hs. split; [by intros [?%not_elem_of_nil|?]|by right].
Qed.

Lemma count_files_spec files total : 0 ≤ total ≤ U64_MAX →
  match count_files files total with
  | Ok n => ∃ contents, Forall2 (λ f c, read (path f) = Ok c) files contents ∧
      n = Z.min U64_MAX (total + Z.of_nat (sum_list_with (λ c, length (lines c)) contents))
  | Err e => ∃ file, file ∈ files ∧ read (path file) = Err e
  end.
Proof.
  revert total. induction files as [|file files IH]; intros total Ht; cbn [count_files].
  { exists []. split; [constructor|]. cbn. lia. }
  destruct (read (path file)) as [c|e] eqn:E; cbn [mbind result_bind]; [|exists file; split; [left|done]].
  rewrite count_lines_in_bytes_lines. specialize (IH (sat_add_u64 total (Z.of_nat (length (lines c))))).
  destruct (count_files _ _) as [n|e]; unfold sat_add_u64 in IH.
  - destruct IH as (cs & Hcs & ->); [lia|]. exists (c :: cs). split; [by constructor|]. cbn [sum_list_with]. lia.
  - destruct IH as (f & ? & ?); [lia|]. exists f. split; [by right|done].
Qed.

(** [count_lines] is the number of [str::lines] of the files found, at most
    [u64::MAX], or the failure to read one of them. *)
Theorem count_lines_spec (pattern : string) fuel files :
  find fuel pattern find_options_default = Some (Ok files) →
  match count_lines fuel pattern with
  | Some (Ok n) => ∃ contents, Forall2 (λ f c, read (path f) = Ok c) files contents ∧
      n = Z.min U64_MAX (Z.of_nat (sum_list_with (λ c, length (lines c)) contents))
  | Some (Err e) => ∃ file, file ∈ files ∧ read (path file) = Err e
  | None => False
  end.
Proof.
  intros Hf. unfold count_lines. change (FindOpts true false true) with find_options_default. rewrite Hf.
  cbn [mbind option_bind]. pose proof (count_files_spec files 0 ltac:(unfold U64_MAX; lia)) as Hs.
  by destruct (count_files files 0).
Qed.

(** Descriptors that go down some measure make the tree finite. *)
Lemma child_measure options (f : Descriptor → nat) :
  (∀ d name c, open_at d name true = Ok c → (f c < f d)%nat) → ∀ x, Acc (flip (child options)) x.
Proof.
  intros Hf x. remember (f (dir x)) as n eqn:Hn. revert x Hn.
  induction n as [n IH] using lt_wf_ind. intros x ->. constructor.
  intros y (rules & es & _ & (e & _ & _ & _ & c & Hc & ->)%Exists_exists). eapply IH; [|done]. by eapply Hf.
Qed.

End Contents.

(** ** A concrete tree

    [0] is the root with [src] ([1]), [target] ([2]), ignored, and [.git]; 10
    and 11 are files. *)
Definition example_fs : GuestFs := {|
  Descriptor := nat;
  DescriptorType := Z; Directory := 0; RegularFile := 1; SymbolicLink := 2;
  ErrorCode := string; NoEntry := "no-entry"; error_name e := e;
  get_directories := [(0%nat, ".")];
  open_at d name is_dir :=
    match d with
    | 0%nat => if bool_decide (name = "src") then Ok 1%nat
               else if bool_decide (name = "target") then Ok 2%nat
               else if bool_decide (name = ".gitignore") && negb is_dir then Ok 10%nat
               else if bool_decide (name = "src/lib.rs") && negb is_dir then Ok 11%nat
               else Err "no-entry"
    | _ => Err "no-entry"
    end;
  read_via_stream d :=
    if (d =? 10)%nat then (str_bytes "target/" ++ [LF] ++ str_bytes "*.tmp", Ok ())
    else (str_bytes "fn f() {" ++ [LF] ++ str_bytes "}", Ok ());
  read_directory d :=
    match d with
    | 0%nat => ([("target", 0); ("src", 0); (".git", 0); (".gitignore", 1)], Ok ())
    | 1%nat => ([("lib.rs", 1); ("a.tmp", 1)], Ok ())
    | _ => ([("out.rs", 1)], Ok ())
    end;
|}.

(** Patterns with one star at most, at the front. *)
Definition example_glob : Glob := {|
  Pattern := string; pattern_new p := Ok p; pattern_as_str p := p;
  matches_with p s := match p with
                      | Stdlib.Strings.String.String "*" q => bool_decide (is_Some (strip_suffix_bytes (str_bytes q) (str_bytes s)))
                      | _ => bool_decide (s = p)
                      end;
|}.

Example find_example : @find example_fs example_glob 3 "*.rs" find_options_default = Some (Ok [PMatch "src/lib.rs" false]).
Proof. vm_compute. reflexivity. Qed.

Lemma find_spec_witness :
  @pattern_new example_glob "*.rs" = Ok "*.rs" ∧ @select_root_preopen example_fs = Ok 0%nat ∧
  ∃ n r, (∀ fuel, (n ≤ fuel)%nat → @find example_fs example_glob fuel "*.rs" find_options_default = Some r) ∧
  match r with
  | Ok ms =>
    (∀ m, m ∈ ms ↔ ∃ y, rtc (@child example_fs example_glob find_options_default) (@MkDir example_fs example_glob 0%nat "" []) y ∧
                        @owns example_fs example_glob "*.rs" find_options_default y m) ∧
    ∀ y e, rtc (@child example_fs example_glob find_options_default) (@MkDir example_fs example_glob 0%nat "" []) y →
           ¬ @fails example_fs example_glob find_options_default y e
  | Err e => ∃ y, rtc (@child example_fs example_glob find_options_default) (@MkDir example_fs example_glob 0%nat "" []) y ∧
                  @fails example_fs example_glob find_options_default y e
  end.
Proof.
  split; [reflexivity|]. split; [reflexivity|].
  apply (@find_spec example_fs example_glob "*.rs" "*.rs" find_options_default 0%nat); [reflexivity|reflexivity|].
  apply (@child_measure example_fs example_glob find_options_default (fun d => if (d =? 0)%nat then 1 else 0)%nat).
  intros [|d] name c; cbn; [|done]. intros E. change (0 =? 0)%nat with true. cbn.
  destruct (bool_decide (name = "src")), (bool_decide (name = "target")), (bool_decide (name = ".gitignore")),
    (bool_decide (name = "src/lib.rs")); cbn in E; (discriminate E || (injection E as <-; vm_compute; lia)).
Defined.

(** The check for an absolute path is made before ["./"] is stripped, so that a
    path that starts with [".//"] passes it and is absolute when it is opened. *)
Example absolute_path_passes : normalize_relative_path ".//etc/passwd" = Ok "/etc/passwd".
Proof. reflexivity. Qed.

Lemma count_lines_spec_witness :
  @find example_fs example_glob 3 "*.rs" find_options_default = Some (Ok [PMatch "src/lib.rs" false]) ∧
  match @count_lines example_fs example_glob 3 "*.rs" with
  | Some (Ok n) => ∃ contents, Forall2 (λ f c, @read example_fs (path f) = Ok c) [PMatch "src/lib.rs" false] contents ∧
      n = Z.min U64_MAX (Z.of_nat (sum_list_with (λ c, length (lines c)) contents))
  | Some (Err e) => ∃ file, file ∈ [PMatch "src/lib.rs" false] ∧ @read example_fs (path file) = Err e
  | None => False
  end.
Proof. split; [|apply (@count_lines_spec example_fs example_glob)]; vm_compute; reflexivity. Defined.
