(* ===== verification/SdkGit.v ===== *)
(** * The SDK's git wrapper: [mitb-sdk/src/git.rs]

    A [GitRepo] runs [git] through the policy's process runner, a parameter that
    may change the world; each operation is a function from the world. *)

From S2P Require Import Sdk.

Record GitRepo := Repo { repo_dir : string }.

Record GitSnapshot := Snapshot { sha : string; branch : option string }.

Definition new (repo_dir : string) : GitRepo := Repo repo_dir.

(** ** Output parsing; the library's error text of [String::from_utf8] is a parameter *)

Section Parse.
Context (utf8_error : bytes → string).

Definition parse_non_empty_utf8 (bs : bytes) (command_label : string) : result string string :=
  text ← ok_or (command_label +:+ " output was not utf-8: " +:+ utf8_error bs) (from_utf8 bs);
  let trimmed := trim text in
  if str_is_empty trimmed then Err (command_label +:+ " returned an empty string") else Ok trimmed.

Definition parse_optional_utf8 (bs : bytes) (command_label : string) : result string (option string) :=
  text ← ok_or (command_label +:+ " output was not utf-8: " +:+ utf8_error bs) (from_utf8 bs);
  let trimmed := trim text in
  if str_is_empty trimmed then Ok None else Ok (Some trimmed).

End Parse.

(** ** Operations *)

Section Git.
Context {W : Type} (run_process : string → list string → W → result string bytes * W).
Context (utf8_error : bytes → string).

Definition run (r : GitRepo) (args : list string) (w : W) : result string bytes * W :=
  run_process "git" (["-C"; repo_dir r] ++ args) w.

Definition head_sha (r : GitRepo) (w : W) : result string string * W :=
  match run r ["rev-parse"; "HEAD"] w with
  | (Ok output, w) => (parse_non_empty_utf8 utf8_error output "git rev-parse HEAD", w)
  | (Err e, w) => (Err e, w)
  end.

Definition current_branch (r : GitRepo) (w : W) : result string (option string) * W :=
  match run r ["branch"; "--show-current"] w with
  | (Ok output, w) => (parse_optional_utf8 utf8_error output "git branch --show-current", w)
  | (Err e, w) => (Err e, w)
  end.

Definition snapshot (r : GitRepo) (w : W) : result string GitSnapshot * W :=
  match head_sha r w with
  | (Ok sha, w) =>
    match current_branch r w with
    | (Ok branch, w) => (Ok (Snapshot sha branch), w)
    | (Err e, w) => (Err e, w)
    end
  | (Err e, w) => (Err e, w)
  end.

(** [run(..).await.map(|_| ())]. *)
Definition run_unit (r : GitRepo) (args : list string) (w : W) : result string unit * W :=
  match run r args w with (Ok _, w) => (Ok (), w) | (Err e, w) => (Err e, w) end.

Definition checkout_force (r : GitRepo) (rev : string) (w : W) : result string unit * W :=
  run_unit r ["checkout"; "--force"; rev] w.

Definition switch_create_or_reset (r : GitRepo) (branch start_point : string) (w : W) : result string unit * W :=
  run_unit r ["checkout"; "--force"; "-B"; branch; start_point] w.

Definition add_all (r : GitRepo) (w : W) : result string unit * W := run_unit r ["add"; "-A"] w.

Definition commit_args (message : string) (allow_empty : bool) : list string :=
  ["-c"; "commit.gpgsign=false"; "commit"] ++ (if allow_empty then ["--allow-empty"] else []) ++ ["-m"; message].

Definition commit_all (r : GitRepo) (message : string) (allow_empty : bool) (w : W) : result string string * W :=
  match run r (commit_args message allow_empty) w with
  | (Ok _, w) => head_sha r w
  | (Err e, w) => (Err e, w)
  end.

End Git.

(** ** What the operations answer and what they run *)

Lemma parse_non_empty_Ok err bs l s : parse_non_empty_utf8 err bs l = Ok s → s ≠ "" ∧ trim s = s.
Proof.
  unfold parse_non_empty_utf8. destruct (from_utf8 bs) as [t|]; cbn [ok_or mbind result_bind]; [|done].
  cbv zeta. destruct (str_is_empty (trim t)) eqn:E; [done|]. intros [= <-].
  split; [intros Ht; by rewrite Ht in E|apply trim_trim].
Qed.

Section Calls.
Context {W : Type} (run_process : string → list string → W → result string bytes * W).
Context (utf8_error : bytes → string).
(** The commands run so far. *)
Context (calls : W → list (string * list string)).
Context (calls_run : ∀ name args w, calls (run_process name args w).2 = calls w ++ [(name, args)]).

Definition git_call (r : GitRepo) (args : list string) : string * list string := ("git", "-C" :: repo_dir r :: args).

Lemma run_calls r args w : calls (run run_process r args w).2 = calls w ++ [git_call r args].
Proof. apply calls_run. Qed.

Lemma head_sha_spec r w : let '(result, w') := head_sha run_process utf8_error r w in
  calls w' = calls w ++ [git_call r ["rev-parse"; "HEAD"]] ∧
  ∀ sha, result = Ok sha → sha ≠ "" ∧ trim sha = sha.
Proof.
  unfold head_sha. pose proof (run_calls r ["rev-parse"; "HEAD"] w) as Hc.
  destruct (run _ _ _ _) as [[output|e] w']; (split; [done|]); [intros s; apply parse_non_empty_Ok|done].
Qed.

(** [commit_all] runs [git commit] in the repository, and then, only when it
    succeeded, asks for the new head; a hash it answers is trimmed and not
    empty. *)
Theorem commit_all_spec (r : GitRepo) (message : string) (allow_empty : bool) (w : W) :
  let commit := run run_process r (commit_args message allow_empty) w in
  let '(result, w') := commit_all run_process utf8_error r message allow_empty w in
  calls w' = calls w ++ git_call r (commit_args message allow_empty) ::
             (if is_ok commit.1 then [git_call r ["rev-parse"; "HEAD"]] else []) ∧
  (∀ e, commit.1 = Err e → result = Err e) ∧
  ∀ sha, result = Ok sha → sha ≠ "" ∧ trim sha = sha.
Proof.
  cbv zeta. unfold commit_all. pose proof (run_calls r (commit_args message allow_empty) w) as Hc.
  destruct (run _ _ _ _) as [[output|e] w1]; cbn [fst snd is_ok] in *.
  - pose proof (head_sha_spec r w1) as Hh. destruct (head_sha _ _ _ _) as [result w2].
    destruct Hh as [Hcalls Hsha]. split_and!; [|done..]. by rewrite Hcalls, Hc, <- (assoc_L app).
  - split_and!; [done|by intros ? [= <-]|done].
Qed.

(** [snapshot] asks for the head and, when it got it, for the branch, which is
    absent where the head is detached. *)
Theorem snapshot_spec (r : GitRepo) (w : W) :
  let '(result, w') := snapshot run_process utf8_error r w in
  let head := head_sha run_process utf8_error r w in
  calls w' = calls w ++ git_call r ["rev-parse"; "HEAD"] ::
             (if is_ok head.1 then [git_call r ["branch"; "--show-current"]] else []) ∧
  ∀ s, result = Ok s → head.1 = Ok (sha s) ∧ sha s ≠ "" ∧ branch s ≠ Some "".
Proof.
  unfold snapshot. pose proof (head_sha_spec r w) as Hh. destruct (head_sha _ _ _ _) as [[h|e] w1]; cbv zeta.
  2:{ destruct Hh as [Hc _]. by split. }
  destruct Hh as [Hc Hsha]. unfold current_branch.
  pose proof (run_calls r ["branch"; "--show-current"] w1) as Hb.
  destruct (run _ _ _ _) as [[output|e] w2]; cbn [snd] in Hb.
  - destruct (parse_optional_utf8 _ _ _) as [b|e] eqn:E; (split; [by rewrite Hb, Hc, <- (assoc_L app)|]); [|done].
    intros s [= <-]. cbn. split; [done|]. split; [by apply Hsha|].
    unfold parse_optional_utf8 in E. destruct (from_utf8 output) as [t|]; cbn [ok_or mbind result_bind] in E; [|done].
    cbv zeta in E. destruct (str_is_empty (trim t)) eqn:Et; injection E as <-; [done|]. intros [= Ht]. by rewrite Ht in Et.
  - split; [by rewrite Hb, Hc, <- (assoc_L app)|done].
Qed.

End Calls.
