(* ===== verification/SdkTests.v ===== *)
(** * The SDK's unit tests

    The [#[cfg(test)]] modules of [mitb-sdk/src/lib.rs], [fs.rs], [git.rs] and
    [search/mcts.rs], one definition a test: what it asserts, of the models it
    calls.  That each holds is checked by evaluation: the models answer what the
    authors ran the code for.  Where a test needs a library, it gets a small
    concrete one. *)

From S2P Require Import Sdk SdkFs SdkFind SdkGit MctsDisk.

(** A test is evaluated: each of its assertions is an equation between values. *)
Ltac passes := vm_compute; repeat split; reflexivity.

(** ** [mitb-sdk/src/lib.rs] *)

Module Lib.

Definition parse_levels : Prop :=
  parse_log_level "error" = Some LError ∧
  parse_log_level "warn" = Some LWarn ∧
  parse_log_level "warning" = Some LWarn ∧
  parse_log_level "info" = Some LInfo ∧
  parse_log_level "debug" = Some LDebug ∧
  parse_log_level "trace" = Some LTrace ∧
  parse_log_level "mitb=info" = Some LInfo ∧
  parse_log_level "mitb = TRACE" = Some LTrace ∧
  parse_log_level "quiet" = None.

Definition shuffle_is_deterministic : Prop :=
  let first := pseudo_shuffle [1; 2; 3; 4; 5; 6; 7] 12345 in
  let second := pseudo_shuffle [1; 2; 3; 4; 5; 6; 7] 12345 in
  is_Some first ∧ first = second.

(** [n] calls whose results are dropped. *)
Definition advance (n : nat) (b : ExponentialBackoff) : ExponentialBackoff := Nat.iter n (fun b => fst (next_backoff b)) b.

Definition exponential_backoff_advances_and_caps : Prop :=
  let backoff := backoff_new (from_millis 10) (from_secs 1) in
  let '(backoff, a) := next_backoff backoff in
  let '(backoff, b) := next_backoff backoff in
  let '(backoff, c) := next_backoff backoff in
  let backoff := advance 8 backoff in
  a = from_millis 10 ∧ b = from_millis 20 ∧ c = from_millis 40 ∧
  current_interval backoff = from_secs 1 ∧ (next_backoff backoff).2 = from_secs 1.

Definition exponential_backoff_reset_restores_initial_interval : Prop :=
  let backoff := reset (advance 2 (backoff_new (from_millis 10) (from_secs 1))) in
  current_interval backoff = from_millis 10 ∧ (next_backoff backoff).2 = from_millis 10.

Definition exponential_backoff_saturates_when_multiplier_overflows : Prop :=
  let backoff := with_multiplier (backoff_new DURATION_MAX 123) U32_MAX in
  let '(backoff, a) := next_backoff backoff in
  a = 123 ∧ current_interval backoff = 123.

Definition truncate_preserves_utf8_boundaries : Prop :=
  truncate "héllo" 2 = "h..." ∧ truncate "abcdef" 3 = "abc..." ∧ truncate "abc" 4 = "abc".

(** The engine finds the two numbers of the text. *)
Section Regex.
Context `{RegexCrate} (re : regex).

Definition text : string := "noise <guess>12</guess>" +:+ bytes_str [LF] +:+ "more <guess>42</guess>".
Definition guess : string := "<guess>\s*([0-9]+)\s*</guess>".

Context (compiles : regex_new guess = Ok re).
Context (finds : captures_iter re text =
  [[Some "<guess>12</guess>"; Some "12"]; [Some "<guess>42</guess>"; Some "42"]]).

Definition regex_capture_returns_last_capture : Prop := regex_capture text guess 1 = Ok (Some "42").
Definition regex_capture_first_returns_first_capture : Prop := regex_capture_first text guess 1 = Ok (Some "12").
Definition regex_captures_returns_all_captures_in_order : Prop := regex_captures text guess 1 = Ok ["12"; "42"].

Example regex_tests_pass :
  regex_capture_returns_last_capture ∧ regex_capture_first_returns_first_capture ∧
  regex_captures_returns_all_captures_in_order.
Proof.
  unfold regex_capture_returns_last_capture, regex_capture_first_returns_first_capture,
    regex_captures_returns_all_captures_in_order, regex_capture, regex_capture_first, regex_captures, compile.
  by rewrite compiles; cbn; rewrite finds.
Qed.

End Regex.

Definition detect_idle_tracks_each_guest_type : Prop :=
  let grace := 5000000000 in
  let '(first, a) := detect_idle_at idle_default "same" 0 grace in
  let '(first, b) := detect_idle_at first "same" 1000000000 grace in
  let '(first, c) := detect_idle_at first "same" 4999999999 grace in
  let '(first, d) := detect_idle_at first "same" 5000000000 grace in
  let '(first, e) := detect_idle_at first "different" 5100000000 grace in
  let '(second, f) := detect_idle_at idle_default "same" 10 grace in
  let '(second, g) := detect_idle_at second "same" 5000000010 grace in
  a = false ∧ b = false ∧ c = false ∧ d = true ∧ e = false ∧ f = false ∧ g = true.

Definition home_dir_prefers_home : Prop :=
  home_dir_from_environment [("HOME", "/home/chip"); ("USERPROFILE", "C:\Users\chip")] = Ok "/home/chip".

Definition home_dir_prefers_explicit_mitb_home_dir : Prop :=
  home_dir_from_environment [(MITB_HOME_DIR_ENV, "/explicit/home"); ("HOME", "/home/chip")] = Ok "/explicit/home".

Definition home_dir_falls_back_to_userprofile : Prop :=
  home_dir_from_environment [("USERPROFILE", "C:\Users\chip")] = Ok "C:\Users\chip".

Definition home_dir_falls_back_to_homedrive_and_homepath : Prop :=
  home_dir_from_environment [("HOMEDRIVE", "C:"); ("HOMEPATH", "\Users\chip")] = Ok "C:\Users\chip".

Definition home_dir_errors_when_no_home_variables_exist : Prop :=
  is_ok (home_dir_from_environment [("HOME", "")]) = false.

(** A future that is ready, against one that never is. *)
Definition with_timeout_returns_completed_value : Prop :=
  with_timeout (U := ()) [(Some 7, None)] = Some (Completed 7).

Example lib_tests_pass :
  parse_levels ∧ shuffle_is_deterministic ∧ exponential_backoff_advances_and_caps ∧
  exponential_backoff_reset_restores_initial_interval ∧ exponential_backoff_saturates_when_multiplier_overflows ∧
  truncate_preserves_utf8_boundaries ∧ detect_idle_tracks_each_guest_type ∧ home_dir_prefers_home ∧
  home_dir_prefers_explicit_mitb_home_dir ∧ home_dir_falls_back_to_userprofile ∧
  home_dir_falls_back_to_homedrive_and_homepath ∧ home_dir_errors_when_no_home_variables_exist ∧
  with_timeout_returns_completed_value.
Proof. vm_compute. repeat split. by eexists. Qed.

End Lib.

(** ** [mitb-sdk/src/fs.rs] *)

Module Fs.

#[local] Existing Instance example_glob.

Definition include_pattern_without_separator_matches_basename_recursively : Prop :=
  match pattern_new "*.rs" with
  | Ok pattern => matches_path_pattern pattern "src/lib.rs" = true ∧ matches_path_pattern pattern "src/lib.ts" = false
  | Err _ => False
  end.

Definition newline : string := bytes_str [LF].

Definition gitignore_rules_ignore_and_unignore_paths : Prop :=
  match parse_gitignore_rules ("target/" +:+ newline +:+ "*.tmp" +:+ newline +:+ "!important.tmp" +:+ newline) "" [] with
  | Ok rules =>
    path_is_ignored rules "target" true = true ∧
    path_is_ignored rules "target/output.bin" false = true ∧
    path_is_ignored rules "foo.tmp" false = true ∧
    path_is_ignored rules "important.tmp" false = false
  | Err _ => False
  end.

Definition gitignore_rules_scope_to_their_directory : Prop :=
  match parse_gitignore_rules ("generated/" +:+ newline) "src" [] with
  | Ok rules =>
    path_is_ignored rules "src/generated" true = true ∧
    path_is_ignored rules "src/generated/file.rs" false = true ∧
    path_is_ignored rules "generated/file.rs" false = false
  | Err _ => False
  end.

Definition count_lines_in_bytes_handles_newline_and_non_newline_endings : Prop :=
  count_lines_in_bytes [] = 0 ∧
  count_lines_in_bytes ["a"%char] = 1 ∧
  count_lines_in_bytes ["a"%char; LF] = 1 ∧
  count_lines_in_bytes ["a"%char; LF; "b"%char; LF] = 2 ∧
  count_lines_in_bytes ["a"%char; LF; "b"%char] = 2.

Example fs_tests_pass :
  include_pattern_without_separator_matches_basename_recursively ∧ gitignore_rules_ignore_and_unignore_paths ∧
  gitignore_rules_scope_to_their_directory ∧ count_lines_in_bytes_handles_newline_and_non_newline_endings.
Proof. passes. Qed.

End Fs.

(** ** [mitb-sdk/src/git.rs]

    The world is the list of the calls made. *)

Module Git.

Notation calls := (list (string * list string)).

Definition recorded (answer : list string → bytes) (name : string) (args : list string) (w : calls) : result string bytes * calls :=
  (Ok (answer args), w ++ [(name, args)]).

Definition no_utf8_error (_ : bytes) : string := "".

Definition head_sha_runs_git_in_repo_directory : Prop :=
  let run := recorded (fun _ => str_bytes "abc123" ++ [LF]) in
  head_sha run no_utf8_error (SdkGit.new "/workspace/repo") [] =
    (Ok "abc123", [("git", ["-C"; "/workspace/repo"; "rev-parse"; "HEAD"])]).

Definition branch_name_is_optional_when_detached : Prop :=
  (current_branch (recorded (fun _ => [])) no_utf8_error (SdkGit.new ".") []).1 = Ok None.

Definition commit_all_returns_new_head_sha : Prop :=
  let run := recorded (fun args => if bool_decide ("rev-parse" ∈ args) then str_bytes "nextsha" ++ [LF] else []) in
  let '(sha, calls) := commit_all run no_utf8_error (SdkGit.new ".") "message" true [] in
  sha = Ok "nextsha" ∧ length calls = 2%nat ∧
  match calls with
  | (_, args) :: _ => bool_decide ("commit" ∈ args) = true ∧ bool_decide ("--allow-empty" ∈ args) = true
  | [] => False
  end.

Example git_tests_pass :
  head_sha_runs_git_in_repo_directory ∧ branch_name_is_optional_when_detached ∧ commit_all_returns_new_head_sha.
Proof. passes. Qed.

End Git.

(** ** [mitb-sdk/src/search/mcts.rs] *)

Module Mcts.

#[local] Existing Instance memory_env.

Definition in_memory_tree_with_config (root_key : string) (c : MctsConfig) : option Mcts.Mcts :=
  build ∅ (disable_persistence (builder_config (builder_new root_key) c)).

Definition in_memory_tree (root_key : string) : option Mcts.Mcts := build ∅ (disable_persistence (builder_new root_key)).

Definition in_memory_search (root_key : string) : option PendingTreeSearch := with_tree <$> in_memory_tree root_key.

(** A call of a test on its tree, unwrapped: [None] where the test would panic. *)
Inductive tree_call : Type :=
| EnsureChildCall (parent_key child_key : string)
| BackpropagateCall (path : list string) (reward : f64).

Definition unwrap_call (s : disk * Mcts.Mcts) (c : tree_call) : option (disk * Mcts.Mcts) :=
  r ← match c with
      | EnsureChildCall p k => ensure_child s.1 s.2 p k
      | BackpropagateCall path reward => backpropagate_path s.1 s.2 path reward
      end;
  match r with (d, t, Ok _) => Some (d, t) | _ => None end.

Definition after (t : option Mcts.Mcts) (l : list tree_call) : option Mcts.Mcts :=
  t ← t; snd <$> run_steps unwrap_call (∅, t) l.

(** [(a - b).abs() < epsilon] *)
Definition close (a b epsilon : f64) : bool := f_ltb (SFabs (f64_sub a b)) epsilon.
Definition nano : f64 := f64_lit 1 1000000000.
Definition pico : f64 := f64_lit 1 1000000000000.

Definition builder_is_non_persistent_by_default : Prop :=
  persistence_path <$> build ∅ (builder_new "root") = Some None.

Definition builder_can_enable_default_persistence_path : Prop :=
  persistence_path <$> build ∅ (enable_persistence (builder_new "root")) = Some (Some DEFAULT_MCTS_PERSISTENCE_PATH).

Definition builder_can_disable_persistence : Prop :=
  persistence_path <$> build ∅ (disable_persistence (enable_persistence (builder_new "root"))) = Some None.

(** The tree is flushed and read back from the disk it was flushed to. *)
Definition persists_and_restores_tree_to_custom_path : Prop :=
  let builder := builder_persistence_path (builder_new "root") "/tmp/mitb-mcts-restore/mcts.json" in
  match (t ← build ∅ builder;
         '(d, t) ← run_steps unwrap_call (∅, t)
           [EnsureChildCall "root" "a"; BackpropagateCall ["root"; "a"] (f64_lit 7 10)];
         let '(d, flushed) := flush_persistence d t in
         restored ← try_build d builder;
         Some (flushed, restored)) with
  | Some (Ok _, Ok restored) =>
    contains restored "a" = true ∧
    match node_stats restored "a" with
    | Some (Some stats) => stats_visits stats = 1%Z ∧ close (stats_mean_reward stats) (f64_lit 7 10) nano = true
    | _ => False
    end
  | _ => False
  end.

Definition selects_root_initially : Prop :=
  (t ← in_memory_tree "root"; select_path t 8) = Some (Ok ["root"]).

Definition progressive_widening_stops_at_expandable_parent : Prop :=
  (t ← after (in_memory_tree_with_config "root" (MkConfig (f64_sqrt (f64_of_Z 2)) (f64_of_Z 2) (f64_lit 1 2)))
         [EnsureChildCall "root" "a"; BackpropagateCall ["root"; "a"] (f64_lit 8 10)];
   select_path t 8) = Some (Ok ["root"]).

Definition ucb_descends_when_parent_is_not_expandable : Prop :=
  (t ← after (in_memory_tree_with_config "root" (MkConfig f_zero f_zero (f64_lit 1 2)))
         [EnsureChildCall "root" "a"; EnsureChildCall "root" "b";
          BackpropagateCall ["root"; "a"] f64_one; BackpropagateCall ["root"; "a"] f64_one;
          BackpropagateCall ["root"; "b"] (f64_lit 1 10)];
   select_path t 8) = Some (Ok ["root"; "a"]).

Definition backpropagate_updates_visit_and_reward_stats : Prop :=
  match after (in_memory_tree "root")
          [EnsureChildCall "root" "a"; BackpropagateCall ["root"; "a"] (f64_lit 1 2);
           BackpropagateCall ["root"; "a"] f64_one] with
  | Some t =>
    match node_stats t "root", node_stats t "a" with
    | Some (Some root), Some (Some a) =>
      stats_visits root = 2%Z ∧ stats_visits a = 2%Z ∧
      close (stats_mean_reward a) (f64_lit 3 4) nano = true ∧ close (stats_best_reward a) f64_one nano = true
    | _, _ => False
    end
  | None => False
  end.

Definition normalize_reward_clamps_to_bounded_range : Prop :=
  close (normalize_reward (f64_lit 4 10)) (f64_lit 4 10) pico = true ∧
  close (normalize_reward (f64_of_Z 2)) f64_one pico = true ∧
  close (normalize_reward (f64_of_Z (-2))) f_zero pico = true ∧
  close (normalize_reward S754_nan) f_zero pico = true.

Definition pending_search_backpropagates_and_selects : Prop :=
  match (t ← after (in_memory_tree "root") [EnsureChildCall "root" "a"];
         backpropagate_and_select ∅ (MkSearch t (Some ["root"; "a"])) "child" (f64_lit 9 10) 16) with
  | Some (_, search, Ok step) =>
    backpropagation_path step = ["root"; "a"; "child"] ∧ head (selected_path step) = Some "root" ∧
    contains (tree search) "child" = true
  | _ => False
  end.

Definition pending_search_select_next_tracks_path : Prop :=
  match (search ← in_memory_search "root"; select_next search 16) with
  | Some (search, Ok step) =>
    selected_key step = "root" ∧ selected_path step = ["root"] ∧ pending_selection_path search = Some ["root"]
  | _ => False
  end.

Example mcts_tests_pass :
  builder_is_non_persistent_by_default ∧ builder_can_enable_default_persistence_path ∧
  builder_can_disable_persistence ∧ persists_and_restores_tree_to_custom_path ∧ selects_root_initially ∧
  progressive_widening_stops_at_expandable_parent ∧ ucb_descends_when_parent_is_not_expandable ∧
  backpropagate_updates_visit_and_reward_stats ∧ normalize_reward_clamps_to_bounded_range ∧
  pending_search_backpropagates_and_selects ∧ pending_search_select_next_tracks_path.
Proof. passes. Qed.

End Mcts.
