(* ===== verification/PakeBridge.v ===== *)
(** * The WebAssembly bridge: [mitb-pake/src/lib.rs], module [wasm_bridge]

    The table of client sessions behind integer handles, the requests on it, and
    the calls that carry them through the module's linear memory.  [serde_json]
    and the allocator are parameters. *)

From S2P Require Import Pake.

(** ** The random source

    [getrandom] is a parameter: the bytes it gives for a request of so many, or
    an error. *)
Section Random.
Context {error : Type} (getrandom : nat → result error bytes).

Definition try_fill_bytes (n : nat) : result error bytes := getrandom n.

Definition fill_bytes (n : nat) : bytes :=
  match try_fill_bytes n with Ok l => l | Err _ => replicate n (chr 0) end.

Definition next_u32 : Z := from_le_bytes (fill_bytes 4).
Definition next_u64 : Z := from_le_bytes (fill_bytes 8).
End Random.

(** [browser_getrandom]: the import's status for a buffer of so many bytes, and
    the crate's [CUSTOM_START]. *)
Definition browser_getrandom (CUSTOM_START : Z) (mitb_fill_random : nat → Z * bytes) (n : nat) : result Z bytes :=
  let '(status, filled) := mitb_fill_random n in
  if status =? 0 then Ok filled
  else Err (if CUSTOM_START + 1 =? 0 then 1 else CUSTOM_START + 1).

(** ** Requests and responses *)

Inductive Request : Type :=
| Create (secret_code : string)
| Destroy (handle : Z)
| StartLogin (handle : Z)
| StartRegistration (handle : Z)
| FinishRegistration (handle : Z) (registration_response : string)
| FinishLogin (handle : Z) (credential_response : string).

Record Response := Resp {
  ok : bool;
  error : option string;
  handle : option Z;
  credential_request : option string;
  registration_request : option string;
  registration_upload : option string;
  credential_finalization : option string;
}.

Definition ok_response : Response := Resp true None None None None None None.
Definition error_response (e : string) : Response := Resp false (Some e) None None None None None.

Section Bridge.
Context `{Opaque, Base64}.

(** The statics: the sessions, whether their mutex is poisoned, the counter and
    the length of the last result. *)
Record Statics := St {
  SESSIONS : gmap Z ClientSession;
  poisoned : bool;
  NEXT_HANDLE : Z;
  LAST_RESULT_LEN : Z;
}.

Definition initial : Statics := St ∅ false 1 0.

Definition set_sessions (s : Statics) (m : gmap Z ClientSession) : Statics :=
  St m (poisoned s) (NEXT_HANDLE s) (LAST_RESULT_LEN s).

Definition lock (s : Statics) : result string (gmap Z ClientSession) :=
  if poisoned s then Err "failed to lock sessions" else Ok (SESSIONS s).

(** What the requests on a live session share: the lock, the look-up, and the
    session's operation, whose new session stays in the table even when the
    operation fails. *)
Definition with_session {A} (s : Statics) (handle : Z) (f : ClientSession → ClientSession * result string A)
    (k : A → Response) : Statics * result string Response :=
  match lock s with
  | Err e => (s, Err e)
  | Ok guard =>
    match guard !! handle with
    | None => (s, Err "unknown session handle")
    | Some session =>
      let '(session, r) := f session in
      (set_sessions s (<[handle := session]> guard), a ← r; Ok (k a))
    end
  end.

Definition process_request (e e' : entropy) (s : Statics) (request : Request) : Statics * result string Response :=
  match request with
  | Create secret_code =>
    match client_new secret_code with
    | Err error => (s, Err error)
    | Ok session =>
      let handle := NEXT_HANDLE s in
      let s := St (SESSIONS s) (poisoned s) (wrap_u32 (NEXT_HANDLE s + 1)) (LAST_RESULT_LEN s) in
      match lock s with
      | Err error => (s, Err error)
      | Ok sessions =>
        (set_sessions s (<[handle := session]> sessions), Ok (Resp true None (Some handle) None None None None))
      end
    end
  | Destroy handle =>
    match lock s with
    | Err error => (s, Err error)
    | Ok sessions => (set_sessions s (delete handle sessions), Ok ok_response)
    end
  | StartLogin handle =>
    with_session s handle (start_login e)
      (fun login => Resp true None None (Some (encode login)) None None None)
  | StartRegistration handle =>
    with_session s handle (start_registration e)
      (fun registration => Resp true None None None (Some (encode registration)) None None)
  | FinishRegistration handle registration_response =>
    match decode registration_response with
    | Err error => (s, Err error)
    | Ok response =>
      with_session s handle (fun session => finish_registration e e' session response)
        (fun '(upload, credential) => Resp true None None (Some (encode credential)) None (Some (encode upload)) None)
    end
  | FinishLogin handle credential_response =>
    match decode credential_response with
    | Err error => (s, Err error)
    | Ok response =>
      with_session s handle (fun session => finish_login e session response)
        (fun login => Resp true None None None None None (Some (encode login)))
    end
  end.

(** ** The calls through linear memory *)

(** [serde_json]: reading a request, writing a response, or the [Debug] of its
    error. *)
Context (from_slice : bytes → result string Request).
Context (to_vec : Response → result string bytes).
(** Where the allocator puts a block of so many bytes, given the live ones. *)
Context (allocate : gmap Z bytes → nat → Z).
(** What a block holds before it is written. *)
Context (uninit : nat → bytes).

(** The statics and the live blocks of the module's memory. *)
Record Module := Mod { statics : Statics; heap : gmap Z bytes }.

(** A boxed slice of no bytes is no block; its pointer dangles. *)
Definition place (h : gmap Z bytes) (contents : bytes) : gmap Z bytes * Z :=
  let ptr := allocate h (length contents) in
  (if bool_decide (contents = []) then h else <[ptr := contents]> h, ptr).

Definition quote : string := bytes_str [chr 34].

Definition response_bytes (response : Response) : bytes :=
  match to_vec response with
  | Ok l => l
  | Err error =>
    str_bytes ("{" +:+ quote +:+ "ok" +:+ quote +:+ ":false," +:+ quote +:+ "error" +:+ quote +:+ ":" +:+ error +:+ "}")
  end.

Definition serialize_response (m : Module) (response : Response) : Module * Z :=
  let boxed := response_bytes response in
  let '(h, ptr) := place (heap m) boxed in
  let s := statics m in
  (Mod (St (SESSIONS s) (poisoned s) (NEXT_HANDLE s) (wrap_u32 (Z.of_nat (length boxed)))) h, ptr).

Definition mitb_pake_alloc (m : Module) (len : nat) : Module * Z :=
  let '(h, ptr) := place (heap m) (uninit len) in (Mod (statics m) h, ptr).

(** [Vec::from_raw_parts] and its drop.  [None] is undefined behaviour: the
    pointer is not that of a live block, or the length is not the block's. *)
Definition mitb_pake_free (m : Module) (ptr len : Z) : option Module :=
  if (ptr =? 0) || (len =? 0) then Some m
  else
    block ← heap m !! ptr;
    if bool_decide (Z.of_nat (length block) = len) then Some (Mod (statics m) (delete ptr (heap m))) else None.

Definition mitb_pake_last_result_len (m : Module) : Z := LAST_RESULT_LEN (statics m).

(** [slice::from_raw_parts(ptr, len)]: undefined unless the bytes lie in a live
    block, or there are none. *)
Definition raw_slice (m : Module) (ptr : Z) (len : nat) : option bytes :=
  if (len =? 0)%nat then Some []
  else
    block ← heap m !! ptr;
    if (len <=? length block)%nat then Some (take len block) else None.

Definition answer (e e' : entropy) (s : Statics) (input : bytes) : Statics * Response :=
  match from_slice input with
  | Ok request =>
    let '(s, r) := process_request e e' s request in
    (s, match r with Ok response => response | Err error => error_response error end)
  | Err error => (s, error_response error)
  end.

Definition mitb_pake_process_json (e e' : entropy) (m : Module) (ptr : Z) (len : nat) : option (Module * Z) :=
  bytes ← raw_slice m ptr len;
  let '(s, response) := answer e e' (statics m) bytes in
  Some (serialize_response (Mod s (heap m)) response).

(** The page's write of its input, through a view of as many bytes. *)
Definition write_input (m : Module) (ptr : Z) (input : bytes) : option Module :=
  _ ← raw_slice m ptr (length input);
  Some (Mod (statics m)
          (match input with [] => heap m | _ => alter (fun block => input ++ drop (length input) block) ptr (heap m) end)).

(** The page's use of the exports ([mitb-server/static/index.html]): put the
    input into memory, process it, free it, read the output and free it.
    [None] if any of it is undefined. *)
Definition page_call (e e' : entropy) (m : Module) (input : bytes) : option (Module * bytes) :=
  let '(m, inputPtr) := mitb_pake_alloc m (length input) in
  m ← write_input m inputPtr input;
  '(m, outputPtr) ← mitb_pake_process_json e e' m inputPtr (length input);
  m ← mitb_pake_free m inputPtr (Z.of_nat (length input));
  let outputLen := mitb_pake_last_result_len m in
  output ← raw_slice m outputPtr (Z.to_nat outputLen);
  m ← mitb_pake_free m outputPtr outputLen;
  Some (m, output).

End Bridge.

(** ** The table of sessions *)

Section Table.
Context `{Opaque, Base64}.

(** The handle a request is addressed to, and what it does to the session. *)
Definition target (r : Request) : option Z :=
  match r with
  | Create _ => None
  | Destroy h | StartLogin h | StartRegistration h | FinishRegistration h _ | FinishLogin h _ => Some h
  end.

Definition session_step (e e' : entropy) (r : Request) (c : ClientSession) : option ClientSession :=
  match r with
  | Create _ => Some c
  | Destroy _ => None
  | StartLogin _ => Some (start_login e c).1
  | StartRegistration _ => Some (start_registration e c).1
  | FinishRegistration _ m =>
    Some (match decode m with Ok l => (finish_registration e e' c l).1 | Err _ => c end)
  | FinishLogin _ m => Some (match decode m with Ok l => (finish_login e c l).1 | Err _ => c end)
  end.

Lemma with_session_spec {A} s h f (k : A → Response) j : poisoned s = false →
  let s' := (with_session s h f k).1 in
  poisoned s' = false ∧
  (Some h = Some j → SESSIONS s' !! j = c ← SESSIONS s !! j; Some (f c).1) ∧
  (Some h ≠ Some j → SESSIONS s' !! j = SESSIONS s !! j).
Proof.
  intros Hp. unfold with_session, lock. rewrite Hp.
  destruct (SESSIONS s !! h) as [c|] eqn:E; [destruct (f c) as [c' r] eqn:Ef|]; cbn; split_and!; try done.
  - intros [= <-]. by rewrite lookup_insert_eq, E; cbn; rewrite Ef.
  - intros Hne. rewrite lookup_insert_ne; [done|congruence].
  - intros [= <-]. by rewrite E.
Qed.

(** The sessions are independent: a request changes at most the session it is
    addressed to, and that one as the session's own operation does. *)
Theorem sessions_independent (e e' : entropy) (s : Statics) (r : Request) (h : Z) : poisoned s = false →
  let s' := (process_request e e' s r).1 in
  poisoned s' = false ∧
  (target r = Some h → SESSIONS s' !! h = c ← SESSIONS s !! h; session_step e e' r c) ∧
  (target r ≠ Some h → (∀ code, r = Create code → h ≠ NEXT_HANDLE s) → SESSIONS s' !! h = SESSIONS s !! h).
Proof.
  intros Hp.
  assert (Hid : SESSIONS s !! h = c ← SESSIONS s !! h; Some c) by (by destruct (SESSIONS s !! h)).
  destruct r as [code|j|j|j|j m|j m]; cbn [process_request target session_step].
  - destruct (client_new code) as [c|]; [|done]. unfold lock. cbn. rewrite Hp. cbn. split_and!; [done..|].
    intros _ Hh. rewrite lookup_insert_ne; [done|]. intros <-. by apply (Hh code).
  - unfold lock. rewrite Hp. cbn. split_and!; [done| |].
    + intros [= ->]. rewrite lookup_delete_eq. by destruct (SESSIONS s !! h).
    + intros Hne _. rewrite lookup_delete_ne; [done|congruence].
  - edestruct (with_session_spec s j (start_login e)) as (? & ? & ?); [done|]. split_and!; [done|eauto|eauto].
  - edestruct (with_session_spec s j (start_registration e)) as (? & ? & ?); [done|]. split_and!; [done|eauto|eauto].
  - destruct (decode m) as [l|]; [|done].
    edestruct (with_session_spec s j (λ c, finish_registration e e' c l)) as (? & ? & ?); [done|].
    split_and!; [done|eauto|eauto].
  - destruct (decode m) as [l|]; [|done].
    edestruct (with_session_spec s j (λ c, finish_login e c l)) as (? & ? & ?); [done|].
    split_and!; [done|eauto|eauto].
Qed.

(** *** Handles *)

(** The requests of a run, each with the random draws of its call, and the
    handles the responses hand out. *)
Fixpoint run_requests (s : Statics) (l : list (entropy * entropy * Request)) : Statics * list Z :=
  match l with
  | [] => (s, [])
  | (e, e', r) :: l =>
    let '(s, response) := process_request e e' s r in
    let '(s, hs) := run_requests s l in
    (s, match response with Ok response => from_option (λ h, [h]) [] (handle response) | Err _ => [] end ++ hs)
  end.

Lemma process_request_next e e' s r :
  let '(s', response) := process_request e e' s r in
  (NEXT_HANDLE s' = NEXT_HANDLE s ∧ (∀ x, response = Ok x → handle x = None)) ∨
  (NEXT_HANDLE s' = wrap_u32 (NEXT_HANDLE s + 1) ∧ ∀ x, response = Ok x → handle x = Some (NEXT_HANDLE s)).
Proof.
  assert (Hw : ∀ A (f : ClientSession → ClientSession * result string A) k h, (∀ a, handle (k a) = None) →
    let '(s', response) := with_session s h f k in
    NEXT_HANDLE s' = NEXT_HANDLE s ∧ (∀ x, response = Ok x → handle x = None)).
  { intros A f k h Hk. unfold with_session. destruct (lock s) as [g|]; [|done]. destruct (g !! h) as [c|]; [|done].
    destruct (f c) as [c' [a|]]; cbn; (split; [done|]); [intros x [= <-]; apply Hk|done]. }
  destruct r as [code|j|j|j|j m|j m]; cbn [process_request].
  - destruct (client_new code); unfold lock; cbn; [|by left]. destruct (poisoned s); right; [done|].
    split; [done|]. by intros x [= <-].
  - destruct (lock s); left; [|done]. split; [done|]. by intros x [= <-].
  - specialize (Hw _ (start_login e) (fun login => Resp true None None (Some (encode login)) None None None) j ltac:(done)).
    destruct (with_session _ _ _ _). by left.
  - specialize (Hw _ (start_registration e) (fun login => Resp true None None None (Some (encode login)) None None) j ltac:(done)).
    destruct (with_session _ _ _ _). by left.
  - destruct (decode m) as [l|]; cbn; [|by left].
    specialize (Hw _ (fun session => finish_registration e e' session l)
      (fun '(upload, credential) => Resp true None None (Some (encode credential)) None (Some (encode upload)) None) j).
    destruct (with_session _ _ _ _). left. apply Hw. by intros [].
  - destruct (decode m) as [l|]; cbn; [|by left].
    specialize (Hw _ (fun session => finish_login e session l)
      (fun login => Resp true None None None None None (Some (encode login))) j ltac:(done)).
    destruct (with_session _ _ _ _). by left.
Qed.

(** Handles are never handed out twice, as long as the 32-bit counter does not
    wrap around. *)
Theorem handles_distinct (s : Statics) (l : list (entropy * entropy * Request)) :
  0 ≤ NEXT_HANDLE s → NEXT_HANDLE s + Z.of_nat (length l) ≤ U32_MAX →
  NoDup (run_requests s l).2 ∧ Forall (λ h, NEXT_HANDLE s ≤ h < NEXT_HANDLE s + Z.of_nat (length l)) (run_requests s l).2.
Proof.
  revert s. induction l as [|[[e e'] r] l IH]; intros s Hs Hl; cbn [run_requests].
  { split; constructor. }
  cbn [length] in Hl |- *. pose proof (process_request_next e e' s r) as Hn.
  destruct (process_request e e' s r) as [s' response]. specialize (IH s').
  destruct (run_requests s' l) as [s'' hs]. cbn [snd] in IH |- *.
  assert (Hw : wrap_u32 (NEXT_HANDLE s + 1) = NEXT_HANDLE s + 1).
  { unfold wrap_u32. apply Z.mod_small. unfold U32_MAX in Hl. lia. }
  destruct Hn as [[Hnext Hh]|[Hnext Hh]]; rewrite ?Hw in Hnext; destruct IH as [Hnd Hall]; try lia.
  - assert (Hnil : match response with Ok response => from_option (λ h, [h]) [] (handle response) | Err _ => [] end = []).
    { destruct response as [x|]; [|done]. by rewrite (Hh x eq_refl). }
    rewrite Hnil. split; [done|]. eapply Forall_impl; [exact Hall|]. cbn. intros h. lia.
  - assert (Hall' : Forall (λ h, NEXT_HANDLE s + 1 ≤ h < NEXT_HANDLE s + Z.of_nat (S (length l))) hs).
    { eapply Forall_impl; [exact Hall|]. cbn. intros h. lia. }
    assert (Hall2 : Forall (λ h, NEXT_HANDLE s ≤ h < NEXT_HANDLE s + Z.of_nat (S (length l))) hs).
    { eapply Forall_impl; [exact Hall'|]. cbn. intros h. lia. }
    destruct response as [x|]; [|done]. rewrite (Hh x eq_refl). cbn. split; constructor; try done; [|lia].
    intros Hin. rewrite Forall_forall in Hall'. apply Hall' in Hin. lia.
Qed.

End Table.

(** ** Driving a login through the bridge

    [handshake] with the client's steps made through the table, as the page and
    its server do. *)
Definition field (o : option string) : result string string := ok_or "missing field" o.

Definition bridge_handshake `{Opaque, Base64} (setup : ServerPake) (id : bytes) (s : Statics) (h : Z)
    (e1 e2 e3 e4 e5 : entropy) : result string (Statics * bytes) :=
  let '(s, r) := process_request e1 e1 s (StartRegistration h) in
  r ← r; request ← field (registration_request r); request ← decode request;
  response ← server_registration_response setup id request;
  let '(s, r) := process_request e2 e3 s (FinishRegistration h (encode response)) in
  r ← r; upload ← field (registration_upload r); upload ← decode upload;
  credential ← field (credential_request r); credential ← decode credential;
  password_file ← server_finish_registration setup upload;
  '(credential_response, session) ← server_start_login e4 setup id password_file credential;
  let '(s, r) := process_request e5 e5 s (FinishLogin h (encode credential_response)) in
  r ← r; finalization ← field (credential_finalization r); finalization ← decode finalization;
  _ ← server_session_finish session finalization;
  Ok (s, password_file).

Section Driving.
Context `{Opaque, Base64}.

(** A request on a live session is the session's operation. *)
Lemma with_session_live {A} s h c (f : ClientSession → ClientSession * result string A) k :
  poisoned s = false → SESSIONS s !! h = Some c →
  with_session s h f k = (set_sessions s (<[h := (f c).1]> (SESSIONS s)), a ← (f c).2; Ok (k a)).
Proof. intros Hp Hc. unfold with_session, lock. rewrite Hp, Hc. by destruct (f c). Qed.

Lemma set_twice s h c c' :
  set_sessions (set_sessions s (<[h := c]> (SESSIONS s))) (<[h := c']> (SESSIONS (set_sessions s (<[h := c]> (SESSIONS s))))) =
  set_sessions s (<[h := c']> (SESSIONS s)).
Proof. unfold set_sessions. cbn. by rewrite insert_insert_eq. Qed.

(** C23. The handshake through the bridge is the handshake of the session behind the
    handle, errors included; no other session is touched. *)
Theorem bridge_refines_session (setup : ServerPake) (id : bytes) (s : Statics) (h : Z) (c : ClientSession)
    (e1 e2 e3 e4 e5 : entropy) : poisoned s = false → SESSIONS s !! h = Some c →
  bridge_handshake setup id s h e1 e2 e3 e4 e5 =
  '(c', password_file) ← handshake setup id c e1 e2 e3 e4 e5;
  Ok (set_sessions s (<[h := c']> (SESSIONS s)), password_file).
Proof.
  intros Hp Hc. unfold bridge_handshake, handshake. cbn [process_request].
  rewrite (with_session_live _ _ c) by done.
  destruct (start_registration e1 c) as [c1 [request|]]; cbn [fst snd mbind result_bind]; [|done].
  unfold field. cbn [ok_or registration_request mbind result_bind].
  destruct (decode (encode request)) as [m1|]; cbn [mbind result_bind]; [|done].
  destruct (server_registration_response setup id m1) as [response|]; cbn [mbind result_bind]; [|done].
  destruct (decode (encode response)) as [m2|]; cbn [mbind result_bind]; [|done].
  rewrite (with_session_live _ _ c1) by (try done; apply lookup_insert_eq). rewrite set_twice.
  destruct (finish_registration e2 e3 c1 m2) as [c2 [[upload credential]|]];
    cbn [fst snd mbind result_bind ok_or registration_upload credential_request]; [|done].
  destruct (decode (encode upload)) as [m3|]; cbn [mbind result_bind]; [|done].
  destruct (decode (encode credential)) as [m4|]; cbn [mbind result_bind]; [|done].
  destruct (server_finish_registration setup m3) as [file|]; cbn [mbind result_bind]; [|done].
  destruct (server_start_login e4 setup id file m4) as [[credential_response session]|]; cbn [mbind result_bind]; [|done].
  destruct (decode (encode credential_response)) as [m5|]; cbn [mbind result_bind]; [|done].
  rewrite (with_session_live _ _ c2) by (try done; apply lookup_insert_eq). rewrite set_twice.
  destruct (finish_login e5 c2 m5) as [c3 [fin|]];
    cbn [fst snd mbind result_bind ok_or credential_finalization]; [|done].
  destruct (decode (encode fin)) as [m6|]; cbn [mbind result_bind]; [|done].
  by destruct (server_session_finish session m6).
Qed.

(** *** Memory *)

Context (from_slice : bytes → result string Request).
Context (to_vec : Response → result string bytes).
Context (allocate : gmap Z bytes → nat → Z).
Context (uninit : nat → bytes).

(** A block with some contents; none when they are empty. *)
Definition block (h : gmap Z bytes) (p : Z) (b : bytes) : gmap Z bytes :=
  if bool_decide (b = []) then h else <[p := b]> h.

Lemma raw_block h p b s : raw_slice (Mod s (block h p b)) p (length b) = Some b.
Proof.
  unfold raw_slice, block. cbn [heap]. destruct b as [|x b]; [done|].
  cbn [bool_decide length]. rewrite bool_decide_eq_false_2 by done. rewrite lookup_insert_eq. cbn [mbind option_bind length].
  change (S (length b) =? 0)%nat with false. rewrite Nat.leb_refl. by rewrite (take_ge (x :: b)).
Qed.

Lemma free_block h p b s : h !! p = None → p ≠ 0 →
  mitb_pake_free (Mod s (block h p b)) p (Z.of_nat (length b)) = Some (Mod s h).
Proof.
  intros Hp Hz. unfold mitb_pake_free, block. destruct (p =? 0) eqn:E0; zb; [done|]. cbn [orb].
  case_bool_decide as Hb; [by subst b|]. destruct (Z.of_nat (length b) =? 0) eqn:El; zb.
  - exfalso. by destruct b.
  - cbn [statics heap]. rewrite lookup_insert_eq. cbn [mbind option_bind]. rewrite bool_decide_eq_true_2 by done.
    by rewrite delete_insert_id.
Qed.

(** Freeing the block again, or with another length, is undefined. *)
Lemma free_twice h p s len : h !! p = None → p ≠ 0 → len ≠ 0 → mitb_pake_free (Mod s h) p len = None.
Proof.
  intros Hp Hz Hl. unfold mitb_pake_free. destruct (p =? 0) eqn:E0; zb; [done|].
  destruct (len =? 0) eqn:El; zb; [done|]. cbn [orb heap]. by rewrite Hp.
Qed.

Lemma write_block h p b c s : length b = length c →
  write_input (Mod s (block h p b)) p c = Some (Mod s (block h p c)).
Proof.
  intros Hl. unfold write_input. rewrite <- Hl, raw_block. cbn [mbind option_bind statics heap].
  destruct c as [|x c]; [by destruct b|]. unfold block. destruct b as [|y b]; [done|].
  rewrite !bool_decide_eq_false_2 by done. rewrite alter_insert_eq, drop_ge, app_nil_r by lia. done.
Qed.

Lemma block_comm h p b q c : q ≠ p → block (block h p b) q c = block (block h q c) p b.
Proof. intros Hq. unfold block. repeat case_bool_decide; try done. by apply insert_insert_ne. Qed.

Lemma block_lookup_ne h p b q : q ≠ p → block h p b !! q = h !! q.
Proof. intros Hq. unfold block. case_bool_decide; [done|]. by apply lookup_insert_ne. Qed.

(** C30. A page's call runs into nothing undefined - it reads and writes inside
    live blocks, and frees no block twice, nor with a length that is not its
    own -, answers the request's response, and leaves no block behind: neither
    the input nor the output is leaked. *)
Theorem page_call_balanced (e e' : entropy) (m : Module) (input : bytes) :
  (∀ h n, h !! allocate h n = None ∧ allocate h n ≠ 0) →
  (∀ n, length (uninit n) = n) →
  (∀ r, Z.of_nat (length (response_bytes to_vec r)) ≤ U32_MAX) →
  let '(s, response) := answer from_slice e e' (statics m) input in
  ∃ m', page_call from_slice to_vec allocate uninit e e' m input = Some (m', response_bytes to_vec response) ∧
    heap m' = heap m ∧ SESSIONS (statics m') = SESSIONS s ∧ NEXT_HANDLE (statics m') = NEXT_HANDLE s.
Proof.
  intros Hfresh Hun Hlen. unfold page_call, mitb_pake_alloc, place. cbv zeta. rewrite Hun.
  set (p := allocate (heap m) (length input)). destruct (Hfresh (heap m) (length input)) as [Hp Hp0].
  fold p in Hp, Hp0. fold (block (heap m) p (uninit (length input))).
  rewrite write_block by apply Hun. cbn [mbind option_bind]. unfold mitb_pake_process_json.
  rewrite raw_block. cbn [mbind option_bind statics heap].
  destruct (answer from_slice e e' (statics m) input) as [s response].
  unfold serialize_response, place. cbn [statics heap]. cbv zeta.
  set (out := response_bytes to_vec response).
  assert (Hout : wrap_u32 (Z.of_nat (length out)) = Z.of_nat (length out)).
  { specialize (Hlen response). unfold wrap_u32. apply Z.mod_small. unfold U32_MAX in Hlen. fold out in Hlen. lia. }
  rewrite Hout. fold (block (block (heap m) p input) (allocate (block (heap m) p input) (length out)) out).
  set (q := allocate (block (heap m) p input) (length out)).
  destruct (Hfresh (block (heap m) p input) (length out)) as [Hq Hq0]. fold q in Hq, Hq0.
  set (s' := St (SESSIONS s) (poisoned s) (NEXT_HANDLE s) (Z.of_nat (length out))).
  assert (Hfree : mitb_pake_free (Mod s' (block (block (heap m) p input) q out)) p (Z.of_nat (length input)) =
                  Some (Mod s' (block (heap m) q out))).
  { destruct (decide (input = [])) as [->|Hne].
    - unfold mitb_pake_free. cbn [length]. change (Z.of_nat 0 =? 0) with true. by rewrite orb_true_r.
    - assert (q ≠ p).
      { intros E. unfold block in Hq. rewrite bool_decide_eq_false_2, E, lookup_insert_eq in Hq by done. done. }
      rewrite block_comm by done. apply free_block; [|done]. by rewrite block_lookup_ne. }
  cbn [mbind option_bind]. rewrite Hfree. cbn [mbind option_bind]. unfold mitb_pake_last_result_len. cbn [statics LAST_RESULT_LEN s'].
  rewrite Nat2Z.id, raw_block. cbn [mbind option_bind]. rewrite free_block; [|..|done].
  - eexists. split; [done|]. done.
  - destruct (decide (q = p)) as [->|]; [done|]. by rewrite block_lookup_ne in Hq.
Qed.
End Driving.

(** When the source fails, the draws are zeros and not errors. *)
Lemma random_failure_gives_zeros {error} (getrandom : nat → result error bytes) e :
  (∀ n, getrandom n = Err e) →
  next_u32 getrandom = 0 ∧ next_u64 getrandom = 0 ∧ ∀ n, fill_bytes getrandom n = replicate n (chr 0).
Proof. intros Hg. unfold next_u32, next_u64, fill_bytes, try_fill_bytes. split_and!; intros; by rewrite Hg. Qed.

(** ** Concrete runs *)

Lemma bridge_refines_session_witness :
  ∃ s c, @process_request plain_opaque plain_base64 () () (@initial plain_opaque) (Create "tiger") =
           (s, Ok (Resp true None (Some 1) None None None None)) ∧
  @poisoned plain_opaque s = false ∧ @SESSIONS plain_opaque s !! 1 = Some c ∧
  @bridge_handshake plain_opaque plain_base64 (@server_new plain_opaque ()) (str_bytes "room") s 1 () () () () () =
  '(c', password_file) ← @handshake plain_opaque plain_base64 (@server_new plain_opaque ()) (str_bytes "room") c () () () () ();
  Ok (@set_sessions plain_opaque s (<[1 := c']> (@SESSIONS plain_opaque s)), password_file).
Proof.
  exists (@St plain_opaque {[1 := @Client plain_opaque (str_bytes "tiger") None None]} false 2 0),
    (@Client plain_opaque (str_bytes "tiger") None None).
  split; [vm_compute; reflexivity|]. split; [reflexivity|]. split; [reflexivity|].
  apply (@bridge_refines_session plain_opaque plain_base64); reflexivity.
Defined.

Lemma handles_distinct_witness :
  let l := [((), (), Create "tiger"); ((), (), Destroy 1); ((), (), Create "lion")] in
  0 ≤ 1 ∧ 1 + 3 ≤ U32_MAX ∧
  NoDup (@run_requests plain_opaque plain_base64 (@initial plain_opaque) l).2 ∧
  Forall (λ h, 1 ≤ h < 1 + Z.of_nat (length l)) (@run_requests plain_opaque plain_base64 (@initial plain_opaque) l).2.
Proof.
  split; [lia|]. split; [unfold U32_MAX; lia|].
  apply (@handles_distinct plain_opaque plain_base64 (@initial plain_opaque)
           [((), (), Create "tiger"); ((), (), Destroy 1); ((), (), Create "lion")]); vm_compute; discriminate.
Defined.

(** An allocator that takes an address no live block has. *)
Definition bump (h : gmap Z bytes) (n : nat) : Z := fresh ({[0]} ∪ dom h : gset Z).

Lemma bump_fresh h n : h !! bump h n = None ∧ bump h n ≠ 0.
Proof.
  assert (Hf : bump h n ∉ ({[0]} ∪ dom h : gset Z)) by apply is_fresh.
  apply not_elem_of_union in Hf as [H0 Hd]. split; [by apply not_elem_of_dom|by intros E; apply H0, elem_of_singleton].
Qed.

Lemma page_call_balanced_witness :
  let to_vec := fun r : Response => Ok (str_bytes (if ok r then "{ok}" else "{error}")) in
  let from_slice := fun l => if bool_decide (l = str_bytes "tiger") then Ok (Create "tiger") else Err "bad" in
  let uninit := fun n => replicate n (chr 0) in
  let m := @Mod plain_opaque (@initial plain_opaque) {[64 := str_bytes "other"]} in
  (∀ h n, h !! bump h n = None ∧ bump h n ≠ 0) ∧ (∀ n, length (uninit n) = n) ∧
  (∀ r, Z.of_nat (length (response_bytes to_vec r)) ≤ U32_MAX) ∧
  let '(s, response) := @answer plain_opaque plain_base64 from_slice () () (statics m) (str_bytes "tiger") in
  ∃ m', @page_call plain_opaque plain_base64 from_slice to_vec bump uninit () () m (str_bytes "tiger") =
      Some (m', response_bytes to_vec response) ∧
    heap m' = heap m ∧ SESSIONS (statics m') = SESSIONS s ∧ NEXT_HANDLE (statics m') = NEXT_HANDLE s.
Proof.
  cbv zeta. split; [apply bump_fresh|]. split; [intros n; apply length_replicate|].
  split; [intros [[] ? ? ? ? ? ?]; vm_compute; discriminate|].
  apply (@page_call_balanced plain_opaque plain_base64).
  - apply bump_fresh.
  - intros n. apply length_replicate.
  - intros [[] ? ? ? ? ? ?]; vm_compute; discriminate.
Defined.
