(* ===== verification/AvFrames.v ===== *)
(** * Video frames, from the decoder's picture to the texture

    [mitb-av/src/lib.rs] ([copy_plane], [picture_to_yuv]), [mitb-av/src/yuv.rs],
    and the frame state of [mitb-av/src/program.rs] with the texture writes of
    [mitb-av/src/program/pipeline.rs].  The decoder's picture is given by what its
    accessors answer; sizes are [usize] of 64 bits. *)

From S2P Require Import Rust.

Inductive Format : Type := I420 | Y444 | NV12.

Record Size := MkSize { width : Z; height : Z }.

Record Yuv := MkYuv { format : Format; data : bytes; dimensions : Size }.

Inductive Renderable : Type :=
| RY444 (data : bytes) (dimensions : Size)
| RI420 (data : bytes) (dimensions : Size).

(** ** [Renderable] *)

Definition rdimensions (r : Renderable) : Size :=
  match r with RY444 _ d | RI420 _ d => d end.

(** [&data[a..b]] of bounds that are in range and in order. *)
Definition slice (a b : nat) (l : bytes) : bytes := take (b - a) (drop a l).

Definition y (r : Renderable) : bytes :=
  match r with
  | RI420 data _ => take (length data / 6 * 4) data
  | RY444 data _ => take (length data / 3) data
  end.

Definition u (r : Renderable) : bytes :=
  match r with
  | RI420 data _ => slice (length data / 6 * 4) (length data / 6 * 5) data
  | RY444 data _ => slice (length data / 3) (length data / 3 * 2) data
  end.

Definition v (r : Renderable) : bytes :=
  match r with
  | RI420 data _ => drop (length data / 6 * 5) data
  | RY444 data _ => drop (length data / 3 * 2) data
  end.

(** [downsampling_factor], an integer wherever it is used as one. *)
Definition downsampling_factor (r : Renderable) : Z :=
  match r with RI420 _ _ => 2 | RY444 _ _ => 1 end.

(** The bytes at even and at odd positions. *)
Fixpoint deinterleave (l : bytes) : bytes * bytes :=
  match l with
  | [] => ([], [])
  | [a] => ([a], [])
  | a :: b :: l => let '(us, vs) := deinterleave l in (a :: us, b :: vs)
  end.

Definition renderable_from (f : Yuv) : Renderable :=
  match format f with
  | I420 => RI420 (data f) (dimensions f)
  | Y444 => RY444 (data f) (dimensions f)
  | NV12 =>
    let n := (length (data f) / 6)%nat in
    let chroma := drop (n * 4) (data f) in
    let '(us, vs) := deinterleave chroma in
    RI420 (take (n * 4) (data f) ++ us ++ vs) (dimensions f)
  end.

(** ** Copying the decoder's planes *)

Definition checked_usize (z : Z) : option Z := if z <=? U64_MAX then Some z else None.

(** [plane.get(start..stop)]. *)
Definition get_range (plane : bytes) (start stop : Z) : option bytes :=
  if (start <=? stop) && (stop <=? Z.of_nat (length plane))
  then Some (slice (Z.to_nat start) (Z.to_nat stop) plane) else None.

(** The loop over the rows from [row] on. *)
Fixpoint copy_rows (plane : bytes) (stride width : Z) (row : Z) (rows : nat) (output : bytes) : option bytes :=
  match rows with
  | O => Some output
  | S rows =>
    start ← checked_usize (row * stride);
    stop ← checked_usize (start + width);
    s ← get_range plane start stop;
    copy_rows plane stride width (row + 1) rows (output ++ s)
  end.

Definition copy_plane (plane : bytes) (stride width height : Z) : option bytes :=
  if stride <? width then None
  else
    required ← checked_usize (stride * height);
    if Z.of_nat (length plane) <? required then None
    else
      _ ← checked_usize (width * height);
      copy_rows plane stride width 0 (Z.to_nat height) [].

Inductive Component : Type := Y | U | V.
(** The pixel layouts the program supports, and the others. *)
Inductive PixelLayout : Type := LI420 | LI444 | LOther.

(** What a decoded picture answers. *)
Record Picture := MkPicture {
  bit_depth : Z;
  pic_width : Z;
  pic_height : Z;
  pixel_layout : PixelLayout;
  plane : Component → bytes;
  stride : Component → Z;
}.

Definition div_ceil2 (z : Z) : Z := (z + 1) / 2.

Definition picture_to_yuv (p : Picture) : option Yuv :=
  if negb (bit_depth p =? 8) then None
  else
    let width := pic_width p in
    let height := pic_height p in
    let copy c w h := copy_plane (plane p c) (stride p c) w h in
    match pixel_layout p with
    | LI420 =>
      y ← copy Y width height;
      let chroma_width := div_ceil2 width in
      let chroma_height := div_ceil2 height in
      u ← copy U chroma_width chroma_height;
      v ← copy V chroma_width chroma_height;
      Some (MkYuv I420 (y ++ u ++ v) (MkSize width height))
    | LI444 =>
      y ← copy Y width height;
      u ← copy U width height;
      v ← copy V width height;
      Some (MkYuv Y444 (y ++ u ++ v) (MkSize width height))
    | LOther => None
    end.

(** ** The program's frames *)

Record Program := MkProgram {
  prog_dimensions : Size;
  prog_factor : Z;
  prog_data : option Renderable;
}.

Definition program_new (f : Yuv) : Program :=
  let r := renderable_from f in MkProgram (rdimensions r) (downsampling_factor r) (Some r).

Definition update_frame (p : Program) (f : Yuv) : Program :=
  MkProgram (prog_dimensions p) (prog_factor p) (Some (renderable_from f)).

(** A primitive's state; bounds are the widget's. *)
Inductive DrawState : Type :=
| Pending (yuv : Renderable)
| Prepared (image_dimensions : Size) (sampling_factor : Z).

Definition draw (p : Program) : Program * DrawState :=
  match prog_data p with
  | Some yuv => (MkProgram (prog_dimensions p) (prog_factor p) None, Pending yuv)
  | None => (p, Prepared (prog_dimensions p) (prog_factor p))
  end.

Definition image_dimensions (s : DrawState) : Size :=
  match s with Prepared d _ => d | Pending yuv => rdimensions yuv end.
Definition sampling_factor (s : DrawState) : Z :=
  match s with Prepared _ f => f | Pending yuv => downsampling_factor yuv end.

(** A call of [Queue::write_texture]: the layer, the bytes and their layout. *)
Record TextureWrite := Write {
  layer : Z;
  bytes_written : bytes;
  bytes_per_row : Z;
  write_width : Z;
  write_height : Z;
}.

Definition ensure_texture (d : Size) : bool := negb ((width d =? 0) || (height d =? 0)).

(** [Pipeline::update_frame]: the three writes. *)
Definition frame_writes (yuv : Renderable) : list TextureWrite :=
  let d := rdimensions yuv in
  let f := downsampling_factor yuv in
  let row := wrap_u32 (Z.of_nat (length (y yuv))) / height d in
  let downsampled_width := width d / f in
  let downsampled_height := height d / f in
  [Write 0 (y yuv) row (width d) (height d);
   Write 1 (u yuv) (row / f) downsampled_width downsampled_height;
   Write 2 (v yuv) (row / f) downsampled_width downsampled_height].

(** [Primitive::prepare]: the texture writes, the sizes and factor the uniforms
    get, and the state left; nothing is done for an empty image. *)
Definition prepare (s : DrawState) : DrawState * list TextureWrite * option (Size * Z) :=
  match s with
  | Pending yuv =>
    if negb (ensure_texture (rdimensions yuv)) then (s, [], None)
    else (Prepared (image_dimensions s) (sampling_factor s), frame_writes yuv,
          Some (rdimensions yuv, downsampling_factor yuv))
  | Prepared d f => (Prepared d f, [], Some (d, f))
  end.

(** [wgpu]'s documented rules for a write, and the texel it puts at [(i, j)]. *)
Definition write_valid (w : TextureWrite) : bool :=
  (write_width w <=? bytes_per_row w) &&
  (bytes_per_row w * (write_height w - 1) + write_width w <=? Z.of_nat (length (bytes_written w))).
Definition texel (w : TextureWrite) (i j : Z) : option byte :=
  bytes_written w !! Z.to_nat (j * bytes_per_row w + i).

(** ** Planes *)

Definition in_u32 (z : Z) : Prop := 0 ≤ z ≤ U32_MAX.

Definition copied (plane : bytes) (stride width rows : nat) : bytes :=
  concat ((λ row, slice (row * stride) (row * stride + width) plane) <$> seq 0 rows).

Lemma length_slice a b l : (a ≤ b)%nat → (b ≤ length l)%nat → length (slice a b l) = (b - a)%nat.
Proof. intros. unfold slice. rewrite length_take, length_drop. lia. Qed.

Lemma slice_lookup a b l i : (i < b - a)%nat → slice a b l !! i = l !! (a + i)%nat.
Proof. intros. unfold slice. rewrite lookup_take_lt by done. by rewrite lookup_drop. Qed.

Lemma copied_S plane stride width rows :
  copied plane stride width (S rows) = copied plane stride width rows ++ slice (rows * stride) (rows * stride + width) plane.
Proof. unfold copied. rewrite seq_S, fmap_app, concat_app. cbn. by rewrite app_nil_r. Qed.

(** The copy is the rows of the plane without their padding. *)
Lemma copied_spec plane stride width rows : (width ≤ stride)%nat → (stride * rows ≤ length plane)%nat →
  length (copied plane stride width rows) = (width * rows)%nat ∧
  ∀ i j, (i < width)%nat → (j < rows)%nat →
    copied plane stride width rows !! (j * width + i)%nat = plane !! (j * stride + i)%nat.
Proof.
  intros Hw. induction rows as [|rows IH]; intros Hl; [split; [cbn; lia|intros; lia]|].
  destruct IH as [Hlen Hat]; [lia|]. rewrite copied_S, length_app, length_slice by lia.
  split; [lia|]. intros i j Hi Hj. destruct (decide (j = rows)) as [->|Hne].
  - rewrite lookup_app_r by lia. rewrite Hlen, slice_lookup by lia. f_equal. lia.
  - rewrite lookup_app_l by (rewrite Hlen; nia). apply Hat; lia.
Qed.

Lemma u32_product a b : in_u32 a → in_u32 b → 0 ≤ a * b ≤ U64_MAX - U32_MAX.
Proof. unfold in_u32, U32_MAX, U64_MAX. nia. Qed.

Lemma checked_usize_ok z : z ≤ U64_MAX → checked_usize z = Some z.
Proof. intros. unfold checked_usize. by rewrite (proj2 (Z.leb_le z U64_MAX)). Qed.

Lemma copy_rows_spec plane stride width rows : in_u32 stride → in_u32 width → width ≤ stride → ∀ row out,
  0 ≤ row → row + Z.of_nat rows ≤ U32_MAX → stride * (row + Z.of_nat rows) ≤ Z.of_nat (length plane) →
  copy_rows plane stride width row rows out =
  Some (out ++ concat ((λ r, slice (r * Z.to_nat stride) (r * Z.to_nat stride + Z.to_nat width) plane) <$> seq (Z.to_nat row) rows)).
Proof.
  intros Hs Hw Hle. induction rows as [|rows IH]; intros row out Hrow Hmax Hlen; cbn [copy_rows].
  { cbn. by rewrite app_nil_r. }
  pose proof (u32_product row stride) as Hp. unfold in_u32 in Hp, Hs, Hw.
  rewrite checked_usize_ok by lia. cbn [mbind option_bind]. rewrite checked_usize_ok by lia. cbn [mbind option_bind].
  unfold get_range. assert (row * stride + width ≤ Z.of_nat (length plane)) by nia.
  rewrite (proj2 (Z.leb_le _ _)), (proj2 (Z.leb_le _ _)) by lia. cbn [andb mbind option_bind].
  rewrite IH by lia. cbn [seq fmap list_fmap concat]. rewrite <- (assoc_L app).
  replace (Z.to_nat (row + 1)) with (S (Z.to_nat row)) by lia.
  replace (Z.to_nat (row * stride)) with (Z.to_nat row * Z.to_nat stride)%nat by (rewrite <- Z2Nat.inj_mul; lia).
  replace (Z.to_nat (row * stride + width)) with (Z.to_nat row * Z.to_nat stride + Z.to_nat width)%nat
    by (rewrite Z2Nat.inj_add, Z2Nat.inj_mul; lia). done.
Qed.

(** [copy_plane] fails where a row does not fit its stride or the plane is too
    short, and copies the rows otherwise: no arithmetic overflows. *)
Lemma copy_plane_spec plane stride width height : in_u32 stride → in_u32 width → in_u32 height →
  copy_plane plane stride width height =
  if (width <=? stride) && (stride * height <=? Z.of_nat (length plane))
  then Some (copied plane (Z.to_nat stride) (Z.to_nat width) (Z.to_nat height)) else None.
Proof.
  intros Hs Hw Hh. unfold copy_plane. pose proof (u32_product stride height Hs Hh). pose proof (u32_product width height Hw Hh).
  assert (0 ≤ U32_MAX) by (unfold U32_MAX; lia).
  destruct (stride <? width) eqn:E1, (width <=? stride) eqn:E2; zb; try lia; [done|].
  rewrite (checked_usize_ok (stride * height)) by lia. cbn [mbind option_bind andb].
  destruct (Z.of_nat (length plane) <? stride * height) eqn:E3, (stride * height <=? Z.of_nat (length plane)) eqn:E4;
    zb; try lia; [done|].
  rewrite checked_usize_ok by lia. cbn [mbind option_bind]. rewrite copy_rows_spec by (try done; unfold in_u32 in *; lia).
  done.
Qed.

(** What the copy has, with the plane's bounds. *)
Lemma copy_plane_Some plane stride width height out : in_u32 stride → in_u32 width → in_u32 height →
  copy_plane plane stride width height = Some out →
  Z.of_nat (length out) = width * height ∧
  ∀ i j, 0 ≤ i < width → 0 ≤ j < height →
    out !! Z.to_nat (j * width + i) = plane !! Z.to_nat (j * stride + i) ∧ is_Some (plane !! Z.to_nat (j * stride + i)).
Proof.
  intros Hs Hw Hh. rewrite copy_plane_spec by done. unfold in_u32 in *.
  destruct (width <=? stride) eqn:E1; [|done]. destruct (stride * height <=? _) eqn:E2; [|done].
  zb. cbn [andb]. intros [= <-].
  destruct (copied_spec plane (Z.to_nat stride) (Z.to_nat width) (Z.to_nat height)) as [Hlen Hat]; [lia| |].
  { rewrite <- Z2Nat.inj_mul by lia. lia. }
  split; [rewrite Hlen, Nat2Z.inj_mul; lia|]. intros i j Hi Hj. split.
  - specialize (Hat (Z.to_nat i) (Z.to_nat j)). rewrite <- !Z2Nat.inj_mul, <- !Z2Nat.inj_add in Hat by nia.
    apply Hat; lia.
  - apply lookup_lt_is_Some. rewrite <- (Nat2Z.id (length plane)). apply Z2Nat.inj_lt; nia.
Qed.

(** ** From the picture to the texture *)

(** The three planes of a [Renderable] made of planes of the sizes it assumes. *)
Lemma planes_444 ys us vs d : length us = length ys → length vs = length ys →
  let r := RY444 (ys ++ us ++ vs) d in y r = ys ∧ u r = us ∧ v r = vs.
Proof.
  intros Hu Hv. unfold y, u, v, slice. rewrite !length_app, Hu, Hv.
  replace ((length ys + (length ys + length ys)) / 3)%nat with (length ys) by (apply Nat.div_unique_exact; lia).
  split_and!.
  - by rewrite take_app_length.
  - rewrite drop_app_length, take_app_length'; [done|lia].
  - rewrite (assoc_L app), drop_app_length'; [done|]. rewrite length_app. lia.
Qed.

Lemma planes_420 ys us vs d : length ys = (4 * length us)%nat → length vs = length us →
  let r := RI420 (ys ++ us ++ vs) d in y r = ys ∧ u r = us ∧ v r = vs.
Proof.
  intros Hy Hv. unfold y, u, v, slice. rewrite !length_app, Hy, Hv.
  replace ((4 * length us + (length us + length us)) / 6)%nat with (length us)
    by (apply Nat.div_unique_exact; lia).
  split_and!.
  - rewrite take_app_length'; [done|lia].
  - rewrite drop_app_length' by lia. rewrite take_app_length'; [done|lia].
  - rewrite (assoc_L app), drop_app_length'; [done|]. rewrite length_app. lia.
Qed.

(** A write of a whole plane, a row of bytes for each row of texels. *)
Lemma write_plane l k w h out plane stride : in_u32 stride → in_u32 w → in_u32 h →
  copy_plane plane stride w h = Some out → k = w → 0 < h →
  let t := Write l out k w h in
  write_valid t = true ∧
  ∀ i j, 0 ≤ i < w → 0 ≤ j < h → texel t i j = plane !! Z.to_nat (j * stride + i) ∧ is_Some (texel t i j).
Proof.
  intros Hs Hw Hh Hc -> Hpos. destruct (copy_plane_Some _ _ _ _ _ Hs Hw Hh Hc) as [Hlen Hat].
  unfold write_valid, texel, in_u32 in *. cbn. rewrite Hlen. split.
  - apply andb_true_iff. split; apply Z.leb_le; nia.
  - intros i j Hi Hj. destruct (Hat i j Hi Hj) as [E HS]. by rewrite E.
Qed.

(** The three writes of a frame whose planes are the copies of a picture's. *)
Lemma frame_writes_spec r f (p : Picture) ys us vs :
  let w := pic_width p in let h := pic_height p in
  rdimensions r = MkSize w h → downsampling_factor r = f → y r = ys ∧ u r = us ∧ v r = vs →
  in_u32 w → in_u32 h → w * h ≤ U32_MAX → (∀ c, in_u32 (stride p c)) → in_u32 (w / f) → in_u32 (h / f) →
  0 < h → 0 < h / f →
  copy_plane (plane p Y) (stride p Y) w h = Some ys →
  copy_plane (plane p U) (stride p U) (w / f) (h / f) = Some us →
  copy_plane (plane p V) (stride p V) (w / f) (h / f) = Some vs →
  ∃ wy wu wv, frame_writes r = [wy; wu; wv] ∧
  layer wy = 0 ∧ layer wu = 1 ∧ layer wv = 2 ∧
  write_valid wy = true ∧ write_valid wu = true ∧ write_valid wv = true ∧
  (∀ i j, 0 ≤ i < w → 0 ≤ j < h →
     texel wy i j = plane p Y !! Z.to_nat (j * stride p Y + i) ∧ is_Some (texel wy i j)) ∧
  (∀ i j, 0 ≤ i < w / f → 0 ≤ j < h / f →
     texel wu i j = plane p U !! Z.to_nat (j * stride p U + i) ∧ is_Some (texel wu i j)) ∧
  (∀ i j, 0 ≤ i < w / f → 0 ≤ j < h / f →
     texel wv i j = plane p V !! Z.to_nat (j * stride p V + i) ∧ is_Some (texel wv i j)).
Proof.
  intros w h Hd Hf (Hy & Hu & Hv) Hw Hh Hwh Hs Hcw Hch Hh0 Hch0 Cy Cu Cv.
  unfold frame_writes. rewrite Hd, Hf, Hy, Hu, Hv. cbv zeta. cbn [width height].
  assert (Hrow : wrap_u32 (Z.of_nat (length ys)) / h = w).
  { destruct (copy_plane_Some _ _ _ _ _ (Hs Y) Hw Hh Cy) as [-> _]. unfold wrap_u32, in_u32 in *.
    rewrite Z.mod_small by (unfold U32_MAX in *; nia). apply Z.div_mul. lia. }
  rewrite Hrow. do 3 eexists. split; [reflexivity|]. do 3 (split; [done|]).
  destruct (write_plane 0 w w h ys (plane p Y) (stride p Y)) as [? ?]; try done.
  destruct (write_plane 1 (w / f) (w / f) (h / f) us (plane p U) (stride p U)) as [? ?]; try done.
  destruct (write_plane 2 (w / f) (w / f) (h / f) vs (plane p V) (stride p V)) as [? ?]; try done.
Qed.

(** C13. The pixels of a decoded picture reach the texture: of an 8-bit picture that
    is 4:4:4, or 4:2:0 with even sizes, each of the three writes is one the
    graphics library accepts, and the texel it puts at [(i, j)] is the plane's
    sample there, the plane's padding skipped. *)
Theorem pixels_reach_texture (p : Picture) (f : Yuv) :
  in_u32 (pic_width p) → in_u32 (pic_height p) → pic_width p * pic_height p ≤ U32_MAX →
  (∀ c, in_u32 (stride p c)) →
  0 < pic_width p → 0 < pic_height p →
  (pixel_layout p = LI420 → pic_width p mod 2 = 0 ∧ pic_height p mod 2 = 0) →
  picture_to_yuv p = Some f →
  let factor := if format f is I420 then 2 else 1 in
  let cw := pic_width p / factor in
  let ch := pic_height p / factor in
  ∃ wy wu wv, frame_writes (renderable_from f) = [wy; wu; wv] ∧
  layer wy = 0 ∧ layer wu = 1 ∧ layer wv = 2 ∧
  write_valid wy = true ∧ write_valid wu = true ∧ write_valid wv = true ∧
  (∀ i j, 0 ≤ i < pic_width p → 0 ≤ j < pic_height p →
     texel wy i j = plane p Y !! Z.to_nat (j * stride p Y + i) ∧ is_Some (texel wy i j)) ∧
  (∀ i j, 0 ≤ i < cw → 0 ≤ j < ch →
     texel wu i j = plane p U !! Z.to_nat (j * stride p U + i) ∧ is_Some (texel wu i j)) ∧
  (∀ i j, 0 ≤ i < cw → 0 ≤ j < ch →
     texel wv i j = plane p V !! Z.to_nat (j * stride p V + i) ∧ is_Some (texel wv i j)).
Proof.
  intros Hw Hh Hwh Hs Hw0 Hh0 Heven. unfold picture_to_yuv. destruct (bit_depth p =? 8); [|done]. cbn [negb]. cbv zeta.
  destruct (pixel_layout p); [destruct (Heven eq_refl) as [Ew Eh]| |done].
  all: destruct (copy_plane (plane p Y) _ _ _) as [ys|] eqn:Cy; [|done]; cbn [mbind option_bind].
  all: destruct (copy_plane (plane p U) _ _ _) as [us|] eqn:Cu; [|done]; cbn [mbind option_bind].
  all: destruct (copy_plane (plane p V) _ _ _) as [vs|] eqn:Cv; [|done]; cbn [mbind option_bind].
  all: intros [= <-]; cbn [format renderable_from data dimensions].
  - assert (Hhalf : ∀ z, in_u32 z → z mod 2 = 0 → div_ceil2 z = z / 2 ∧ in_u32 (z / 2) ∧ z = 2 * (z / 2)).
    { unfold div_ceil2, in_u32. intros z Hz Ez. Z.to_euclidean_division_equations. lia. }
    destruct (Hhalf _ Hw Ew) as (Ecw & Hcw & Hw2), (Hhalf _ Hh Eh) as (Ech & Hch & Hh2). rewrite Ecw, Ech in *.
    apply (frame_writes_spec (RI420 (ys ++ us ++ vs) (MkSize (pic_width p) (pic_height p))) 2 p ys us vs);
      try done; [|lia..].
    apply planes_420.
    + apply copy_plane_Some in Cy as [? _], Cu as [? _]; try done. nia.
    + apply copy_plane_Some in Cv as [? _], Cu as [? _]; try done. lia.
  - apply (frame_writes_spec (RY444 (ys ++ us ++ vs) (MkSize (pic_width p) (pic_height p))) 1 p ys us vs);
      rewrite ?Z.div_1_r; try done; try lia.
    apply copy_plane_Some in Cy as [? _], Cu as [? _], Cv as [? _]; try done. apply planes_444; lia.
Qed.

(** ** Interleaved chroma *)

Fixpoint interleave (us vs : bytes) : bytes :=
  match us, vs with a :: us, b :: vs => a :: b :: interleave us vs | _, _ => [] end.

Lemma deinterleave_interleave us vs : length us = length vs → deinterleave (interleave us vs) = (us, vs).
Proof.
  revert vs. induction us as [|a us IH]; intros [|b vs] Hl; try done. cbn [interleave deinterleave].
  rewrite IH; [done|]. by injection Hl.
Qed.

Lemma length_interleave us vs : length us = length vs → length (interleave us vs) = (2 * length us)%nat.
Proof. revert vs. induction us as [|a us IH]; intros [|b vs] [=]; [done|]. cbn [interleave length]. rewrite IH; lia. Qed.

(** An NV12 frame, chroma samples in pairs, is shown as the three planes it
    interleaves. *)
Theorem nv12_planes (ys us vs : bytes) (d : Size) : length ys = (4 * length us)%nat → length us = length vs →
  let r := renderable_from (MkYuv NV12 (ys ++ interleave us vs) d) in
  y r = ys ∧ u r = us ∧ v r = vs ∧ rdimensions r = d ∧ downsampling_factor r = 2.
Proof.
  intros Hy Huv. unfold renderable_from. cbn [format data dimensions]. cbv zeta.
  rewrite length_app, length_interleave, Hy by done.
  replace ((4 * length us + 2 * length us) / 6)%nat with (length us) by (apply Nat.div_unique_exact; lia).
  rewrite drop_app_length', take_app_length' by lia. rewrite deinterleave_interleave by done.
  destruct (planes_420 ys us vs d) as (? & ? & ?); done.
Qed.

(** ** Concrete frames *)

Definition gray (w h s : Z) (l : PixelLayout) : Picture :=
  MkPicture 8 w h l (fun c => replicate (Z.to_nat (s * h)) (match c with Y => "y"%char | U => "u"%char | V => "v"%char end))
    (fun c => s).

Lemma pixels_reach_texture_witness :
  let p := gray 4 2 6 LI420 in
  in_u32 (pic_width p) ∧ in_u32 (pic_height p) ∧ pic_width p * pic_height p ≤ U32_MAX ∧ (∀ c, in_u32 (stride p c)) ∧
  0 < pic_width p ∧ 0 < pic_height p ∧ (pixel_layout p = LI420 → pic_width p mod 2 = 0 ∧ pic_height p mod 2 = 0) ∧
  ∃ f, picture_to_yuv p = Some f ∧ ∃ wy wu wv, frame_writes (renderable_from f) = [wy; wu; wv] ∧
  write_valid wy = true ∧ write_valid wu = true ∧ write_valid wv = true ∧
  texel wu 1 0 = plane p U !! 1%nat.
Proof.
  cbv zeta. unfold in_u32, U32_MAX.
  split; [cbn; lia|]. split; [cbn; lia|]. split; [cbn; lia|]. split; [intros []; cbn; lia|].
  split; [reflexivity|]. split; [reflexivity|]. split; [intros _; split; reflexivity|].
  exists (MkYuv I420 (replicate 8 "y"%char ++ replicate 2 "u"%char ++ replicate 2 "v"%char) (MkSize 4 2)).
  split; [reflexivity|].
  destruct (pixels_reach_texture (gray 4 2 6 LI420)
              (MkYuv I420 (replicate 8 "y"%char ++ replicate 2 "u"%char ++ replicate 2 "v"%char) (MkSize 4 2)))
    as (wy & wu & wv & E & _ & _ & _ & Vy & Vu & Vv & _ & Hu & _);
    [unfold in_u32, U32_MAX; cbn; lia|unfold in_u32, U32_MAX; cbn; lia|unfold U32_MAX; cbn; lia
    |intros []; unfold in_u32, U32_MAX; cbn; lia|reflexivity|reflexivity|intros _; split; reflexivity|reflexivity|].
  exists wy, wu, wv. split; [exact E|]. do 3 (split; [assumption|]). apply (Hu 1 0); split; vm_compute; (discriminate || reflexivity).
Defined.

(** A 4:2:0 picture of an odd size has chroma planes of rounded-up sizes, which
    the [len / 6] of the accessors does not expect: the rows are cut in the
    wrong place and the write is refused. *)
Example odd_picture_refused :
  match picture_to_yuv (gray 3 3 3 LI420) with
  | Some f => (length (data f), length (y (renderable_from f)), write_valid <$> frame_writes (renderable_from f))
  | None => (0%nat, 0%nat, [])
  end = (17%nat, 8%nat, [false; true; true]).
Proof. reflexivity. Qed.

(** After a frame of another size, a redraw without a new frame goes back to the
    sizes of the first frame. *)
Example redraw_uses_first_size :
  let f w h := MkYuv I420 (replicate (Z.to_nat (w * h)) "y"%char) (MkSize w h) in
  let p := (draw (update_frame (draw (program_new (f 4 4))).1 (f 8 8))).1 in
  (prepare (draw p).2).2 = Some (MkSize 4 4, 2).
Proof. reflexivity. Qed.
