(* ===== verification/Pipeline.v ===== *)
(** * The player's drawing: [mitb-av/src/program/pipeline.rs], [uniforms.rs],
    [instance.rs], [shader.wgsl], and the primitive of [program.rs]

    The state the pipeline keeps on the graphics device, what each frame and
    redraw does to it, what a draw call shows, and the shader's geometry and
    colours.  [wgpu] is given by its documented rules: a write outside its
    texture or with too few bytes is a validation error, which is fatal. *)

From Stdlib Require Import QArith Qround Lqa.
From S2P Require Import Rust Float AvFrames.

(** ** Numbers

    The arithmetic of sizes and of the shader: [f32] in the program, and the
    rationals where exact geometry is meant. *)
Class Num (N : Type) : Type := {
  num : Z → N;
  add : N → N → N;
  sub : N → N → N;
  mul : N → N → N;
  div : N → N → N;
}.

#[export] Instance num_f32 : Num f32 := {|
  num := f32_of_Z; add := f32_add; sub := SFsub 24 128; mul := f32_mul; div := f32_div |}.
#[export] Instance num_Q : Num Q := {|
  num := inject_Z; add := Qplus; sub := Qminus; mul := Qmult; div := Qdiv |}.

Declare Scope num_scope.
Delimit Scope num_scope with num.
Infix "+" := add : num_scope.
Infix "-" := sub : num_scope.
Infix "*" := mul : num_scope.
Infix "/" := div : num_scope.

Section Geometry.
Context {N : Type} `{Num N}.
Local Open Scope num_scope.

Record Vec2 := MkVec2 { vx : N; vy : N }.

(** A [Size<f32>] or [iced::Size], and [iced::Rectangle]. *)
Record Extent := MkExtent { ext_width : N; ext_height : N }.
Record Rectangle := MkRect { rect_x : N; rect_y : N; rect_width : N; rect_height : N }.

Definition rect_size (r : Rectangle) : Extent := MkExtent (rect_width r) (rect_height r).

(** [Size]'s conversions and its product and quotient by a number. *)
Definition extent_of_pair (value : N * N) : Extent := MkExtent value.1 value.2.
Definition size_of_pair (value : Z * Z) : Size := MkSize value.1 value.2.
Definition extent_of_size (s : Size) : Extent := extent_of_pair (num (width s), num (height s)).
Definition extent_mul (s : Extent) (rhs : N) : Extent := MkExtent (ext_width s * rhs) (ext_height s * rhs).
Definition extent_div (s : Extent) (rhs : N) : Extent := MkExtent (ext_width s / rhs) (ext_height s / rhs).

Record Uniforms := MkUniforms { uniform_sampling_factor : Vec2; uniform_size : Vec2; uniform_scale : Vec2 }.

(** [Uniforms::new]. *)
Definition uniforms_new (size image_dimensions : Extent) (sampling_factor : N) (target_size : Extent) : Uniforms :=
  let scale := MkVec2 (ext_width target_size / ext_width image_dimensions / num 2 * ext_width image_dimensions)
                 (ext_height target_size / ext_height image_dimensions / num 2 * ext_height image_dimensions) in
  MkUniforms (MkVec2 sampling_factor sampling_factor) (MkVec2 (ext_width size) (ext_height size)) scale.

(** [Instance::frame]: the position of the one instance. *)
Definition instance_frame (bounds : Rectangle) (target_size : Extent) : Vec2 :=
  MkVec2 (num (-1) + (rect_x bounds / ext_width target_size) * num 2)
    (num (-1) + ((ext_height target_size - (rect_height bounds + rect_y bounds)) / ext_height target_size) * num 2).

(** *** The shader *)

(** [vertex_position]: the corners of two triangles, by the index's place in
    [1..6] and [2..7] modulo six. *)
Definition vertex_position (index : Z) : Vec2 :=
  let bit b := if bool_decide ((b + index) mod 6 < 3)%Z then num 1 else num 0 in MkVec2 (bit 1%Z) (bit 2%Z).

(** [vs_main]: clip position and texture coordinates of a point of the quad. *)
Definition vs_position (u : Uniforms) (pos v : Vec2) : Vec2 :=
  MkVec2 (vx (uniform_size u) * vx v + vx pos) (vy (uniform_size u) * vy v + vy pos).
Definition vs_uv (u : Uniforms) (v : Vec2) : Vec2 :=
  MkVec2 (vx v * vx (uniform_scale u)) (num 1 - vy v * vy (uniform_scale u)).

(** [fs_main]: the colour of a fragment, from the samples of the layers. *)
Definition clamp_unit (leb : N → N → bool) (x : N) : N :=
  if leb x (num 0) then num 0 else if leb (num 1) x then num 1 else x.

Definition fs_main (leb : N → N → bool) (u : Uniforms) (sample : Vec2 → Z → N) (uv : Vec2) : N * N * N * N :=
  let chroma := MkVec2 (vx uv / vx (uniform_sampling_factor u)) (vy uv / vy (uniform_sampling_factor u)) in
  let lit n := num n / num 1000000 in
  let c := sample uv 0%Z - lit 62745%Z in
  let d := sample chroma 1%Z - num 1 / num 2 in
  let e := sample chroma 2%Z - num 1 / num 2 in
  (clamp_unit leb (c + lit 1596027%Z * e),
   clamp_unit leb (c - lit 391762%Z * d - lit 812968%Z * e),
   clamp_unit leb (c + lit 2017232%Z * d),
   num 1 / num 2).

End Geometry.
Arguments Vec2 N : clear implicits.
Arguments Extent N : clear implicits.
Arguments Rectangle N : clear implicits.
Arguments Uniforms N : clear implicits.

(** ** The device's state *)

(** A texture: its size, and the texels of its layers that have been written. *)
Record TextureState := MkTexture {
  texture_dimensions : Size;
  texels : Z → Z → Z → option byte;
}.

Record Pipeline := MkPipeline {
  uniforms_buffer : option (Uniforms f32);
  vertex_buffer : Vec2 f32;
  scale_factor : f32;
  texture : option TextureState;
}.

Definition pipeline_new : Pipeline :=
  MkPipeline None (instance_frame (MkRect (num 0) (num 0) (num 1) (num 1)) (MkExtent (num 1) (num 1))) (num 1) None.

Definition set_texture (p : Pipeline) (t : TextureState) : Pipeline :=
  MkPipeline (uniforms_buffer p) (vertex_buffer p) (scale_factor p) (Some t).

Definition size_eqb (a b : Size) : bool := (width a =? width b) && (height a =? height b).

(** A new texture is empty: the device clears it. *)
Definition recreate_texture_if_needed (p : Pipeline) (d : Size) : Pipeline :=
  match texture p with
  | Some t => if size_eqb (texture_dimensions t) d then p else set_texture p (MkTexture d (fun _ _ _ => None))
  | None => set_texture p (MkTexture d (fun _ _ _ => None))
  end.

Definition prepare_texture (p : Pipeline) (d : Size) : Pipeline := recreate_texture_if_needed p d.

Definition update_uniforms (p : Pipeline) (u : Uniforms f32) : Pipeline :=
  MkPipeline (Some u) (vertex_buffer p) (scale_factor p) (texture p).

(** [Queue::write_texture] into a layer. *)
Definition write_texture (t : TextureState) (w : TextureWrite) : option TextureState :=
  if write_valid w && (write_width w <=? width (texture_dimensions t)) &&
     (write_height w <=? height (texture_dimensions t)) && (0 <=? layer w) && (layer w <? 3)
  then Some (MkTexture (texture_dimensions t) (fun l i j =>
         if (l =? layer w) && (0 <=? i) && (i <? write_width w) && (0 <=? j) && (j <? write_height w)
         then texel w i j else texels t l i j))
  else None.

(** [update_frame]; [None]: a validation error. *)
Definition update_texture (p : Pipeline) (yuv : Renderable) : option Pipeline :=
  match texture p with
  | None => Some p
  | Some t => t ← run_steps write_texture t (frame_writes yuv); Some (set_texture p t)
  end.

Definition update_vertices (p : Pipeline) (bounds : Rectangle f32) (target_size : Extent f32) (scale_factor : f32)
    : Pipeline :=
  MkPipeline (uniforms_buffer p) (instance_frame bounds target_size) scale_factor (texture p).

(** A draw call: the scissor rectangle, and what the shader is given. *)
Record DrawCall := MkDraw {
  scissor : Z * Z * Z * Z;
  drawn_instance : Vec2 f32;
  drawn_uniforms : option (Uniforms f32);
  drawn_texture : TextureState;
}.

Definition pipeline_draw (p : Pipeline) (bounds : Rectangle f32) : option DrawCall :=
  t ← texture p;
  let px z := f_to_uint U32_MAX (f32_mul z (scale_factor p)) in
  Some (MkDraw (px (rect_x bounds), px (rect_y bounds), px (rect_width bounds), px (rect_height bounds))
          (vertex_buffer p) (uniforms_buffer p) t).

(** *** The primitive *)

(** [shader::Viewport]: what the program asks of it. *)
Record Viewport := MkViewport { logical_size : Extent f32; viewport_scale_factor : f32 }.

(** [Primitive::prepare] on the pipeline: the state left, and the pipeline. *)
Definition prepare_primitive (s : DrawState) (bounds : Rectangle f32) (viewport : Viewport) (p : Pipeline)
    : option (DrawState * Pipeline) :=
  let size := rect_size bounds in
  let target_size := logical_size viewport in
  match s with
  | Pending yuv =>
    if negb (ensure_texture (rdimensions yuv)) then Some (s, p)
    else
      let p := prepare_texture p (rdimensions yuv) in
      let p := update_uniforms p (uniforms_new size (extent_of_size (rdimensions yuv)) (num (downsampling_factor yuv))
                                    target_size) in
      p ← update_texture p yuv;
      let p := update_vertices p bounds target_size (viewport_scale_factor viewport) in
      Some (Prepared (image_dimensions s) (sampling_factor s), p)
  | Prepared d f =>
    let p := update_uniforms p (uniforms_new size (extent_of_size d) (num f) target_size) in
    let p := update_vertices p bounds target_size (viewport_scale_factor viewport) in
    Some (s, p)
  end.

(** ** The player's overlay: frames and redraws *)

Record player := MkPlayer { program : Program; pipeline : Pipeline; drawn : option DrawCall }.

Inductive player_op : Type :=
| NewFrame (f : Yuv)
| Redraw (bounds : Rectangle f32) (viewport : Viewport).

(** A redraw asks the program for a primitive, prepares it and draws it. *)
Definition player_step (s : player) (o : player_op) : option player :=
  match o with
  | NewFrame f => Some (MkPlayer (update_frame (program s) f) (pipeline s) (drawn s))
  | Redraw bounds viewport =>
    let '(program, state) := draw (program s) in
    '(_, p) ← prepare_primitive state bounds viewport (pipeline s);
    Some (MkPlayer program p (pipeline_draw p bounds))
  end.

Definition player_new (f : Yuv) : player := MkPlayer (program_new f) pipeline_new None.

(** ** What a draw call shows *)

(** A frame whose planes have the sizes of its format; a 4:2:0 one is even. *)
Definition good (r : Renderable) : Prop :=
  let w := width (rdimensions r) in
  let h := height (rdimensions r) in
  0 < w ∧ 0 < h ∧ w * h ≤ U32_MAX ∧
  match r with
  | RY444 data _ => Z.of_nat (length data) = 3 * (w * h)
  | RI420 data _ => w mod 2 = 0 ∧ h mod 2 = 0 ∧ Z.of_nat (length data) = 6 * (w / 2 * (h / 2))
  end.

(** The plane of a layer and its width and height. *)
Definition plane_of (r : Renderable) (l : Z) : bytes := if l =? 0 then y r else if l =? 1 then u r else v r.
Definition layer_width (r : Renderable) (l : Z) : Z :=
  if l =? 0 then width (rdimensions r) else width (rdimensions r) / downsampling_factor r.
Definition layer_height (r : Renderable) (l : Z) : Z :=
  if l =? 0 then height (rdimensions r) else height (rdimensions r) / downsampling_factor r.

(** The texture holds the frame: in each layer, each sample at its place. *)
Definition shows (t : TextureState) (r : Renderable) : Prop :=
  texture_dimensions t = rdimensions r ∧
  ∀ l i j, 0 ≤ l < 3 → 0 ≤ i < layer_width r l → 0 ≤ j < layer_height r l →
    texels t l i j = plane_of r l !! Z.to_nat (j * layer_width r l + i) ∧ is_Some (texels t l i j).

Lemma good_planes r l : good r → 0 ≤ l < 3 →
  Z.of_nat (length (plane_of r l)) = layer_width r l * layer_height r l ∧
  0 < layer_width r l ≤ width (rdimensions r) ∧ 0 < layer_height r l ≤ height (rdimensions r).
Proof.
  unfold good, plane_of, layer_width, layer_height. intros (Hw & Hh & Hwh & Hr) Hl.
  destruct r as [data [w h]|data [w h]]; cbn [rdimensions width height downsampling_factor] in *.
  - rewrite !Z.div_1_r.
    assert (length data = 3 * Z.to_nat (w * h))%nat as Hd by lia.
    assert (length data / 3 = Z.to_nat (w * h))%nat as Hq by (symmetry; apply Nat.div_unique_exact; lia).
    assert (Z.of_nat (length (y (RY444 data (MkSize w h)))) = w * h ∧ Z.of_nat (length (u (RY444 data (MkSize w h)))) = w * h
      ∧ Z.of_nat (length (v (RY444 data (MkSize w h)))) = w * h) as (Hy & Hu & Hv).
    { unfold y, u, v. rewrite Hq. split_and!; rewrite ?length_slice, ?length_take, ?length_drop by lia; lia. }
    destruct (l =? 0), (l =? 1); nia.
  - destruct Hr as (Ew & Eh & Hd).
    assert (∃ w2 h2, w = 2 * w2 ∧ h = 2 * h2 ∧ w / 2 = w2 ∧ h / 2 = h2) as (w2 & h2 & -> & -> & E1 & E2).
    { exists (w / 2), (h / 2). Z.to_euclidean_division_equations. lia. }
    rewrite E1, E2 in *. clear E1 E2.
    assert (length data / 6 = Z.to_nat (w2 * h2))%nat as Hq by (symmetry; apply Nat.div_unique_exact; lia).
    assert (Z.of_nat (length (y (RI420 data (MkSize (2 * w2) (2 * h2))))) = (2 * w2) * (2 * h2) ∧
      Z.of_nat (length (u (RI420 data (MkSize (2 * w2) (2 * h2))))) = w2 * h2 ∧
      Z.of_nat (length (v (RI420 data (MkSize (2 * w2) (2 * h2))))) = w2 * h2) as (Hy & Hu & Hv).
    { unfold y, u, v. rewrite Hq. split_and!; rewrite ?length_slice, ?length_take, ?length_drop by lia; nia. }
    destruct (l =? 0), (l =? 1); nia.
Qed.

(** The writes of a good frame are one for each layer, of the whole plane. *)
Definition layer_write (r : Renderable) (l : Z) : TextureWrite :=
  Write l (plane_of r l) (layer_width r l) (layer_width r l) (layer_height r l).

Lemma good_writes r : good r → frame_writes r = layer_write r <$> [0; 1; 2].
Proof.
  intros Hg. destruct (good_planes r 0 Hg ltac:(lia)) as (Hy & Hw & Hh). unfold good in Hg.
  assert (wrap_u32 (Z.of_nat (length (y r))) / height (rdimensions r) = width (rdimensions r)) as Hrow.
  { change (plane_of r 0) with (y r) in Hy. change (layer_width r 0) with (width (rdimensions r)) in Hy.
    change (layer_height r 0) with (height (rdimensions r)) in Hy. rewrite Hy. unfold wrap_u32.
    rewrite Z.mod_small by (unfold U32_MAX in *; lia). apply Z.div_mul. lia. }
  unfold frame_writes. cbv zeta. rewrite Hrow. reflexivity.
Qed.

Lemma layer_write_texel r l i j : texel (layer_write r l) i j = plane_of r l !! Z.to_nat (j * layer_width r l + i).
Proof. done. Qed.

Lemma layer_write_valid r l : good r → 0 ≤ l < 3 → write_valid (layer_write r l) = true.
Proof.
  intros Hg Hl. destruct (good_planes r l Hg Hl) as (Hlen & Hw & Hh). unfold write_valid, layer_write. cbn.
  rewrite Hlen. apply andb_true_iff. split; apply Z.leb_le; nia.
Qed.

Lemma write_layer t r l : good r → 0 ≤ l < 3 → texture_dimensions t = rdimensions r →
  ∃ t', write_texture t (layer_write r l) = Some t' ∧ texture_dimensions t' = rdimensions r ∧
  ∀ k i j, texels t' k i j =
    if (k =? l) && (0 <=? i) && (i <? layer_width r l) && (0 <=? j) && (j <? layer_height r l)
    then plane_of r l !! Z.to_nat (j * layer_width r l + i) else texels t k i j.
Proof.
  intros Hg Hl Hd. destruct (good_planes r l Hg Hl) as (_ & Hw & Hh). unfold write_texture.
  rewrite layer_write_valid by done. cbn [layer_write layer write_width write_height].
  rewrite Hd, (proj2 (Z.leb_le _ _)), (proj2 (Z.leb_le _ _)), (proj2 (Z.leb_le _ _)), (proj2 (Z.ltb_lt _ _)) by lia.
  cbn [andb]. eexists. split; [done|]. split; [done|]. intros k i j. cbn. done.
Qed.

Lemma texture_updated t r : good r → texture_dimensions t = rdimensions r →
  ∃ t', run_steps write_texture t (frame_writes r) = Some t' ∧ shows t' r.
Proof.
  intros Hg Hd. rewrite good_writes by done. cbn [fmap list_fmap run_steps].
  destruct (write_layer t r 0 Hg ltac:(lia) Hd) as (t0 & -> & Hd0 & H0).
  destruct (write_layer t0 r 1 Hg ltac:(lia) Hd0) as (t1 & -> & Hd1 & H1).
  destruct (write_layer t1 r 2 Hg ltac:(lia) Hd1) as (t2 & -> & Hd2 & H2).
  exists t2. split; [done|]. split; [done|]. intros l i j Hl Hi Hj.
  destruct (good_planes r l Hg Hl) as (Hlen & Hw & Hh).
  assert (is_Some (plane_of r l !! Z.to_nat (j * layer_width r l + i))) as Hs.
  { apply lookup_lt_is_Some. nia. }
  assert (texels t2 l i j = plane_of r l !! Z.to_nat (j * layer_width r l + i)) as ->; [|done].
  assert ((0 <=? i) = true ∧ (i <? layer_width r l) = true ∧ (0 <=? j) = true ∧ (j <? layer_height r l) = true)
    as (Ei & Ei' & Ej & Ej') by (split_and!; first [apply Z.leb_le|apply Z.ltb_lt]; lia).
  assert (l = 0 ∨ l = 1 ∨ l = 2) as [->|[->| ->]] by lia; rewrite H2, ?H1, ?H0; cbn [Z.eqb Pos.eqb andb];
    by rewrite ?Ei, ?Ei', ?Ej, ?Ej'.
Qed.

(** *** The frame of the last redraw *)

(** The frame the next redraw finds newest, and the last redraw: the frame it
    found, its bounds and viewport. *)
Record watched := MkWatched { newest : Yuv; last_redraw : option (Yuv * Rectangle f32 * Viewport) }.

Definition watch (k : watched) (o : player_op) : watched :=
  match o with
  | NewFrame f => MkWatched f (last_redraw k)
  | Redraw bounds viewport => MkWatched (newest k) (Some (newest k, bounds, viewport))
  end.

(** All frames have the sizes and format of the first, as a media file's do. *)
Definition like (f g : Yuv) : Prop :=
  rdimensions (renderable_from g) = rdimensions (renderable_from f) ∧
  downsampling_factor (renderable_from g) = downsampling_factor (renderable_from f).

Definition frame_ok (o : player_op) : Prop :=
  match o with NewFrame f => good (renderable_from f) | Redraw _ _ => True end.

Definition frame_like (f : Yuv) (o : player_op) : Prop :=
  match o with NewFrame g => like f g | Redraw _ _ => True end.

Definition uniforms_for (f : Yuv) (bounds : Rectangle f32) (viewport : Viewport) : Uniforms f32 :=
  let r := renderable_from f in
  uniforms_new (rect_size bounds) (extent_of_size (rdimensions r)) (num (downsampling_factor r)) (logical_size viewport).

(** The draw call of a redraw that found frame [g], in a file that began with
    [f]. *)
Definition call_shows (f g : Yuv) (bounds : Rectangle f32) (viewport : Viewport) (c : DrawCall) : Prop :=
  shows (drawn_texture c) (renderable_from g) ∧
  drawn_instance c = instance_frame bounds (logical_size viewport) ∧
  (like f g → drawn_uniforms c = Some (uniforms_for g bounds viewport)).

Record player_ok (f : Yuv) (s : player) (k : watched) : Prop := {
  ok_first : prog_dimensions (program s) = rdimensions (renderable_from f) ∧
    prog_factor (program s) = downsampling_factor (renderable_from f);
  ok_newest : good (renderable_from (newest k));
  ok_pending : ∀ r, prog_data (program s) = Some r → r = renderable_from (newest k);
  ok_texture : prog_data (program s) = None →
    ∃ t, texture (pipeline s) = Some t ∧ shows t (renderable_from (newest k));
  ok_drawn : match last_redraw k with
    | Some (g, bounds, viewport) => ∃ c, drawn s = Some c ∧ call_shows f g bounds viewport c
    | None => drawn s = None
    end;
}.

Lemma size_eqb_eq a b : size_eqb a b = true → a = b.
Proof. destruct a, b. unfold size_eqb. cbn. intros [->%Z.eqb_eq ->%Z.eqb_eq]%andb_true_iff. done. Qed.

(** Preparing a good frame leaves it in the texture. *)
Lemma prepare_pending r bounds viewport p : good r →
  ∃ p' t, prepare_primitive (Pending r) bounds viewport p = Some (Prepared (rdimensions r) (downsampling_factor r), p') ∧
  texture p' = Some t ∧ shows t r ∧ vertex_buffer p' = instance_frame bounds (logical_size viewport) ∧
  uniforms_buffer p' = Some (uniforms_new (rect_size bounds) (extent_of_size (rdimensions r))
                               (num (downsampling_factor r)) (logical_size viewport)).
Proof.
  intros Hg. cbn [prepare_primitive]. assert (ensure_texture (rdimensions r) = true) as ->.
  { unfold good in Hg. unfold ensure_texture. destruct (width (rdimensions r) =? 0) eqn:E1; zb; [lia|].
    destruct (height (rdimensions r) =? 0) eqn:E2; zb; [lia|]. done. }
  cbn [negb]. cbv zeta. unfold prepare_texture.
  assert (∃ t, texture (recreate_texture_if_needed p (rdimensions r)) = Some t ∧ texture_dimensions t = rdimensions r)
    as (t & Et & Hd).
  { unfold recreate_texture_if_needed. destruct (texture p) as [t|] eqn:Et; [|by eexists].
    destruct (size_eqb _ _) eqn:Es; [exists t; split; [done|by apply size_eqb_eq]|by eexists]. }
  unfold update_texture, update_uniforms. cbn [texture]. rewrite Et.
  destruct (texture_updated t r Hg Hd) as (t' & -> & Hs). cbn [mbind option_bind].
  eexists _, t'. split; [reflexivity|]. done.
Qed.

Lemma redraw_ok f s k bounds viewport : player_ok f s k →
  ∃ s', player_step s (Redraw bounds viewport) = Some s' ∧ player_ok f s' (watch k (Redraw bounds viewport)).
Proof.
  intros [[Hfd Hff] Hn Hp Ht Hd]. cbn [player_step]. unfold draw. destruct (prog_data (program s)) as [r|] eqn:Er.
  - rewrite (Hp r eq_refl) in *. clear r Er Hp.
    destruct (prepare_pending (renderable_from (newest k)) bounds viewport (pipeline s) Hn)
      as (p' & t & -> & Et & Hs & Hv & Hu). cbn [mbind option_bind].
    eexists. split; [reflexivity|]. split; cbn; try done; [by exists t|].
    unfold pipeline_draw. rewrite Et. cbn. eexists. split; [done|]. split; [done|]. by split.
  - destruct (Ht eq_refl) as (t & Et & Hs). cbn [prepare_primitive mbind option_bind].
    eexists. split; [reflexivity|]. split; cbn; try done; [by rewrite Er|by exists t|].
    unfold pipeline_draw. cbn [update_vertices update_uniforms texture]. rewrite Et. cbn. eexists. split; [done|].
    split; [done|]. split; [done|]. cbn. intros [Hld Hlf]. unfold uniforms_for. rewrite Hfd, Hff, <- Hld, <- Hlf. done.
Qed.

(** C14. Whatever the redraws, for frames whose planes have the sizes that their
    dimensions and format call for (a decoder's 8-bit pictures have them when
    they are 4:4:4, or 4:2:0 of even width and height:
    [decoded_frames_are_good]; a 4:2:0 picture of odd size is refused:
    [odd_picture_refused] in [AvFrames.v]): no write is refused by the device,
    and a redraw shows the newest frame, every sample of it at its place, also
    when it was prepared by an earlier redraw or the size has changed; and the
    uniforms are that frame's as long as it is like the first. *)
Theorem player_shows_newest_frame (f : Yuv) (ops : list player_op) :
  good (renderable_from f) → Forall frame_ok ops →
  ∃ s, run_steps player_step (player_new f) ops = Some s ∧
  match last_redraw (foldl watch (MkWatched f None) ops) with
  | Some (g, bounds, viewport) => ∃ c, drawn s = Some c ∧ call_shows f g bounds viewport c
  | None => drawn s = None
  end.
Proof.
  intros Hf Hops. assert (player_ok f (player_new f) (MkWatched f None)) as Hok.
  { split; cbn; try done. by intros r [= <-]. }
  revert Hok. generalize (player_new f), (MkWatched f None). induction Hops as [|o ops Ho _ IH]; intros s k Hok; cbn [run_steps foldl].
  { exists s. split; [done|]. apply Hok. }
  destruct o as [g|bounds viewport].
  - apply IH. destruct Hok as [? ? ? ? ?]. split; cbn; try done. by intros r [= <-].
  - destruct (redraw_ok f s k bounds viewport Hok) as (s' & -> & Hok'). by apply IH.
Qed.

(** The frames of a decoder are good: 8-bit pictures that are 4:4:4, or 4:2:0 of
    even sizes. *)
Theorem decoded_frames_are_good (p : Picture) (f : Yuv) :
  in_u32 (pic_width p) → in_u32 (pic_height p) → pic_width p * pic_height p ≤ U32_MAX → (∀ c, in_u32 (stride p c)) →
  0 < pic_width p → 0 < pic_height p →
  (pixel_layout p = LI420 → pic_width p mod 2 = 0 ∧ pic_height p mod 2 = 0) →
  picture_to_yuv p = Some f → good (renderable_from f).
Proof.
  intros Hw Hh Hwh Hs Hw0 Hh0 Heven. unfold picture_to_yuv. destruct (bit_depth p =? 8); [|done]. cbn [negb]. cbv zeta.
  destruct (pixel_layout p); [destruct (Heven eq_refl) as [Ew Eh]| |done].
  all: destruct (copy_plane (plane p Y) _ _ _) as [ys|] eqn:Cy; [|done]; cbn [mbind option_bind].
  all: destruct (copy_plane (plane p U) _ _ _) as [us|] eqn:Cu; [|done]; cbn [mbind option_bind].
  all: destruct (copy_plane (plane p V) _ _ _) as [vs|] eqn:Cv; [|done]; cbn [mbind option_bind].
  all: intros [= <-]; cbn [format renderable_from data dimensions]; unfold good; cbn [rdimensions width height].
  - assert (Hhalf : ∀ z, in_u32 z → z mod 2 = 0 → div_ceil2 z = z / 2 ∧ in_u32 (z / 2) ∧ z = 2 * (z / 2)).
    { unfold div_ceil2, in_u32. intros z Hz Ez. Z.to_euclidean_division_equations. lia. }
    destruct (Hhalf _ Hw Ew) as (Ecw & Hcw & Hw2), (Hhalf _ Hh Eh) as (Ech & Hch & Hh2). rewrite Ecw, Ech in *.
    apply copy_plane_Some in Cy as [Ly _], Cu as [Lu _], Cv as [Lv _]; try done.
    split_and!; try done. rewrite !length_app, !Nat2Z.inj_add, Ly, Lu, Lv. nia.
  - apply copy_plane_Some in Cy as [Ly _], Cu as [Lu _], Cv as [Lv _]; try done.
    split_and!; try done. rewrite !length_app, !Nat2Z.inj_add, Ly, Lu, Lv. lia.
Qed.

(** ** Resources, layouts and the shader's bindings

    What the pipeline declares to the device, with the device's documented
    validation of it: [wgpu] panics on a bind group that does not fit its layout,
    a shader variable the layout does not cover, or a buffer too short. *)

Inductive ShaderStage : Type := VERTEX | FRAGMENT.
Inductive BufferUsage : Type := UNIFORM | VERTEX_DATA | BUFFER_COPY_DST.
Inductive TextureUsage : Type := COPY_DST | COPY_SRC | TEXTURE_BINDING.
Inductive ViewDimension : Type := D2 | D2Array.
Inductive AddressMode : Type := ClampToEdge | Repeat.
Inductive FilterMode : Type := Nearest | Linear.
#[export] Instance ShaderStage_eq_dec : EqDecision ShaderStage. Proof. solve_decision. Defined.
#[export] Instance BufferUsage_eq_dec : EqDecision BufferUsage. Proof. solve_decision. Defined.
#[export] Instance TextureUsage_eq_dec : EqDecision TextureUsage. Proof. solve_decision. Defined.
#[export] Instance ViewDimension_eq_dec : EqDecision ViewDimension. Proof. solve_decision. Defined.

Inductive BindingType : Type :=
| UniformBinding (min_binding_size : Z)
| TextureBinding (view_dimension : ViewDimension) (filterable : bool)
| SamplerBinding (filtering : bool).

Record LayoutEntry := MkLayoutEntry { binding : Z; visibility : list ShaderStage; ty : BindingType }.

Record Buffer := MkBuffer { buffer_size : Z; buffer_usage : list BufferUsage }.
Record TextureDescriptor := MkTextureDescriptor {
  texture_size : Size; layers : Z; filterable_format : bool; texture_usage : list TextureUsage; view : ViewDimension }.
Record Sampler := MkSampler { address_mode : AddressMode; mag_filter : FilterMode; min_filter : FilterMode }.
Inductive BindingResource : Type :=
| BufferResource (b : Buffer)
| TextureViewResource (t : TextureDescriptor)
| SamplerResource (s : Sampler).

(** Three vectors of two floats of four bytes, and one vector. *)
Definition uniforms_bytes : Z := 24.
Definition instance_bytes : Z := 8.

Definition uniforms_buffer_new : Buffer := MkBuffer uniforms_bytes [UNIFORM; BUFFER_COPY_DST].
Definition uniform_bind_group_layout : list LayoutEntry :=
  [MkLayoutEntry 0 [VERTEX; FRAGMENT] (UniformBinding uniforms_bytes)].
Definition uniform_bind_group : list (Z * BindingResource) := [(0, BufferResource uniforms_buffer_new)].
Definition texture_bind_group_layout : list LayoutEntry :=
  [MkLayoutEntry 0 [FRAGMENT] (TextureBinding D2Array true); MkLayoutEntry 1 [FRAGMENT] (SamplerBinding true)].
Definition bind_group_layouts : list (list LayoutEntry) := [uniform_bind_group_layout; texture_bind_group_layout].
Definition vertex_buffer_new : Buffer := MkBuffer instance_bytes [VERTEX_DATA; BUFFER_COPY_DST].

Definition texture_descriptor (d : Size) : TextureDescriptor :=
  MkTextureDescriptor d 3 true [COPY_DST; COPY_SRC; TEXTURE_BINDING] D2Array.
Definition sampler : Sampler := MkSampler ClampToEdge Linear Linear.
Definition texture_bind_group (d : Size) : list (Z * BindingResource) :=
  [(0, TextureViewResource (texture_descriptor d)); (1, SamplerResource sampler)].

(** The shader's variables: group, binding, type, and the stages that read them. *)
Definition shader_variables : list (nat * Z * BindingType * list ShaderStage) :=
  [(0%nat, 0, UniformBinding uniforms_bytes, [VERTEX; FRAGMENT]);
   (1%nat, 0, TextureBinding D2Array true, [FRAGMENT]);
   (1%nat, 1, SamplerBinding true, [FRAGMENT])].

(** [Instance::desc] and [Instance::ATTRIBS]: one vector an instance; and the
    draw: six vertices of one instance. *)
Definition array_stride : Z := instance_bytes.
Definition attribute_bytes : Z := 8.
Definition drawn_instances : Z := 1.

(** *** The device's validation *)

Definition fits (r : BindingResource) (ty : BindingType) : bool :=
  match r, ty with
  | BufferResource b, UniformBinding n => bool_decide (UNIFORM ∈ buffer_usage b) && (n <=? buffer_size b)
  | TextureViewResource t, TextureBinding dim f =>
    bool_decide (TEXTURE_BINDING ∈ texture_usage t) && bool_decide (view t = dim) && implb f (filterable_format t) &&
    (0 <? width (texture_size t)) && (0 <? height (texture_size t))
  | SamplerResource s, SamplerBinding f =>
    f || match mag_filter s, min_filter s with Nearest, Nearest => true | _, _ => false end
  | _, _ => false
  end.

(** A bind group has the entries of its layout, each of its type. *)
Definition group_fits (layout : list LayoutEntry) (group : list (Z * BindingResource)) : bool :=
  (length layout =? length group)%nat &&
  forallb (fun e => match list_find (fun g => g.1 = binding e) group with Some (_, g) => fits g.2 (ty e) | None => false end) layout.

(** A variable is covered: its group's layout has its binding, with a type that
    serves it, visible to the stages that read it. *)
Definition serves (declared needed : BindingType) : bool :=
  match declared, needed with
  | UniformBinding n, UniformBinding m => m <=? n
  | TextureBinding d f, TextureBinding d' f' => bool_decide (d = d') && Bool.eqb f f'
  | SamplerBinding f, SamplerBinding f' => Bool.eqb f f'
  | _, _ => false
  end.

Definition covered (layouts : list (list LayoutEntry)) (x : nat * Z * BindingType * list ShaderStage) : bool :=
  let '(group, b, need, stages) := x in
  match list_find (fun e => binding e = b) (default [] (layouts !! group)) with
  | Some (_, e) => serves (ty e) need && forallb (fun s => bool_decide (s ∈ visibility e)) stages
  | None => false
  end.

Definition writable (b : Buffer) (bytes : Z) : bool :=
  bool_decide (BUFFER_COPY_DST ∈ buffer_usage b) && (bytes <=? buffer_size b).

(** Whatever picture passed [ensure_texture], the device accepts the bind groups,
    the pipeline with its shader, the writes of uniforms and instance, and the
    instance the draw call reads. *)
Theorem device_accepts_resources (d : Size) : 0 ≤ width d → 0 ≤ height d → ensure_texture d = true →
  group_fits uniform_bind_group_layout uniform_bind_group = true ∧
  group_fits texture_bind_group_layout (texture_bind_group d) = true ∧
  forallb (covered bind_group_layouts) shader_variables = true ∧
  writable uniforms_buffer_new uniforms_bytes = true ∧ writable vertex_buffer_new instance_bytes = true ∧
  attribute_bytes ≤ array_stride ∧ drawn_instances * array_stride ≤ buffer_size vertex_buffer_new.
Proof.
  intros Hw Hh He. assert (0 < width d ∧ 0 < height d) as [W H].
  { revert He. unfold ensure_texture. destruct (Z.eqb_spec (width d) 0), (Z.eqb_spec (height d) 0); cbn; (done || lia). }
  assert (fits (TextureViewResource (texture_descriptor d)) (TextureBinding D2Array true) = true) as Hf.
  { unfold fits. cbn [texture_size texture_descriptor]. by rewrite (proj2 (Z.ltb_lt _ _) W), (proj2 (Z.ltb_lt _ _) H). }
  split_and!; try reflexivity; try done. transitivity (fits (TextureViewResource (texture_descriptor d)) (TextureBinding D2Array true) && true); [reflexivity|]. by rewrite Hf.
Qed.

(** ** The geometry, in exact arithmetic *)

Section Exact.
Local Open Scope Q_scope.

(** Clip coordinates of a point in the viewport, whose vertical axis points down. *)
Definition clip (target : Extent Q) (p : Vec2 Q) : Vec2 Q :=
  MkVec2 (2 * vx p / ext_width target - 1) (1 - 2 * vy p / ext_height target).

(** The picture is stretched over the bounds of the widget: the point of the
    quad that lands at a fraction [(a, b)] of the bounds has texture coordinates
    [(a, b)], and is a point of the quad, whatever the size of the image and of
    the window. *)
Theorem picture_fills_bounds (bounds : Rectangle Q) (image target : Extent Q) (factor : Q) (a b : Q) (v : Vec2 Q) :
  ¬ rect_width bounds == 0 → ¬ rect_height bounds == 0 → ¬ ext_width image == 0 → ¬ ext_height image == 0 →
  2 <= ext_width target → 2 <= ext_height target →
  let un := uniforms_new (rect_size bounds) image factor target in
  let at_ := clip target (MkVec2 (rect_x bounds + a * rect_width bounds) (rect_y bounds + b * rect_height bounds)) in
  vx (vs_position un (instance_frame bounds target) v) == vx at_ →
  vy (vs_position un (instance_frame bounds target) v) == vy at_ →
  vx (vs_uv un v) == a ∧ vy (vs_uv un v) == b ∧
  (0 <= a <= 1 → 0 <= vx v <= 1) ∧ (0 <= b <= 1 → 0 <= vy v <= 1).
Proof.
  destruct bounds as [bx by_ bw bh], image as [iw ih], target as [tw th], v as [p q]. cbn.
  intros Hbw Hbh Hiw Hih Htw Hth Hx Hy.
  assert (¬ tw == 0) as Htw0 by (intros E; rewrite E in Htw; done).
  assert (¬ th == 0) as Hth0 by (intros E; rewrite E in Hth; done).
  assert (p == 2 * a / tw) as Hp.
  { assert (bw * p == bw * (2 * a / tw)) as E; [|by apply Qmult_inj_l in E].
    transitivity (2 * (bx + a * bw) / tw - 1 - (inject_Z (-1) + bx / tw * inject_Z 2)); [rewrite <- Hx; ring|].
    unfold inject_Z. change (- (1))%Z with (-1)%Z. field. done. }
  assert (q == 2 * (1 - b) / th) as Hq.
  { assert (bh * q == bh * (2 * (1 - b) / th)) as E; [|by apply Qmult_inj_l in E].
    transitivity (1 - 2 * (by_ + b * bh) / th - (inject_Z (-1) + (th - (bh + by_)) / th * inject_Z 2)); [rewrite <- Hy; ring|].
    unfold inject_Z. change (- (1))%Z with (-1)%Z. field. done. }
  assert (∀ w c, 2 <= w → 0 <= c <= 1 → 0 <= 2 * c / w <= 1) as Hin.
  { intros w c Hw [Hc0 Hc1]. assert (0 < w) as Hw0 by (eapply Qlt_le_trans; [|exact Hw]; done). split.
    - apply Qle_shift_div_l; [done|]. lra.
    - apply Qle_shift_div_r; [done|]. lra. }
  split_and!.
  - rewrite Hp. unfold inject_Z. field. by split.
  - rewrite Hq. unfold inject_Z. field. by split.
  - intros Ha. rewrite Hp. by apply Hin.
  - intros Hb. rewrite Hq. apply Hin; [done|]. lra.
Qed.

End Exact.

(** *** Sampling

    The sampler is linear and clamps to the edge.  The texel left of a coordinate
    of a texture of some width, and the weight of its right neighbour; then the
    four texels around a point, mixed.  A texel never written is zero. *)
Definition footprint (size : Z) (t : Q) : Z * Q :=
  let x := (t * inject_Z size - (1 # 2))%Q in (Qfloor x, x - inject_Z (Qfloor x))%Q.

(** A sample of an [R8Unorm] texture. *)
Definition unorm (b : byte) : Q := (inject_Z (Z.of_nat (nat_of_ascii b)) / 255)%Q.

Definition texel_value (t : TextureState) (l i j : Z) : Q :=
  let inside z n := Z.max 0 (Z.min (n - 1) z) in
  match texels t l (inside i (width (texture_dimensions t))) (inside j (height (texture_dimensions t))) with
  | Some b => unorm b
  | None => 0%Q
  end.

Definition mix (weight a b : Q) : Q := ((1 - weight) * a + weight * b)%Q.

Definition texture_sample (t : TextureState) (uv : Vec2 Q) (l : Z) : Q :=
  let '(i, a) := footprint (width (texture_dimensions t)) (vx uv) in
  let '(j, b) := footprint (height (texture_dimensions t)) (vy uv) in
  mix b (mix a (texel_value t l i j) (texel_value t l (i + 1) j))
    (mix a (texel_value t l i (j + 1)) (texel_value t l (i + 1) (j + 1))).

(** Blending of a fragment over what is there: colour by the fragment's alpha,
    alpha added to what it leaves. *)
Definition blend (src dst : Q * Q * Q * Q) : Q * Q * Q * Q :=
  let '(r, g, b, a) := src in
  let '(r0, g0, b0, a0) := dst in
  let over x y := (x * a + y * (1 - a))%Q in
  (over r r0, over g g0, over b b0, a * 1 + a0 * (1 - a))%Q.

(** The centre of a pixel of an image. *)
Definition pixel_centre (s : Size) (i j : Z) : Vec2 Q :=
  MkVec2 (inject_Z (2 * i + 1) / inject_Z (2 * width s))%Q (inject_Z (2 * j + 1) / inject_Z (2 * height s))%Q.

Lemma footprint_centre (size i : Z) (t : Q) : 0 < size → (t == inject_Z (2 * i + 1) / inject_Z (2 * size))%Q →
  let '(c, weight) := footprint size t in c = i ∧ (weight == 0)%Q.
Proof.
  intros Hs Ht. unfold footprint. set (x := (_ - (1 # 2))%Q). assert (x == inject_Z i)%Q as Hx.
  { subst x. rewrite Ht, !inject_Z_mult, inject_Z_plus, inject_Z_mult.
    assert (¬ inject_Z size == 0)%Q by (unfold Qeq; cbn; lia).
    change (inject_Z 2) with 2%Q. change (inject_Z 1) with 1%Q. field. done. }
  assert (Qfloor x = i) as -> by (rewrite Hx; apply Qfloor_Z). split; [done|]. rewrite Hx. ring.
Qed.

Lemma sample_centre (t : TextureState) (l i j : Z) (uv : Vec2 Q) :
  0 < width (texture_dimensions t) → 0 < height (texture_dimensions t) →
  (vx uv == vx (pixel_centre (texture_dimensions t) i j))%Q → (vy uv == vy (pixel_centre (texture_dimensions t) i j))%Q →
  (texture_sample t uv l == texel_value t l i j)%Q.
Proof.
  intros Hw Hh Hx Hy. unfold texture_sample.
  pose proof (footprint_centre _ i _ Hw Hx) as Hi. destruct (footprint _ (vx uv)) as [ci a]. destruct Hi as [-> Ha].
  pose proof (footprint_centre _ j _ Hh Hy) as Hj. destruct (footprint _ (vy uv)) as [cj b]. destruct Hj as [-> Hb].
  unfold mix. rewrite Ha, Hb. ring.
Qed.

(** What the conversion of [fs_main] makes of samples of the three planes. *)
Definition bt601 (y u v : Q) : Q * Q * Q * Q :=
  let c := (y - (62745 # 1000000))%Q in
  let d := (u - (1 # 2))%Q in
  let e := (v - (1 # 2))%Q in
  let clamp := clamp_unit Qle_bool in
  (clamp (c + (1596027 # 1000000) * e), clamp (c - (391762 # 1000000) * d - (812968 # 1000000) * e),
   clamp (c + (2017232 # 1000000) * d), 1 # 2)%Q.

Definition colour_eq (a b : Q * Q * Q * Q) : Prop :=
  let '(r, g, b, a, (r', g', b', a')) := (a, b) in (r == r' ∧ g == g' ∧ b == b' ∧ a == a')%Q.

#[export] Instance clamp_unit_proper : Proper (Qeq ==> Qeq) (clamp_unit Qle_bool).
Proof. intros x y E. unfold clamp_unit. cbn [num num_Q]. rewrite !E. destruct (Qle_bool y _); [reflexivity|]. destruct (Qle_bool _ y); [reflexivity|exact E]. Qed.

Lemma shown_sample (t : TextureState) (r : Renderable) (l i j : Z) :
  good r → shows t r → 0 ≤ l < 3 → layer_width r l = width (rdimensions r) → layer_height r l = height (rdimensions r) →
  0 ≤ i < width (rdimensions r) → 0 ≤ j < height (rdimensions r) →
  ∃ b, plane_of r l !! Z.to_nat (j * width (rdimensions r) + i) = Some b ∧
    ∀ uv, (vx uv == vx (pixel_centre (rdimensions r) i j))%Q → (vy uv == vy (pixel_centre (rdimensions r) i j))%Q →
      (texture_sample t uv l == unorm b)%Q.
Proof.
  intros (Hw & Hh & _) [Hd Ht] Hl Ew Eh Hi Hj. destruct (Ht l i j) as [E [b Hb]]; [done|lia|lia|].
  exists b. split; [by rewrite <- Hb, E, Ew|]. intros uv. rewrite <- Hd. intros Hx Hy.
  rewrite (sample_centre t l i j uv); try done; [|by rewrite Hd..].
  unfold texel_value. rewrite Hd, !Z.min_r, !Z.max_r by lia. by rewrite Hb.
Qed.

(** C15. At the centre of every pixel the shader's luma sample is the frame's sample
    of that pixel; and the colour of a 4:4:4 frame is the conversion of that
    pixel's three samples, no neighbour mixed in. *)
Theorem pixel_centres_exact (t : TextureState) (r : Renderable) (un : Uniforms Q) (i j : Z) :
  good r → shows t r → uniform_sampling_factor un = MkVec2 (num (downsampling_factor r)) (num (downsampling_factor r)) →
  0 ≤ i < width (rdimensions r) → 0 ≤ j < height (rdimensions r) →
  let k := Z.to_nat (j * width (rdimensions r) + i) in
  let centre := pixel_centre (rdimensions r) i j in
  ∃ by_, y r !! k = Some by_ ∧ (texture_sample t centre 0 == unorm by_)%Q ∧
  match r with
  | RY444 _ _ => ∃ bu bv, u r !! k = Some bu ∧ v r !! k = Some bv ∧
      colour_eq (fs_main Qle_bool un (texture_sample t) centre) (bt601 (unorm by_) (unorm bu) (unorm bv))
  | RI420 _ _ => True
  end.
Proof.
  intros Hg Hs Hu Hi Hj. cbv zeta. destruct (shown_sample t r 0 i j) as (by_ & Ey & Sy); try done.
  exists by_. split; [exact Ey|]. split; [by apply Sy|]. destruct r as [d s|d s]; [|exact I].
  assert (∀ l, 0 ≤ l → layer_width (RY444 d s) l = width s ∧ layer_height (RY444 d s) l = height s) as Hl.
  { intros l _. unfold layer_width, layer_height. cbn [rdimensions downsampling_factor]. rewrite !Z.div_1_r.
    by destruct (l =? 0). }
  destruct (shown_sample t (RY444 d s) 1 i j) as (bu & Eu & Su); try done; try apply Hl; try lia.
  destruct (shown_sample t (RY444 d s) 2 i j) as (bv & Ev & Sv); try done; try apply Hl; try lia.
  exists bu, bv. split; [exact Eu|]. split; [exact Ev|].
  assert (∀ z : Q, z / 1 == z)%Q as H1 by (intros z; field).
  unfold fs_main, bt601, colour_eq. cbn [rdimensions] in *. rewrite Hu. cbn [div num_Q num sub mul add vx vy downsampling_factor].
  rewrite (Sy (pixel_centre s i j)), Su, Sv by (cbn [vx vy]; (reflexivity || apply H1)). split_and!; reflexivity.
Qed.

(** The chroma layers of a 4:2:0 frame fill a quarter of theirs.  At the centre
    of the last column of the picture the shader's coordinate lies so near the
    border of that quarter that a quarter of the chroma comes from the column
    outside, which no write has filled. *)
Theorem chroma_edge_bleeds (data : bytes) (w h j : Z) (t : TextureState) :
  good (RI420 data (MkSize w h)) →
  run_steps write_texture (MkTexture (MkSize w h) (fun _ _ _ => None)) (frame_writes (RI420 data (MkSize w h))) = Some t →
  let centre := (inject_Z (2 * w - 1) / inject_Z (2 * w))%Q in
  let chroma := (centre / inject_Z (downsampling_factor (RI420 data (MkSize w h))))%Q in
  let '(column, weight) := footprint w chroma in
  column + 1 = w / 2 ∧ (weight == 1 # 4)%Q ∧ texels t 1 (column + 1) j = None.
Proof.
  intros Hg Ht. cbv zeta. cbn [downsampling_factor]. unfold footprint.
  pose proof Hg as (Hw & _ & _ & Ew & _). cbn [rdimensions width height] in Hw, Ew.
  assert (∃ k, w = 2 * k ∧ w / 2 = k) as (k & -> & Hk) by (exists (w / 2); Z.to_euclidean_division_equations; lia).
  set (x := (_ - (1 # 2))%Q). assert (x == inject_Z k - (3 # 4))%Q as Hx.
  { subst x. assert (¬ inject_Z k == 0)%Q by (unfold Qeq; cbn; lia).
    replace (2 * (2 * k) - 1) with (4 * k + - (1)) by lia. rewrite !inject_Z_mult, inject_Z_plus, inject_Z_mult.
    generalize (inject_Z k) H. clear. intros q Hq. unfold inject_Z. change (- (1))%Z with (-1)%Z. field. done. }
  assert (Qfloor x = k - 1) as Hfl.
  { rewrite Hx. unfold Qfloor, Qminus, Qplus, inject_Z. cbn. symmetry. apply (Z.div_unique_pos _ _ _ 1); lia. }
  rewrite Hfl, Hk. split; [lia|]. split.
  { rewrite Hx. unfold Qeq, inject_Z, Qminus, Qplus, Qopp. cbn. lia. }
  rewrite good_writes in Ht by done. cbn [fmap list_fmap run_steps] in Ht.
  set (r := RI420 _ _) in *. replace (k - 1 + 1) with k by lia.
  assert (layer_width r 1 = k) as Hlw by exact Hk.
  destruct (write_layer (MkTexture (MkSize (2 * k) h) (fun _ _ _ => None)) r 0 Hg ltac:(lia) eq_refl) as (t0 & E0 & Hd0 & H0).
  rewrite E0 in Ht. destruct (write_layer t0 r 1 Hg ltac:(lia) Hd0) as (t1 & E1 & Hd1 & H1).
  rewrite E1 in Ht. destruct (write_layer t1 r 2 Hg ltac:(lia) Hd1) as (t2 & E2 & _ & H2).
  rewrite E2 in Ht. injection Ht as <-. rewrite H2, H1, H0, Hlw. cbn [Z.eqb Pos.eqb andb texels].
  by rewrite (proj2 (Z.ltb_ge k k)), andb_false_r by lia.
Qed.

(** ** At concrete inputs *)

Definition frame_of (w h : Z) (b : byte) : Yuv := MkYuv I420 (replicate (Z.to_nat (w * h * 3 / 2)) b) (MkSize w h).

Definition window : Viewport := MkViewport (MkExtent (num 640) (num 480)) (num 1).
Definition whole : Rectangle f32 := MkRect (num 0) (num 0) (num 640) (num 480).

(** A redraw, two frames of which one is never shown, of another size, and two
    redraws. *)
Definition some_frames : list player_op :=
  [Redraw whole window; NewFrame (frame_of 2 2 "b"); NewFrame (frame_of 4 2 "c"); Redraw whole window; Redraw whole window].

Lemma player_shows_newest_frame_witness :
  good (renderable_from (frame_of 4 4 "a")) ∧ Forall frame_ok some_frames ∧
  ∃ s c, run_steps player_step (player_new (frame_of 4 4 "a")) some_frames = Some s ∧
    drawn s = Some c ∧ shows (drawn_texture c) (renderable_from (frame_of 4 2 "c")).
Proof.
  assert (good (renderable_from (frame_of 4 4 "a"))) as Hf by (unfold good, U32_MAX; split_and!; done).
  assert (Forall frame_ok some_frames) as Hops.
  { unfold some_frames. rewrite !Forall_cons. unfold frame_ok, good, U32_MAX. split_and!; done. }
  split; [exact Hf|]. split; [exact Hops|].
  destruct (player_shows_newest_frame (frame_of 4 4 "a") some_frames Hf Hops) as (s & Hs & c & Hc & Hshow & _).
  exists s, c. split; [exact Hs|]. split; [exact Hc|exact Hshow].
Defined.

Definition one_pixel : TextureState :=
  MkTexture (MkSize 1 1) (fun l i j => ["a"; "b"; "c"]%char !! Z.to_nat (l + i + j)).

Lemma pixel_centres_exact_witness :
  good (RY444 ["a"; "b"; "c"]%char (MkSize 1 1)) ∧ shows one_pixel (RY444 ["a"; "b"; "c"]%char (MkSize 1 1)) ∧
  ∃ b, y (RY444 ["a"; "b"; "c"]%char (MkSize 1 1)) !! 0%nat = Some b ∧
    (texture_sample one_pixel (pixel_centre (MkSize 1 1) 0 0) 0 == unorm b)%Q.
Proof.
  assert (good (RY444 ["a"; "b"; "c"]%char (MkSize 1 1))) as Hg by (unfold good, U32_MAX; split_and!; done).
  assert (shows one_pixel (RY444 ["a"; "b"; "c"]%char (MkSize 1 1))) as Hs.
  { split; [done|]. intros l i j Hl Hi Hj. assert (l = 0 ∨ l = 1 ∨ l = 2) as [-> | [-> | ->]] by lia.
    all: change (0 ≤ i < 1) in Hi; change (0 ≤ j < 1) in Hj; assert (i = 0) as -> by lia; assert (j = 0) as -> by lia; cbn; split; [done|by eexists]. }
  split; [exact Hg|]. split; [exact Hs|].
  destruct (pixel_centres_exact one_pixel (RY444 ["a"; "b"; "c"]%char (MkSize 1 1))
    (MkUniforms (MkVec2 1 1) (MkVec2 1 1) (MkVec2 1 1))%Q 0 0 Hg Hs eq_refl) as (b & Hb & Hsm & _); [cbn; lia..|].
  exists b. split; [exact Hb|exact Hsm].
Defined.

Lemma picture_fills_bounds_witness :
  ¬ (64 == 0)%Q ∧ (2 <= 640)%Q ∧
  let v := MkVec2 (2 * (1 # 2) / 640)%Q (2 * (3 # 4) / 480)%Q in
  (vx (vs_uv (uniforms_new (rect_size (MkRect 10 20 64 48)) (MkExtent 32 32) 2 (MkExtent 640 480)) v) == 1 # 2)%Q.
Proof.
  split; [discriminate|]. split; [discriminate|]. cbv zeta.
  apply (picture_fills_bounds (MkRect 10 20 64 48)%Q (MkExtent 32 32)%Q (MkExtent 640 480)%Q 2%Q (1 # 2)%Q (1 # 4)%Q
    (MkVec2 (2 * (1 # 2) / 640) (2 * (3 # 4) / 480))%Q); vm_compute; (discriminate || reflexivity).
Defined.

(** The six corners of the two triangles. *)
Example corners :
  (fun i => let v : Vec2 Q := vertex_position i in (vx v, vy v)) <$> [0; 1; 2; 3; 4; 5] =
  [(1, 1); (1, 0); (0, 0); (0, 0); (0, 1); (1, 1)]%Q.
Proof. reflexivity. Qed.

(** A drawn fragment is half transparent. *)
Example black_fragment :
  ((fs_main Qle_bool (MkUniforms (MkVec2 2 2) (MkVec2 640 480) (MkVec2 320 240))%Q
     (fun _ l => if (l =? 0)%Z then (62745 # 1000000)%Q else (1 # 2)%Q) (MkVec2 (1 # 2) (1 # 2))%Q).2 == 1 # 2)%Q.
Proof. reflexivity. Qed.
