(* ===== verification/Av.v ===== *)
(** * Audio and video playback: [mitb-av/src/lib.rs]

    Track selection, the audio path from packets to samples, the playback clock
    and the worker's loops.  The demuxer, the decoders, the audio device and the
    channel to the application are parameters. *)

From S2P Require Import Rust Float AvFrames.

Definition DEFAULT_FRAME_DURATION_NS : Z := 33333333.
Definition DEFAULT_AUDIO_SAMPLE_RATE : Z := 48000.

(** Errors; the causes are the texts of the libraries' errors. *)
Inductive AvError : Type :=
| MissingHome (source : string)
| OpenMedia (path source : string)
| Demux (source : string)
| MissingVideoTrack
| VideoDecoder (source : string)
| AudioDecoder (source : string)
| AudioChannels (channels : Z)
| AudioSampleRate (sample_rate : Z)
| AudioOutput (source : string).

Definition av_error_string (e : AvError) : string :=
  match e with
  | MissingHome source => "missing HOME for AV media path: " +:+ source
  | OpenMedia path source => "failed opening media file `" +:+ path +:+ "`: " +:+ source
  | Demux source => "matroska demux error: " +:+ source
  | MissingVideoTrack => "missing AV1 video track in media file"
  | VideoDecoder source => "failed to initialize AV1 decoder: " +:+ source
  | AudioDecoder source => "failed to initialize Opus decoder: " +:+ source
  | AudioChannels channels => "audio output channel count is invalid: " +:+ pretty channels
  | AudioSampleRate rate => "audio output sample rate is invalid: " +:+ pretty rate
  | AudioOutput source => "failed initializing audio output: " +:+ source
  end.

(** ** Tracks *)

Record OpusHead := MkOpusHead {
  head_channels : Z;
  head_pre_skip : Z;
  head_sample_rate : Z;
  mapping_family : Z;
}.

Record AudioTrack := MkAudioTrack {
  track : Z;
  channels : Z;
  sample_rate : Z;
  pre_skip : Z;
}.

Inductive TrackType : Type := TVideo | TAudio | TOther.

(** What the demuxer answers for a track: the audio settings are the channels
    and the output and the sampling frequencies. *)
Record TrackEntry := MkTrack {
  track_type : TrackType;
  codec_id : string;
  track_number : Z;
  default_duration : option Z;
  audio_settings : option (Z * option f64 * f64);
  codec_private : option bytes;
}.

Record SelectedTracks := Selected {
  timestamp_scale_ns : Z;
  video_track : Z;
  video_default_duration_ns : option Z;
  audio : option AudioTrack;
}.

(** A byte of [data]; the caller has checked the length. *)
Definition byte_at (data : bytes) (i : nat) : Z := from_option code 0 (data !! i).

Definition parse_opus_head (codec_private : option bytes) : option OpusHead :=
  data ← codec_private;
  if (length data <? 19)%nat || negb (bool_decide (take 8 data = str_bytes "OpusHead")) then None
  else
    Some (MkOpusHead (byte_at data 9) (from_le_bytes (take 2 (drop 10 data)))
            (from_le_bytes (take 4 (drop 12 data))) (byte_at data 18)).

Definition parse_audio_track (t : TrackEntry) : option AudioTrack :=
  '(audio_channels, output_sampling_frequency, sampling_frequency) ← audio_settings t;
  let frequency := match output_sampling_frequency with Some f => f | None => sampling_frequency end in
  let sample_rate := f_to_uint U32_MAX frequency in
  let head := parse_opus_head (codec_private t) in
  let '(channels, pre_skip, sample_rate) :=
    match head with
    | Some h => (Z.max (head_channels h) 1, head_pre_skip h,
                 if 0 <? head_sample_rate h then head_sample_rate h else sample_rate)
    | None => (audio_channels, 0, sample_rate)
    end in
  if (match head with Some h => negb (mapping_family h =? 0) | None => false end) && (2 <? channels) then None
  else if (channels =? 0) || (2 <? channels) then None
  else Some (MkAudioTrack (track_number t) channels (Z.max sample_rate DEFAULT_AUDIO_SAMPLE_RATE) pre_skip).

(** The loop over the tracks: the video track with its default duration, and
    the audio track. *)
Fixpoint tracks_loop (tracks : list TrackEntry) (video : option (Z * option Z)) (audio : option AudioTrack)
    : option (Z * option Z) * option AudioTrack :=
  match tracks with
  | [] => (video, audio)
  | t :: tracks =>
    match track_type t with
    | TVideo =>
      tracks_loop tracks
        (if bool_decide (codec_id t = "V_AV1")
         then match video with None => Some (track_number t, default_duration t) | Some _ => video end
         else video) audio
    | TAudio =>
      tracks_loop tracks video
        (if bool_decide (codec_id t = "A_OPUS")
         then match audio with None => parse_audio_track t | Some _ => audio end
         else audio)
    | TOther => tracks_loop tracks video audio
    end
  end.

Definition select_tracks (timestamp_scale : Z) (tracks : list TrackEntry) : result AvError SelectedTracks :=
  let '(video, audio) := tracks_loop tracks None None in
  '(video_track, video_default_duration) ← ok_or MissingVideoTrack video;
  Ok (Selected timestamp_scale video_track video_default_duration audio).

(** ** Audio *)

(** [symphonia]'s planar buffer: its frames, a channel's samples, [clear], [n]
    frames of some content, and a channel overwritten through [chan_mut]. *)
Class AudioBuffer (F : Type) : Type := {
  Buf : Type;
  frames : Buf → nat;
  chan : Buf → nat → list F;
  clear : Buf → Buf;
  render_reserved : nat → Buf → Buf;
  set_chan : nat → list F → Buf → Buf;
}.

Class AudioBufferLaws {F} (A : AudioBuffer F) (channels : nat) : Prop := {
  frames_rendered : ∀ n b, frames (render_reserved n (clear b)) = n;
  length_rendered : ∀ n b c, (c < channels)%nat → length (chan (render_reserved n (clear b)) c) = n;
  frames_set : ∀ c l b, frames (set_chan c l b) = frames b;
  chan_set_eq : ∀ c l b, (c < channels)%nat → length l = length (chan b c) → chan (set_chan c l b) c = l;
  chan_set_ne : ∀ c c' l b, c ≠ c' → chan (set_chan c l b) c' = chan b c';
}.

Section Audio.
Context {F : Type} (zero : F) `{AudioBuffer F}.

(** The samples of one channel: the first [n] are taken from the scratch, which
    may be too short ([None]: the index panics). *)
Fixpoint fill_channel (scratch : list F) (channels channel n : nat) (frame_index : nat) (samples : list F)
    : option (list F) :=
  match samples with
  | [] => Some []
  | s :: samples =>
    x ← (if (frame_index <? n)%nat then scratch !! (frame_index * channels + channel)%nat else Some s);
    rest ← fill_channel scratch channels channel n (S frame_index) samples;
    Some (x :: rest)
  end.

Fixpoint fill_channels (scratch : list F) (channels n : nat) (todo : list nat) (b : Buf) : option Buf :=
  match todo with
  | [] => Some b
  | channel :: todo =>
    l ← fill_channel scratch channels channel n 0 (chan b channel);
    fill_channels scratch channels n todo (set_chan channel l b)
  end.

(** [decode_packet] after the decoder answered [n] frames in [scratch]. *)
Definition store_packet (scratch : list F) (channels n : nat) (b : Buf) : option Buf :=
  fill_channels scratch channels n (seq 0 channels) (render_reserved n (clear b)).

(** One frame of the output: the samples of its channels, zero where one has
    none. *)
Definition output_frame (b : Buf) (channels frame_index : nat) : list F :=
  (λ channel, default zero (chan b channel !! frame_index)) <$> seq 0 channels.

(** The samples and the frames still to skip. *)
Definition interleave_audio_buffer (b : Buf) (channels remaining_pre_skip : nat) : list F * nat :=
  let frames := frames b in
  if (frames =? 0)%nat then ([], remaining_pre_skip)
  else
    let skip_frames := Nat.min remaining_pre_skip frames in
    let remaining_pre_skip := (remaining_pre_skip - skip_frames)%nat in
    if (frames <=? skip_frames)%nat then ([], remaining_pre_skip)
    else (concat (output_frame b channels <$> seq skip_frames (frames - skip_frames)), remaining_pre_skip).

(** The audio of packets, each decoded to [n] frames in a scratch: what is
    appended to the output, and the buffer and skip left. *)
Fixpoint audio_stream (packets : list (list F * nat)) (channels : nat) (b : Buf) (remaining_pre_skip : nat)
    : option (list F) :=
  match packets with
  | [] => Some []
  | (scratch, n) :: packets =>
    b ← store_packet scratch channels n b;
    let '(samples, remaining_pre_skip) := interleave_audio_buffer b channels remaining_pre_skip in
    rest ← audio_stream packets channels b remaining_pre_skip;
    Some (samples ++ rest)
  end.

End Audio.

(** *** The tracks' audio settings are ones the output takes *)

Lemma from_le_bytes_take n l : 0 ≤ from_le_bytes (take n l) < 256 ^ Z.of_nat n.
Proof.
  pose proof (from_le_bytes_range (take n l)) as Hr. rewrite length_take in Hr. split; [lia|].
  eapply Z.lt_le_trans; [apply Hr|]. apply Z.pow_le_mono_r; lia.
Qed.

(** An audio track that is selected has one or two channels, a rate of at least
    48 kHz that fits 32 bits, and a pre-skip of 16 bits. *)
Theorem audio_track_bounds (t : TrackEntry) (a : AudioTrack) :
  (∀ c o s, audio_settings t = Some (c, o, s) → 0 ≤ c) → parse_audio_track t = Some a →
  1 ≤ channels a ≤ 2 ∧ DEFAULT_AUDIO_SAMPLE_RATE ≤ sample_rate a ≤ U32_MAX ∧ 0 ≤ pre_skip a < 2 ^ 16 ∧
  track a = track_number t.
Proof.
  intros Hc. unfold parse_audio_track. destruct (audio_settings t) as [[[c o] s]|] eqn:Ea; [|done].
  specialize (Hc c o s eq_refl). cbn [mbind option_bind]. cbv zeta.
  pose proof (f_to_uint_range U32_MAX (match o with Some f => f | None => s end) ltac:(done)) as Hf.
  destruct (parse_opus_head (codec_private t)) as [h|] eqn:Eh.
  - assert (Hh : 0 ≤ head_pre_skip h < 2 ^ 16 ∧ 0 ≤ head_sample_rate h ≤ U32_MAX).
    { unfold parse_opus_head in Eh. destruct (codec_private t) as [l|]; [|done]. cbn [mbind option_bind] in Eh.
      destruct (_ || _); [done|]. injection Eh as <-. cbn [head_pre_skip head_sample_rate].
      pose proof (from_le_bytes_take 2 (drop 10 l)). pose proof (from_le_bytes_take 4 (drop 12 l)).
      unfold U32_MAX. lia. }
    destruct (_ && _); [done|]. destruct (_ || _) eqn:E; [done|]. apply orb_false_iff in E as [E1 E2]. zb.
    intros [= <-]. cbn. destruct (0 <? head_sample_rate h); unfold DEFAULT_AUDIO_SAMPLE_RATE, U32_MAX in *; lia.
  - cbn [andb]. destruct (_ || _) eqn:E; [done|]. apply orb_false_iff in E as [E1 E2]. zb.
    intros [= <-]. cbn. unfold DEFAULT_AUDIO_SAMPLE_RATE, U32_MAX in *. lia.
Qed.

(** *** The samples that come out *)

Section AudioSpec.
Context {F : Type} (zero : F) (channels : nat) `{A : AudioBuffer F, !AudioBufferLaws A channels}.

Definition sample (scratch : list F) (channel i : nat) : F := default zero (scratch !! (i * channels + channel)%nat).

Lemma fill_channel_spec scratch channel n k samples :
  (channel < channels)%nat → (n * channels ≤ length scratch)%nat → length samples = (n - k)%nat → (k ≤ n)%nat →
  fill_channel scratch channels channel n k samples = Some (sample scratch channel <$> seq k (n - k)).
Proof.
  intros Hc Hl. revert k. induction samples as [|s samples IH]; intros k Hlen Hk; cbn [fill_channel].
  { cbn in Hlen. by rewrite <- Hlen. }
  cbn [length] in Hlen. destruct (k <? n)%nat eqn:E; zb; [|lia].
  destruct (lookup_lt_is_Some_2 scratch (k * channels + channel)%nat) as [x Hx]; [nia|].
  rewrite Hx. cbn [mbind option_bind]. rewrite IH by lia. cbn [mbind option_bind].
  replace (n - k)%nat with (S (n - S k)) by lia. cbn [seq fmap list_fmap]. unfold sample at 2. by rewrite Hx.
Qed.

Lemma fill_channels_spec scratch n m k b : (n * channels ≤ length scratch)%nat → (k + m = channels)%nat → frames b = n →
  (∀ c, (c < channels)%nat → length (chan b c) = n) →
  (∀ c, (c < k)%nat → chan b c = sample scratch c <$> seq 0 n) →
  ∃ b', fill_channels scratch channels n (seq k m) b = Some b' ∧ frames b' = n ∧
    ∀ c, (c < channels)%nat → chan b' c = sample scratch c <$> seq 0 n.
Proof.
  intros Hl. revert k b. induction m as [|m IH]; intros k b Hk Hfr Hlen Hdone; cbn [seq fill_channels].
  { exists b. split_and!; [done..|]. intros c Hc. apply Hdone. lia. }
  rewrite fill_channel_spec by (rewrite ?Hlen; lia). cbn [mbind option_bind]. rewrite Nat.sub_0_r.
  assert (Hnew : length (sample scratch k <$> seq 0 n) = length (chan b k)).
  { rewrite length_fmap, length_seq, Hlen; lia. }
  apply IH; [lia|by rewrite frames_set| |].
  - intros c Hc. destruct (decide (k = c)) as [->|]; [|by rewrite chan_set_ne, Hlen].
    rewrite chan_set_eq by done. by rewrite Hnew, Hlen.
  - intros c Hc. destruct (decide (k = c)) as [->|]; [by rewrite chan_set_eq by (done || lia)|].
    rewrite chan_set_ne by done. apply Hdone. lia.
Qed.

Lemma output_frame_spec b scratch n i : (n * channels ≤ length scratch)%nat → (i < n)%nat →
  (∀ c, (c < channels)%nat → chan b c = sample scratch c <$> seq 0 n) →
  output_frame zero b channels i = take channels (drop (i * channels) scratch).
Proof.
  intros Hl Hi Hb. unfold output_frame. apply list_eq. intros c. rewrite list_lookup_fmap.
  destruct (decide (c < channels)%nat) as [Hc|Hc].
  - rewrite lookup_seq_lt by done. cbn. rewrite Hb by done. rewrite list_lookup_fmap, lookup_seq_lt by done. cbn.
    rewrite lookup_take_lt, lookup_drop by done. unfold sample.
    destruct (lookup_lt_is_Some_2 scratch (i * channels + c)%nat) as [x ->]; [nia|done].
  - rewrite lookup_seq_ge by lia. rewrite lookup_take_ge by lia. done.
Qed.

Lemma output_frames_spec b scratch n s : (n * channels ≤ length scratch)%nat →
  (∀ c, (c < channels)%nat → chan b c = sample scratch c <$> seq 0 n) → (s ≤ n)%nat →
  concat (output_frame zero b channels <$> seq s (n - s)) = drop (s * channels) (take (n * channels) scratch).
Proof.
  intros Hl Hb Hs. remember (n - s)%nat as m eqn:Hm. revert s Hs Hm. induction m as [|m IH]; intros s Hs Hm.
  { cbn. rewrite drop_ge; [done|]. rewrite length_take. nia. }
  cbn [seq fmap list_fmap concat]. rewrite (output_frame_spec b scratch n s) by (done || lia).
  rewrite IH by lia. rewrite !skipn_firstn_comm.
  replace (n * channels - s * channels)%nat with (channels + (n * channels - S s * channels))%nat by nia.
  rewrite <- (take_drop channels (take (channels + _) (drop (s * channels) scratch))), take_take, skipn_firstn_comm, drop_drop.
  f_equal; [f_equal; lia|]. f_equal; [lia|f_equal; lia].
Qed.

(** The frames of a packet are the decoded ones without those to skip. *)
Lemma packet_samples scratch n b skip : (n * channels ≤ length scratch)%nat →
  ∃ b', store_packet scratch channels n b = Some b' ∧
  interleave_audio_buffer zero b' channels skip =
  (drop (skip * channels) (take (n * channels) scratch), (skip - n)%nat).
Proof.
  intros Hl. unfold store_packet.
  destruct (fill_channels_spec scratch n channels 0 (render_reserved n (clear b))) as (b' & -> & Hfr & Hb);
    [done|done|by apply (frames_rendered (channels := channels))|by apply length_rendered|lia|].
  exists b'. split; [done|]. unfold interleave_audio_buffer. rewrite Hfr. cbv zeta.
  assert (Hempty : (n ≤ skip)%nat → drop (skip * channels) (take (n * channels) scratch) = []).
  { intros ?. apply drop_ge. rewrite length_take. nia. }
  destruct (n =? 0)%nat eqn:E0; zb.
  - rewrite Hempty by lia. f_equal. lia.
  - destruct (n <=? Nat.min skip n)%nat eqn:E1; zb.
    + rewrite Hempty by lia. f_equal. lia.
    + rewrite (output_frames_spec b' scratch n (Nat.min skip n)) by (done || lia). f_equal; [f_equal|]; lia.
Qed.

(** C27. The audio output is the decoded stream, all packets in order, without its
    first [pre_skip] frames, wherever the packets are cut; no index of the
    scratch is out of range. *)
Theorem audio_stream_spec (packets : list (list F * nat)) (b : Buf) (skip : nat) :
  Forall (λ p, p.2 * channels ≤ length p.1)%nat packets →
  audio_stream zero packets channels b skip =
  Some (drop (skip * channels) (concat ((λ p, take (p.2 * channels) p.1) <$> packets))).
Proof.
  intros Hp. revert b skip. induction Hp as [|[scratch n] packets Hl _ IH]; intros b skip; cbn [audio_stream].
  { cbn [fmap list_fmap concat]. by rewrite drop_nil. }
  cbn [fst snd] in Hl. destruct (packet_samples scratch n b skip Hl) as (b' & -> & Hi). cbn [mbind option_bind].
  rewrite Hi, IH. cbn [mbind option_bind fmap list_fmap concat fst snd]. f_equal.
  rewrite drop_app, length_take. f_equal. f_equal. nia.
Qed.

End AudioSpec.

(** ** Playback *)

Inductive AvEvent : Type :=
| VideoFrame (f : Yuv)
| PlaybackEnded
| PlaybackError (error : string).

(** The AV1 decoder's errors, as far as the program tells them apart. *)
Inductive DecodeError : Type := Again | DecodeFailed (message : string).

Record Decoded := MkDecoded {
  picture : Picture;
  timestamp : option Z;
  duration : Z;
}.

Record MediaFrame := MkFrame {
  frame_track : Z;
  frame_timestamp : Z;
  frame_duration : option Z;
  frame_data : bytes;
}.

Record PlaybackClock := MkClock {
  start : Z;
  base_timestamp_ns : option Z;
  synthetic_timestamp_ns : Z;
}.

Definition clock_new (now : Z) : PlaybackClock := MkClock now None 0.

(** The clock after the call, and the instant it sleeps until: not at all for
    the first frame, nor when that instant has passed by [now]. *)
Definition wait_until (c : PlaybackClock) (now : Z) (timestamp_ns : option Z) (frame_duration_ns : Z)
    : PlaybackClock * option Z :=
  let target_ns :=
    match timestamp_ns with
    | Some ts => ts
    | None => sat_add_u64 (synthetic_timestamp_ns c) (Z.max frame_duration_ns 1)
    end in
  match base_timestamp_ns c with
  | None => (MkClock (start c) (Some target_ns) target_ns, None)
  | Some base =>
    let target := start c + sat_sub target_ns base in
    (MkClock (start c) (Some base) target_ns, if now <=? target then Some target else None)
  end.

Definition timestamp_ns_to_i64 (value : Z) : Z := if I64_MAX <? value then I64_MAX else value.

(** The world the worker runs in: time, the channel ([send] is [false] when it
    is closed), the AV1 decoder, the demuxer, and the audio of one file. *)
Class Env : Type := {
  W : Type;
  now : W → Z;
  sleep_until : Z → W → W;
  is_closed : W → bool;
  send : AvEvent → W → bool * W;
  send_data : bytes → Z → Z → W → result DecodeError () * W;
  send_pending_data : W → result DecodeError () * W;
  get_picture : W → result DecodeError Decoded * W;
  (** [File::open], and [MatroskaFile::open] with its time scale and tracks *)
  open_file : string → W → result string () * W;
  open_matroska : W → result string (Z * list TrackEntry) * W;
  next_frame : W → result string (option MediaFrame) * W;
  decoder_new : W → result string () * W;
  Sample : Type;
  zero_sample : Sample;
  audio_buffer :: AudioBuffer Sample;
  (** the Opus decoder of a rate and channels, with its first buffer; a
      packet's scratch and frames; the audio device *)
  opus_decoder_new : Z → Z → W → result string Buf * W;
  decode_float : bytes → W → result string (list Sample * nat) * W;
  open_default_sink : W → result string () * W;
  append : list Sample → W → W;
  sleep_until_end : W → W;
  media_exists : string → W → bool;
}.

Section Playback.
Context `{Env}.

(** [None]: out of fuel. *)
Fixpoint drain_video_decoder (fuel : nat) (default_frame_duration_ns : Z) (clock : PlaybackClock) (w : W)
    : option (result AvError () * PlaybackClock * W) :=
  match fuel with
  | O => None
  | S fuel =>
    match get_picture w with
    | (Err Again, w) => Some (Ok (), clock, w)
    | (Err (DecodeFailed e), w) => Some (Err (VideoDecoder e), clock, w)
    | (Ok d, w) =>
      let frame_duration_ns := if 0 <? duration d then duration d else default_frame_duration_ns in
      let timestamp_ns := ts ← timestamp d; if 0 <=? ts then Some ts else None in
      let '(clock, target) := wait_until clock (now w) timestamp_ns frame_duration_ns in
      let w := match target with Some t => sleep_until t w | None => w end in
      match picture_to_yuv (picture d) with
      | Some yuv =>
        let '(sent, w) := send (VideoFrame yuv) w in
        if sent then drain_video_decoder fuel default_frame_duration_ns clock w else Some (Ok (), clock, w)
      | None => drain_video_decoder fuel default_frame_duration_ns clock w
      end
    end
  end.

(** The loop over [send_pending_data]. *)
Fixpoint pending_loop (fuel : nat) (frame_duration_ns : Z) (clock : PlaybackClock) (w : W)
    : option (result AvError () * PlaybackClock * W) :=
  match fuel with
  | O => None
  | S fuel' =>
    match send_pending_data w with
    | (Ok _, w) => Some (Ok (), clock, w)
    | (Err Again, w) =>
      '(r, clock, w) ← drain_video_decoder fuel frame_duration_ns clock w;
      match r with Ok _ => pending_loop fuel' frame_duration_ns clock w | Err e => Some (Err e, clock, w) end
    | (Err (DecodeFailed e), w) => Some (Err (VideoDecoder e), clock, w)
    end
  end.

Definition submit_video_packet (fuel : nat) (data : bytes) (timestamp_ns frame_duration_ns : Z)
    (clock : PlaybackClock) (w : W) : option (result AvError () * PlaybackClock * W) :=
  match send_data data (timestamp_ns_to_i64 timestamp_ns) (timestamp_ns_to_i64 frame_duration_ns) w with
  | (Err (DecodeFailed e), w) => Some (Err (VideoDecoder e), clock, w)
  | (_, w) =>
    '(r, clock, w) ← drain_video_decoder fuel frame_duration_ns clock w;
    match r with
    | Err e => Some (Err e, clock, w)
    | Ok _ =>
      '(r, clock, w) ← pending_loop fuel frame_duration_ns clock w;
      match r with
      | Err e => Some (Err e, clock, w)
      | Ok _ => drain_video_decoder fuel frame_duration_ns clock w
      end
    end
  end.

(** One audio packet: the decoder's buffer, the frames still to skip; a packet
    that does not decode is skipped. [None]: an index panics. *)
Definition audio_packet (a : AudioTrack) (data : bytes) (b : Buf) (remaining_pre_skip : nat) (w : W)
    : option (Buf * nat * W) :=
  match decode_float data w with
  | (Err _, w) => Some (b, remaining_pre_skip, w)
  | (Ok (scratch, n), w) =>
    b ← store_packet scratch (Z.to_nat (channels a)) n b;
    let '(samples, remaining_pre_skip) :=
      interleave_audio_buffer zero_sample b (Z.to_nat (channels a)) remaining_pre_skip in
    Some (b, remaining_pre_skip, match samples with [] => w | _ => append samples w end)
  end.

(** The loop over the file's frames, then the drain and the wait for the audio;
    [decoder] is the audio decoder's buffer, [has_output] whether there is an
    audio output. [None]: out of fuel, or a panic of [audio_packet]. *)
Fixpoint frames_loop (fuel : nat) (tracks : SelectedTracks) (decoder : option Buf) (has_output : bool)
    (remaining_pre_skip : nat) (clock : PlaybackClock) (w : W) : option (result AvError () * W) :=
  match fuel with
  | O => None
  | S fuel' =>
    match next_frame w with
    | (Err e, w) => Some (Err (Demux e), w)
    | (Ok None, w) =>
      '(r, clock, w) ← drain_video_decoder fuel
        (default DEFAULT_FRAME_DURATION_NS (video_default_duration_ns tracks)) clock w;
      match r with
      | Err e => Some (Err e, w)
      | Ok _ => Some (Ok (), if has_output then sleep_until_end w else w)
      end
    | (Ok (Some frame), w) =>
      if is_closed w then Some (Ok (), w)
      else if frame_track frame =? video_track tracks then
        let timestamp_ns := sat_mul_u64 (frame_timestamp frame) (timestamp_scale_ns tracks) in
        let frame_duration_ns :=
          match frame_duration frame with
          | Some d => sat_mul_u64 d (timestamp_scale_ns tracks)
          | None => default DEFAULT_FRAME_DURATION_NS (video_default_duration_ns tracks)
          end in
        '(r, clock, w) ← submit_video_packet fuel (frame_data frame) timestamp_ns frame_duration_ns clock w;
        match r with
        | Err e => Some (Err e, w)
        | Ok _ => frames_loop fuel' tracks decoder has_output remaining_pre_skip clock w
        end
      else
        match audio tracks, decoder with
        | Some a, Some b =>
          if (frame_track frame =? track a) && has_output then
            '(b, remaining_pre_skip, w) ← audio_packet a (frame_data frame) b remaining_pre_skip w;
            frames_loop fuel' tracks (Some b) has_output remaining_pre_skip clock w
          else frames_loop fuel' tracks decoder has_output remaining_pre_skip clock w
        | _, _ => frames_loop fuel' tracks decoder has_output remaining_pre_skip clock w
        end
    end
  end.

Definition audio_decoder_new (a : AudioTrack) (w : W) : result AvError Buf * W :=
  let '(r, w) := opus_decoder_new (sample_rate a) (channels a) w in (map_err AudioDecoder r, w).

Definition audio_output_new (channels sample_rate : Z) (w : W) : result AvError () * W :=
  if wrap_u16 channels =? 0 then (Err (AudioChannels channels), w)
  else if sample_rate =? 0 then (Err (AudioSampleRate sample_rate), w)
  else let '(r, w) := open_default_sink w in (map_err AudioOutput r, w).

(** An audio output that is not to be had is done without. *)
Definition play_tracks (fuel : nat) (tracks : SelectedTracks) (w : W) : option (result AvError () * W) :=
  match decoder_new w with
  | (Err e, w) => Some (Err (VideoDecoder e), w)
  | (Ok _, w) =>
    let '(decoder, w) :=
      match audio tracks with
      | Some a => let '(r, w) := audio_decoder_new a w in (b ← r; Ok (Some b), w)
      | None => (Ok None, w)
      end in
    match decoder with
    | Err e => Some (Err e, w)
    | Ok decoder =>
      let '(has_output, w) :=
        match audio tracks with
        | Some a => let '(r, w) := audio_output_new (channels a) (sample_rate a) w in (is_ok r, w)
        | None => (false, w)
        end in
      let remaining_pre_skip := from_option (λ a, Z.to_nat (pre_skip a)) 0%nat (audio tracks) in
      frames_loop fuel tracks decoder has_output remaining_pre_skip (clock_new (now w)) w
    end
  end.

Definition play_media_file (fuel : nat) (path : string) (w : W) : option (result AvError () * W) :=
  match open_file path w with
  | (Err e, w) => Some (Err (OpenMedia path e), w)
  | (Ok _, w) =>
    match open_matroska w with
    | (Err e, w) => Some (Err (Demux e), w)
    | (Ok (scale, entries), w) =>
      match select_tracks scale entries with
      | Err e => Some (Err e, w)
      | Ok tracks => play_tracks fuel tracks w
      end
    end
  end.

(** The worker's loop; [send]'s result is ignored. *)
Fixpoint worker_loop (fuel : nat) (media_path : string) (w : W) : option W :=
  match fuel with
  | O => None
  | S fuel' =>
    '(r, w) ← play_media_file fuel media_path w;
    match r with
    | Ok _ => if is_closed w then Some (send PlaybackEnded w).2 else worker_loop fuel' media_path w
    | Err e =>
      let w := (send (PlaybackError (av_error_string e)) w).2 in
      let w := sleep_until (now w + from_secs 1) w in
      if is_closed w then Some (send PlaybackEnded w).2 else worker_loop fuel' media_path w
    end
  end.

Definition run_worker (fuel : nat) (media_path : string) (w : W) : option W :=
  if media_exists media_path w then worker_loop fuel media_path w else Some (send PlaybackEnded w).2.

(** [spawn]: the worker's thread may not start; its sender is dropped then. *)
Definition spawn (thread_started : bool) (fuel : nat) (media_path : string) (w : W) : option W :=
  if thread_started then run_worker fuel media_path w else Some w.

End Playback.

Definition DEFAULT_MEDIA_FILE_NAME : string := "mitb.mkv".

(** [home]: the variable [HOME], or what [env::var] fails with. *)
Definition default_media_path (home : result string string) : result AvError string :=
  home ← map_err MissingHome home;
  Ok (path_join (path_join home ".mitb") DEFAULT_MEDIA_FILE_NAME).

Example default_path : default_media_path (Ok "/home/box/") = Ok "/home/box/.mitb/mitb.mkv".
Proof. vm_compute. reflexivity. Qed.

(** *** Frames on time *)

(** A frame waits for its distance from the first frame, measured from the
    clock's start; a late one, and the first, do not wait. *)
Theorem frame_due (c : PlaybackClock) (now : Z) (ts : option Z) (d base : Z) :
  base_timestamp_ns c = Some base →
  let '(c', target) := wait_until c now ts d in
  let due := start c + sat_sub (synthetic_timestamp_ns c') base in
  start c' = start c ∧ base_timestamp_ns c' = Some base ∧
  (∀ t, ts = Some t → synthetic_timestamp_ns c' = t) ∧
  (ts = None → 0 ≤ synthetic_timestamp_ns c < U64_MAX → synthetic_timestamp_ns c < synthetic_timestamp_ns c' ≤ U64_MAX) ∧
  default now target = Z.max now due.
Proof.
  intros Hb. unfold wait_until. rewrite Hb. cbv zeta. destruct ts as [t|]; cbn [start base_timestamp_ns synthetic_timestamp_ns].
  - split_and!; [done..|by intros ? [= <-]|done|]. destruct (_ <=? _) eqn:E; zb; cbn; lia.
  - split_and!; [done..|unfold sat_add_u64; lia|]. destruct (_ <=? _) eqn:E; zb; cbn; lia.
Qed.

(** *** Draining sends every picture *)

Section Drain.
Context `{Env}.

(** What the decoder has ready in [w]: the pictures it gives, one after the
    other, before it asks for data in [w']. The calls of the drain, waiting and
    sending, do not change what it has ready. *)
Class DrainLaws (ready : W → list Decoded) (sent : W → list AvEvent) : Prop := {
  ready_cons : ∀ w d ds, ready w = d :: ds → ∃ w', get_picture w = (Ok d, w') ∧ ready w' = ds ∧ sent w' = sent w ∧ is_closed w' = is_closed w;
  ready_nil : ∀ w, ready w = [] → ∃ w', get_picture w = (Err Again, w') ∧ ready w' = [] ∧ sent w' = sent w ∧ is_closed w' = is_closed w;
  sleep_ready : ∀ t w, ready (sleep_until t w) = ready w ∧ sent (sleep_until t w) = sent w;
  send_ready : ∀ e w, ready (send e w).2 = ready w ∧ is_closed (send e w).2 = is_closed w;
  send_open : ∀ e w, is_closed w = false → (send e w).1 = true ∧ sent (send e w).2 = sent w ++ [e];
  sleep_open : ∀ t w, is_closed (sleep_until t w) = is_closed w;
}.

(** Everything the decoder has ready is sent in its order, but for the pictures
    of a format the overlay does not take; the drain ends. *)
Theorem drain_sends_ready ready sent `{!DrainLaws ready sent} (dur : Z) (clock : PlaybackClock) (w : W) :
  is_closed w = false →
  ∃ clock' w', (∀ fuel, (length (ready w) < fuel)%nat →
    drain_video_decoder fuel dur clock w = Some (Ok (), clock', w')) ∧
  ready w' = [] ∧ is_closed w' = false ∧
  sent w' = sent w ++ omap (λ d, VideoFrame <$> picture_to_yuv (picture d)) (ready w).
Proof.
  remember (ready w) as ds eqn:Hds. revert clock w Hds. induction ds as [|d ds IH]; intros clock w Hds Hopen.
  { destruct (ready_nil w) as (w' & E & Hr & Hs & Hc); [done|]. exists clock, w'. split_and!; [|done|congruence|].
    - intros [|fuel] ?; [cbn in *; lia|]. cbn. by rewrite E.
    - cbn. by rewrite app_nil_r, Hs. }
  destruct (ready_cons w d ds) as (w1 & E & Hr & Hs & Hc); [done|].
  set (fd := if 0 <? duration d then duration d else dur).
  set (ts := ts ← timestamp d; if 0 <=? ts then Some ts else None).
  destruct (wait_until clock (now w1) ts fd) as [clock2 target] eqn:Ew.
  set (w2 := match target with Some t => sleep_until t w1 | None => w1 end).
  assert (Hw2 : ready w2 = ds ∧ sent w2 = sent w ∧ is_closed w2 = false).
  { subst w2. destruct target as [t|]; [|split_and!; congruence].
    destruct (sleep_ready t w1) as [-> ->]. rewrite sleep_open. split_and!; congruence. }
  destruct Hw2 as (Hr2 & Hs2 & Hc2).
  destruct (picture_to_yuv (picture d)) as [yuv|] eqn:Ey.
  - destruct (send (VideoFrame yuv) w2) as [b w3] eqn:Esend.
    destruct (send_open (VideoFrame yuv) w2 Hc2) as [Hb Hs3], (send_ready (VideoFrame yuv) w2) as [Hr3 Hc3].
    rewrite Esend in Hb, Hs3, Hr3, Hc3. cbn in Hb, Hs3, Hr3, Hc3. subst b.
    destruct (IH clock2 w3) as (clock' & w' & Hd & Hr' & Hc' & Hs'); [congruence..|].
    exists clock', w'. split_and!; [|done..|].
    + intros [|fuel] ?; [cbn in *; lia|]. cbn [drain_video_decoder]. rewrite E. cbv zeta. fold fd ts. rewrite Ew. fold w2.
      rewrite Ey, Esend. apply Hd. cbn in *. lia.
    + rewrite Hs', Hs3, Hs2. cbn. rewrite Ey. cbn. by rewrite <- (assoc_L app).
  - destruct (IH clock2 w2) as (clock' & w' & Hd & Hr' & Hc' & Hs'); [congruence..|].
    exists clock', w'. split_and!; [|done..|].
    + intros [|fuel] ?; [cbn in *; lia|]. cbn [drain_video_decoder]. rewrite E. cbv zeta. fold fd ts. rewrite Ew. fold w2.
      rewrite Ey. apply Hd. cbn in *. lia.
    + rewrite Hs', Hs2. cbn. by rewrite Ey.
Qed.

End Drain.

(** The worker stops only once the application has closed the channel, or when
    there is no file, and says so. *)
Lemma run_worker_ends `{Env} fuel path w w' : run_worker fuel path w = Some w' →
  ∃ w0, w' = (send PlaybackEnded w0).2 ∧ (media_exists path w = true → is_closed w0 = true).
Proof.
  unfold run_worker. destruct (media_exists path w); [|intros [= <-]; by exists w].
  revert w. induction fuel as [|fuel IH]; intros w; cbn [worker_loop]; [done|].
  destruct (play_media_file (S fuel) path w) as [[[[]|e] w1]|]; cbn [mbind option_bind]; [| |done].
  - destruct (is_closed w1) eqn:E; [intros [= <-]; by exists w1|apply IH].
  - cbv zeta. destruct (is_closed (sleep_until _ _)) eqn:E; [intros [= <-]; by eexists|apply IH].
Qed.

(** *** Two channels of integers *)

Definition planar : AudioBuffer Z := {|
  Buf := nat * list (list Z);
  frames := fst;
  chan b c := default [] (snd b !! c);
  clear b := b;
  render_reserved n b := (n, replicate 2 (replicate n 0));
  set_chan c l b := (fst b, <[c := l]> (snd b));
|}.

#[local] Instance planar_laws : AudioBufferLaws planar 2.
Proof.
  split; cbn; [done| |done| |].
  - intros n [m cs] [|[|c]] Hc; cbn; [apply length_replicate..|lia].
  - intros c l [m cs] _ Hl. cbn in *. destruct (decide (c < length cs)%nat).
    + by rewrite list_lookup_insert_eq.
    + rewrite lookup_ge_None_2 in * by (rewrite ?length_insert; lia). cbn in *. by destruct l.
  - intros c c' l [m cs] Hne. cbn. by rewrite list_lookup_insert_ne.
Qed.

Lemma audio_stream_spec_witness :
  let packets := [([1; 2; 3; 4], 2%nat); ([5; 6; 7; 8; 9; 10], 3%nat)] in
  Forall (λ p, p.2 * 2 ≤ length p.1)%nat packets ∧
  @audio_stream Z 0 planar packets 2 (0%nat, []) 3 = Some [7; 8; 9; 10].
Proof.
  cbv zeta. split; [repeat constructor|].
  apply (@audio_stream_spec Z 0 2 planar planar_laws [([1; 2; 3; 4], 2%nat); ([5; 6; 7; 8; 9; 10], 3%nat)]).
  repeat constructor.
Defined.
