(* ===== verification/NumberGame.v ===== *)
(** * The guessing policy: [mitb-examples/number-game/src/lib.rs]; and
    [always-wait/src/lib.rs]

    A policy on the SDK: its three states, and [act] with the log lines and
    rewards it reports.  The random source and the host's reward call are
    parameters, and so is the regex crate. *)

From S2P Require Import Rust HostTypes Sdk Float Mcts.

Inductive State : Type :=
| Initial
| Playing (previous_guess : option Z) (last_guess_text : string)
| Finished.

Record NumberGame := Game { state : State; secret_number : Z }.

(** [NumberGame::default()] with the random number it draws. *)
Definition game_default (random_u64 : Z) : NumberGame := Game Initial (wrap_u32 random_u64).

(** [AlwaysWait::act]. *)
Definition always_wait_act (contents : string) : result string action := Ok Wait.

Inductive effect : Type :=
| LogInfo (line : string)
| Reward (reward : f64).

Definition GUESS_PATTERN : string := "(?s)<guess>\s*([^<]+?)\s*</guess>".

Definition abs_diff (a b : Z) : Z := Z.abs (a - b).

(** The answer to a wrong guess. *)
Definition reply (secret_number guess : Z) (previous_guess : option Z) : string :=
  match previous_guess with
  | None => "Nope, guess again."
  | Some previous_guess =>
    let direction := if secret_number <? guess then "high" else "low" in
    let current_distance := abs_diff guess secret_number in
    let previous_distance := abs_diff previous_guess secret_number in
    if current_distance <? previous_distance then
      "Nope, you're too " +:+ direction +:+ ", that's closer than " +:+ pretty previous_guess +:+ "."
    else if previous_distance <? current_distance then
      "Nope, you're too " +:+ direction +:+ ", that's further than " +:+ pretty previous_guess +:+ "."
    else "Nope, guess again."
  end.

Definition reward (secret_number guess : Z) : f64 :=
  let normalized_distance := f64_div (f64_of_Z (abs_diff guess secret_number)) (f64_of_Z U32_MAX) in
  f64_clamp (f64_sub f64_one normalized_distance) f_zero f64_one.

Section Act.
Context `{RegexCrate}.
(** The host's answer to [report_reward]. *)
Context (report_reward : f64 → result string unit).

(** [report_reward!(r)]: the effect, and what follows it unless it failed. *)
Definition reporting (g : NumberGame) (r : f64) (k : NumberGame * list effect * result string action)
    : NumberGame * list effect * result string action :=
  match report_reward r with
  | Err e => (g, [Reward r], Err e)
  | Ok _ => let '(g, effects, a) := k in (g, Reward r :: effects, a)
  end.

Definition act (g : NumberGame) (pty_contents : string) (random_u64 : Z)
    : NumberGame * list effect * result string action :=
  match state g with
  | Initial =>
    (Game (Playing None "") (secret_number g), [LogInfo ("The goal is: " +:+ pretty (secret_number g))],
     prompt "I'm thinking of a 32-bit unsigned integer. Can you guess what it is? Reply in the format <guess>N</guess> where N is your guess.")
  | Finished => (game_default random_u64, [], prompt "Want to play again? I have a new number in mind!")
  | Playing previous_guess last_guess_text =>
    match regex_capture pty_contents GUESS_PATTERN 1 with
    | Err e => (g, [], Err e)
    | Ok None => (g, [], Ok Wait)
    | Ok (Some guess_text) =>
      if bool_decide (last_guess_text = guess_text) then (g, [], Ok Wait)
      else
        match parse_uint U32_MAX guess_text with
        | None => (g, [], prompt "I couldn't parse your guess. Use format <guess>N</guess> with a u32 value.")
        | Some guess =>
          if guess =? secret_number g then
            reporting (Game (Playing previous_guess guess_text) (secret_number g)) f64_one
              (Game Finished (secret_number g), [], Ok Wait)
          else
            let message := reply (secret_number g) guess previous_guess in
            let g := Game (Playing (Some guess) guess_text) (secret_number g) in
            reporting g (reward (secret_number g) guess) (g, [], prompt message)
        end
    end
  end.

(** The game shown a sequence of contents, each with the random number that
    [act] would draw. *)
Fixpoint act_all (g : NumberGame) (l : list (string * Z)) : NumberGame * list (list effect * result string action) :=
  match l with
  | [] => (g, [])
  | (contents, random_u64) :: l =>
    let '(g, effects, a) := act g contents random_u64 in
    let '(g, outs) := act_all g l in
    (g, (effects, a) :: outs)
  end.

End Act.

(** ** The game *)

(** The guess in what the policy is shown. *)
Definition captured `{RegexCrate} (contents : string) : option Z :=
  match regex_capture contents GUESS_PATTERN 1 with
  | Ok (Some t) => parse_uint U32_MAX t
  | _ => None
  end.

(** What holds of a game: the last text it answered was not the number. *)
Definition well_formed (g : NumberGame) : Prop :=
  0 ≤ secret_number g ≤ U32_MAX ∧
  match state g with
  | Playing _ last_guess_text => parse_uint U32_MAX last_guess_text ≠ Some (secret_number g)
  | _ => True
  end.

Definition is_playing (g : NumberGame) : bool := if state g is Playing _ _ then true else false.
Definition is_finished (g : NumberGame) : bool := if state g is Finished then true else false.

Section Game.
Context `{RegexCrate} (report_reward : f64 → result string unit).
Hypothesis reports : ∀ r, report_reward r = Ok ().

(** Every call keeps the game well formed, and starts a new one, with a number
    of 32 bits, after a finished one. *)
Theorem act_well_formed (g : NumberGame) (contents : string) (random_u64 : Z) : well_formed g →
  well_formed (act report_reward g contents random_u64).1.1.
Proof.
  intros Hwf. pose proof Hwf as [Hs Hg]. unfold act, reporting. destruct (state g) as [|prev last|] eqn:E.
  - split; [done|]. cbn. by vm_compute.
  - destruct (regex_capture _ _ _) as [[t|]|]; [|done..]. case_bool_decide; [done|].
    destruct (parse_uint U32_MAX t) as [guess|] eqn:Ep; [|done].
    rewrite !reports. cbv zeta. destruct (guess =? secret_number g) eqn:Eg; zb; (split; [done|]); [done|].
    cbn. rewrite Ep. congruence.
  - split; [|done]. cbn. unfold wrap_u32, U32_MAX. pose proof (Z.mod_pos_bound random_u64 (2 ^ 32)). lia.
Qed.

(** While a game is played, a call ends it exactly when it is shown the number:
    it then reports a reward of 1 and waits. A new guess that is another number
    is answered with the hint and remembered; what was already answered, or is
    not there, is not answered again. *)
Theorem guess_answered (g : NumberGame) (contents : string) (random_u64 : Z) (previous_guess : option Z) (last : string) :
  well_formed g → state g = Playing previous_guess last →
  let '(g', effects, a) := act report_reward g contents random_u64 in
  secret_number g' = secret_number g ∧
  (is_finished g' = true ↔ captured contents = Some (secret_number g)) ∧
  (is_playing g' = true ↔ captured contents ≠ Some (secret_number g)) ∧
  (is_finished g' = true → effects = [Reward f64_one] ∧ a = Ok Wait) ∧
  (∀ t guess, regex_capture contents GUESS_PATTERN 1 = Ok (Some t) → parse_uint U32_MAX t = Some guess →
     guess ≠ secret_number g → t ≠ last →
     state g' = Playing (Some guess) t ∧ effects = [Reward (reward (secret_number g) guess)] ∧
     a = prompt (reply (secret_number g) guess previous_guess)) ∧
  (regex_capture contents GUESS_PATTERN 1 = Ok None ∨ regex_capture contents GUESS_PATTERN 1 = Ok (Some last) →
     g' = g ∧ effects = [] ∧ a = Ok Wait).
Proof.
  intros [Hs Hg] E. rewrite E in Hg. unfold act, reporting, captured. rewrite E.
  assert (Hsame : is_finished g = false ∧ is_playing g = true) by (unfold is_finished, is_playing; by rewrite E).
  destruct Hsame as [Hf Hp].
  destruct (regex_capture _ _ _) as [[t|]|e]; [|rewrite Hf, Hp; naive_solver..].
  case_bool_decide as Et.
  { subst t. rewrite Hf, Hp. split_and!; try done; naive_solver. }
  destruct (parse_uint U32_MAX t) as [guess|] eqn:Ep.
  - rewrite !reports. cbv zeta. destruct (guess =? secret_number g) eqn:Eg; zb.
    + subst guess. split_and!; try done; try naive_solver congruence.
    + split_and!; try done; try naive_solver congruence.
  - rewrite Hf, Hp. split_and!; try done; try naive_solver congruence.
Qed.

(** A game goes on through any contents that do not show the number. *)
Theorem game_ends_when_guessed (g : NumberGame) (l : list (string * Z)) (contents : string) (random_u64 : Z) :
  well_formed g → is_playing g = true →
  Forall (λ c, captured c.1 ≠ Some (secret_number g)) l →
  let '(g1, _) := act_all report_reward g l in
  is_playing g1 = true ∧ secret_number g1 = secret_number g ∧
  (is_finished (act report_reward g1 contents random_u64).1.1 = true ↔ captured contents = Some (secret_number g)).
Proof.
  intros Hg Hp Hl. revert g Hg Hp Hl. induction l as [|[c r] l IH]; intros g Hg Hp Hl; cbn [act_all].
  - split_and!; [done..|]. unfold is_playing in Hp. destruct (state g) as [|prev last|] eqn:E; try done.
    pose proof (guess_answered g contents random_u64 prev last Hg E) as Ha.
    destruct (act _ _ _ _) as [[g' effects] a]. apply Ha.
  - apply Forall_cons in Hl as [Hc Hl]. pose proof (act_well_formed g c r Hg) as Hw.
    unfold is_playing in Hp. destruct (state g) as [|prev last|] eqn:E; try done.
    pose proof (guess_answered g c r prev last Hg E) as Ha.
    destruct (act report_reward g c r) as [[g1 effects] a]. cbn [fst] in Hw.
    destruct Ha as (Hsec & _ & Hplay & _). apply Hplay in Hc. specialize (IH g1 Hw Hc).
    rewrite Hsec in IH. specialize (IH Hl). destruct (act_all _ _ _) as [g2 outs]. done.
Qed.

End Game.

(** A regex that captures the whole text. *)
Definition whole_text : RegexCrate := {|
  regex := unit;
  regex_new _ := Ok ();
  captures_iter _ s := [[Some s; Some s]];
|}.

Lemma game_ends_when_guessed_witness :
  let g := Game (Playing None "") 42 in
  let l := [("7", 0); ("what?", 0); ("50", 0); ("50", 0)] in
  well_formed g ∧ is_playing g = true ∧ Forall (λ c, @captured whole_text c.1 ≠ Some 42) l ∧
  let '(g1, _) := @act_all whole_text (λ _, Ok ()) g l in
  is_playing g1 = true ∧ secret_number g1 = 42 ∧
  (is_finished (@act whole_text (λ _, Ok ()) g1 "42" 0).1.1 = true ↔ @captured whole_text "42" = Some 42).
Proof.
  cbv zeta. assert (Hl : Forall (λ c, @captured whole_text c.1 ≠ Some 42) [("7", 0); ("what?", 0); ("50", 0); ("50", 0)]).
  { repeat constructor; vm_compute; discriminate. }
  assert (Hg : well_formed (Game (Playing None "") 42)) by (split; [unfold U32_MAX; cbn; lia|vm_compute; discriminate]).
  split; [exact Hg|]. split; [reflexivity|]. split; [exact Hl|].
  apply (@game_ends_when_guessed whole_text (λ _, Ok ()) (λ _, eq_refl) (Game (Playing None "") 42)
           [("7", 0); ("what?", 0); ("50", 0); ("50", 0)] "42" 0 Hg eq_refl Hl).
Defined.

(** The hints, and the game after a win. *)
Example a_game :
  map (λ out, out.2) (@act_all whole_text (λ _, Ok ()) (game_default 42) [("", 0); ("7", 0); ("50", 0); ("4x", 0); ("42", 0); ("42", 9)]).2 =
  [prompt "I'm thinking of a 32-bit unsigned integer. Can you guess what it is? Reply in the format <guess>N</guess> where N is your guess.";
   prompt "Nope, guess again."; prompt "Nope, you're too high, that's closer than 7.";
   prompt "I couldn't parse your guess. Use format <guess>N</guess> with a u32 value."; Ok Wait;
   prompt "Want to play again? I have a new number in mind!"].
Proof. vm_compute. reflexivity. Qed.
