(* ===== verification/TreeSitter.v ===== *)
(** * The query provider: [mitb-examples/treesitter-provider/src/lib.rs]

    Trees and queries behind handles, and matches with their positions in the
    text.  The regex crate's matches are a parameter. *)

From S2P Require Import Rust.

Inductive ParseError : Type := PUnsupportedLanguage | ParseFailed | PInternal.
Inductive QueryError : Type := QUnsupportedLanguage | InvalidQuery | UnknownTree | UnknownQuery | QInternal.

Record Point := MkPoint { row : Z; column : Z }.
Record Span := MkSpan { start_byte : Z; end_byte : Z; start : Point; stop : Point }.
Record Capture := MkCapture { name : string; span : Span; text : string }.
Record QueryMatch := MkMatch { pattern_index : Z; captures : list Capture }.

Record ParsedTree := Tree { tree_language : string }.
Inductive QueryMode : Type := Decision | Halstead.
Record CompiledQuery := Query { query_language : string; mode : QueryMode }.

(** ** Positions *)

Record LineIndex := MkIndex { starts : list nat }.

Fixpoint line_starts (l : bytes) (index : nat) : list nat :=
  match l with
  | [] => []
  | b :: l => if bool_decide (b = LF) then S index :: line_starts l (S index) else line_starts l (S index)
  end.

Definition index_new (source : bytes) : LineIndex := MkIndex (0%nat :: line_starts source 0).

(** [partition_point] of a list whose elements that satisfy [f] come first. *)
Definition partition_point (f : nat → bool) (l : list nat) : nat := length (filter (λ n, f n = true) l).

(** [None]: the index panics. *)
Definition point_for_offset (i : LineIndex) (offset : nat) : option Point :=
  let row := (partition_point (λ start, (start <=? offset)%nat) (starts i) - 1)%nat in
  start ← starts i !! row;
  Some (MkPoint (wrap_u32 (Z.of_nat row)) (wrap_u32 (Z.of_nat (offset - start)))).

Definition capture (source : bytes) (i : LineIndex) (name : string) (start_byte end_byte : nat) : option Capture :=
  start ← point_for_offset i start_byte;
  stop ← point_for_offset i end_byte;
  let text := if (start_byte <=? end_byte)%nat && (end_byte <=? length source)%nat &&
                 is_char_boundary source start_byte && is_char_boundary source end_byte
              then bytes_str (take (end_byte - start_byte) (drop start_byte source)) else "" in
  Some (MkCapture name (MkSpan (wrap_u32 (Z.of_nat start_byte)) (wrap_u32 (Z.of_nat end_byte)) start stop) text).

(** ** The provider *)

(** The matches of the three constant patterns: their ranges in the text. *)
Class Patterns : Type := {
  decision_matches : string → list (nat * nat);
  operator_matches : string → list (nat * nat);
  operand_matches : string → list (nat * nat);
}.

Record Provider := MkProvider {
  NEXT_TREE_ID : Z;
  NEXT_QUERY_ID : Z;
  TREES : gmap Z ParsedTree;
  QUERIES : gmap Z CompiledQuery;
  trees_poisoned : bool;
  queries_poisoned : bool;
}.

Definition provider_new : Provider := MkProvider 1 1 ∅ ∅ false false.

Definition list_languages : list string := ["rust"].

Definition parse (p : Provider) (language source : string) : Provider * result ParseError Z :=
  if negb (bool_decide (language = "rust")) then (p, Err PUnsupportedLanguage)
  else
    let tree_id := NEXT_TREE_ID p in
    let next := wrap_u32 (tree_id + 1) in
    if trees_poisoned p then
      (MkProvider next (NEXT_QUERY_ID p) (TREES p) (QUERIES p) (trees_poisoned p) (queries_poisoned p), Err PInternal)
    else
      (MkProvider next (NEXT_QUERY_ID p) (<[tree_id := Tree language]> (TREES p)) (QUERIES p)
         (trees_poisoned p) (queries_poisoned p), Ok tree_id).

Definition query_mode (query : string) : option QueryMode :=
  if str_contains query "@decision" then Some Decision
  else if str_contains query "@operator" || str_contains query "@operand" then Some Halstead
  else None.

Definition query_compile (p : Provider) (language query : string) : Provider * result QueryError Z :=
  if negb (bool_decide (language = "rust")) then (p, Err QUnsupportedLanguage)
  else
    match query_mode query with
    | None => (p, Err InvalidQuery)
    | Some mode =>
      let query_id := NEXT_QUERY_ID p in
      let next := wrap_u32 (query_id + 1) in
      if queries_poisoned p then
        (MkProvider (NEXT_TREE_ID p) next (TREES p) (QUERIES p) (trees_poisoned p) (queries_poisoned p), Err QInternal)
      else
        (MkProvider (NEXT_TREE_ID p) next (TREES p) (<[query_id := Query language mode]> (QUERIES p))
           (trees_poisoned p) (queries_poisoned p), Ok query_id)
    end.

Section Exec.
Context `{Patterns}.

(** One loop over found ranges: matches are pushed while [count] allows. *)
Fixpoint push_matches (source : bytes) (i : LineIndex) (name : string) (pattern : Z) (found : list (nat * nat))
    (max_matches count : nat) (matches : list QueryMatch) : option (nat * list QueryMatch) :=
  match found with
  | [] => Some (count, matches)
  | (a, b) :: found =>
    if (max_matches <=? count)%nat then Some (count, matches)
    else
      c ← capture source i name a b;
      push_matches source i name pattern found max_matches (S count) (matches ++ [MkMatch pattern [c]])
  end.

(** [None]: a panic. *)
Definition query_exec (p : Provider) (query_id tree_id : Z) (source : string) (limit : option Z)
    : option (result QueryError (list QueryMatch)) :=
  if queries_poisoned p then Some (Err QInternal)
  else
    match QUERIES p !! query_id with
    | None => Some (Err UnknownQuery)
    | Some query =>
      if trees_poisoned p then Some (Err QInternal)
      else
        match TREES p !! tree_id with
        | None => Some (Err UnknownTree)
        | Some tree =>
          if negb (bool_decide (tree_language tree = query_language query)) then Some (Err QUnsupportedLanguage)
          else
            let max_matches := Z.to_nat (default U32_MAX limit) in
            let s := str_bytes source in
            let i := index_new s in
            match mode query with
            | Decision =>
              '(_, matches) ← push_matches s i "decision" 0 (take max_matches (decision_matches source)) max_matches 0 [];
              Some (Ok matches)
            | Halstead =>
              '(count, matches) ← push_matches s i "operator" 0 (operator_matches source) max_matches 0 [];
              '(_, matches) ← push_matches s i "operand" 1 (operand_matches source) max_matches count matches;
              Some (Ok matches)
            end
        end
    end.

End Exec.

Definition drop_tree (p : Provider) (tree_id : Z) : Provider :=
  if trees_poisoned p then p
  else MkProvider (NEXT_TREE_ID p) (NEXT_QUERY_ID p) (delete tree_id (TREES p)) (QUERIES p)
         (trees_poisoned p) (queries_poisoned p).

Definition drop_query (p : Provider) (query_id : Z) : Provider :=
  if queries_poisoned p then p
  else MkProvider (NEXT_TREE_ID p) (NEXT_QUERY_ID p) (TREES p) (delete query_id (QUERIES p))
         (trees_poisoned p) (queries_poisoned p).

(** ** Positions are rows and columns *)

Definition newlines (l : bytes) : nat := length (filter (λ b, b = LF) l).

Notation upto off l := (partition_point (λ start, (start <=? off)%nat) l).

Lemma partition_point_cons f x l : partition_point f (x :: l) = ((if f x then 1 else 0) + partition_point f l)%nat.
Proof. unfold partition_point. rewrite filter_cons. by destruct (f x). Qed.

Lemma line_starts_above l k off : (off ≤ k)%nat → upto off (line_starts l k) = 0%nat.
Proof.
  revert k. induction l as [|b l IH]; intros k Hk; cbn [line_starts]; [done|].
  destruct (bool_decide (b = LF)); [|by rewrite IH by lia]. rewrite partition_point_cons, IH by lia.
  destruct (S k <=? off)%nat eqn:E; zb; [lia|done].
Qed.

(** The line starts up to an offset: one for each newline before it, the last
    of them just after a newline with none from there to the offset. *)
Lemma line_starts_point l k off : (k ≤ off)%nat → (off ≤ k + length l)%nat →
  upto off (line_starts l k) = newlines (take (off - k) l) ∧
  match newlines (take (off - k) l) with
  | O => ∀ i, (i < off - k)%nat → l !! i ≠ Some LF
  | S m => ∃ p, line_starts l k !! m = Some (S p) ∧ (k ≤ p < off)%nat ∧ l !! (p - k)%nat = Some LF ∧
                ∀ i, (p - k < i < off - k)%nat → l !! i ≠ Some LF
  end.
Proof.
  revert k. induction l as [|b l IH]; intros k Hk Hoff.
  { cbn in Hoff. replace (off - k)%nat with 0%nat by lia. split; [done|]. cbn; intros; lia. }
  destruct (decide (off = k)) as [->|Hne].
  { rewrite Nat.sub_diag. split; [by apply line_starts_above|]. cbn; intros; lia. }
  cbn [length] in Hoff. destruct (IH (S k)) as [Hn Hm]; [lia..|].
  replace (off - k)%nat with (S (off - S k)) by lia. cbn [take line_starts]. unfold newlines in *. rewrite filter_cons.
  destruct (decide (b = LF)) as [->|Hb].
  - rewrite bool_decide_eq_true_2 by done. rewrite partition_point_cons, Hn. rewrite (proj2 (Nat.leb_le (S k) off)) by lia.
    split; [done|]. cbn [length]. destruct (length (filter _ (take (off - S k) l))) as [|m].
    + exists k. rewrite Nat.sub_diag. split_and!; try done; try lia.
      intros [|i] Hi; [lia|]. apply Hm. lia.
    + destruct Hm as (p & Hp & Hkp & Hlf & Hno). exists p. cbn [lookup list_lookup]. split_and!; [done|lia..| |].
      * by replace (p - k)%nat with (S (p - S k)) by lia.
      * intros [|i] Hi; [lia|]. apply Hno. lia.
  - rewrite bool_decide_eq_false_2 by done. split; [done|].
    destruct (length (filter _ (take (off - S k) l))) as [|m].
    + intros [|i] Hi; [by intros [= ->]|]. apply Hm. lia.
    + destruct Hm as (p & Hp & Hkp & Hlf & Hno). exists p. split_and!; [done|lia..| |].
      * by replace (p - k)%nat with (S (p - S k)) by lia.
      * intros [|i] Hi; [lia|]. apply Hno. lia.
Qed.

Lemma index_upto s off : (off ≤ length s)%nat → upto off (starts (index_new s)) = S (newlines (take off s)).
Proof.
  intros Hl. cbn [starts index_new]. rewrite partition_point_cons.
  destruct (line_starts_point s 0 off) as [-> _]; [lia..|]. by rewrite Nat.sub_0_r.
Qed.

(** A position is the row, the number of newlines before the offset, and the
    column, the distance from the start of the row: that start is the
    beginning of the text or just after a newline, with no newline from there
    to the offset. *)
Theorem point_is_position (source : bytes) (offset : nat) :
  (offset ≤ length source)%nat → Z.of_nat (length source) ≤ U32_MAX →
  ∃ r c, point_for_offset (index_new source) offset = Some (MkPoint (Z.of_nat r) (Z.of_nat c)) ∧
  r = newlines (take offset source) ∧ (c ≤ offset)%nat ∧
  (offset - c = 0 ∨ source !! (offset - c - 1) = Some LF)%nat ∧
  ∀ i, (offset - c ≤ i < offset)%nat → source !! i ≠ Some LF.
Proof.
  intros Hl Hmax. unfold point_for_offset. rewrite index_upto by done. cbn [Nat.sub]. rewrite Nat.sub_0_r.
  assert (Hr : (newlines (take offset source) ≤ length source)%nat).
  { unfold newlines. etrans; [apply length_filter|]. rewrite length_take. lia. }
  assert (Hw : ∀ n, (n ≤ length source)%nat → wrap_u32 (Z.of_nat n) = Z.of_nat n).
  { intros n Hn. unfold wrap_u32, U32_MAX in *. apply Z.mod_small. lia. }
  destruct (line_starts_point source 0 offset) as [_ Hm]; [lia..|]. rewrite Nat.sub_0_r in Hm.
  destruct (newlines (take offset source)) as [|m] eqn:En.
  - cbn [starts index_new lookup list_lookup mbind option_bind]. rewrite !Hw by lia. exists 0%nat, (offset - 0)%nat.
    split_and!; try done; try lia. intros i Hi. apply Hm. lia.
  - destruct Hm as (p & Hp & Hkp & Hlf & Hno).
    change (starts (index_new source) !! S m) with (line_starts source 0 !! m). rewrite Hp.
    cbn [mbind option_bind]. rewrite !Hw by lia. exists (S m), (offset - S p)%nat. split_and!; try done; try lia.
    + right. rewrite Nat.sub_0_r in Hlf. by replace (offset - (offset - S p) - 1)%nat with p by lia.
    + intros i Hi. apply Hno. lia.
Qed.

(** ** Matches *)

Lemma point_total s off : is_Some (point_for_offset (index_new s) off).
Proof.
  unfold point_for_offset. set (n := upto off (starts (index_new s))).
  assert (Hn : (n ≤ length (starts (index_new s)))%nat) by apply length_filter.
  destruct (lookup_lt_is_Some_2 (starts (index_new s)) (n - 1)%nat) as [p ->]; [cbn in *; lia|by eexists].
Qed.

Lemma capture_total s name a b : ∃ c, capture s (index_new s) name a b = Some c.
Proof.
  unfold capture. destruct (point_total s a) as [p ->], (point_total s b) as [q ->]. cbn. by eexists.
Qed.

Section Matches.
Context `{Patterns}.

(** The match of a range. *)
Definition the_match (source : bytes) (name : string) (pattern : Z) (r : nat * nat) : option QueryMatch :=
  c ← capture source (index_new source) name r.1 r.2; Some (MkMatch pattern [c]).

(** Every match of a query, in order. *)
Definition all_matches (m : QueryMode) (source : string) : list QueryMatch :=
  let s := str_bytes source in
  match m with
  | Decision => omap (the_match s "decision" 0) (decision_matches source)
  | Halstead => omap (the_match s "operator" 0) (operator_matches source) ++ omap (the_match s "operand" 1) (operand_matches source)
  end.

Lemma omap_the_match_cons s name pattern r found : ∃ m,
  the_match s name pattern r = Some m ∧
  omap (the_match s name pattern) (r :: found) = m :: omap (the_match s name pattern) found.
Proof.
  destruct (capture_total s name r.1 r.2) as [c Hc]. exists (MkMatch pattern [c]).
  assert (Hm : the_match s name pattern r = Some (MkMatch pattern [c])) by (unfold the_match; by rewrite Hc).
  split; [done|]. cbn [omap list_omap]. by rewrite Hm.
Qed.

Lemma omap_the_match_length s name pattern found : length (omap (the_match s name pattern) found) = length found.
Proof.
  induction found as [|r found IH]; [done|]. destruct (omap_the_match_cons s name pattern r found) as (m & _ & ->).
  cbn [length]. by rewrite IH.
Qed.

Lemma omap_the_match_take s name pattern n found :
  omap (the_match s name pattern) (take n found) = take n (omap (the_match s name pattern) found).
Proof.
  revert n. induction found as [|r found IH]; intros [|n]; [done..|]. cbn [take].
  destruct (omap_the_match_cons s name pattern r found) as (m & Hm & ->).
  destruct (omap_the_match_cons s name pattern r (take n found)) as (m' & Hm' & ->).
  rewrite Hm in Hm'. injection Hm' as ->. cbn [take]. by rewrite IH.
Qed.

Lemma push_matches_spec s name pattern found max count matches :
  push_matches s (index_new s) name pattern found max count matches =
  Some (count + Nat.min (max - count) (length found),
        matches ++ take (max - count) (omap (the_match s name pattern) found))%nat.
Proof.
  revert count matches. induction found as [|r found IH]; intros count matches; cbn [push_matches].
  { cbn. by rewrite take_nil, app_nil_r, Nat.min_0_r, Nat.add_0_r. }
  destruct r as [a b]. destruct (max <=? count)%nat eqn:E; zb.
  - replace (max - count)%nat with 0%nat by lia. by rewrite take_0, app_nil_r, Nat.add_0_r.
  - destruct (omap_the_match_cons s name pattern (a, b) found) as (m & Hm & ->).
    unfold the_match in Hm. cbn [fst snd] in Hm.
    destruct (capture s (index_new s) name a b) as [c|]; [|done]. injection Hm as <-. cbn [mbind option_bind].
    rewrite IH. replace (max - count)%nat with (S (max - S count)) by lia. cbn [take].
    rewrite <- (assoc_L app). f_equal. f_equal. cbn [length]. lia.
Qed.

(** [query_exec] on a live query and a live tree of its language returns the
    first [limit] matches, operators before operands, and never panics. *)
Theorem query_exec_matches (p : Provider) (query_id tree_id : Z) (q : CompiledQuery) (t : ParsedTree) (source : string)
    (limit : option Z) :
  queries_poisoned p = false → trees_poisoned p = false →
  QUERIES p !! query_id = Some q → TREES p !! tree_id = Some t → tree_language t = query_language q →
  query_exec p query_id tree_id source limit =
  Some (Ok (take (Z.to_nat (default U32_MAX limit)) (all_matches (mode q) source))).
Proof.
  intros Hq Ht Eq Et El. unfold query_exec. rewrite Hq, Ht, Eq, Et, El, bool_decide_eq_true_2 by done. cbn [negb]. cbv zeta.
  set (n := Z.to_nat _). unfold all_matches. destruct (mode q).
  - rewrite push_matches_spec. cbn [mbind option_bind app]. rewrite Nat.sub_0_r. do 2 f_equal.
    by rewrite omap_the_match_take, take_take, Nat.min_id.
  - rewrite push_matches_spec. cbn [mbind option_bind app]. rewrite push_matches_spec. cbn [mbind option_bind].
    rewrite Nat.sub_0_r, take_app, omap_the_match_length. cbn [Nat.add]. do 2 f_equal. f_equal. f_equal. lia.
Qed.

End Matches.

(** ** A concrete text *)

#[local] Instance some_patterns : Patterns := {|
  decision_matches _ := [(8, 10); (14, 16)]%nat;
  operator_matches _ := [(2, 3)]%nat;
  operand_matches _ := [(0, 1); (4, 5)]%nat;
|}.

Definition some_source : string := bytes_str (str_bytes "a = b" ++ [LF] ++ str_bytes "  if c" ++ [LF] ++ str_bytes " if d").

Example some_position : point_for_offset (index_new (str_bytes some_source)) 14 = Some (MkPoint 2 1).
Proof. reflexivity. Qed.

Lemma query_exec_matches_witness :
  let p := MkProvider 2 3 {[1 := Tree "rust"]} {[2 := Query "rust" Halstead]} false false in
  queries_poisoned p = false ∧ trees_poisoned p = false ∧ QUERIES p !! 2 = Some (Query "rust" Halstead) ∧
  TREES p !! 1 = Some (Tree "rust") ∧
  query_exec p 2 1 some_source (Some 2) =
  Some (Ok (take (Z.to_nat (default U32_MAX (Some 2))) (all_matches Halstead some_source))).
Proof.
  cbv zeta. do 4 (split; [reflexivity|]).
  apply (query_exec_matches (MkProvider 2 3 {[1 := Tree "rust"]} {[2 := Query "rust" Halstead]} false false) 2 1
           (Query "rust" Halstead) (Tree "rust")); reflexivity.
Defined.

Lemma point_is_position_witness :
  (14 ≤ length (str_bytes some_source))%nat ∧ Z.of_nat (length (str_bytes some_source)) ≤ U32_MAX ∧
  ∃ r c, point_for_offset (index_new (str_bytes some_source)) 14 = Some (MkPoint (Z.of_nat r) (Z.of_nat c)) ∧
  r = newlines (take 14 (str_bytes some_source)) ∧ (c ≤ 14)%nat ∧
  (14 - c = 0 ∨ str_bytes some_source !! (14 - c - 1) = Some LF)%nat ∧
  ∀ i, (14 - c ≤ i < 14)%nat → str_bytes some_source !! i ≠ Some LF.
Proof.
  split; [cbn; lia|]. split; [vm_compute; discriminate|].
  apply (point_is_position (str_bytes some_source) 14); [cbn; lia|vm_compute; discriminate].
Defined.
