(* ===== verification/Maintainability.v ===== *)
(** * The maintainability policy: [mitb-examples/maintainability/src/lib.rs]

    The policy that measures a repository, commits it and walks the search tree
    of its commits: the SDK's file search, git wrapper and tree search, and the
    query provider it is composed with, in one [act]. *)

From S2P Require Import Rust HostTypes Sdk Float Mcts SdkFs SdkGit TreeSitter.

Definition RUST_LANGUAGE : string := "rust".
Definition CYCLOMATIC_QUERY : string := "
[
  (if_expression)
  (match_expression)
  (for_expression)
  (while_expression)
  (loop_expression)
] @decision
".
Definition HALSTEAD_QUERY : string := "
[
  (binary_expression)
  (unary_expression)
  (assignment_expression)
  (call_expression)
  (field_expression)
  (index_expression)
  (if_expression)
  (match_expression)
  (for_expression)
  (while_expression)
  (loop_expression)
  (return_expression)
  (break_expression)
  (continue_expression)
] @operator

[
  (identifier)
  (integer_literal)
  (float_literal)
  (char_literal)
  (string_literal)
] @operand
".
Definition MCTS_MAX_DEPTH : nat := 32.

Record BestRewardCommit := MkBest { best_commit : string; best_reward_of : f64 }.

Record SearchState := MkSearchState {
  navigator : PendingTreeSearch;
  best_reward_commit : option BestRewardCommit;
}.

Record PolicyState := MkPolicyState {
  session_id : option string;
  created_branch_count : Z;
  search : option SearchState;
}.

Record Maintainability := MkMaintainability {
  action_index : Z;
  cyclomatic_query_id : option Z;
  halstead_query_id : option Z;
  pstate : PolicyState;
}.

Definition maintainability_default : Maintainability := MkMaintainability 0 None None (MkPolicyState None 0 None).

Definition set_search (m : Maintainability) (s : option SearchState) : Maintainability :=
  MkMaintainability (action_index m) (cyclomatic_query_id m) (halstead_query_id m)
    (MkPolicyState (session_id (pstate m)) (created_branch_count (pstate m)) s).

Definition query_error_string (e : QueryError) : string :=
  match e with
  | QUnsupportedLanguage => "unsupported language"
  | InvalidQuery => "invalid query"
  | UnknownTree => "unknown tree"
  | UnknownQuery => "unknown query"
  | QInternal => "internal query error"
  end.

Definition parse_error_string (e : ParseError) : string :=
  match e with
  | PUnsupportedLanguage => "unsupported language"
  | ParseFailed => "parse failed"
  | PInternal => "internal parse error"
  end.

(** [f64::max]. *)
Definition f64_max (a b : f64) : f64 :=
  if f_is_nan a then b else if f_is_nan b then a else if f_ltb a b then b else a.

Definition ALPHANUMERIC : bytes := str_bytes "0123456789ABCDEFGHIJKLMNOPQRSTUVWXYZabcdefghijklmnopqrstuvwxyz".

(** [generate_session_id], of the random bytes the host gave. *)
Definition generate_session_id (random : bytes) : string :=
  bytes_str ((λ b, default "0"%char (ALPHANUMERIC !! (Z.to_nat (code b mod 62)))) <$> random).

(** [count_lines] of a text. *)
Definition count_text_lines (text : string) : Z :=
  match last (str_bytes text) with
  | None => 0
  | Some b =>
    let newline_count := Z.of_nat (length (filter (fun b => b = LF) (str_bytes text))) in
    if bool_decide (b = LF) then newline_count else newline_count + 1
  end.

Inductive effect : Type :=
| LogInfo (line : string)
| Reward (reward : f64).

Definition git_repo : GitRepo := SdkGit.new ".".

Section Policy.
Context `{MctsEnv} `{GuestFs} `{Glob} `{Patterns}.
(** The git side of the world and the process runner, the text of UTF-8 errors,
    the host's answer to a reward, [f64::log2] and the formatting of floats
    with two and four decimals. *)
Context {W : Type} (run_process : string → list string → W → result string bytes * W).
Context (utf8_error : bytes → string).
Context (report_reward : f64 → result string unit).
Context (f64_log2 : f64 → f64).
Context (format2 format4 : f64 → string).

Record World := MkWorld {
  self : Maintainability;
  git : W;
  provider : Provider;
  mcts_disk : disk;
  effects : list effect;
}.

(** *** The monad of [act]: the world, errors, and [None] for a panic or a lack
    of fuel *)
Definition M (A : Type) : Type := World → option (result string A * World).

#[local] Instance M_ret : MRet M := λ A a w, Some (Ok a, w).
#[local] Instance M_bind : MBind M := λ A B k m w,
  match m w with
  | None => None
  | Some (Err e, w) => Some (Err e, w)
  | Some (Ok a, w) => k a w
  end.

Definition lift {A} (r : result string A) : M A := λ w, Some (r, w).
Definition fuelled {A} (r : option (result string A)) : M A := λ w, r ← r; Some (r, w).
Definition gets {A} (f : World → A) : M A := λ w, Some (Ok (f w), w).
Definition put_self (m : Maintainability) : M unit :=
  λ w, Some (Ok (), MkWorld m (git w) (provider w) (mcts_disk w) (effects w)).
Definition emit (e : effect) : M unit :=
  λ w, Some (Ok (), MkWorld (self w) (git w) (provider w) (mcts_disk w) (effects w ++ [e])).
Definition on_git {A} (f : W → result string A * W) : M A :=
  λ w, let '(r, g) := f (git w) in Some (r, MkWorld (self w) g (provider w) (mcts_disk w) (effects w)).
Definition on_provider {E A} (f : Provider → Provider * result E A) (err : E → string) : M A :=
  λ w, let '(p, r) := f (provider w) in
       Some (map_err err r, MkWorld (self w) (git w) p (mcts_disk w) (effects w)).

Definition reporting (r : f64) : M unit := _ ← emit (Reward r); lift (report_reward r).

(** *** Metrics *)

Definition compute_maintainability_index (halstead_volume cyclomatic_complexity loc : f64) : f64 :=
  let safe_volume := f64_max halstead_volume f64_one in
  let safe_loc := f64_max loc f64_one in
  let raw :=
    f64_sub (f64_sub (f64_sub (f64_of_Z 171) (f64_mul (f64_lit 52 10) (f64_ln safe_volume)))
               (f64_mul (f64_lit 23 100) cyclomatic_complexity))
      (f64_mul (f64_lit 162 10) (f64_ln safe_loc)) in
  f64_div (f64_mul raw (f64_of_Z 100)) (f64_of_Z 171).

(** The captures of a kind, their texts. *)
Definition captured_texts (kind : string) (matches : list QueryMatch) : list string :=
  TreeSitter.text <$> filter (λ c, TreeSitter.name c = kind) (concat (captures <$> matches)).

(** The Halstead volume of the matches. *)
Definition halstead_volume (matches : list QueryMatch) : f64 :=
  let operators := captured_texts "operator" matches in
  let operands := captured_texts "operand" matches in
  let n1 := f64_of_Z (Z.of_nat (size (list_to_set operators : gset string))) in
  let n2 := f64_of_Z (Z.of_nat (size (list_to_set operands : gset string))) in
  let n_total := f64_add (f64_of_Z (Z.of_nat (length operators))) (f64_of_Z (Z.of_nat (length operands))) in
  let vocabulary := f64_max (f64_add n1 n2) (f64_of_Z 2) in
  f64_mul n_total (f64_log2 vocabulary).

(** *** The steps of [act] *)

Definition ensure_queries : M (Z * Z) :=
  m ← gets self;
  _ ← (match cyclomatic_query_id m with
       | Some _ => mret ()
       | None =>
         id ← on_provider (λ p, query_compile p RUST_LANGUAGE CYCLOMATIC_QUERY)
                (λ e, "failed compiling cyclomatic query: " +:+ query_error_string e);
         put_self (MkMaintainability (action_index m) (Some id) (halstead_query_id m) (pstate m))
       end);
  m ← gets self;
  _ ← (match halstead_query_id m with
       | Some _ => mret ()
       | None =>
         id ← on_provider (λ p, query_compile p RUST_LANGUAGE HALSTEAD_QUERY)
                (λ e, "failed compiling halstead query: " +:+ query_error_string e);
         put_self (MkMaintainability (action_index m) (cyclomatic_query_id m) (Some id) (pstate m))
       end);
  m ← gets self;
  lift (match cyclomatic_query_id m, halstead_query_id m with
        | Some c, Some h => Ok (c, h)
        | _, _ => Err "query IDs were not initialized"
        end).

Definition ensure_session_id_recorded (random : bytes) : M unit :=
  m ← gets self;
  match session_id (pstate m) with
  | Some _ => mret ()
  | None =>
    put_self (MkMaintainability (action_index m) (cyclomatic_query_id m) (halstead_query_id m)
                (MkPolicyState (Some (generate_session_id random)) (created_branch_count (pstate m)) (search (pstate m))))
  end.

Definition current_git_snapshot : M GitSnapshot := on_git (snapshot run_process utf8_error git_repo).

Definition ensure_search_state_recorded : M unit :=
  m ← gets self;
  match search (pstate m) with
  | Some _ => mret ()
  | None =>
    snap ← current_git_snapshot;
    d ← gets mcts_disk;
    tree ← fuelled (Ok <$> build d (builder_new (sha snap)));
    put_self (set_search m (Some (MkSearchState (with_tree tree) None)))
  end.

Definition next_search_branch_name : M string :=
  m ← gets self;
  let st := pstate m in
  match session_id st with
  | None => lift (Err "missing session id for branch selection")
  | Some id =>
    let count := sat_add_u64 (created_branch_count st) 1 in
    _ ← put_self (MkMaintainability (action_index m) (cyclomatic_query_id m) (halstead_query_id m)
                    (MkPolicyState (Some id) count (search st)));
    mret ("mitb/maintainability-" +:+ id +:+ "-" +:+ pretty count)
  end.

(** The best commit after a reward; a tie keeps the earlier one. *)
Definition update_best (best : option BestRewardCommit) (commit : string) (reward : f64) : BestRewardCommit :=
  match best with
  | Some b => if f_ltb (best_reward_of b) reward then MkBest commit reward else b
  | None => MkBest commit reward
  end.

Definition record_best_reward_commit (commit : string) (reward : f64) : M (string * f64) :=
  m ← gets self;
  match search (pstate m) with
  | None => lift (Err "missing search state")
  | Some s =>
    let best := update_best (best_reward_commit s) commit reward in
    _ ← put_self (set_search m (Some (MkSearchState (navigator s) (Some best))));
    mret (best_commit best, best_reward_of best)
  end.

Definition commit_iteration_snapshot (mi : f64) : M GitSnapshot :=
  m ← gets self;
  _ ← on_git (add_all run_process git_repo);
  sha ← on_git (commit_all run_process utf8_error git_repo
                  ("maintainability iteration " +:+ pretty (action_index m) +:+ " mi " +:+ format2 mi) true);
  branch ← on_git (current_branch run_process utf8_error git_repo);
  mret (Snapshot sha branch).

Definition checkout_selected_commit (commit : string) : M string :=
  branch_name ← next_search_branch_name;
  _ ← on_git (switch_create_or_reset run_process git_repo branch_name commit);
  mret branch_name.

(** [backpropagate_and_select] on the search state's navigator. *)
Definition navigate_in (m : Maintainability) (s : SearchState) (commit : string) (reward : f64) : M SelectionStep := λ w,
  match backpropagate_and_select (mcts_disk w) (navigator s) commit reward MCTS_MAX_DEPTH with
  | None => None
  | Some (d, nav, r) =>
    Some (r, MkWorld (set_search m (Some (MkSearchState nav (best_reward_commit s)))) (git w) (provider w) d (effects w))
  end.

Definition navigate (commit : string) (reward : f64) : M SelectionStep :=
  m ← gets self;
  match search (pstate m) with
  | None => lift (Err "missing search state")
  | Some s => navigate_in m s commit reward
  end.

Definition navigate_reward_landscape (mi reward : f64) (rust_loc : Z) (snap : GitSnapshot) : M unit :=
  let reward := normalize_reward reward in
  step ← navigate (sha snap) reward;
  '(best, best_reward) ← record_best_reward_commit (sha snap) reward;
  branch_name ← checkout_selected_commit (selected_key step);
  emit (LogInfo ("mi=" +:+ format2 mi +:+ " reward=" +:+ format4 reward +:+ " rust_loc=" +:+ pretty rust_loc +:+
                 " selected_commit=" +:+ selected_key step +:+ " selected_path=" +:+ String.concat " -> " (selected_path step) +:+
                 " branch=" +:+ branch_name +:+ " best_reward_commit=" +:+ best +:+ " best_reward=" +:+ format4 best_reward)).

(** *** A file's metrics *)

Record Sums := MkSums {
  analyzed_files : Z;
  mi_sum : f64;
  cyclomatic_sum : f64;
  halstead_volume_sum : f64;
  loc_sum : f64;
}.

Definition run_query (query_id tree_id : Z) (source err : string) : M (list QueryMatch) := λ w,
  match query_exec (provider w) query_id tree_id source None with
  | None => None
  | Some r => Some (map_err (λ e, err +:+ query_error_string e) r, w)
  end.

Definition analyze_file (queries : Z * Z) (file : PathMatch) (s : Sums) : M Sums :=
  source ← lift (read_text utf8_error (path file));
  let file_loc := f64_of_Z (count_text_lines source) in
  tree_id ← on_provider (λ p, TreeSitter.parse p RUST_LANGUAGE source)
              (λ e, "failed parsing `" +:+ path file +:+ "`: " +:+ parse_error_string e);
  cyclomatic_matches ← run_query queries.1 tree_id source ("failed running cyclomatic query for `" +:+ path file +:+ "`: ");
  halstead_matches ← run_query queries.2 tree_id source ("failed running halstead query for `" +:+ path file +:+ "`: ");
  _ ← on_provider (λ p, (drop_tree p tree_id, Ok ())) (λ e : string, e);
  let cyclomatic_complexity := f64_add f64_one (f64_of_Z (Z.of_nat (length cyclomatic_matches))) in
  let volume := halstead_volume halstead_matches in
  let file_mi := compute_maintainability_index volume cyclomatic_complexity file_loc in
  mret (MkSums (sat_add_u64 (analyzed_files s) 1) (f64_add (mi_sum s) file_mi)
          (f64_add (cyclomatic_sum s) cyclomatic_complexity) (f64_add (halstead_volume_sum s) volume)
          (f64_add (loc_sum s) (f64_max file_loc f64_one))).

Fixpoint analyze_files (queries : Z * Z) (files : list PathMatch) (s : Sums) : M Sums :=
  match files with
  | [] => mret s
  | file :: files => s ← analyze_file queries file s; analyze_files queries files s
  end.

(** *** [act]: the random bytes of the session id, and fuel for the search *)

Definition act (random : bytes) (fuel : nat) : M action :=
  m ← gets self;
  _ ← put_self (MkMaintainability (sat_add_u64 (action_index m) 1) (cyclomatic_query_id m) (halstead_query_id m) (pstate m));
  queries ← ensure_queries;
  _ ← ensure_session_id_recorded random;
  _ ← ensure_search_state_recorded;
  files ← fuelled (find fuel "*.rs" find_options_default);
  project_loc ← fuelled (count_lines fuel "*.rs");
  match files with
  | [] =>
    let mi := f64_of_Z 100 in
    let reward := f64_one in
    snap ← commit_iteration_snapshot mi;
    _ ← reporting reward;
    _ ← emit (LogInfo "mi=100.00 reward=1.0000 loc=0 cc=0.00 halstead_volume=0.00 files=0");
    _ ← navigate_reward_landscape mi reward project_loc snap;
    lift (prompt "The maintainability index of this application is currently 100.00. Refactor to improve the maintainability index.")
  | _ =>
    s ← analyze_files queries files (MkSums 0 f_zero f_zero f_zero f_zero);
    let files_count := f64_of_Z (Z.max (analyzed_files s) 1) in
    let mi := f64_div (mi_sum s) files_count in
    let avg_cyclomatic := f64_div (cyclomatic_sum s) files_count in
    let avg_halstead_volume := f64_div (halstead_volume_sum s) files_count in
    let avg_loc := f64_div (loc_sum s) files_count in
    let reward := f64_clamp (f64_div mi (f64_of_Z 100)) f_zero f64_one in
    snap ← commit_iteration_snapshot mi;
    _ ← reporting reward;
    _ ← emit (LogInfo ("mi=" +:+ format2 mi +:+ " reward=" +:+ format4 reward +:+ " loc=" +:+ pretty project_loc +:+
                       " files=" +:+ pretty (analyzed_files s) +:+ " avg_loc=" +:+ format2 avg_loc +:+
                       " avg_cc=" +:+ format2 avg_cyclomatic +:+ " avg_halstead_volume=" +:+ format2 avg_halstead_volume));
    _ ← navigate_reward_landscape mi reward project_loc snap;
    lift (prompt ("The maintainability index of this application is currently " +:+ format2 mi +:+
                  ". Refactor to improve the maintainability index."))
  end.

End Policy.

(** ** The queries are the two modes of the provider *)

Example query_modes : query_mode CYCLOMATIC_QUERY = Some Decision ∧ query_mode HALSTEAD_QUERY = Some Halstead.
Proof. vm_compute. done. Qed.

(** ** The best commit *)

Lemma rank_lt_trans a b c : rank_lt a b → rank_lt b c → rank_lt a c.
Proof. unfold rank_lt. lia. Qed.

Definition best_of (l : list (string * f64)) : option BestRewardCommit :=
  foldl (λ best cr, Some (update_best best cr.1 cr.2)) None l.

(** Of the rewards recorded, the best commit is the first of those with the
    highest reward. *)
Theorem best_is_first_maximum (l : list (string * f64)) : Forall (λ cr, f_is_nan cr.2 = false) l → l ≠ [] →
  ∃ b before after, best_of l = Some b ∧ l = before ++ (best_commit b, best_reward_of b) :: after ∧
  Forall (λ cr, f_ltb cr.2 (best_reward_of b) = true) before ∧
  Forall (λ cr, f_ltb (best_reward_of b) cr.2 = false) after.
Proof.
  induction l as [|[c r] l IH] using rev_ind; intros Hnan Hne; [done|]. clear Hne.
  apply Forall_app in Hnan as [Hl Hr]. rewrite Forall_singleton in Hr. cbn in Hr.
  unfold best_of. rewrite foldl_app. fold (best_of l). cbn.
  destruct (decide (l = [])) as [->|Hne].
  { exists (MkBest c r), [], []. done. }
  destruct (IH Hl Hne) as (b & before & after & -> & Hsplit & Hbefore & Hafter). cbn.
  destruct (f_ltb (best_reward_of b) r) eqn:E.
  - exists (MkBest c r), l, []. split_and!; [done..| |done]. cbn.
    assert (Hb : f_is_nan (best_reward_of b) = false) by (by apply f_ltb_nan in E as [? _]).
    apply (f_ltb_rank _ _ Hb Hr) in E. rewrite Forall_forall in *. intros [c' r'] Hin. cbn.
    specialize (Hl _ Hin). cbn in Hl. apply (f_ltb_rank r' r Hl Hr).
    rewrite Hsplit in Hin. apply elem_of_app in Hin as [Hin|[Heq|Hin]%elem_of_cons].
    + apply Hbefore in Hin. cbn in Hin. apply (f_ltb_rank r' _ Hl Hb) in Hin. by eapply rank_lt_trans.
    + by injection Heq as -> ->.
    + apply Hafter in Hin. cbn in Hin. destruct (rank_total (f_rank r') (f_rank (best_reward_of b))) as [Hlt|[->|Hgt]].
      * by eapply rank_lt_trans.
      * done.
      * apply (f_ltb_rank _ _ Hb Hl) in Hgt. congruence.
  - exists b, before, (after ++ [(c, r)]). split_and!; [done| |done|].
    + by rewrite Hsplit, <- (assoc_L app).
    + apply Forall_app_2; [done|by apply Forall_singleton].
Qed.

(** ** What [act] does to the repository *)

(** The subcommand of a git call, after its options. *)
Definition subcommand (args : list string) : option string :=
  match args with
  | "-C" :: _ :: "-c" :: _ :: v :: _ => Some v
  | "-C" :: _ :: v :: _ => Some v
  | _ => None
  end.

(** Calls in the expected order: all of them when the whole succeeded, and none
    after one that failed. *)
Definition trace_ok (tr : list (list string * bool)) (expected : list string) (success : bool) : Prop :=
  if success then (subcommand ∘ fst <$> tr) = Some <$> expected ∧ Forall (λ c, c.2 = true) tr
  else (subcommand ∘ fst <$> tr) `prefix_of` (Some <$> expected) ∧ Forall (λ c, c.2 = true) (removelast tr).

Lemma removelast_all {A} (P : A → Prop) l : Forall P l → Forall P (removelast l).
Proof. induction 1 as [|x l Hx Hl IH]; [done|]. cbn. destruct l; [done|]. by constructor. Qed.

Lemma trace_ok_app tr1 tr2 e1 e2 b : trace_ok tr1 e1 true → trace_ok tr2 e2 b → trace_ok (tr1 ++ tr2) (e1 ++ e2) b.
Proof.
  intros [E1 F1]. unfold trace_ok. rewrite !fmap_app, E1. destruct b.
  - intros [-> F2]. split; [done|]. by apply Forall_app.
  - intros [E2 F2]. split; [by apply prefix_app|]. destruct tr2 as [|c tr2].
    + rewrite app_nil_r. by apply removelast_all.
    + rewrite removelast_app by done. by apply Forall_app.
Qed.

Lemma trace_ok_fail tr e1 e2 : trace_ok tr e1 false → trace_ok tr (e1 ++ e2) false.
Proof. intros [E F]. split; [|done]. rewrite fmap_app. by apply prefix_app_r. Qed.

Section Repository.
Context `{MctsEnv} `{GuestFs} `{Glob} `{Patterns}.
Context {W : Type} (run_process : string → list string → W → result string bytes * W).
Context (utf8_error : bytes → string) (report_reward : f64 → result string unit).
Context (f64_log2 : f64 → f64) (format2 format4 : f64 → string).
(** The calls so far, each with whether it succeeded. *)
Context (log : W → list (list string * bool)).
Context (log_run : ∀ name args w,
  log (run_process name args w).2 = log w ++ [(args, is_ok (run_process name args w).1)]).

Notation MM := (M (W := W)).
#[local] Existing Instance M_ret.
#[local] Existing Instance M_bind.

(** [m], run in [w], makes the expected git calls. *)
Definition runs {A} (w : World) (m : MM A) (expected : list string) : Prop :=
  ∀ r w', m w = Some (r, w') →
  ∃ tr, log (git w') = log (git w) ++ tr ∧ trace_ok tr expected (is_ok r).

(** [m] makes no git call and leaves the search tree alone. *)
Definition quiet {A} (m : MM A) : Prop :=
  ∀ w r w', m w = Some (r, w') → git w' = git w ∧ search (pstate (self w')) = search (pstate (self w)).

Lemma runs_bind {A B} w (m : MM A) (k : A → MM B) e1 e2 :
  runs w m e1 → (∀ a w1, m w = Some (Ok a, w1) → runs w1 (k a) e2) → runs w (m ≫= k) (e1 ++ e2).
Proof.
  intros Hm Hk r w'. unfold mbind, M_bind. destruct (m w) as [[[a|e] w1]|] eqn:E; [|intros [= <- <-]|done].
  - intros E2. destruct (Hm _ _ E) as (tr1 & L1 & T1), (Hk a w1 eq_refl _ _ E2) as (tr2 & L2 & T2).
    exists (tr1 ++ tr2). split; [by rewrite L2, L1, (assoc_L app)|]. by apply trace_ok_app.
  - destruct (Hm _ _ E) as (tr & L & T). exists tr. split; [done|]. by apply trace_ok_fail.
Qed.

Lemma quiet_runs {A} w (m : MM A) : quiet m → runs w m [].
Proof.
  intros Hq r w' E. destruct (Hq _ _ _ E) as [Hg _]. exists []. rewrite app_nil_r, Hg. split; [done|].
  by destruct r.
Qed.

Lemma quiet_bind {A B} (m : MM A) (k : A → MM B) : quiet m → (∀ a, quiet (k a)) → quiet (m ≫= k).
Proof.
  intros Hm Hk w r w'. unfold mbind, M_bind. destruct (m w) as [[[a|e] w1]|] eqn:E; [|intros [= <- <-]|done].
  - intros E2. destruct (Hk _ _ _ _ E2) as [-> ->]. by apply (Hm _ _ _ E).
  - by apply (Hm _ _ _ E).
Qed.

Lemma quiet_ret {A} (a : A) : quiet (mret a : MM A).
Proof. by intros w r w' [= <- <-]. Qed.
Lemma quiet_lift {A} (r : result string A) : quiet (lift r : MM A).
Proof. by intros w r' w' [= <- <-]. Qed.
Lemma quiet_gets {A} (f : World → A) : quiet (gets f : MM A).
Proof. by intros w r w' [= <- <-]. Qed.
Lemma quiet_fuelled {A} (o : option (result string A)) : quiet (fuelled o : MM A).
Proof. intros w r w'. unfold fuelled. destruct o; [|done]. by intros [= <- <-]. Qed.
Lemma quiet_emit e : quiet (emit e : MM unit).
Proof. by intros w r w' [= <- <-]. Qed.
Lemma quiet_reporting r : quiet (reporting report_reward r : MM unit).
Proof. apply quiet_bind; [apply quiet_emit|intros _; apply quiet_lift]. Qed.
Lemma quiet_on_provider {E A} (f : Provider → Provider * result E A) err : quiet (on_provider f err : MM A).
Proof. intros w r w'. unfold on_provider. destruct (f _). by intros [= <- <-]. Qed.
Lemma quiet_run_query q t s err : quiet (run_query q t s err : MM (list QueryMatch)).
Proof. intros w r w'. unfold run_query. destruct (query_exec _ _ _ _ _); [|done]. by intros [= <- <-]. Qed.

#[local] Hint Resolve quiet_ret quiet_lift quiet_gets quiet_fuelled quiet_emit quiet_reporting
  quiet_on_provider quiet_run_query : quiet.
Ltac quiet := repeat first [solve [eauto with quiet] | apply quiet_bind; [solve [eauto with quiet]|intros ?]].

(** An update of [self] that keeps the search tree. *)
Lemma quiet_update {B} (f : Maintainability → MM B) :
  (∀ w r w', f (self w) w = Some (r, w') → git w' = git w ∧ search (pstate (self w')) = search (pstate (self w))) →
  quiet (m ← gets self; f m).
Proof. intros Hf w r w' E. exact (Hf w r w' E). Qed.

Lemma quiet_analyze queries files s :
  quiet (analyze_files utf8_error f64_log2 queries files s : MM Sums).
Proof.
  revert s. induction files as [|file files IH]; intros s; cbn [analyze_files]; [apply quiet_ret|].
  apply quiet_bind; [unfold analyze_file; cbv zeta; quiet|apply IH].
Qed.

(** A query that is compiled when it is not yet there. *)
Lemma quiet_compile (field : Maintainability → option Z) (set : Maintainability → Z → Maintainability) query err :
  (∀ m id, pstate (set m id) = pstate m) →
  quiet (m ← gets self;
         match field m with
         | Some _ => mret ()
         | None => id ← on_provider (λ p, query_compile p RUST_LANGUAGE query) err; put_self (set m id)
         end : MM unit).
Proof.
  intros Hset. apply quiet_update. intros w r w'. destruct (field (self w)); [by intros [= <- <-]|].
  unfold mbind, M_bind, on_provider. destruct (query_compile _ _ _) as [p [id|e]]; cbn; intros [= <- <-]; [|done].
  cbn. by rewrite Hset.
Qed.

Lemma quiet_assoc {A B C} (m : MM A) (k : A → MM B) (h : B → MM C) :
  quiet ((m ≫= k) ≫= h) → quiet (m ≫= λ a, k a ≫= h).
Proof.
  intros Hq w r w' E. apply (Hq w r w'). revert E. unfold mbind, M_bind. by destruct (m w) as [[[a|e] w1]|].
Qed.

Lemma quiet_ensure_queries : quiet (ensure_queries : MM (Z * Z)).
Proof.
  unfold ensure_queries. apply quiet_assoc, quiet_bind.
  { apply (quiet_compile cyclomatic_query_id (λ m id, MkMaintainability (action_index m) (Some id) (halstead_query_id m) (pstate m))).
    done. }
  intros _. apply quiet_assoc, quiet_bind.
  { apply (quiet_compile halstead_query_id (λ m id, MkMaintainability (action_index m) (cyclomatic_query_id m) (Some id) (pstate m))).
    done. }
  intros _. quiet.
Qed.

Lemma quiet_session random : quiet (ensure_session_id_recorded random : MM unit).
Proof.
  apply quiet_update. intros w r w'. destruct (session_id (pstate (self w))); by intros [= <- <-].
Qed.

(** One operation of the git wrapper. *)
Lemma runs_on_git {A} w (f : W → result string A * W) (expected : list string) :
  (∀ g, ∃ tr, log (f g).2 = log g ++ tr ∧ trace_ok tr expected (is_ok (f g).1)) → runs w (on_git f) expected.
Proof.
  intros Hf r w'. unfold on_git. destruct (Hf (git w)) as (tr & L & T). destruct (f (git w)) as [r1 g1].
  intros [= <- <-]. by exists tr.
Qed.

(** One call of git; the answer may still be refused when it is read. *)
Lemma run_ok r args g v :
  subcommand ("-C" :: repo_dir r :: args) = Some v →
  let '(res, g') := run run_process r args g in
  log g' = log g ++ [("-C" :: repo_dir r :: args, is_ok res)] ∧
  trace_ok [("-C" :: repo_dir r :: args, is_ok res)] [v] (is_ok res) ∧
  (is_ok res = true → trace_ok [("-C" :: repo_dir r :: args, is_ok res)] [v] false).
Proof.
  intros Hv. unfold run. pose proof (log_run "git" (["-C"; repo_dir r] ++ args) g) as L.
  destruct (run_process _ _ _) as [res g']. cbn [fst snd] in L. split; [done|].
  unfold trace_ok. cbn [fmap list_fmap compose fst]. unfold compose. cbn [fst]. cbn [app] in *. rewrite Hv.
  destruct res; cbn; split_and!; try done; by constructor.
Qed.

Lemma head_sha_ok r g : let '(res, g') := head_sha run_process utf8_error r g in
  ∃ tr, log g' = log g ++ tr ∧ trace_ok tr ["rev-parse"] (is_ok res).
Proof.
  unfold head_sha. pose proof (run_ok r ["rev-parse"; "HEAD"] g "rev-parse" eq_refl) as Hr.
  destruct (run _ _ _ _) as [[output|e] g']; destruct Hr as (L & T & F); eexists; (split; [exact L|]); [|exact T].
  destruct (parse_non_empty_utf8 _ _ _); [exact T|by apply F].
Qed.

Lemma current_branch_ok r g : let '(res, g') := current_branch run_process utf8_error r g in
  ∃ tr, log g' = log g ++ tr ∧ trace_ok tr ["branch"] (is_ok res).
Proof.
  unfold current_branch. pose proof (run_ok r ["branch"; "--show-current"] g "branch" eq_refl) as Hr.
  destruct (run _ _ _ _) as [[output|e] g']; destruct Hr as (L & T & F); eexists; (split; [exact L|]); [|exact T].
  destruct (parse_optional_utf8 _ _ _); [exact T|by apply F].
Qed.

Lemma run_unit_ok r args g v : subcommand ("-C" :: repo_dir r :: args) = Some v →
  let '(res, g') := run_unit run_process r args g in
  ∃ tr, log g' = log g ++ tr ∧ trace_ok tr [v] (is_ok res).
Proof.
  intros Hv. unfold run_unit. pose proof (run_ok r args g v Hv) as Hr.
  destruct (run _ _ _ _) as [[output|e] g']; destruct Hr as (L & T & F); by eexists.
Qed.

Lemma commit_all_ok r message allow_empty g : let '(res, g') := commit_all run_process utf8_error r message allow_empty g in
  ∃ tr, log g' = log g ++ tr ∧ trace_ok tr ["commit"; "rev-parse"] (is_ok res).
Proof.
  unfold commit_all. pose proof (run_ok r (commit_args message allow_empty) g "commit" eq_refl) as Hr.
  destruct (run _ _ _ _) as [[output|e] g1]; destruct Hr as (L & T & F).
  - pose proof (head_sha_ok r g1) as Hh. destruct (head_sha _ _ _ _) as [res g2]. destruct Hh as (tr & L2 & T2).
    eexists (_ :: tr). rewrite L2, L, <- (assoc_L app). split; [done|].
    by apply (trace_ok_app [_] tr ["commit"] ["rev-parse"]).
  - eexists. split; [exact L|]. by apply (trace_ok_fail _ ["commit"] ["rev-parse"]).
Qed.

Lemma snapshot_ok r g : let '(res, g') := snapshot run_process utf8_error r g in
  ∃ tr, log g' = log g ++ tr ∧ trace_ok tr ["rev-parse"; "branch"] (is_ok res).
Proof.
  unfold snapshot. pose proof (head_sha_ok r g) as Hh. destruct (head_sha _ _ _ _) as [[h|e] g1].
  - destruct Hh as (tr & L & T). pose proof (current_branch_ok r g1) as Hb.
    destruct (current_branch _ _ _ _) as [[b|e] g2]; destruct Hb as (tr2 & L2 & T2);
      exists (tr ++ tr2); rewrite L2, L, (assoc_L app); (split; [done|]);
      by apply (trace_ok_app tr tr2 ["rev-parse"] ["branch"]).
  - destruct Hh as (tr & L & T). exists tr. split; [done|]. by apply (trace_ok_fail _ ["rev-parse"] ["branch"]).
Qed.

Lemma runs_on {A} w (f : W → result string A * W) expected :
  (∀ g, let '(res, g') := f g in ∃ tr, log g' = log g ++ tr ∧ trace_ok tr expected (is_ok res)) → runs w (on_git f) expected.
Proof. intros Hf. apply runs_on_git. intros g. specialize (Hf g). by destruct (f g). Qed.

Lemma runs_nil {A} w (m : MM A) : (∀ r w', m w = Some (r, w') → git w' = git w) → runs w m [].
Proof.
  intros Hm r w' E. exists []. rewrite (Hm _ _ E), app_nil_r. split; [done|]. by destruct r.
Qed.

Definition snapshot_calls (w : World (W := W)) : list string :=
  match search (pstate (self w)) with Some _ => [] | None => ["rev-parse"; "branch"] end.

Lemma runs_search w : runs w (ensure_search_state_recorded run_process utf8_error) (snapshot_calls w).
Proof.
  unfold ensure_search_state_recorded, snapshot_calls. apply (runs_bind w _ _ [] (snapshot_calls w)).
  { apply quiet_runs, quiet_gets. }
  intros m w1 [= <- <-]. unfold snapshot_calls. destruct (search (pstate (self w))); [apply quiet_runs, quiet_ret|].
  apply (runs_bind w _ _ ["rev-parse"; "branch"] []).
  { apply runs_on. intros g. apply snapshot_ok. }
  intros snap w2 _. apply (runs_bind w2 _ _ [] []); [apply quiet_runs, quiet_gets|]. intros d w3 _.
  apply (runs_bind w3 _ _ [] []); [apply quiet_runs, quiet_fuelled|]. intros tree w4 _.
  apply runs_nil. by intros r w' [= <- <-].
Qed.

Lemma runs_commit w mi :
  runs w (commit_iteration_snapshot run_process utf8_error format2 mi) ["add"; "commit"; "rev-parse"; "branch"].
Proof.
  apply (runs_bind w _ _ [] ["add"; "commit"; "rev-parse"; "branch"]); [apply quiet_runs, quiet_gets|]. intros m w1 _.
  apply (runs_bind w1 _ _ ["add"] ["commit"; "rev-parse"; "branch"]).
  { apply runs_on. intros g. by apply run_unit_ok. }
  intros _ w2 _. apply (runs_bind w2 _ _ ["commit"; "rev-parse"] ["branch"]).
  { apply runs_on. intros g. apply commit_all_ok. }
  intros sha w3 _. apply (runs_bind w3 _ _ ["branch"] []).
  { apply runs_on. intros g. apply current_branch_ok. }
  intros b w4 _. apply quiet_runs, quiet_ret.
Qed.

Lemma runs_navigate w mi reward loc snap :
  runs w (navigate_reward_landscape run_process format2 format4 mi reward loc snap) ["checkout"].
Proof.
  unfold navigate_reward_landscape. cbv zeta. apply (runs_bind w _ _ [] ["checkout"]).
  { apply runs_nil. unfold navigate, navigate_in, mbind, M_bind, gets, lift. intros r w'.
    destruct (search (pstate (self w))); [|by intros [= <- <-]].
    destruct (backpropagate_and_select _ _ _ _ _) as [[[d nav] res]|]; [by intros [= <- <-]|done]. }
  intros step w1 _. apply (runs_bind w1 _ _ [] ["checkout"]).
  { apply runs_nil. unfold record_best_reward_commit, mbind, M_bind, gets, lift. intros r w'.
    destruct (search (pstate (self w1))); by intros [= <- <-]. }
  intros [best best_reward] w2 _. apply (runs_bind w2 _ _ ["checkout"] []); [|intros b w3 _; apply quiet_runs, quiet_emit].
  apply (runs_bind w2 _ _ [] ["checkout"]).
  { apply runs_nil. unfold next_search_branch_name, mbind, M_bind, gets, lift. intros r w'. cbv zeta.
    destruct (session_id (pstate (self w2))); by intros [= <- <-]. }
  intros name w3 _. apply (runs_bind w3 _ _ ["checkout"] []); [|intros _ w4 _; apply quiet_runs, quiet_ret].
  apply runs_on. intros g. by apply run_unit_ok.
Qed.

(** The end of [act]: the commit, the reward, the move. *)
Lemma runs_finish w mi reward line loc a :
  runs w (snap ← commit_iteration_snapshot run_process utf8_error format2 mi;
          _ ← reporting report_reward reward;
          _ ← emit line;
          _ ← navigate_reward_landscape run_process format2 format4 mi reward loc snap;
          lift a : MM action) ["add"; "commit"; "rev-parse"; "branch"; "checkout"].
Proof.
  apply (runs_bind w _ _ ["add"; "commit"; "rev-parse"; "branch"] ["checkout"]); [apply runs_commit|]. intros snap w1 _.
  apply (runs_bind w1 _ _ [] ["checkout"]); [apply quiet_runs, quiet_reporting|]. intros _ w2 _.
  apply (runs_bind w2 _ _ [] ["checkout"]); [apply quiet_runs, quiet_emit|]. intros _ w3 _.
  apply (runs_bind w3 _ _ ["checkout"] []); [apply runs_navigate|]. intros _ w4 _. apply quiet_runs, quiet_lift.
Qed.

(** C10. [act] calls git in one order: the snapshot of a repository seen for the
    first time, then add, commit, the new head and its branch, and last the
    forced checkout; every call is made only after the one before it succeeded.
    So the working tree is never thrown away before it has been committed. *)
Theorem act_commits_before_checkout (w w' : World (W := W)) (random : bytes) (fuel : nat) (r : result string action) :
  act run_process utf8_error report_reward f64_log2 format2 format4 random fuel w = Some (r, w') →
  ∃ tr, log (git w') = log (git w) ++ tr ∧
  trace_ok tr (match search (pstate (self w)) with Some _ => [] | None => ["rev-parse"; "branch"] end ++
               ["add"; "commit"; "rev-parse"; "branch"; "checkout"]) (is_ok r).
Proof.
  intros E. revert r w' E. fold (snapshot_calls w).
  set (rest := ["add"; "commit"; "rev-parse"; "branch"; "checkout"]).
  match goal with |- ∀ r w', ?m w = _ → _ => change (runs w m (snapshot_calls w ++ rest)) end.
  apply (runs_bind w _ _ [] (snapshot_calls w ++ rest)); [apply quiet_runs, quiet_gets|]. intros m w1 [= <- <-].
  apply (runs_bind w _ _ [] (snapshot_calls w ++ rest)); [apply runs_nil; by intros r w' [= <- <-]|].
  intros [] w2 E2. injection E2 as <-. set (w2 := MkWorld _ _ _ _ _).
  assert (H2w : snapshot_calls w2 = snapshot_calls w) by done. rewrite <- H2w.
  apply (runs_bind w2 _ _ [] (snapshot_calls w2 ++ rest)); [apply quiet_runs, quiet_ensure_queries|].
  intros queries w3 E3. apply quiet_ensure_queries in E3 as [_ E3].
  apply (runs_bind w3 _ _ [] (snapshot_calls w2 ++ rest)); [apply quiet_runs, quiet_session|].
  intros [] w4 E4. apply quiet_session in E4 as [_ E4].
  assert (H4 : snapshot_calls w4 = snapshot_calls w2) by (unfold snapshot_calls; by rewrite E4, E3). rewrite <- H4.
  apply (runs_bind w4); [apply runs_search|]. intros _ w5 _.
  apply (runs_bind w5 _ _ [] rest); [apply quiet_runs, quiet_fuelled|]. intros files w6 _.
  apply (runs_bind w6 _ _ [] rest); [apply quiet_runs, quiet_fuelled|]. intros loc w7 _.
  destruct files as [|file files]; [apply runs_finish|].
  apply (runs_bind w7 _ _ [] rest); [apply quiet_runs, quiet_analyze|]. intros s w8 _. cbv zeta. apply runs_finish.
Qed.

End Repository.

(** ** A run in an empty repository *)

#[local] Instance no_disk : MctsEnv := {|
  disk := unit;
  path_parent _ := None;
  create_dir_all d _ := (d, Ok ());
  fs_write d _ _ := (d, Ok ());
  read_to_string _ _ := Err NotFound;
  json_from_str _ := Err "no json";
  json_to_vec_pretty _ := Err "no json";
  f64_ln x := x;
  f64_powf x _ := x;
|}.

Definition empty_fs : GuestFs := {|
  Descriptor := unit;
  DescriptorType := Z; Directory := 0; RegularFile := 1; SymbolicLink := 2;
  ErrorCode := string; NoEntry := "no-entry"; error_name e := e;
  get_directories := [((), ".")];
  open_at _ _ _ := Err "no-entry";
  read_via_stream _ := ([], Ok ());
  read_directory _ := ([], Ok ());
|}.

Definition any_glob : Glob := {|
  Pattern := string; pattern_new p := Ok p; pattern_as_str p := p; matches_with _ _ := true;
|}.

Definition no_patterns : Patterns := {|
  decision_matches _ := []; operator_matches _ := []; operand_matches _ := [];
|}.

(** A git that answers every call with a hash, and remembers the calls. *)
Definition hash_git (name : string) (args : list string) (w : list (list string * bool))
    : result string bytes * list (list string * bool) :=
  (Ok (str_bytes "abc123" ++ [LF]), w ++ [(args, true)]).

Definition first_world : @World no_disk (list (list string * bool)) :=
  @MkWorld no_disk _ maintainability_default [] provider_new () [].

Definition first_act (w : @World no_disk (list (list string * bool))) :
    option (result string action * @World no_disk (list (list string * bool))) :=
  @act no_disk empty_fs any_glob no_patterns _ hash_git (λ _, "") (λ _, Ok ()) (λ x, x) (λ _, "100.00") (λ _, "1.0000")
    (str_bytes "random") 1 w.

Definition first_result : result string action * @World no_disk (list (list string * bool)) :=
  default (Err "", first_world) (first_act first_world).

Lemma act_commits_before_checkout_witness :
  (∀ name args w, (hash_git name args w).2 = w ++ [(args, is_ok (hash_git name args w).1)]) ∧
  first_act first_world = Some first_result ∧ is_ok first_result.1 = true ∧
  ∃ tr, git first_result.2 = [] ++ tr ∧
  trace_ok tr ["rev-parse"; "branch"; "add"; "commit"; "rev-parse"; "branch"; "checkout"] (is_ok first_result.1).
Proof.
  split; [reflexivity|]. split; [vm_compute; reflexivity|]. split; [vm_compute; reflexivity|].
  apply (@act_commits_before_checkout no_disk empty_fs any_glob no_patterns _ hash_git (λ _, "") (λ _, Ok ()) (λ x, x)
           (λ _, "100.00") (λ _, "1.0000") (λ l, l) (λ _ _ _, eq_refl) first_world first_result.2 (str_bytes "random") 1 first_result.1).
  vm_compute. reflexivity.
Defined.
