(* ===== verification/Desktop.v ===== *)
(** * The desktop application: [mitb-box/src/lib.rs] and [mitb-box/src/av.rs]

    The application's state, its messages, the tree of widgets it shows, and the
    streams that turn the host's and the player's channels into messages.  The
    toolkit's widgets are data; channels, streams and the user are interleaved
    in steps. *)

From stdpp Require Export sets.
From S2P Require Import Terminal TerminalSafety HostTypes AvFrames Av.

Definition TERMINAL_COLS : nat := 72.
Definition TERMINAL_ROWS : nat := 27.
Definition TERMINAL_FONT_SIZE : f32 := f32_of_Z 14.
Definition TERMINAL_LINE_HEIGHT : f32 := f32_of_Z 1.
Definition STATUS_FONT_SIZE : f32 := f32_of_Z 12.
Definition EYE_CURSOR_SIZE : f32 := f32_of_Z 48.

Record Point := MkPoint { x : f32; y : f32 }.

Definition EYE_CURSOR_HOTSPOT : Point := MkPoint (f32_of_Z 24) (f32_of_Z 24).

Inductive BoxError : Type :=
| ReceiverAlreadyInitialized
| Iced (error : string).

(** [mitb-box/src/av.rs] *)
Module Overlay.

Inductive AvMessage : Type :=
| Frame (frame : Yuv)
| Ended
| Error (error : string).

Record AvState := MkState { program : option Program }.

(** [State::new]: whether the static receiver is set now, the file the player
    was spawned on, and the state. *)
Definition av_new (receiver_set : bool) (home : result string string) (path_exists : string → bool)
    : bool * option string * AvState :=
  let s := MkState None in
  if receiver_set then (true, None, s)
  else
    match default_media_path home with
    | Err _ => (false, None, s)
    | Ok media_path => if path_exists media_path then (true, Some media_path, s) else (false, None, s)
    end.

Definition av_update (s : AvState) (m : AvMessage) : AvState :=
  match m with
  | Frame frame =>
    MkState (Some (match program s with Some p => update_frame p frame | None => program_new frame end))
  | Ended | Error _ => s
  end.

(** The body of [av_event_stream], for an event received. *)
Definition av_event_message (e : AvEvent) : AvMessage :=
  match e with
  | VideoFrame frame => Frame frame
  | PlaybackEnded => Ended
  | PlaybackError error => Error error
  end.

End Overlay.

Section Desktop.
Context `{Display, VteParser}.
(** [keyboard::key::Physical]. *)
Context {Key : Type} `{Countable Key}.

Inductive InputEvent : Type :=
| LeftMousePressed
| LeftMouseReleased
| KeyPressed (key : Key)
| KeyReleased (key : Key).

Inductive Message : Type :=
| MHost (e : HostEvent)
| MAv (m : Overlay.AvMessage)
| Input (e : InputEvent)
| AppCursorMoved (p : Point)
| AppCursorLeft
| TerminalHoverChanged (is_hovered : bool).

Record App := MkApp {
  terminal : vte_state * Terminal;
  av : Overlay.AvState;
  status : option string;
  app_cursor_position : option Point;
  terminal_hovered : bool;
  left_mouse_down : bool;
  pressed_keys : gset Key;
}.

Inductive Task : Type := TaskNone | Exit.

Definition app_new (av : Overlay.AvState) : App * Task :=
  (MkApp (vte_new, term_new TERMINAL_COLS TERMINAL_ROWS) av None None false false ∅, TaskNone).

Definition set_terminal (a : App) (t : vte_state * Terminal) : App :=
  MkApp t (av a) (status a) (app_cursor_position a) (terminal_hovered a) (left_mouse_down a) (pressed_keys a).
Definition set_av (a : App) (s : Overlay.AvState) : App :=
  MkApp (terminal a) s (status a) (app_cursor_position a) (terminal_hovered a) (left_mouse_down a) (pressed_keys a).
Definition set_status (a : App) (s : string) : App :=
  MkApp (terminal a) (av a) (Some s) (app_cursor_position a) (terminal_hovered a) (left_mouse_down a) (pressed_keys a).
Definition set_pointer (a : App) (p : option Point) (hovered : bool) : App :=
  MkApp (terminal a) (av a) (status a) p hovered (left_mouse_down a) (pressed_keys a).
Definition set_held (a : App) (left : bool) (keys : gset Key) : App :=
  MkApp (terminal a) (av a) (status a) (app_cursor_position a) (terminal_hovered a) left keys.

(** The state, the task and how often a warning [denied] was logged.  [None]: a
    panic of the terminal. *)
Definition on_input (a : App) (e : InputEvent) : App * nat :=
  match e with
  | LeftMousePressed => (set_held a true (pressed_keys a), 1%nat)
  | LeftMouseReleased => (set_held a false (pressed_keys a), 0%nat)
  | KeyPressed k =>
    (set_held a (left_mouse_down a) ({[ k ]} ∪ pressed_keys a), if decide (k ∈ pressed_keys a) then 0%nat else 1%nat)
  | KeyReleased k => (set_held a (left_mouse_down a) (pressed_keys a ∖ {[ k ]}), 0%nat)
  end.

Definition update (a : App) (m : Message) : option (App * Task * nat) :=
  match m with
  | MHost (TerminalOutput data) =>
    t ← feed (terminal a).1 (terminal a).2 data; Some (set_terminal a t, TaskNone, 0%nat)
  | MHost (SessionEnded reason) => Some (set_status a ("Session ended: " +:+ reason), Exit, 0%nat)
  | MHost Disconnected => Some (set_status a "Disconnected", Exit, 0%nat)
  | MAv m => Some (set_av a (Overlay.av_update (av a) m), TaskNone, 0%nat)
  | Input e => let '(a, denied) := on_input a e in Some (a, TaskNone, denied)
  | AppCursorMoved p => Some (set_pointer a (Some p) (terminal_hovered a), TaskNone, 0%nat)
  | AppCursorLeft => Some (set_pointer a None false, TaskNone, 0%nat)
  | TerminalHoverChanged b => Some (set_pointer a (app_cursor_position a) b, TaskNone, 0%nat)
  end.

(** ** What is shown *)

Inductive Wrapping : Type := WrapNone | WrapWord.

Record Font := MkFont { font_bold : bool; font_italic : bool }.

(** The widgets the program builds, with the settings it gives them; all but
    the spans' fill the window. *)
Inductive Element : Type :=
| SpanText (text : list char) (color : Color) (size line_height : f32) (wrapping : Wrapping) (font : Font)
| StatusText (text : string) (size line_height : f32) (wrapping : Wrapping)
| Background (content : Element) (bg_color : Color)
| Row (children : list Element)
| Column (children : list Element) (spacing padding : Z)
| Scrollable (content : Element)
| HoverArea (content : Element) (on_enter on_exit : Message) (hide_cursor : bool)
| MoveArea (content : Element) (on_move : Point → Message) (on_exit : Message)
| Fill (content : Element)
| Stack (layers : list Element)
| Shader (program : Program)
| EyeCursor (size : f32) (active : bool) (translate : Point → Point).

Definition span_view (s : Span) : Element :=
  let text := SpanText (span_text s) (span_fg s) TERMINAL_FONT_SIZE TERMINAL_LINE_HEIGHT WrapNone
                (MkFont (span_bold s) (span_italic s)) in
  match span_bg s with Some bg => Background text bg | None => text end.

Definition overlay_view (s : Overlay.AvState) : option Element := Shader <$> Overlay.program s.

Definition point_sub (a b : Point) : Point :=
  let sub := SFsub 24 128 in MkPoint (sub (x a) (x b)) (sub (y a) (y b)).

Definition view (a : App) : Element :=
  let rows := (λ line, Row (span_view <$> line)) <$> Terminal.lines (terminal a).2 in
  let terminal_content := HoverArea (Scrollable (Column rows 0 0))
    (TerminalHoverChanged true) (TerminalHoverChanged false) true in
  let content :=
    match status a with
    | Some status =>
      Column [terminal_content; StatusText status STATUS_FONT_SIZE TERMINAL_LINE_HEIGHT WrapWord] 8 10
    | None => Column [terminal_content] 0 10
    end in
  let content := MoveArea (Fill content) AppCursorMoved AppCursorLeft in
  let layered := Stack (content :: option_list (overlay_view (av a))) in
  match (if terminal_hovered a then app_cursor_position a else None) with
  | Some position =>
    let eye_active := left_mouse_down a || negb (bool_decide (pressed_keys a = ∅)) in
    Stack [layered; EyeCursor EYE_CURSOR_SIZE eye_active
                      (λ bounds, point_sub (point_sub position EYE_CURSOR_HOTSPOT) bounds)]
  | None => layered
  end.

(** ** Subscriptions *)

(** The toolkit's events, as far as the application tells them apart. *)
Inductive Event : Type :=
| ButtonPressed (left : bool)
| ButtonReleased (left : bool)
| KeyboardPressed (physical_key : Key) (repeat : bool)
| KeyboardReleased (physical_key : Key)
| OtherEvent.

Definition listen (e : Event) : option Message :=
  match e with
  | ButtonPressed true => Some (Input LeftMousePressed)
  | ButtonReleased true => Some (Input LeftMouseReleased)
  | KeyboardPressed k false => Some (Input (KeyPressed k))
  | KeyboardReleased k => Some (Input (KeyReleased k))
  | _ => None
  end.

(** [host_event_stream] between two receives: waiting with what is pending,
    collecting output, or at its end. *)
Inductive Unfold : Type :=
| Receiving (pending : option HostEvent)
| Coalescing (data : bytes)
| Done.

(** An event received, or pending, at the start of a round. *)
Definition begin_round (e : HostEvent) : Unfold * option Message :=
  match e with
  | TerminalOutput data => (Coalescing data, None)
  | other => (Receiving None, Some (MHost other))
  end.

(** One receive on the channel that holds [queue]: the stream's state, what is
    left in the channel, and the item produced. *)
Definition host_event_stream (s : Unfold) (queue : list HostEvent) (closed : bool)
    : Unfold * list HostEvent * option Message :=
  match s with
  | Done => (Done, queue, None)
  | Receiving (Some e) => let '(s, m) := begin_round e in (s, queue, m)
  | Receiving None =>
    match queue with
    | e :: queue => let '(s, m) := begin_round e in (s, queue, m)
    | [] => (if closed then Done else Receiving None, [], None)
    end
  | Coalescing data =>
    match queue with
    | TerminalOutput next_data :: queue => (Coalescing (data ++ next_data), queue, None)
    | other :: queue => (Receiving (Some other), queue, Some (MHost (TerminalOutput data)))
    | [] => (Receiving (if closed then Some Disconnected else None), [], Some (MHost (TerminalOutput data)))
    end
  end.

(** ** The application at work *)

Record desktop := MkDesktop {
  channel : list HostEvent;
  channel_closed : bool;
  stream : Unfold;
  inbox : list Message;
  app : App;
  exited : bool;
  denied : nat;
}.

Inductive op : Type :=
| HostSends (e : HostEvent)
| HostDrops
| StreamStep
| AvDelivers (e : AvEvent)
| UserEvent (e : Event)
| PointerMessage (m : Message)
| UiStep.

Definition deliver (d : desktop) (m : option Message) : desktop :=
  MkDesktop (channel d) (channel_closed d) (stream d) (inbox d ++ option_list m) (app d) (exited d) (denied d).

Definition desktop_step (d : desktop) (o : op) : option desktop :=
  match o with
  | HostSends e =>
    if channel_closed d then Some d
    else Some (MkDesktop (channel d ++ [e]) false (stream d) (inbox d) (app d) (exited d) (denied d))
  | HostDrops => Some (MkDesktop (channel d) true (stream d) (inbox d) (app d) (exited d) (denied d))
  | StreamStep =>
    let '(s, queue, m) := host_event_stream (stream d) (channel d) (channel_closed d) in
    Some (MkDesktop queue (channel_closed d) s (inbox d ++ option_list m) (app d) (exited d) (denied d))
  | AvDelivers e => Some (deliver d (Some (MAv (Overlay.av_event_message e))))
  | UserEvent e => Some (deliver d (listen e))
  | PointerMessage m =>
    match m with
    | AppCursorMoved _ | AppCursorLeft | TerminalHoverChanged _ => Some (deliver d (Some m))
    | _ => Some d
    end
  | UiStep =>
    match inbox d with
    | [] => Some d
    | m :: inbox =>
      '(a, task, n) ← update (app d) m;
      Some (MkDesktop (channel d) (channel_closed d) (stream d) inbox a
              (exited d || match task with Exit => true | TaskNone => false end) (denied d + n)%nat)
    end
  end.

Definition desktop_new (av : Overlay.AvState) : desktop :=
  MkDesktop [] false (Receiving None) [] (app_new av).1 false 0.

(** [run]: the static receiver may be set once. *)
Definition run (receiver_set : bool) (ui : result string ()) : result BoxError () :=
  if receiver_set then Err ReceiverAlreadyInitialized else map_err Iced ui.

(** ** What the window shows of the host's events *)

(** Host events with the output cut into bytes: what does not depend on how the
    output is cut into chunks. *)
Definition atoms (e : HostEvent) : list (byte + HostEvent) :=
  match e with TerminalOutput data => inl <$> data | e => [inr e] end.

Definition message_atoms (m : Message) : list (byte + HostEvent) :=
  match m with MHost e => atoms e | _ => [] end.

Definition unfold_atoms (s : Unfold) : list (byte + HostEvent) :=
  match s with
  | Receiving pending => from_option atoms [] pending
  | Coalescing data => inl <$> data
  | Done => []
  end.

(** On its way to the window. *)
Definition in_flight (d : desktop) : list (byte + HostEvent) :=
  (inbox d ≫= message_atoms) ++ unfold_atoms (stream d) ++ (channel d ≫= atoms).

(** The messages handled, and the events the host sent, in a run. *)
Fixpoint handled (d : desktop) (ops : list op) : list Message :=
  match ops with
  | [] => []
  | o :: ops =>
    match o with UiStep => option_list (head (inbox d)) | _ => [] end ++
    from_option (λ d, handled d ops) [] (desktop_step d o)
  end.

Fixpoint sent (is_closed : bool) (ops : list op) : list HostEvent :=
  match ops with
  | [] => []
  | HostSends e :: ops => (if is_closed then [] else [e]) ++ sent is_closed ops
  | HostDrops :: ops => sent true ops
  | _ :: ops => sent is_closed ops
  end.

(** The keys and the button held after input events: those last seen to go
    down. *)
Definition key_held (k : Key) (l : list InputEvent) : bool :=
  foldl (λ b e, match e with
                | KeyPressed k' => b || bool_decide (k = k')
                | KeyReleased k' => b && negb (bool_decide (k = k'))
                | _ => b end) false l.

Definition button_held (l : list InputEvent) : bool :=
  foldl (λ b e, match e with LeftMousePressed => true | LeftMouseReleased => false | _ => b end) false l.

Definition inputs (l : list Message) : list InputEvent :=
  omap (λ m, match m with Input e => Some e | _ => None end) l.

Definition output_bytes (l : list (byte + HostEvent)) : bytes :=
  omap (λ a, match a with inl b => Some b | inr _ => None end) l.

(** The cursor shown: whether the eye is closed. *)
Definition eye_shown (e : Element) : option bool :=
  match e with Stack [_; EyeCursor _ active _] => Some active | _ => None end.

(** What the stream does to the atoms: nothing, but for a [Disconnected] at the
    end of a closed channel. *)
Definition added (tail : list (byte + HostEvent)) (s : Unfold) (queue : list HostEvent) (closed : bool) : Prop :=
  tail = [] ∨ tail = [inr Disconnected] ∧ closed = true ∧ queue = [] ∧
    ∀ data, s ≠ Coalescing data ∧ s ≠ Receiving (Some (TerminalOutput data)).

Lemma fmap_inl_app (a b : bytes) : (inl <$> (a ++ b) : list (byte + HostEvent)) = (inl <$> a) ++ (inl <$> b).
Proof. apply fmap_app. Qed.

Lemma stream_atoms s queue closed : ∃ tail,
  let '(s', queue', m) := host_event_stream s queue closed in
  unfold_atoms s ++ (queue ≫= atoms) ++ tail =
    (option_list m ≫= message_atoms) ++ unfold_atoms s' ++ (queue' ≫= atoms) ∧
  (tail = [] ∨ tail = [inr Disconnected] ∧ closed = true ∧ queue' = [] ∧
     s' = Receiving (Some Disconnected) ∧ queue = [] ∧ ∃ data, s = Coalescing data).
Proof.
  destruct s as [[e|]|data|]; cbn [host_event_stream].
  - exists []. destruct e; cbn; rewrite ?app_nil_r; auto.
  - destruct queue as [|e queue].
    + exists []. destruct closed; cbn; auto.
    + exists []. destruct e; cbn; rewrite ?app_nil_r; auto.
  - destruct queue as [|e queue].
    + destruct closed; [exists [inr Disconnected]|exists []]; cbn; rewrite ?app_nil_r; eauto 10.
    + exists []. destruct e; cbn; rewrite ?fmap_inl_app, ?app_nil_r, <- ?app_assoc; auto.
  - exists []. cbn. rewrite ?app_nil_r. auto.
Qed.

Definition is_end (m : Message) : bool :=
  match m with MHost (SessionEnded _) | MHost Disconnected => true | _ => false end.

(** A message handled now. *)
Definition handled_now (d : desktop) (o : op) : list Message :=
  match o with UiStep => option_list (head (inbox d)) | _ => [] end.

Definition sent_now (d : desktop) (o : op) : list HostEvent :=
  match o with HostSends e => if channel_closed d then [] else [e] | _ => [] end.

(** The state after the host sent [evs] and the application handled [ms]. *)
Record ok `{!DisplayLaws} (d : desktop) (evs : list HostEvent) (ms : list Message) : Prop := {
  ok_atoms : ∃ tail, (evs ≫= atoms) ++ tail = (ms ≫= message_atoms) ++ in_flight d ∧
    added tail (stream d) (channel d) (channel_closed d);
  ok_terminal : feed vte_new (term_new TERMINAL_COLS TERMINAL_ROWS) (output_bytes (ms ≫= message_atoms)) =
    Some (terminal (app d));
  ok_wf : wf (terminal (app d)).2;
  ok_exited : exited d = existsb is_end ms;
  ok_keys : ∀ k, k ∈ pressed_keys (app d) ↔ key_held k (inputs ms) = true;
  ok_button : left_mouse_down (app d) = button_held (inputs ms);
  ok_done : stream d = Done → channel d = [] ∧ channel_closed d = true;
}.

Context `{!DisplayLaws, !VteIncremental}.

Lemma output_bytes_app a b : output_bytes (a ++ b) = output_bytes a ++ output_bytes b.
Proof. apply omap_app. Qed.

Lemma output_bytes_inl (data : bytes) : output_bytes (inl <$> data) = data.
Proof. induction data as [|b data IH]; [done|]. unfold output_bytes in *. cbn. by rewrite IH. Qed.

Lemma emulator_feed_app p t a b : feed p t (a ++ b) = '(p, t) ← feed p t a; feed p t b.
Proof.
  unfold feed. rewrite vte_advance_app. destruct (vte_advance p a) as [p1 ea].
  destruct (vte_advance p1 b) as [p2 eb] eqn:E. rewrite run_steps_app. cbn [mbind option_bind].
  destruct (run_steps perform t ea); cbn [mbind option_bind]; [|done]. by rewrite E.
Qed.

Lemma feed_nil p t : feed p t [] = Some (p, t).
Proof. unfold feed. by rewrite vte_advance_nil. Qed.

Lemma feed_total p t data : wf t → ∃ p' t', feed p t data = Some (p', t') ∧ wf t'.
Proof.
  intros Ht. unfold feed. destruct (vte_advance p data) as [p' l].
  destruct (wf_run t l Ht) as (t' & -> & ? & _). by exists p', t'.
Qed.

Definition shown (ms : list Message) : option (vte_state * Terminal) :=
  feed vte_new (term_new TERMINAL_COLS TERMINAL_ROWS) (output_bytes (ms ≫= message_atoms)).

(** Handling a message. *)
Lemma app_update_ok a ms m : shown ms = Some (terminal a) → wf (terminal a).2 →
  ∃ a' task n, update a m = Some (a', task, n) ∧ shown (ms ++ [m]) = Some (terminal a') ∧ wf (terminal a').2 ∧
  match task with Exit => true | TaskNone => false end = is_end m.
Proof.
  unfold shown. intros Hf Hw. rewrite bind_app, output_bytes_app. cbn [mbind list_bind].
  rewrite app_nil_r, emulator_feed_app, Hf. destruct (terminal a) as [p t] eqn:Et. cbn [mbind option_bind fst snd] in *.
  destruct m as [[data|r|]|m|e|q| |b]; cbn [message_atoms atoms update].
  { rewrite output_bytes_inl, Et. cbn [fst snd].
    destruct (feed_total p t data Hw) as (p' & t' & -> & ?). cbn. eauto 8. }
  all: rewrite feed_nil; try (destruct e; cbn [on_input]); (eexists _, _, _; split; [done|]);
    cbn; rewrite Et; by auto.
Qed.

(** The keys and the button after a message. *)
Lemma update_held a m a' task n : update a m = Some (a', task, n) →
  match m with
  | Input e =>
    (∀ k, k ∈ pressed_keys a' ↔
      match e with
      | KeyPressed k' => k ∈ pressed_keys a ∨ k = k'
      | KeyReleased k' => k ∈ pressed_keys a ∧ k ≠ k'
      | _ => k ∈ pressed_keys a
      end) ∧
    left_mouse_down a' =
      match e with LeftMousePressed => true | LeftMouseReleased => false | _ => left_mouse_down a end
  | _ => pressed_keys a' = pressed_keys a ∧ left_mouse_down a' = left_mouse_down a
  end.
Proof.
  destruct m as [[data|r|]|m|e|q| |b]; cbn [update].
  { destruct (feed _ _ data); [|done]. by intros [= <- <- <-]. }
  4: { destruct e as [| |k'|k']; cbn; intros [= <- <- <-]; cbn; (split; [|done]); intros k; set_solver. }
  all: by intros [= <- <- <-].
Qed.

Lemma inputs_snoc ms m : inputs (ms ++ [m]) = inputs ms ++ match m with Input e => [e] | _ => [] end.
Proof. unfold inputs. rewrite omap_app. by destruct m. Qed.

Lemma held_snoc ms m a a' task n : update a m = Some (a', task, n) →
  (∀ k, k ∈ pressed_keys a ↔ key_held k (inputs ms) = true) →
  left_mouse_down a = button_held (inputs ms) →
  (∀ k, k ∈ pressed_keys a' ↔ key_held k (inputs (ms ++ [m])) = true) ∧
  left_mouse_down a' = button_held (inputs (ms ++ [m])).
Proof.
  intros Hu Hk Hb. apply update_held in Hu. rewrite inputs_snoc. destruct m.
  3: { destruct Hu as [Hk' Hb']. unfold key_held, button_held in *. rewrite foldl_app. cbn [foldl].
    split; [|destruct e; congruence]. intros k. rewrite Hk', foldl_app. cbn [foldl].
    destruct e; rewrite Hk; [done..| |].
    - by rewrite orb_true_iff, bool_decide_eq_true.
    - by rewrite andb_true_iff, negb_true_iff, bool_decide_eq_false. }
  all: rewrite app_nil_r; destruct Hu as [-> ->]; done.
Qed.

Lemma inbox_atoms l m : (l ++ option_list m) ≫= message_atoms = (l ≫= message_atoms) ++ (option_list m ≫= message_atoms).
Proof. apply bind_app. Qed.

(** Messages that are not the host's have no atoms. *)
Lemma in_flight_deliver d m : option_list m ≫= message_atoms = [] → in_flight (deliver d m) = in_flight d.
Proof. intros Hm. unfold in_flight, deliver. cbn. by rewrite inbox_atoms, Hm, app_nil_r. Qed.

Lemma listen_atoms e : option_list (listen e) ≫= message_atoms = [].
Proof. by destruct e as [[]|[]|k []|k|]. Qed.

Lemma ok_deliver d evs ms m : option_list m ≫= message_atoms = [] → ok d evs ms → ok (deliver d m) evs ms.
Proof. intros Hm []. split; try done. by rewrite in_flight_deliver. Qed.

Lemma ok_step d evs ms o : ok d evs ms → ∃ d', desktop_step d o = Some d' ∧
  ok d' (evs ++ sent_now d o) (ms ++ handled_now d o) ∧
  channel_closed d' = match o with HostDrops => true | _ => channel_closed d end.
Proof.
  intros Hok. destruct o as [e| | |e|e|m|]; cbn [desktop_step sent_now handled_now]; rewrite ?app_nil_r.
  - (* the host sends *)
    destruct (channel_closed d) eqn:Ec; rewrite ?app_nil_r; [by exists d|]. eexists. split; [done|]. cbn. split; [|done].
    destruct Hok as [(tail & Ha & Ht) ? ? ? ? ? Hd]. split; cbn; try done.
    + destruct Ht as [->|(_ & ? & _)]; [|congruence]. exists []. split; [|by left]. rewrite app_nil_r in *.
      unfold in_flight in *. cbn. rewrite !bind_app, Ha, <- !app_assoc. cbn. by rewrite app_nil_r.
    + intros Hdone. destruct (Hd Hdone). congruence.
  - eexists. split; [done|]. cbn. split; [|done]. destruct Hok as [(tail & Ha & Ht) ? ? ? ? ? Hd]. split; cbn; try done.
    + exists tail. split; [exact Ha|]. unfold added in *. naive_solver.
    + intros Hdone. by destruct (Hd Hdone).
  - (* the stream *)
    destruct (host_event_stream (stream d) (channel d) (channel_closed d)) as [[s q] m] eqn:Es.
    eexists. split; [done|]. cbn. split; [|done]. destruct Hok as [(tail & Ha & Ht) ? ? ? ? ? Hd].
    destruct (stream_atoms (stream d) (channel d) (channel_closed d)) as (tail' & Hs). rewrite Es in Hs.
    destruct Hs as [Hs Ht']. split; cbn; try done.
    + assert (Hfl : in_flight d ++ tail' = ((inbox d ++ option_list m) ≫= message_atoms) ++ unfold_atoms s ++ (q ≫= atoms)).
      { unfold in_flight. by rewrite inbox_atoms, <- !app_assoc, <- Hs. }
      exists (tail ++ tail'). split; [by rewrite app_assoc, Ha, <- app_assoc, Hfl|].
      destruct Ht as [->|(-> & Hc & Hq & Hne)].
      * destruct Ht' as [->|(-> & ? & ? & -> & _)]; [by left|]. right. by split_and!.
      * destruct Ht' as [->|(-> & ? & ? & ? & ? & data & Hco)]; [|by destruct (Hne data)].
        right. rewrite Hq, Hc in Es. cbn [app]. split; [done|]. split; [done|].
        destruct (stream d) as [[[]|]|data|]; cbn in Es; try (by destruct (Hne data)); by simplify_eq.
    + intros ->. destruct (stream d) as [[[]|]|data|] eqn:Ed; cbn in Es; try done;
        [|destruct (channel d) as [|[] ?]; by simplify_eq|by simplify_eq; apply Hd].
      destruct (channel d) as [|[] ?]; simplify_eq; [|done..]. destruct (channel_closed d); by simplify_eq.
  - eexists. split; [done|]. split; [|done]. by apply ok_deliver.
  - eexists. split; [done|]. split; [|done]. by apply ok_deliver; [apply listen_atoms|].
  - destruct m; try (exists d; by split); (eexists; split; [done|]; split; [by apply ok_deliver|done]).
  - (* the application *)
    destruct (inbox d) as [|m l] eqn:Ei; cbn [head option_list]; rewrite ?app_nil_r; [by exists d|].
    destruct Hok as [(tail & Ha & Ht) Hf Hw He Hk Hb Hd].
    destruct (app_update_ok (app d) ms m Hf Hw) as (a' & task & n & Hu & Hf' & Hw' & He'). rewrite Hu. cbn [mbind option_bind].
    destruct (held_snoc ms m _ _ _ _ Hu Hk Hb) as [Hk' Hb'].
    eexists. split; [done|]. split; [|done]. split; cbn; try done.
    + exists tail. split; [|done]. rewrite Ha. unfold in_flight. cbn. rewrite Ei, bind_app. cbn. by rewrite app_nil_r, <- !app_assoc.
    + by rewrite He, existsb_app, He'; cbn; rewrite orb_false_r.
Qed.

Lemma ok_run d evs ms ops : ok d evs ms → ∃ d', run_steps desktop_step d ops = Some d' ∧
  ok d' (evs ++ sent (channel_closed d) ops) (ms ++ handled d ops).
Proof.
  revert d evs ms. induction ops as [|o ops IH]; intros d evs ms Hok; cbn [run_steps sent handled].
  { exists d. by rewrite !app_nil_r. }
  destruct (ok_step d evs ms o Hok) as (d1 & -> & Hok1 & Hc). cbn [from_option].
  destruct (IH d1 _ _ Hok1) as (d' & -> & Hok'). exists d'. split; [done|].
  rewrite <- !app_assoc in Hok'. rewrite Hc in Hok'. destruct o; cbn [sent_now handled_now] in *; done.
Qed.

Lemma ok_new s : ok (desktop_new s) [] [].
Proof.
  split; cbn; try done.
  - exists []. split; [done|by left].
  - apply feed_nil.
  - apply wf_new. unfold TERMINAL_COLS. lia.
Qed.

(** C9. The window follows the host: whatever the interleaving with the user, the
    player and the toolkit, nothing panics, and what the host sent is what the
    application has handled and what is on its way, in order and without loss,
    up to how the output is cut and a [Disconnected] the stream adds at the end
    of a closed channel; the terminal shown is the one that was fed exactly the
    output handled, and the eye is closed while a key or the button that the
    messages handled say is held. *)
Theorem window_follows_host (s : Overlay.AvState) (ops : list op) :
  ∃ d tail, run_steps desktop_step (desktop_new s) ops = Some d ∧
  let ms := handled (desktop_new s) ops in
  (sent false ops ≫= atoms) ++ tail = (ms ≫= message_atoms) ++ in_flight d ∧
  (tail = [] ∨ tail = [inr Disconnected] ∧ channel_closed d = true ∧ channel d = []) ∧
  feed vte_new (term_new TERMINAL_COLS TERMINAL_ROWS) (output_bytes (ms ≫= message_atoms)) = Some (terminal (app d)) ∧
  wf (terminal (app d)).2 ∧
  (∀ eye_active, eye_shown (view (app d)) = Some eye_active →
     eye_active = true ↔ button_held (inputs ms) = true ∨ ∃ k, key_held k (inputs ms) = true).
Proof.
  destruct (ok_run _ _ _ ops (ok_new s)) as (d & Hr & Hok). cbn [app channel_closed desktop_new] in Hok.
  destruct Hok as [(tail & Ha & Ht) Hf Hw _ Hk Hb _]. exists d, tail. split; [done|]. cbv zeta.
  split; [done|]. split; [unfold added in Ht; naive_solver|]. split; [done|]. split; [done|].
  intros eye. unfold view. destruct (if terminal_hovered (Desktop.app d) then _ else _) as [q|].
  - cbn. intros [= <-]. rewrite orb_true_iff, Hb, negb_true_iff, bool_decide_eq_false.
    apply or_iff_compat_l. setoid_rewrite <- Hk. split; [apply set_choose_L|]. intros [k Hin] He. set_solver.
  - cbn. unfold overlay_view. by destruct (Overlay.program _).
Qed.

(** ** The end of a session reaches the window *)

(** Receives until the stream waits on an empty channel. *)
Definition unfold_work (s : Unfold) : nat :=
  match s with
  | Receiving (Some (TerminalOutput _)) => 4
  | Receiving (Some _) => 2
  | Receiving None | Done => 0
  | Coalescing _ => 3
  end.

Definition stream_work (d : desktop) : nat := (4 * length (channel d) + unfold_work (stream d))%nat.

Lemma stream_progress d evs ms : ok d evs ms → ∃ d', desktop_step d StreamStep = Some d' ∧
  (stream_work d' < stream_work d ∨ stream_work d' = 0 ∧ stream_work d = 0)%nat ∧
  (length (inbox d') ≤ S (length (inbox d)))%nat.
Proof.
  intros Hok. cbn [desktop_step]. pose proof (ok_done _ _ _ Hok) as Hd.
  destruct (host_event_stream _ _ _) as [[s q] m] eqn:Es. eexists. split; [done|]. unfold stream_work. cbn [channel stream inbox].
  split; [|rewrite length_app; destruct m; cbn; lia].
  destruct (stream d) as [[[]|]|data|]; cbn in Es; simplify_eq; cbn [unfold_work]; try lia.
  - destruct (channel d) as [|[] ?]; cbn in Es; simplify_eq; [destruct (channel_closed d)|..]; cbn; lia.
  - destruct (channel d) as [|[] ?]; cbn in Es; simplify_eq; [destruct (channel_closed d)|..]; cbn; lia.
  - destruct (Hd eq_refl) as [-> _]. cbn. lia.
Qed.

Lemma stream_drains n d evs ms : ok d evs ms → (stream_work d ≤ n)%nat →
  ∃ d', run_steps desktop_step d (replicate n StreamStep) = Some d' ∧ ok d' evs ms ∧
  stream_work d' = 0%nat ∧ (length (inbox d') ≤ length (inbox d) + n)%nat.
Proof.
  revert d. induction n as [|n IH]; intros d Hok Hn; cbn [replicate run_steps].
  { exists d. split_and!; [done|done|lia|lia]. }
  destruct (stream_progress d evs ms Hok) as (d1 & E & Hw & Hi).
  destruct (ok_step d evs ms StreamStep Hok) as (d2 & E2 & Hok1 & _). rewrite E in E2. injection E2 as <-.
  cbn [sent_now handled_now] in Hok1. rewrite !app_nil_r in Hok1. rewrite E.
  destruct (IH d1 Hok1) as (d' & -> & Hok' & Hz & Hl); [lia|]. exists d'. split_and!; [done|done|done|lia].
Qed.

Lemma inbox_drains m d evs ms : ok d evs ms → stream_work d = 0%nat → (length (inbox d) ≤ m)%nat →
  ∃ d' ms', run_steps desktop_step d (replicate m UiStep) = Some d' ∧ ok d' evs ms' ∧ in_flight d' = [].
Proof.
  revert d ms. induction m as [|m IH]; intros d ms Hok Hw Hm; cbn [replicate run_steps].
  { exists d, ms. split_and!; [done|done|]. unfold in_flight, stream_work in *.
    destruct (inbox d); [|cbn in Hm; lia]. destruct (channel d); [|cbn in Hw; lia].
    by destruct (stream d) as [[[]|]|?|]. }
  destruct (ok_step d evs ms UiStep Hok) as (d1 & E & Hok1 & _). rewrite E. cbn [sent_now] in Hok1. rewrite app_nil_r in Hok1.
  assert (stream_work d1 = 0%nat ∧ length (inbox d1) ≤ m)%nat as [??].
  { cbn [desktop_step] in E. destruct (inbox d) as [|x l] eqn:Ei; [injection E as <-; rewrite Ei; cbn; split; [done|lia]|].
    destruct (update (app d) x) as [[[a task] k]|]; [|done]. injection E as <-. cbn in *. split; [done|lia]. }
  by apply (IH d1 _ Hok1).
Qed.

Lemma atoms_end e evs : e ∈ evs → is_end (MHost e) = true → inr e ∈ evs ≫= atoms.
Proof. intros He Hend. apply list_elem_of_bind. exists e. split; [|done]. destruct e; [done|by left..]. Qed.

Lemma message_end (e : HostEvent) ms : inr e ∈ ms ≫= message_atoms → existsb is_end ms = true.
Proof.
  intros (m & Hm & Hin)%list_elem_of_bind. apply existsb_exists. exists m. split; [by apply list_elem_of_In|].
  destruct m as [[data| |]|m|m|m| |m]; cbn in *; try done; [|by apply not_elem_of_nil in Hm..].
  apply list_elem_of_fmap in Hm as (? & ? & _). done.
Qed.

Lemma end_drains (s : Overlay.AvState) (ops : list op) (e : HostEvent) :
  e ∈ sent false ops → is_end (MHost e) = true →
  ∃ d, run_steps desktop_step (desktop_new s) ops = Some d ∧
  ∀ n m, (4 * length (channel d) + 4 ≤ n)%nat → (length (inbox d) + n ≤ m)%nat →
  ∃ d', run_steps desktop_step (desktop_new s) (ops ++ replicate n StreamStep ++ replicate m UiStep) = Some d' ∧
    exited d' = true ∧ in_flight d' = [].
Proof.
  intros He Hend. destruct (ok_run _ _ _ ops (ok_new s)) as (d & Hr & Hok). exists d. split; [done|]. intros n m Hn Hm.
  destruct (stream_drains n d _ _ Hok) as (d1 & E1 & Hok1 & Hw & Hl).
  { unfold stream_work. destruct (stream d) as [[[]|]|?|]; cbn; lia. }
  destruct (inbox_drains m d1 _ _ Hok1 Hw) as (d' & ms' & E2 & Hok2 & Hf); [lia|]. exists d'.
  rewrite run_steps_app, Hr. cbn [mbind option_bind]. rewrite run_steps_app, E1. cbn [mbind option_bind]. split; [done|]. split; [|done].
  destruct Hok2 as [(tail & Ha & _) _ _ -> _ _ _]. rewrite Hf, app_nil_r in Ha.
  apply (message_end e). rewrite <- Ha. apply elem_of_app. left. by apply atoms_end.
Qed.

(** When the host has sent the end of its session, or that it disconnected, the
    application ends: it is enough that the stream receives until nothing is
    left and that the messages are handled. *)
Theorem session_end_reaches_window (s : Overlay.AvState) (ops : list op) (e : HostEvent) :
  e ∈ sent false ops → is_end (MHost e) = true →
  ∃ d, run_steps desktop_step (desktop_new s) ops = Some d ∧
  ∀ n m, (4 * length (channel d) + 4 ≤ n)%nat → (length (inbox d) + n ≤ m)%nat →
  ∃ d', run_steps desktop_step (desktop_new s) (ops ++ replicate n StreamStep ++ replicate m UiStep) = Some d' ∧
    exited d' = true ∧ in_flight d' = [].
Proof. apply end_drains. Qed.

(** While the host has said nothing, nothing the user or the player does ends
    the application, be its channel open or closed. *)
Lemma silence_goes_on d ops : channel d = [] → stream d = Receiving None ∨ stream d = Done →
  existsb is_end (inbox d) = false → exited d = false → sent (channel_closed d) ops = [] →
  ∀ d', run_steps desktop_step d ops = Some d' → exited d' = false.
Proof.
  revert d. induction ops as [|o ops IH]; intros d Hq Hs Hi He Hsent d'; cbn [run_steps]; [by intros [= <-]|].
  destruct (desktop_step d o) as [d1|] eqn:E; [|done]. revert d'. destruct o as [e| | |e|e|m|]; cbn [desktop_step sent] in *.
  - destruct (channel_closed d) eqn:Ec; [|done]. injection E as <-. by apply IH; rewrite ?Ec.
  - injection E as <-. by apply IH.
  - rewrite Hq in E. destruct Hs as [Hs|Hs]; rewrite Hs in E; cbn in E.
    + destruct (channel_closed d) eqn:Ec; injection E as <-; apply IH; cbn; rewrite ?app_nil_r, ?Ec; auto.
    + injection E as <-. apply IH; cbn; rewrite ?app_nil_r; auto.
  - injection E as <-. apply IH; cbn; try done. by rewrite existsb_app, Hi.
  - injection E as <-. apply IH; cbn; try done. rewrite existsb_app, Hi. by destruct e as [[]|[]|k []|k|].
  - destruct m; injection E as <-; apply IH; cbn; try done; by rewrite existsb_app, Hi.
  - destruct (inbox d) as [|m l] eqn:Ei; [injection E as <-; apply IH; by rewrite ?Ei|]. cbn in Hi.
    apply orb_false_iff in Hi as [Hm Hl]. destruct (update (app d) m) as [[[a task] n]|] eqn:Eu; [|done].
    injection E as <-. apply IH; cbn; try done. rewrite He. cbn.
    destruct m as [[data|r|]|m|e|q| |b]; cbn in Eu, Hm; try done; try (by injection Eu as <- <- <-).
    + destruct (feed _ _ data); [|done]. by injection Eu as <- <- <-.
    + destruct e; by injection Eu as <- <- <-.
Qed.

(** *** A host that ends without a word *)

Definition is_output (e : HostEvent) : Prop := match e with TerminalOutput _ => True | _ => False end.

(** No output is on its way to the window. *)
Definition settled (d : desktop) : Prop := channel d = [] ∧ stream d = Receiving None.

Lemma output_atoms evs : Forall is_output evs → ∀ e, (inr e : byte + HostEvent) ∉ evs ≫= atoms.
Proof.
  intros Hall e (x & Hin & Hx)%list_elem_of_bind. rewrite Forall_forall in Hall. apply Hall in Hx.
  destruct x; [|done..]. apply list_elem_of_fmap in Hin as (? & ? & _). done.
Qed.

(** While the host has sent output only and its channel is open. *)
Lemma output_only d evs ms : ok d evs ms → channel_closed d = false → Forall is_output evs →
  existsb is_end (inbox d) = false ∧ exited d = false ∧ Forall is_output (channel d) ∧
  (stream d = Receiving None ∨ ∃ data, stream d = Coalescing data ∨ stream d = Receiving (Some (TerminalOutput data))).
Proof.
  intros Hok Hc Hev. destruct (ok_atoms _ _ _ Hok) as (tail & Ha & [->|(_ & ? & _)]); [|congruence].
  rewrite app_nil_r in Ha. assert (∀ e : HostEvent, inr e ∉ (ms ≫= message_atoms) ++ in_flight d) as Hno.
  { intros e. rewrite <- Ha. by apply output_atoms. }
  assert (∀ l, (∀ e : HostEvent, inr e ∉ l ≫= message_atoms) → existsb is_end l = false) as Hends.
  { intros l Hl. apply not_true_iff_false. intros (m & Hin%list_elem_of_In & Hm)%existsb_exists.
    destruct m as [e| | | | |]; try done. apply (Hl e). apply list_elem_of_bind. exists (MHost e). split; [|done].
    destruct e; [done|by left..]. }
  unfold in_flight in Hno. repeat setoid_rewrite elem_of_app in Hno. split_and!.
  - apply Hends. intros e He. apply (Hno e). auto.
  - rewrite (ok_exited _ _ _ Hok). apply Hends. intros e He. apply (Hno e). auto.
  - apply Forall_forall. intros e He. destruct e as [data|r|]; [done| |]; eapply Hno; right; right; right;
      apply list_elem_of_bind; (eexists; split; [|exact He]); by left.
  - destruct (stream d) as [[[data|r|]|]|data|] eqn:Es; eauto.
    + exfalso. eapply Hno. right. right. left. by left.
    + exfalso. eapply Hno. right. right. left. by left.
    + destruct (ok_done _ _ _ Hok Es). congruence.
Qed.

(** Output on its way at the end of the channel brings a [Disconnected]. *)
Definition will_end (d : desktop) : Prop :=
  existsb is_end (inbox d) = true ∨ stream d = Receiving (Some Disconnected) ∨
  (∃ data, stream d = Coalescing data ∨ stream d = Receiving (Some (TerminalOutput data))) ∨
  stream d = Receiving None ∧ channel d ≠ [].

Lemma will_end_step d d' : channel_closed d = true → Forall is_output (channel d) → will_end d →
  desktop_step d StreamStep = Some d' → channel_closed d' = true ∧ Forall is_output (channel d') ∧ will_end d'.
Proof.
  intros Hc Hall Hw. cbn [desktop_step]. destruct (host_event_stream _ _ _) as [[s q] m] eqn:Es. intros [= <-].
  unfold will_end in *. cbn. rewrite existsb_app, orb_true_iff. rewrite Hc in *.
  destruct (stream d) as [[[data|r|]|]|data|] eqn:Ed; cbn in Es.
  - injection Es as <- <- <-. cbn. split_and!; [done..|]. right. right. left. eauto.
  - injection Es as <- <- <-. cbn. split_and!; [done..|]. left. by right.
  - injection Es as <- <- <-. cbn. split_and!; [done..|]. left. by right.
  - destruct (channel d) as [|[data|r|] l]; cbn in Es; injection Es as <- <- <-.
    + split_and!; [done..|]. destruct Hw as [?|[?|[(? & [?|?])|[? ?]]]]; auto; done.
    + inversion_clear Hall. split_and!; [done..|]. right. right. left. eauto.
    + by inversion_clear Hall.
    + by inversion_clear Hall.
  - destruct (channel d) as [|[data'|r|] l]; cbn in Es; injection Es as <- <- <-.
    + split_and!; [done..|]. by right; left.
    + inversion_clear Hall. split_and!; [done..|]. right. right. left. eauto.
    + by inversion_clear Hall.
    + by inversion_clear Hall.
  - injection Es as <- <- <-. split_and!; [done..|]. destruct Hw as [?|[?|[(? & [?|?])|[? ?]]]]; auto; done.
Qed.

Lemma will_end_drains n d evs ms : ok d evs ms → channel_closed d = true → Forall is_output (channel d) →
  will_end d → (stream_work d ≤ n)%nat →
  ∃ d', run_steps desktop_step d (replicate n StreamStep) = Some d' ∧ ok d' evs ms ∧
    existsb is_end (inbox d') = true ∧ (length (inbox d') ≤ length (inbox d) + n)%nat.
Proof.
  revert d. induction n as [|n IH]; intros d Hok Hc Hall Hw Hn; cbn [replicate run_steps].
  - exists d. split_and!; [done|done| |lia]. unfold stream_work in Hn.
    destruct Hw as [?|[E|[(data & [E|E])|[E Hq]]]]; [done|rewrite E in Hn; cbn in Hn; lia..|].
    destruct (channel d); [done|cbn in Hn; lia].
  - destruct (stream_progress d evs ms Hok) as (d1 & E & Hlt & Hi). rewrite E.
    destruct (will_end_step d d1 Hc Hall Hw E) as (Hc1 & Hall1 & Hw1).
    destruct (ok_step d evs ms StreamStep Hok) as (d2 & E2 & Hok1 & _). rewrite E in E2. injection E2 as <-.
    cbn [sent_now handled_now] in Hok1. rewrite !app_nil_r in Hok1.
    destruct (IH d1 Hok1 Hc1 Hall1 Hw1) as (d' & -> & Hok' & He & Hl); [lia|].
    exists d'. split_and!; [done..|lia].
Qed.

Lemma inbox_exits m : ∀ d evs ms, ok d evs ms → exited d = true ∨ existsb is_end (inbox d) = true →
  (length (inbox d) ≤ m)%nat → ∃ d', run_steps desktop_step d (replicate m UiStep) = Some d' ∧ exited d' = true.
Proof.
  induction m as [|m IH]; intros d evs ms Hok He Hm; cbn [replicate run_steps].
  { exists d. split; [done|]. destruct He as [?|He]; [done|]. by destruct (inbox d); [|cbn in Hm; lia]. }
  destruct (ok_step d evs ms UiStep Hok) as (d1 & E & Hok1 & _). rewrite E.
  apply (IH d1 _ _ Hok1).
  - rewrite (ok_exited _ _ _ Hok1), existsb_app. rewrite (ok_exited _ _ _ Hok) in He.
    destruct He as [->|He]; [by left|]. cbn [handled_now desktop_step] in *. destruct (inbox d) as [|x l]; [done|].
    cbn in He. apply orb_true_iff in He as [Hx|Hl].
    + left. cbn. by rewrite Hx, orb_true_r.
    + right. destruct (update (app d) x) as [[[a task] k]|]; [|done]. by injection E as <-.
  - cbn [desktop_step] in E. destruct (inbox d) as [|x l] eqn:Ei; [injection E as <-; rewrite Ei; cbn; lia|].
    destruct (update (app d) x) as [[[a task] k]|]; [|done]. injection E as <-. cbn in *. lia.
Qed.

Lemma closed_by ops : ∀ d d', (HostDrops ∉ ops) → run_steps desktop_step d ops = Some d' →
  channel_closed d' = channel_closed d.
Proof.
  induction ops as [|o ops IH]; intros d d' Hno; cbn [run_steps]; [by intros [= <-]|].
  apply not_elem_of_cons in Hno as [Ho Hno]. destruct (desktop_step d o) as [d1|] eqn:E; [|done].
  intros Hr. rewrite (IH d1 d' Hno Hr). destruct o as [e| | |e|e|m|]; cbn [desktop_step] in E; try done.
  - destruct (channel_closed d) eqn:Ec; by injection E as <-.
  - destruct (host_event_stream _ _ _) as [[s q] m]. by injection E as <-.
  - by injection E as <-.
  - by injection E as <-.
  - destruct m; by injection E as <-.
  - destruct (inbox d); [by injection E as <-|]. destruct (update _ _) as [[[a task] k]|]; [|done]. by injection E as <-.
Qed.

(** A host that has sent output only, and then ends without a word: if none of
    the output is on its way, the window stays open, whatever the user and the
    player do and though the channel closes; if some is, it closes when the
    channel has closed, the stream has received the rest and the messages are
    handled. *)
Lemma wordless_end (s : Overlay.AvState) (before : list op) d :
  HostDrops ∉ before → Forall is_output (sent false before) →
  run_steps desktop_step (desktop_new s) before = Some d →
  exited d = false ∧
  (settled d → ∀ after d', sent false after = [] → run_steps desktop_step d after = Some d' → exited d' = false) ∧
  (¬ settled d → ∀ n m, (4 * length (channel d) + 4 ≤ n)%nat → (length (inbox d) + n ≤ m)%nat →
    ∃ d', run_steps desktop_step d (HostDrops :: replicate n StreamStep ++ replicate m UiStep) = Some d' ∧ exited d' = true).
Proof.
  intros Hno Hout Hr. destruct (ok_run _ _ _ before (ok_new s)) as (d0 & Hr0 & Hok). rewrite Hr in Hr0. injection Hr0 as <-.
  cbn [app channel_closed desktop_new] in Hok. pose proof (closed_by before _ _ Hno Hr) as Hc. cbn in Hc.
  destruct (output_only d _ _ Hok Hc Hout) as (Hi & He & Hq & Hs). split; [done|]. split.
  - intros [Hq0 Hs0] after d' Hsent Hr'. apply (silence_goes_on d after); auto. by rewrite Hc.
  - intros Hns n m Hn Hm. cbn [run_steps desktop_step].
    set (d1 := MkDesktop (channel d) true (stream d) (inbox d) (app d) (exited d) (denied d)).
    destruct (ok_step d _ _ HostDrops Hok) as (d1' & E1 & Hok1 & _). cbn [desktop_step] in E1. injection E1 as <-.
    cbn [sent_now handled_now] in Hok1. rewrite !app_nil_r in Hok1. fold d1 in Hok1.
    destruct (will_end_drains n d1 _ _ Hok1 eq_refl Hq) as (d2 & E2 & Hok2 & He2 & Hl2).
    { unfold will_end. cbn. destruct Hs as [Hs|Hs]; [|auto]. right. right. right. split; [done|]. intros Hq0. by apply Hns. }
    { unfold stream_work. cbn. destruct Hs as [->|(data & [->| ->])]; cbn; lia. }
    rewrite run_steps_app, E2. cbn [mbind option_bind].
    apply (inbox_exits m d2 _ _ Hok2); [by right|]. cbn in Hl2. lia.
Qed.

End Desktop.

(** ** At concrete inputs *)

#[local] Instance mono_display : Display := {|
  Color := bool;
  BLACK := false;
  WHITE := true;
  from_rgb _ _ _ := true;
  color_eqb := Bool.eqb;
  unicode_width _ := Some 1%nat;
|}.

#[local] Instance mono_display_laws : DisplayLaws.
Proof. split. reflexivity. Qed.

(** A key goes down, the host sends output in two chunks and ends the session. *)
Definition some_ops : list (op (Key := Z)) :=
  [UserEvent (KeyboardPressed 30 false); HostSends (TerminalOutput (str_bytes "he")); StreamStep; UiStep;
   HostSends (TerminalOutput (str_bytes "llo")); StreamStep; PointerMessage (TerminalHoverChanged true);
   HostSends (SessionEnded "child process exited"); StreamStep; UiStep; UiStep].

Lemma window_follows_host_witness :
  ∃ d tail, run_steps desktop_step (desktop_new (Overlay.MkState None)) some_ops = Some d ∧
  let ms := handled (desktop_new (Overlay.MkState None)) some_ops in
  (sent false some_ops ≫= atoms) ++ tail = (ms ≫= message_atoms) ++ in_flight d ∧
  (tail = [] ∨ tail = [inr Disconnected] ∧ channel_closed d = true ∧ channel d = []) ∧
  feed vte_new (term_new TERMINAL_COLS TERMINAL_ROWS) (output_bytes (ms ≫= message_atoms)) = Some (terminal (app d)) ∧
  wf (terminal (app d)).2 ∧
  (∀ eye_active, eye_shown (view (app d)) = Some eye_active →
     eye_active = true ↔ button_held (inputs ms) = true ∨ ∃ k, key_held k (inputs ms) = true).
Proof. apply (window_follows_host (Overlay.MkState None) some_ops). Defined.

Lemma session_end_reaches_window_witness :
  SessionEnded "child process exited" ∈ sent false some_ops ∧
  ∃ d, run_steps desktop_step (desktop_new (Overlay.MkState None)) some_ops = Some d ∧
  ∀ n m, (4 * length (channel d) + 4 ≤ n)%nat → (length (inbox d) + n ≤ m)%nat →
  ∃ d', run_steps desktop_step (desktop_new (Overlay.MkState None)) (some_ops ++ replicate n StreamStep ++ replicate m UiStep) = Some d' ∧
    exited d' = true ∧ in_flight d' = [].
Proof.
  split; [right; right; left|].
  apply (session_end_reaches_window (Overlay.MkState None) some_ops (SessionEnded "child process exited"));
    [right; right; left|reflexivity].
Defined.

(** When the host ends without a word, the stream ends without one: a window
    that had nothing to show stays open; had there been output, it would close. *)
Example silent_end_goes_unseen :
  (λ d, (exited d, status (app d), stream d, channel d, inbox d)) <$>
    run_steps (desktop_step (Key := Z)) (desktop_new (Overlay.MkState None)) [HostDrops; StreamStep; UiStep] =
    Some (false, None, Done, [], []) ∧
  (λ d, (exited d, status (app d))) <$>
    run_steps (desktop_step (Key := Z)) (desktop_new (Overlay.MkState None))
      [HostSends (TerminalOutput []); HostDrops; StreamStep; StreamStep; StreamStep; UiStep; UiStep] =
    Some (true, Some "Disconnected").
Proof. split; vm_compute; reflexivity. Qed.
