(* ===== verification/ServerMain.v ===== *)
(** * The server's process: [mitb-server/src/main.rs] and the routes of
    [mitb-server/src/lib.rs]

    From the command line and the environment to a bound listener, and what each
    route answers.  clap, tokio, axum and the URL crate are parameters. *)

From S2P Require Import Server.

(** ** Routes *)

Definition WS_READ_BUFFER_SIZE : Z := 32 * 1024.
Definition WS_WRITE_BUFFER_SIZE : Z := 32 * 1024.
Definition WS_MAX_WRITE_BUFFER_SIZE : Z := 256 * 1024.
Definition WS_MAX_MESSAGE_SIZE : Z := 16 * 1024.
Definition WS_MAX_FRAME_SIZE : Z := 16 * 1024.

Record SocketLimits := MkLimits {
  read_buffer_size : Z;
  write_buffer_size : Z;
  max_write_buffer_size : Z;
  max_message_size : Z;
  max_frame_size : Z;
}.

(** What a handler answers: a response, or the upgrade of the connection to a
    socket with limits. *)
Inductive Answer : Type :=
| PlainText (text : string)
| HtmlPage (page : string)
| Respond (status : Z) (content_type : option string) (body : bytes)
| Upgrade (limits : SocketLimits).

Definition healthz : Answer := PlainText "ok".

(** [page], [module]: the files embedded at build time. *)
Definition index (page : string) : Answer := HtmlPage page.

(** [built]: the response builder accepted its parts. *)
Definition pake_wasm (module : bytes) (built : bool) : Answer :=
  if built then Respond 200 (Some "application/wasm") module else Respond 500 None [].

Definition ws_handler : Answer :=
  Upgrade (MkLimits WS_READ_BUFFER_SIZE WS_WRITE_BUFFER_SIZE WS_MAX_WRITE_BUFFER_SIZE WS_MAX_MESSAGE_SIZE
             WS_MAX_FRAME_SIZE).

(** The answer to a [GET] of a path; [None]: no route. *)
Definition router (page : string) (module : bytes) (built : bool) (path : string) : option Answer :=
  if bool_decide (path = "/healthz") then Some healthz
  else if bool_decide (path = "/ws") then Some ws_handler
  else if bool_decide (path = "/assets/mitb-pake.wasm") then Some (pake_wasm module built)
  else if bool_decide (path = "/") then Some (index page)
  else None.

(** ** The process *)

Definition SERVER_THREADS_ENV : string := "MITB_SERVER_THREADS".
Definition SERVER_BIND_ADDR_ENV : string := "MITB_SERVER_BIND_ADDR".

(** [ParseIntError]'s text, for a string that does not parse. *)
Fixpoint digits_error (max acc : Z) (l : bytes) : string :=
  match l with
  | [] => ""
  | b :: l =>
    if is_ascii_digit b then
      let acc := acc * 10 + (code b - 48) in
      if acc <=? max then digits_error max acc l else "number too large to fit in target type"
    else "invalid digit found in string"
  end.

Definition parse_int_error (max : Z) (s : string) : string :=
  match str_bytes s with
  | [] => "cannot parse integer from empty string"
  | b :: l =>
    match (if decide (b = chr 43) then l else b :: l) with
    | [] => "invalid digit found in string"
    | digits => digits_error max 0 digits
    end
  end.

Definition parse_usize (s : string) : result string Z :=
  ok_or (parse_int_error U64_MAX s) (parse_uint U64_MAX s).

(** [available]: [available_parallelism], [None] when unknown; a variable that
    is not Unicode counts as unset. *)
Definition worker_threads_from_env (available : option Z) (value : option string) : result string Z :=
  let default_threads := default 1 available in
  match value with
  | None => Ok default_threads
  | Some value =>
    parsed ← map_err (fun error => "invalid " +:+ SERVER_THREADS_ENV +:+ ": " +:+ error) (parse_usize (trim value));
    if parsed =? 0 then Err (SERVER_THREADS_ENV +:+ " must be >= 1") else Ok parsed
  end.

Section Process.
(** [url::Url]: parsing, and what a URL has of a host and a port. *)
Context {Url : Type} (url_parse : string → result string Url) (host_str : Url → option string)
  (port_or_known_default : Url → option Z).

Definition normalize_bind_addr (raw : string) : result string string :=
  let trimmed := trim raw in
  if bool_decide (trimmed = "") then Err "bind address must not be empty"
  else if negb (str_contains trimmed "://") then Ok trimmed
  else
    url ← map_err (fun error => "invalid bind URL: " +:+ error) (url_parse trimmed);
    host ← ok_or "bind URL is missing host" (host_str url);
    port ← ok_or "bind URL is missing port" (port_or_known_default url);
    Ok (host +:+ ":" +:+ pretty port).

Inductive Flavor : Type := CurrentThread | MultiThread (worker_threads : Z).

(** [Cli]: the argument, the variable, or the default. *)
Definition cli_addr (arg env : option string) : string :=
  match arg, env with
  | Some a, _ => a
  | None, Some a => a
  | None, None => "0.0.0.0:3000"
  end.

(** [main]: [build] makes the runtime, [bind] the listener, [serve] runs until
    the shutdown signal. *)
Definition main (arg addr_env threads_env : option string) (available : option Z)
    (build : Flavor → result string ()) (bind : string → result string ()) (serve : result string ())
    : result string () :=
  bind_addr ← normalize_bind_addr (cli_addr arg addr_env);
  worker_threads ← worker_threads_from_env available threads_env;
  _ ← build (if worker_threads =? 1 then CurrentThread else MultiThread worker_threads);
  _ ← bind bind_addr;
  serve.

(** ** What starts *)

Lemma worker_threads_Ok available value n : worker_threads_from_env available value = Ok n ↔
  match value with
  | None => n = default 1 available
  | Some v => parse_uint U64_MAX (trim v) = Some n ∧ n ≠ 0
  end.
Proof.
  unfold worker_threads_from_env, parse_usize. destruct value as [v|]; [|split; congruence].
  destruct (parse_uint U64_MAX (trim v)) as [z|]; cbn; [|split; [done|by intros []]].
  destruct (z =? 0) eqn:E; zb; split; try done; [by intros [[= <-] ?]|by intros [= <-]|by intros [[= <-] _]].
Qed.

(** The threads of the runtime are at least one and fit a [usize]. *)
Theorem worker_threads_range (available : option Z) (value : option string) (n : Z) :
  (∀ a, available = Some a → 1 ≤ a ≤ U64_MAX) → worker_threads_from_env available value = Ok n → 1 ≤ n ≤ U64_MAX.
Proof.
  intros Ha Hn%worker_threads_Ok. destruct value as [v|].
  - destruct Hn as [Hp Hz]. apply parse_uint_range in Hp; [|done]. lia.
  - subst n. destruct available as [a|]; cbn; [by apply Ha|]. unfold U64_MAX. lia.
Qed.

(** Without a scheme the address is the trimmed text, and normalizing it again
    changes nothing. *)
Theorem plain_addr_kept (raw : string) : trim raw ≠ "" → str_contains (trim raw) "://" = false →
  normalize_bind_addr raw = Ok (trim raw) ∧ normalize_bind_addr (trim raw) = normalize_bind_addr raw.
Proof.
  intros Hne Hc. unfold normalize_bind_addr. rewrite trim_trim.
  rewrite (bool_decide_eq_false_2 _ Hne), Hc. done.
Qed.

(** The server serves exactly when every step before it succeeds; it listens
    where the argument, else the variable, else the default says. *)
Theorem main_serves (arg addr_env threads_env : option string) (available : option Z) build bind serve :
  main arg addr_env threads_env available build bind serve = Ok tt ↔
  ∃ addr n, normalize_bind_addr (cli_addr arg addr_env) = Ok addr ∧
    worker_threads_from_env available threads_env = Ok n ∧
    build (if n =? 1 then CurrentThread else MultiThread n) = Ok tt ∧ bind addr = Ok tt ∧ serve = Ok tt.
Proof.
  unfold main. split.
  - destruct (normalize_bind_addr _) as [addr|e]; [|done]. cbn. destruct (worker_threads_from_env _ _) as [n|e]; [|done]. cbn.
    destruct (build _) as [[]|e] eqn:Eb; [|done]. cbn. destruct (bind addr) as [[]|e] eqn:Ed; [|done]. cbn. intros ->.
    by exists addr, n.
  - intros (addr & n & -> & -> & Hb & Hd & ->). cbn. rewrite Hb. cbn. by rewrite Hd.
Qed.

End Process.

(** Nothing is served but the page, the module, the health check and the
    sockets. *)
Theorem routes (page : string) (module : bytes) (path : string) :
  router page module true path =
  list_to_map (M := gmap string Answer)
    [("/", HtmlPage page); ("/assets/mitb-pake.wasm", Respond 200 (Some "application/wasm") module);
     ("/healthz", PlainText "ok"); ("/ws", ws_handler)] !! path.
Proof.
  unfold router. cbn [list_to_map foldr curry fst snd]. repeat case_bool_decide; subst; [reflexivity..|].
  by rewrite !lookup_insert_ne by done.
Qed.

Example some_threads : worker_threads_from_env (Some 8) (Some " 2 ") = Ok 2 ∧
  worker_threads_from_env (Some 8) (Some "two") = Err "invalid MITB_SERVER_THREADS: invalid digit found in string" ∧
  worker_threads_from_env (Some 8) (Some "0") = Err "MITB_SERVER_THREADS must be >= 1".
Proof. split_and!; vm_compute; reflexivity. Qed.
