(* ===== verification/Eye.v ===== *)
(** * The animated eye: [mitb-box/src/animated_eye.rs]

    The cursor of the desktop application: its animation, the values drawn at an
    instant, the shapes, and the widget's updates and cached drawing.  The
    platform's sine and cosine and the toolkit's colours are parameters; a
    drawing is the list of its strokes and fills. *)

From S2P Require Import Rust Float.

(** ** More of [f32] *)

Definition f32_sub (a b : f32) : f32 := SFsub 24 128 a b.
Definition f32_neg (a : f32) : f32 := SFopp a.
Definition f32_abs (a : f32) : f32 := SFabs a.

Declare Scope f32_scope.
Delimit Scope f32_scope with f32.
Infix "+" := f32_add : f32_scope.
Infix "-" := f32_sub : f32_scope.
Infix "*" := f32_mul : f32_scope.
Infix "/" := f32_div : f32_scope.
Notation "- a" := (f32_neg a) : f32_scope.
Infix "<=" := f_leb : f32_scope.
Infix "<" := f_ltb : f32_scope.
Notation "n // d" := (f32_lit n%Z d%Z) (at level 35, no associativity) : f32_scope.

Definition int (z : Z) : f32 := f32_of_Z z.

Definition f32_MAX : f32 := S754_finite false 16777215 104.
(** [f32::consts::TAU]. *)
Definition TAU : f32 := S754_finite false 13176795 (-21).

(** A value [z * 2^e] of a given sign when zero. *)
Definition f32_of_scaled (z e : Z) (s : bool) : f32 := binary_normalize 24 128 z e s.

Definition signed (s : bool) (m : positive) : Z := if s then Zneg m else Zpos m.

Definition f32_floor (a : f32) : f32 :=
  match a with
  | S754_finite s m e =>
    if (0 <=? e) then a else f32_of_scaled (signed s m / 2 ^ (- e)) 0 s
  | _ => a
  end.

Definition f32_trunc (a : f32) : f32 :=
  match a with
  | S754_finite s m e =>
    if (0 <=? e) then a else f32_of_scaled (Z.quot (signed s m) (2 ^ (- e))) 0 s
  | _ => a
  end.

Definition f32_fract (a : f32) : f32 := f32_sub a (f32_trunc a).

(** The [%] operator: exact, with the sign of the dividend. *)
Definition f32_rem (a b : f32) : f32 :=
  match a, b with
  | S754_nan, _ | _, S754_nan | S754_infinity _, _ | _, S754_zero _ => S754_nan
  | S754_zero _, _ | _, S754_infinity _ => a
  | S754_finite s m e, S754_finite _ m' e' =>
    let emin := Z.min e e' in
    f32_of_scaled (Z.rem (signed s m * 2 ^ (e - emin)) (Zpos m' * 2 ^ (e' - emin))) emin s
  end.

(** [f32::min] and [max]: a NaN gives way; [clamp]: it stays. *)
Definition f32_min (a b : f32) : f32 :=
  if f_is_nan a then b else if f_is_nan b then a else if f_ltb b a then b else a.
Definition f32_max (a b : f32) : f32 :=
  if f_is_nan a then b else if f_is_nan b then a else if f_ltb a b then b else a.

(** [as i32]. *)
Definition f32_to_i32 (a : f32) : Z :=
  match a with
  | S754_finite s m e =>
    let z := if (0 <=? e) then (signed s m * 2 ^ e) else Z.quot (signed s m) (2 ^ (- e)) in
    Z.max (- 2 ^ 31) (Z.min (2 ^ 31 - 1) z)
  | S754_infinity s => (if s then - 2 ^ 31 else 2 ^ 31 - 1)
  | _ => 0
  end.

(** [Duration::as_secs_f32], of nanoseconds. *)
Definition as_secs_f32 (d : Z) : f32 :=
  f32_add (int (d / NANOS_PER_SEC)) (f32_div (int (d mod NANOS_PER_SEC)) (int NANOS_PER_SEC)).

(** ** Constants *)

Definition FRAME_DURATION : Z := from_millis (1000 / 60).
Definition CLOSE_DURATION : Z := from_millis 180.
Definition PROHIBIT_KICK_DURATION : Z := from_millis 160.
Definition SQUIRM_PERIOD : Z := from_millis 560.
Definition SQUIRM_IMPACT : Z := from_millis 65.
Definition SQUIRM_SETTLE : Z := from_millis 165.
Definition FEAR_SACCADE_AMPLITUDE : f32 := f32_lit 205 100.
Definition FEAR_DART_DURATION : f32 := f32_lit 8 100.
Definition FEAR_HOLD_MIN : f32 := f32_lit 25 100.
Definition FEAR_HOLD_MAX : f32 := int 1.
Definition FEAR_HOLD_PATTERN : Z := 24.
Definition FEAR_TREMOR_X : f32 := f32_lit 28 100.
Definition FEAR_TREMOR_Y : f32 := f32_lit 2 10.
Definition FEAR_OPEN_SPAN_BOOST : f32 := f32_lit 115 100.
Definition RAY_COUNT : nat := 34.
Definition RAY_CYCLE_MIN : f32 := f32_lit 56 100.
Definition RAY_CYCLE_MAX : f32 := f32_lit 122 100.
Definition RAY_ACTIVE_PORTION : f32 := f32_lit 64 100.
Definition RAY_TAIL_DELAY_MAX : f32 := f32_lit 34 100.
Definition RAY_STITCH_DURATION : Z := from_millis 480.
Definition RAY_STITCH_ATTACK_PORTION : f32 := f32_lit 28 100.
Definition RAY_STITCH_COLLAPSE_START : f32 := f32_lit 62 100.
Definition RAY_STITCH_COLLAPSE_END : f32 := int 1.
Definition POST_STITCH_FADE_DURATION : Z := from_millis 1000.
Definition OPEN_LID_SPAN : f32 := f32_lit 49 10.
Definition CLOSED_LID_SPAN : f32 := f32_lit 35 100.

(** ** Easing and hashing *)

Local Open Scope f32_scope.

Definition clamp01 (value : f32) : f32 :=
  if value < int 0 then int 0 else if int 1 < value then int 1 else value.

Definition lerp (from to t : f32) : f32 := from + (to - from) * clamp01 t.

Definition ease_out_quart (t : f32) : f32 := let u := int 1 - clamp01 t in int 1 - (u * u * u * u).
Definition ease_out_cubic (t : f32) : f32 := let u := int 1 - clamp01 t in int 1 - (u * u * u).
Definition ease_in_cubic (t : f32) : f32 := let x := clamp01 t in x * x * x.

Definition rotate_left (v n : Z) : Z :=
  Z.lor (wrap_u32 (Z.shiftl v (n mod 32))) (Z.shiftr v (32 - n mod 32)).

Definition hash_bits (seed salt : Z) : Z :=
  Z.land (Z.shiftr (Z.lxor (wrap_u32 (wrap_u32 (seed * 1664525) + Z.lxor 1013904223 salt)%Z)
                      (rotate_left salt (Z.land seed 15))) 8) 0xffff.

Definition hash01 (seed salt : Z) : f32 := int (hash_bits seed salt) / int 65535.

Definition signed_hash (seed salt : Z) : f32 := hash01 seed salt * int 2 - int 1.

Definition saturating_since (now start : Z) : Z := Z.max 0 (now - start)%Z.

Definition progress_between (start now duration : Z) : f32 :=
  if (duration =? 0)%Z then int 1
  else clamp01 (as_secs_f32 (saturating_since now start) / as_secs_f32 duration).

(** ** Fear *)

Definition fear_step_duration (step : Z) : f32 :=
  FEAR_DART_DURATION + lerp FEAR_HOLD_MIN FEAR_HOLD_MAX (hash01 step 751).

Definition fear_steps : list Z := Z.of_nat <$> seq 0 (Z.to_nat FEAR_HOLD_PATTERN).

Definition fear_cycle_duration : f32 :=
  foldl (fun total step => total + fear_step_duration step) (int 0) fear_steps.

Fixpoint fear_step_loop (local_t cursor : f32) (steps : list Z) : option (Z * f32 * f32) :=
  match steps with
  | [] => None
  | step :: steps =>
    let duration := fear_step_duration step in
    if (local_t <= cursor + duration) || (step =? FEAR_HOLD_PATTERN - 1)%Z then Some (step, cursor, duration)
    else fear_step_loop local_t (cursor + duration) steps
  end.

Definition fear_step_at (local_t : f32) : Z * f32 * f32 :=
  default (0%Z, int 0, fear_step_duration 0) (fear_step_loop local_t (int 0) fear_steps).

(** ** The kick and the squirm *)

Definition prohibited_kick_x (elapsed : Z) : f32 :=
  if (PROHIBIT_KICK_DURATION <=? elapsed)%Z then int 0
  else
    let ms := (elapsed / 10 ^ 6)%Z in
    if (ms <=? 26)%Z then int (-3)
    else if (ms <=? 50)%Z then int 3
    else if (ms <=? 74)%Z then int (-2)
    else if (ms <=? 98)%Z then int 2
    else if (ms <=? 124)%Z then int (-1)
    else if (ms <=? 159)%Z then int 1
    else int 0.

Definition active_squirm (elapsed : Z) (close : f32) : f32 * f32 * f32 :=
  let none := (int 0, int 0, int 0) in
  let close_gate := clamp01 ((close - 45 // 100) / 55 // 100) in
  if close_gate <= int 0 then none
  else
    let period := as_secs_f32 SQUIRM_PERIOD in
    if period <= int 0 then none
    else
      let t := as_secs_f32 elapsed in
      let beat := f_to_uint U32_MAX (f32_floor (t / period)) in
      let beat_t := f32_rem t period in
      let impact := as_secs_f32 SQUIRM_IMPACT in
      let settle := as_secs_f32 SQUIRM_SETTLE in
      let burst :=
        if beat_t <= impact then int 1
        else if beat_t <= impact + settle then int 1 - ease_out_cubic ((beat_t - impact) / settle)
        else int 0 in
      let amount := burst * close_gate in
      if amount <= int 0 then none
      else (signed_hash beat 11 * 55 // 100 * amount, signed_hash beat 23 * 38 // 100 * amount,
            signed_hash beat 37 * int 1 * amount).

Record FearVisual := MkFear {
  fear_pupil_dx : f32;
  jitter_x : f32;
  jitter_y : f32;
  fear_open_span_boost : f32;
  fear_pupil_dilation : f32;
}.

Record Visual := MkVisual {
  pupil_dx : f32;
  close : f32;
  is_active : bool;
  thread_snap : f32;
  squirm_dx : f32;
  squirm_dy : f32;
  squirm_warp : f32;
  widget_jitter_x : f32;
  widget_jitter_y : f32;
  open_span_boost : f32;
  pupil_dilation : f32;
  ray_time : f32;
  ray_visibility : f32;
  visual_ray_freeze_time : f32;
  post_fade : f32;
}.

Record Animation := MkAnimation {
  active : bool;
  scan_start : Z;
  close_start : option Z;
  ray_freeze_time : f32;
  now : Z;
}.

Definition animation_default (now : Z) : Animation := MkAnimation false now None (int 0) now.

(** The animation, and whether it changed. *)
Definition sync_active (a : Animation) (active_now : bool) (now : Z) : Animation * bool :=
  if Bool.eqb (active a) active_now then (a, false)
  else if active_now
  then (MkAnimation true (scan_start a) (Some now) (as_secs_f32 (saturating_since now (scan_start a))) now, true)
  else (MkAnimation false now None (int 0) now, true).

Definition tick (a : Animation) (now : Z) : Animation :=
  MkAnimation (active a) (scan_start a) (close_start a) (ray_freeze_time a) now.

Record Point := MkPoint { px : f32; py : f32 }.

Definition lerp_point (from to : Point) (t : f32) : Point :=
  MkPoint (lerp (px from) (px to) t) (lerp (py from) (py to) t).

Definition cross (ax ay bx by_ : f32) : f32 := (ax * by_) - (ay * bx).

(** ** The enclosure *)

Definition ENC_TRI_TOP : Point := MkPoint (int 16) (31 // 10).
Definition ENC_TRI_RIGHT : Point := MkPoint (286 // 10) (264 // 10).
Definition ENC_TRI_LEFT : Point := MkPoint (34 // 10) (264 // 10).
Definition ENC_BOX_LEFT : f32 := 52 // 10.
Definition ENC_BOX_TOP : f32 := 61 // 10.
Definition ENC_BOX_RIGHT : f32 := 268 // 10.
Definition ENC_BOX_BOTTOM : f32 := 277 // 10.

Definition enclosure_morph (v : Visual) : f32 :=
  if is_active v then ease_out_cubic (clamp01 ((close v - 3 // 100) / 97 // 100)) else int 0.

Definition enclosure_vertices (morph : f32) : Point * Point * Point * Point :=
  let t := clamp01 morph in
  (lerp_point ENC_TRI_TOP (MkPoint ENC_BOX_LEFT ENC_BOX_TOP) t,
   lerp_point ENC_TRI_TOP (MkPoint ENC_BOX_RIGHT ENC_BOX_TOP) t,
   lerp_point ENC_TRI_RIGHT (MkPoint ENC_BOX_RIGHT ENC_BOX_BOTTOM) t,
   lerp_point ENC_TRI_LEFT (MkPoint ENC_BOX_LEFT ENC_BOX_BOTTOM) t).

Definition ray_segment_intersection (origin : Point) (dir_x dir_y : f32) (s0 s1 : Point) : option f32 :=
  let seg_x := px s1 - px s0 in
  let seg_y := py s1 - py s0 in
  let denom := cross dir_x dir_y seg_x seg_y in
  if f32_abs denom < 1 // 100000 then None
  else
    let rel_x := px s0 - px origin in
    let rel_y := py s0 - py origin in
    let t := cross rel_x rel_y seg_x seg_y / denom in
    let u := cross rel_x rel_y dir_x dir_y / denom in
    if (int 0 <= t) && ((int 0 <= u) && (u <= int 1)) then Some t else None.

Definition nearest_hit (hits : list (option f32)) : f32 :=
  foldl (fun nearest hit => match hit with Some t => f32_min nearest t | None => nearest end) f32_MAX hits.

Definition ray_enclosure_intersection (origin : Point) (dir_x dir_y morph : f32) : option f32 :=
  let '(a, b, c, d) := enclosure_vertices morph in
  let hit := ray_segment_intersection origin dir_x dir_y in
  let nearest := nearest_hit [hit a b; hit b c; hit c d; hit d a] in
  if f_is_finite nearest then Some nearest else None.

(** ** Rays *)

Record RaySample := MkRay {
  start_r : f32;
  end_r : f32;
  front_r : f32;
  ray_alpha : f32;
  ray_width : f32;
  front_t : f32;
}.

Definition ray_sample (index : Z) (border ray_time : f32) : option RaySample :=
  let outer_base := border + 27 // 10 + hash01 index 433 * 46 // 10 in
  let cycle := lerp RAY_CYCLE_MIN RAY_CYCLE_MAX (hash01 index 457) in
  let phase_offset := hash01 index 491 in
  let phase := f32_fract ((ray_time / cycle) + phase_offset) in
  if RAY_ACTIVE_PORTION <= phase then None
  else
    let active := phase / RAY_ACTIVE_PORTION in
    let front_speed := lerp (95 // 100) (155 // 100) (hash01 index 503) in
    let tail_speed := lerp (72 // 100) (162 // 100) (hash01 index 509) in
    let tail_delay := hash01 index 521 * RAY_TAIL_DELAY_MAX in
    let front_t := clamp01 (active * front_speed) in
    let tail_t :=
      if active <= tail_delay then int 0
      else clamp01 ((active - tail_delay) / (int 1 - tail_delay) * tail_speed) in
    let front_r := lerp outer_base border (ease_out_quart front_t) in
    let tail_r := lerp outer_base border (ease_in_cubic tail_t) in
    let start_r := f32_min front_r tail_r in
    let end_r := f32_max front_r tail_r in
    if (end_r - start_r) <= 15 // 1000 then None
    else
      let fade := clamp01 (int 1 - (f32_max (active - 84 // 100) (int 0) / 16 // 100)) in
      let alpha := lerp (62 // 100) (int 1) (clamp01 (front_t * 115 // 100)) * fade in
      if alpha <= 1 // 100 then None
      else Some (MkRay start_r end_r front_r alpha (lerp (45 // 100) (102 // 100) (hash01 index 487)) front_t).

(** ** Drawing *)

Inductive Path : Type :=
| Line (a b : Point)
| Circle (center : Point) (radius : f32)
| Polygon (vertices : list Point)
(** quadratic curves from a point, each with its control point and end *)
| Curve (start : Point) (quadratics : list (Point * Point)) (closed : bool).

Section Drawing.
Context (sin cos : f32 → f32).
Context {Color : Type} (from_rgb8 : Z → Z → Z → Color) (alpha : Color → f32) (set_alpha : f32 → Color → Color).

Inductive Command : Type :=
| Stroke (path : Path) (color : Color) (width : f32)
| Fill (path : Path) (color : Color).

Definition with_alpha (color : Color) (a : f32) : Color := set_alpha (alpha color * clamp01 a) color.

Definition fearful_idle (elapsed : Z) : FearVisual :=
  let t := as_secs_f32 elapsed in
  let cycle_duration := fear_cycle_duration in
  let local_t := if int 0 < cycle_duration then f32_rem t cycle_duration else int 0 in
  let '(step, step_start, _) := fear_step_at local_t in
  let step_t := local_t - step_start in
  let to_side := if (Z.land step 1 =? 0)%Z then int (-1) else int 1 in
  let from_side := - to_side in
  let from := from_side * FEAR_SACCADE_AMPLITUDE in
  let to := to_side * FEAR_SACCADE_AMPLITUDE in
  let base_dx :=
    if step_t < FEAR_DART_DURATION then
      let snap := ease_out_quart (step_t / FEAR_DART_DURATION) in
      let overshoot := (int 1 - snap) * to_side * 14 // 100 in
      lerp from to snap + overshoot
    else to in
  let tremor_x := (sin (t * TAU * 54 // 10) * FEAR_TREMOR_X) + (sin (t * TAU * 97 // 10) * FEAR_TREMOR_X * 48 // 100) in
  let tremor_y := (sin (t * TAU * 63 // 10) * FEAR_TREMOR_Y) + (sin (t * TAU * 111 // 10) * FEAR_TREMOR_Y * 5 // 10) in
  let dilation := 8 // 100 + 8 // 100 * (sin (t * TAU * int 2) * 5 // 10 + 5 // 10) in
  let span_pulse := 18 // 100 * (sin (t * TAU * 27 // 10) * 5 // 10 + 5 // 10) in
  MkFear (base_dx + tremor_x * 25 // 100) tremor_x tremor_y (FEAR_OPEN_SPAN_BOOST + span_pulse) dilation.

(** [Animation::visual]. *)
Definition visual (a : Animation) : Visual :=
  if active a then
    let close_start := default (now a) (close_start a) in
    let raw := progress_between close_start (now a) CLOSE_DURATION in
    let close := ease_out_quart raw in
    let thread_snap := clamp01 ((close - 5 // 100) * 45 // 10) in
    let close_elapsed := saturating_since (now a) close_start in
    let post_stitch_elapsed := Z.max 0 (close_elapsed - RAY_STITCH_DURATION)%Z in
    let post_stitch_t := as_secs_f32 post_stitch_elapsed in
    let post_fade := ease_in_cubic (post_stitch_t / as_secs_f32 POST_STITCH_FADE_DURATION) in
    let '(squirm_dx, squirm_dy, squirm_warp) := active_squirm close_elapsed close in
    let widget_jitter_x := prohibited_kick_x close_elapsed in
    MkVisual (int 0) close true thread_snap squirm_dx squirm_dy squirm_warp widget_jitter_x (int 0) (int 0) (int 0)
      (as_secs_f32 close_elapsed) (int 1) (ray_freeze_time a) post_fade
  else
    let elapsed := saturating_since (now a) (scan_start a) in
    let fearful := fearful_idle elapsed in
    MkVisual (fear_pupil_dx fearful) (int 0) false (int 0) (int 0) (int 0) (int 0) (jitter_x fearful) (jitter_y fearful)
      (fear_open_span_boost fearful) (fear_pupil_dilation fearful) (as_secs_f32 elapsed) (int 1) (as_secs_f32 elapsed)
      (int 0).

Definition CENTER : Point := MkPoint (int 16) (162 // 10).

(** The direction of a ray, and where it meets the enclosure. *)
Definition ray_direction (index : Z) : f32 * f32 :=
  let angle := ((int index + 35 // 100) / int (Z.of_nat RAY_COUNT)) * TAU - TAU * 25 // 100 in
  (cos angle, sin angle).

Definition ray_border (dir_x dir_y morph : f32) : f32 :=
  default (126 // 10) (ray_enclosure_intersection CENTER dir_x dir_y morph).

Definition along (p : Point) (dir_x dir_y r : f32) : Point := MkPoint (px p + dir_x * r) (py p + dir_y * r).

Definition draw_ray (white : Color) (v : Visual) (morph : f32) (index : Z) : list Command :=
  let visibility := clamp01 (ray_visibility v) in
  let '(dir_x, dir_y) := ray_direction index in
  match ray_sample index (ray_border dir_x dir_y morph) (ray_time v) with
  | None => []
  | Some sample =>
    [Stroke (Line (along CENTER dir_x dir_y (start_r sample)) (along CENTER dir_x dir_y (end_r sample)))
       (set_alpha (visibility * ray_alpha sample) white) (ray_width sample);
     Fill (Circle (along CENTER dir_x dir_y (front_r sample)) (lerp (18 // 100) (7 // 100) (front_t sample)))
       (set_alpha (visibility * lerp (92 // 100) (35 // 100) (front_t sample)) white)]
  end.

Definition rays : list Z := Z.of_nat <$> seq 0 RAY_COUNT.

Definition draw_rays (white : Color) (v : Visual) (morph : f32) : list Command := rays ≫= draw_ray white v morph.

Definition draw_thread (white : Color) (v : Visual) (seam_y morph : f32) (index : Z) : list Command :=
  let visibility := int 1 in
  let progress := clamp01 (ray_time v / as_secs_f32 RAY_STITCH_DURATION) in
  let attack := ease_out_quart (clamp01 (progress / RAY_STITCH_ATTACK_PORTION)) in
  let collapse := ease_in_cubic (clamp01
    ((progress - RAY_STITCH_COLLAPSE_START) / (RAY_STITCH_COLLAPSE_END - RAY_STITCH_COLLAPSE_START))) in
  let '(dir_x, dir_y) := ray_direction index in
  match ray_sample index (ray_border dir_x dir_y morph) (visual_ray_freeze_time v) with
  | None => []
  | Some frozen =>
    let inner := along CENTER dir_x dir_y (start_r frozen) in
    let outer := along CENTER dir_x dir_y (end_r frozen) in
    let target_x := lerp (94 // 10) (226 // 10) (hash01 index 607) in
    let target_y := seam_y + (hash01 index 613 - 5 // 10) * 95 // 100 in
    let tip := lerp_point inner (MkPoint target_x target_y) attack in
    let pulse := f32_to_i32 (f32_floor ((ray_time v * int 88) + int index * 67 // 100)) in
    let sign := if (Z.land pulse 1 =? 0)%Z then int (-1) else int 1 in
    let violence := sign * (int 1 - attack) * (35 // 100 + hash01 index 617 * 55 // 100) in
    let tip := MkPoint (px tip + - dir_y * violence) (py tip + dir_x * violence) in
    let back := lerp_point outer tip collapse in
    let dx := px tip - px back in
    let dy := py tip - py back in
    if (dx * dx + dy * dy) < 25 // 10000 then []
    else
      let retract := clamp01 (int 1 - collapse * 108 // 100) in
      let dissolve := clamp01 (int 1 - (f32_max (progress - 9 // 10) (int 0) / 1 // 10)) in
      let alpha := visibility * ray_alpha frozen * lerp (8 // 10) (int 1) attack * retract * dissolve in
      if alpha <= 1 // 100 then []
      else
        Stroke (Line back tip) (with_alpha white alpha) (lerp (ray_width frozen + 5 // 100) (55 // 100) collapse) ::
        (if (2 // 10 < attack) && (collapse < 92 // 100)
         then [Fill (Circle tip (lerp (12 // 100) (6 // 100) collapse)) (with_alpha white (alpha * 92 // 100))]
         else [])
  end.

Definition draw_activation_threads (white : Color) (v : Visual) (seam_y morph : f32) : list Command :=
  rays ≫= draw_thread white v seam_y morph.

Definition at_ {A} (l : list A) (i : nat) (d : A) : A := default d (l !! i).

Definition anchors : list f32 := (λ n, n // 10) <$> [101; 118; 135; 152; 168; 185; 202; 219]%Z.
Definition len_variation : list f32 := (λ n, n // 100) <$> [125; 78; 108; 67; 135; 84; 118; 73]%Z.
Definition y_jitter : list f32 := (λ n, n // 100) <$> [-15; 10; -8; 16; -12; 9; -5; 14]%Z.
Definition tilt : list f32 := (λ n, n // 100) <$> [62; 44; 58; 40; 66; 47; 54; 42]%Z.
Definition warp_profile : list f32 := (λ n, n // 100) <$> [-85; 55; -35; 80; -75; 50; -30; 70]%Z.

(** One stitch of the seam. *)
Definition draw_stitch (v : Visual) (seam_color : Color) (seam_center_x seam_line_y stitch_len stitch_width : f32)
    (index : nat) (x : f32) : Command :=
  let get l := at_ l index (int 0) in
  let center_bias := (x - seam_center_x) * 8 // 100 in
  let half := stitch_len * (get len_variation + squirm_warp v * 18 // 100 * get warp_profile) * 5 // 10 in
  let y := seam_line_y + get y_jitter + squirm_warp v * (42 // 100 * get warp_profile) in
  let dx := get tilt + center_bias * squirm_warp v * 3 // 10 in
  let '(start, stop) :=
    if Nat.even index then (MkPoint (x - dx) (y - half), MkPoint (x + dx) (y + half))
    else (MkPoint (x - dx) (y + half), MkPoint (x + dx) (y - half)) in
  Stroke (Line start stop) seam_color stitch_width.

(** The seam, drawn when the lids have begun to close. *)
Definition draw_seam (white : Color) (v : Visual) (seam_y : f32) : list Command :=
  let close := close v in
  let seam_color := with_alpha white close in
  let seam_center_x := int 16 + squirm_dx v * 6 // 10 in
  let seam_line_y := seam_y + squirm_dy v in
  let seam_left := MkPoint (int 9 + squirm_dx v * 35 // 100) seam_line_y in
  let seam_right := MkPoint (int 23 + squirm_dx v * 35 // 100) seam_line_y in
  let stitch_len := lerp (2 // 10) (36 // 10) close in
  let stitch_width := lerp (45 // 100) (115 // 100) close in
  let thread_start := MkPoint (lerp (308 // 10) (224 // 10) (thread_snap v)) (lerp (93 // 10) (162 // 10) (thread_snap v)) in
  let thread_target := MkPoint (209 // 10 + squirm_dx v * 45 // 100)
                         (seam_line_y + 1 // 10 + squirm_warp v * 15 // 100) in
  let stray := clamp01 ((close - 84 // 100) / 16 // 100) in
  [Stroke (Line seam_left seam_right) seam_color (lerp (7 // 10) (135 // 100) close)] ++
  imap (draw_stitch v seam_color seam_center_x seam_line_y stitch_len stitch_width) anchors ++
  [Stroke (Line thread_start thread_target) (with_alpha white (thread_snap v)) (115 // 100)] ++
  (if int 0 < stray
   then [Stroke (Line (MkPoint (192 // 10 + squirm_dx v * 12 // 100) (202 // 10 + squirm_dy v * 2 // 10))
                   (MkPoint (198 // 10 + squirm_dx v * 18 // 100)
                      (202 // 10 + 14 // 10 * stray + squirm_dy v * 25 // 100)))
           (with_alpha white stray) (95 // 100)]
   else []).

(** The iris, its pupil and its highlight. *)
Definition draw_iris (white ink : Color) (v : Visual) (seam_y : f32) : list Command :=
  let iris_center := MkPoint (int 16 + pupil_dx v * (int 1 - close v)) seam_y in
  let iris_radius := 275 // 100 * (int 1 - 5 // 10 * close v) in
  let pupil_radius := (108 // 100 + pupil_dilation v) * (int 1 - 8 // 10 * close v) in
  [Fill (Circle iris_center iris_radius) white; Fill (Circle iris_center pupil_radius) ink;
   Fill (Circle (MkPoint (px iris_center + 105 // 100) (py iris_center - 95 // 100))
           (52 // 100 * (int 1 - 8 // 10 * close v) * (int 1 - pupil_dilation v * 18 // 100))) white].

Definition draw_eye (v : Visual) : list Command :=
  let alpha_scale := clamp01 (int 1 - post_fade v) in
  if alpha_scale <= 1 // 1000 then []
  else
    let white := with_alpha (from_rgb8 246 246 246) alpha_scale in
    let ink := with_alpha (from_rgb8 10 10 10) alpha_scale in
    let morph := enclosure_morph v in
    let '(a, b, c, d) := enclosure_vertices morph in
    let enclosure := Polygon [a; b; c; d] in
    let seam_y := 1695 // 100 in
    let open_lid_span := OPEN_LID_SPAN + open_span_boost v in
    let lid_span := lerp open_lid_span CLOSED_LID_SPAN (close v) in
    let upper := seam_y - lid_span in
    let lower := seam_y + lid_span in
    let left := MkPoint (88 // 10) seam_y in
    let eye := Curve left [(MkPoint (int 16) upper, MkPoint (232 // 10) seam_y); (MkPoint (int 16) lower, left)] true in
    let span := open_lid_span in
    let upper_crease := Curve (MkPoint (97 // 10) (seam_y - span * 6 // 10))
      [(MkPoint (int 16) (seam_y - span - int 1), MkPoint (223 // 10) (seam_y - span * 6 // 10))] false in
    let lower_crease := Curve (MkPoint (int 10) (seam_y + span * 55 // 100))
      [(MkPoint (int 16) (seam_y + span + 85 // 100), MkPoint (int 22) (seam_y + span * 55 // 100))] false in
    let crease_color := with_alpha white (lerp (85 // 100) (int 1) (close v)) in
    let stitch_progress := clamp01 (ray_time v / as_secs_f32 RAY_STITCH_DURATION) in
    (if negb (is_active v) && (1 // 100 < ray_visibility v) then draw_rays white v morph else []) ++
    [Fill enclosure ink; Stroke enclosure white (lerp (16 // 10) (14 // 10) morph);
     Fill eye ink; Stroke eye white (int 1);
     Stroke upper_crease crease_color (int 1); Stroke lower_crease crease_color (95 // 100)] ++
    (if close v < 65 // 100 then draw_iris white ink v seam_y else []) ++
    (if is_active v && (stitch_progress < 995 // 1000) then draw_activation_threads white v seam_y morph else []) ++
    (if 8 // 100 < close v then draw_seam white v seam_y else []).

(** ** The widget *)

Record Size := MkSize { width : f32; height : f32 }.

(** What [canvas::Cache] holds: the size it was drawn for, the scale of the
    frame and the commands. *)
Record Geometry := MkGeometry { geometry_scale : f32; commands : list Command }.

Record State := MkState {
  animation : Animation;
  cache : option (Size * Geometry);
  bootstrapped : bool;
}.

Definition state_new (now : Z) : State := MkState (animation_default now) None false.

(** What the widget asks of the shell, in order. *)
Inductive Redraw : Type := RedrawNow | RedrawAt (at_time : Z).

(** [update]: the widget's [active], [Instant::now()], and the instant of a
    redraw event. *)
Definition update (s : State) (active : bool) (now : Z) (redraw_requested : option Z) : State * list Redraw :=
  let '(s, boot) :=
    if bootstrapped s then (s, []) else (MkState (animation s) (cache s) true, [RedrawNow]) in
  let '(a, changed) := sync_active (animation s) active now in
  let '(s, sync) :=
    if changed then (MkState a None (bootstrapped s), [RedrawNow]) else (MkState a (cache s) (bootstrapped s), []) in
  match redraw_requested with
  | Some now =>
    (MkState (tick (animation s) now) None (bootstrapped s), boot ++ sync ++ [RedrawAt (now + FRAME_DURATION)%Z])
  | None => (s, boot ++ sync)
  end.

Definition size_eqb (a b : Size) : bool := f_eqb (width a) (width b) && f_eqb (height a) (height b).

Definition geometry (size : Size) (v : Visual) : Geometry :=
  MkGeometry (f32_min (width size) (height size) / int 32) (draw_eye v).

(** [draw]: the cache is filled when it is empty or of another size; the
    translation of the drawing, and the drawing. *)
Definition draw (s : State) (origin : Point) (size : Size) : State * (Point * Geometry) :=
  let v := visual (animation s) in
  let '(size, g) :=
    match cache s with
    | Some (size', g) => if size_eqb size' size then (size', g) else (size, geometry size v)
    | None => (size, geometry size v)
    end in
  (MkState (animation s) (Some (size, g)) (bootstrapped s),
   (MkPoint (px origin + widget_jitter_x v) (py origin + widget_jitter_y v), g)).

(** *** What is drawn is current *)

Inductive widget_op : Type :=
| Update (active : bool) (now : Z) (redraw_requested : option Z)
| Draw (origin : Point) (size : Size).

Definition widget_step (s : State) (o : widget_op) : State :=
  match o with
  | Update active now redraw => (update s active now redraw).1
  | Draw origin size => (draw s origin size).1
  end.

(** The cached drawing is that of the animation, and the animation says since
    when the eye closes exactly when it does. *)
Record widget_ok (s : State) : Prop := {
  cache_fresh : ∀ size g, cache s = Some (size, g) → g = geometry size (visual (animation s));
  close_known : is_Some (close_start (animation s)) ↔ active (animation s) = true;
}.

Lemma sync_active_spec a b n : let '(a', changed) := sync_active a b n in
  active a' = b ∧ changed = xorb (active a) b ∧ (changed = false → a' = a) ∧
  ((is_Some (close_start a) ↔ active a = true) → is_Some (close_start a') ↔ active a' = true).
Proof.
  unfold sync_active. destruct (active a) eqn:E, b; cbn; split_and!; try done.
  all: by rewrite E.
Qed.

Lemma widget_update_ok s b n redraw : widget_ok s → widget_ok (update s b n redraw).1.
Proof.
  intros [Hc Hk]. unfold update. pose proof (sync_active_spec (animation s) b n) as Hs.
  destruct (bootstrapped s); cbn; destruct (sync_active (animation s) b n) as [a changed];
    destruct Hs as (_ & _ & Hid & Hw); specialize (Hw Hk);
    destruct changed, redraw; (split; cbn; [try done; rewrite ?Hid by done; done|done]).
Qed.

Lemma widget_draw_ok s origin size : widget_ok s → widget_ok (draw s origin size).1.
Proof.
  intros [Hc Hk]. unfold draw. destruct (cache s) as [[size' g]|] eqn:E; [destruct (size_eqb size' size)|];
    (split; cbn; [|done]); intros ? ? [= <- <-]; [by apply Hc|done..].
Qed.

(** Whatever the events, a drawing is that of the animation at this moment, for
    the size asked for, and no old one is shown. *)
Theorem drawn_is_current (start : Z) (ops : list widget_op) (origin : Point) (size : Size) :
  let s := foldl widget_step (state_new start) ops in
  ∃ size', (size' = size ∨ size_eqb size' size = true) ∧
    (draw s origin size).2.2 = geometry size' (visual (animation s)) ∧
    (is_Some (close_start (animation s)) ↔ active (animation s) = true).
Proof.
  cbv zeta. assert (widget_ok (foldl widget_step (state_new start) ops)) as [Hc Hk].
  { induction ops as [|o ops IH] using rev_ind; [split; cbn; [done|split; [by intros [? ?]|done]]|].
    rewrite foldl_app. cbn [foldl]. destruct o; cbn [widget_step]; [by apply widget_update_ok|by apply widget_draw_ok]. }
  unfold draw. destruct (cache _) as [[size' g]|] eqn:E; [|by exists size; auto].
  destruct (size_eqb size' size) eqn:Es; [|by exists size; auto]. exists size'. split; [by right|]. cbn. auto.
Qed.

(** An update leaves the animation in the state it is told, and nothing changes
    without a redraw being asked for; a redraw asks for the next. *)
Theorem changes_are_redrawn (s : State) (b : bool) (n : Z) (redraw : option Z) :
  let '(s', asked) := update s b n redraw in
  active (animation s') = b ∧ bootstrapped s' = true ∧
  (animation s' ≠ animation s ∨ bootstrapped s = false → asked ≠ []) ∧
  (∀ at_time, redraw = Some at_time → last asked = Some (RedrawAt (at_time + FRAME_DURATION)%Z)).
Proof.
  unfold update. pose proof (sync_active_spec (animation s) b n) as Hs.
  destruct (bootstrapped s) eqn:Eb; cbn; destruct (sync_active (animation s) b n) as [a changed];
    destruct Hs as (Ha & _ & Hid & _); destruct changed, redraw; cbn; split_and!; try done;
    try (by intros ? [= <-]); try (intros [?|?]; try done; by rewrite Hid in *).
Qed.

End Drawing.

(** ** Values in range *)

Definition within (lo hi a : f32) : bool := (lo <= a) && (a <= hi).

Definition ray_salts : list Z := [433; 457; 491; 503; 509; 521; 487; 607; 613; 617].

(** The hashes of a ray are fractions, its cycle is half a second to two, and
    the delay of its tail leaves half of the way: nothing is divided by zero. *)
Definition ray_in_range (index : Z) : bool :=
  forallb (fun salt => within (int 0) (int 1) (hash01 index salt)) ray_salts &&
  within (1 // 2) (int 2) (lerp RAY_CYCLE_MIN RAY_CYCLE_MAX (hash01 index 457)) &&
  within (1 // 2) (int 1) (int 1 - hash01 index 521 * RAY_TAIL_DELAY_MAX).

Theorem rays_in_range (index : Z) : index ∈ rays → ray_in_range index = true.
Proof.
  intros Hin. assert (forallb ray_in_range rays = true) as Ha by (vm_compute; reflexivity).
  rewrite forallb_forall in Ha. by apply Ha, list_elem_of_In.
Qed.

(** A step of the fearful eye takes a quarter of a second to two, a cycle of
    them a positive and finite time. *)
Theorem fear_in_range :
  forallb (fun step => within (1 // 4) (int 2) (fear_step_duration step)) fear_steps = true ∧
  within (int 6) (int 48) fear_cycle_duration = true.
Proof. split; vm_compute; reflexivity. Qed.

(** The time at which a step starts. *)
Definition fear_step_start (step : Z) : f32 :=
  foldl (fun cursor step => cursor + fear_step_duration step) (int 0) (Z.of_nat <$> seq 0 (Z.to_nat step)).

Lemma fear_step_start_S k : fear_step_start (Z.of_nat (S k)) =
  fear_step_start (Z.of_nat k) + fear_step_duration (Z.of_nat k).
Proof. unfold fear_step_start. rewrite !Nat2Z.id, seq_S, fmap_app, foldl_app. done. Qed.

Lemma fear_step_loop_spec local_t m k :
  (k + S m = 24)%nat → (k = 0%nat ∨ (local_t <= fear_step_start (Z.of_nat k)) = false) →
  ∃ step, (k ≤ step < 24)%nat ∧
  fear_step_loop local_t (fear_step_start (Z.of_nat k)) (Z.of_nat <$> seq k (S m)) =
    Some (Z.of_nat step, fear_step_start (Z.of_nat step), fear_step_duration (Z.of_nat step)) ∧
  (step = 23%nat ∨ (local_t <= fear_step_start (Z.of_nat (S step))) = true) ∧
  (step = 0%nat ∨ (local_t <= fear_step_start (Z.of_nat step)) = false).
Proof.
  revert k. induction m as [|m IH]; intros k Hk Hb; cbn [seq fmap list_fmap fear_step_loop]; rewrite <- fear_step_start_S.
  - replace k with 23%nat in * by lia. exists 23%nat. rewrite orb_true_r. split_and!; auto; lia.
  - destruct (local_t <= fear_step_start (Z.of_nat (S k))) eqn:E; cbn [orb].
    + exists k. split_and!; auto; lia.
    + destruct (Z.of_nat k =? FEAR_HOLD_PATTERN - 1)%Z eqn:Ek; zb; [unfold FEAR_HOLD_PATTERN in Ek; lia|].
      destruct (IH (S k)) as (step & ? & ? & ? & ?); [lia|by right|]. exists step. split_and!; auto; lia.
Qed.

(** The steps cut the cycle: the step at a time is the one that has started and
    has not ended, the last one for every time after it; the loop always finds
    one. *)
Theorem fear_steps_partition (local_t : f32) : ∃ step, (step < 24)%nat ∧
  fear_step_at local_t = (Z.of_nat step, fear_step_start (Z.of_nat step), fear_step_duration (Z.of_nat step)) ∧
  (step = 23%nat ∨ (local_t <= fear_step_start (Z.of_nat (S step))) = true) ∧
  (step = 0%nat ∨ (local_t <= fear_step_start (Z.of_nat step)) = false).
Proof.
  destruct (fear_step_loop_spec local_t 23 0) as (step & ? & E & ? & ?); [lia|by left|].
  exists step. split_and!; [lia| |done|done]. unfold fear_step_at.
  change fear_steps with (Z.of_nat <$> seq 0 24). change (int 0) with (fear_step_start (Z.of_nat 0)). by rewrite E.
Qed.

(** The kick moves the eye for exactly its duration. *)
Theorem kick_ends (elapsed : Z) : (0 <= elapsed)%Z →
  prohibited_kick_x elapsed = int 0 ↔ (PROHIBIT_KICK_DURATION <= elapsed)%Z.
Proof.
  intros He. unfold prohibited_kick_x. destruct (PROHIBIT_KICK_DURATION <=? elapsed)%Z eqn:E; zb; [by split|].
  assert (elapsed / 10 ^ 6 <= 159)%Z.
  { apply Z.lt_succ_r, Z.div_lt_upper_bound; [done|]. unfold PROHIBIT_KICK_DURATION, from_millis in E. lia. }
  assert (∀ z, int z ≠ int 0 → int z = int 0 ↔ (PROHIBIT_KICK_DURATION <= elapsed)%Z) as Hne.
  { intros z Hz. split; [done|]. intros Hp. exfalso. lia. }
  cbv zeta. repeat (case_match; [apply Hne; vm_compute; discriminate|]). zb. lia.
Qed.

(** ** A ray never misses *)

Lemma f32_min_finite a b : f_is_finite a = true → (int 0 <= b) = true → f_is_finite (f32_min a b) = true.
Proof.
  intros Ha Hb. unfold f32_min. destruct (f_is_nan a) eqn:Ea; [by destruct a|].
  destruct (f_is_nan b) eqn:Eb; [done|]. destruct (b < a) eqn:E; [|done].
  destruct b as [|[]| |]; try done. by destruct a as [|[]| |].
Qed.

Lemma nearest_finite hits : Forall (fun h => ∀ t, h = Some t → (int 0 <= t) = true) hits →
  f_is_finite (nearest_hit hits) = true.
Proof.
  unfold nearest_hit. generalize (eq_refl : f_is_finite f32_MAX = true). generalize f32_MAX.
  intros m Hm Hh. revert m Hm. induction Hh as [|h hits Hh _ IH]; intros m Hm; cbn [foldl]; [done|].
  apply IH. destruct h as [t|]; [|done]. apply f32_min_finite; [done|by apply Hh].
Qed.

Lemma segment_hit_ahead origin dx dy a b t : ray_segment_intersection origin dx dy a b = Some t → (int 0 <= t) = true.
Proof.
  unfold ray_segment_intersection. destruct (_ < _); [done|]. cbv zeta. destruct (int 0 <= _) eqn:E; [|done].
  cbn [andb]. destruct (_ && _); [|done]. by intros [= <-].
Qed.

(** A ray that meets no side of the enclosure is said to meet it at the largest
    number, so the distance the drawing falls back to is never used. *)
Theorem rays_never_miss (origin : Point) (dir_x dir_y morph : f32) :
  is_Some (ray_enclosure_intersection origin dir_x dir_y morph) ∧
  (ray_border dir_x dir_y morph = 126 // 10 →
   ray_enclosure_intersection CENTER dir_x dir_y morph = Some (126 // 10)).
Proof.
  assert (∀ o, is_Some (ray_enclosure_intersection o dir_x dir_y morph)) as Hs.
  { intros o. unfold ray_enclosure_intersection. destruct (enclosure_vertices morph) as [[[a b] c] d].
    rewrite nearest_finite; [by eexists|]. repeat constructor; intros t Ht; by eapply segment_hit_ahead. }
  split; [apply Hs|]. unfold ray_border. destruct (Hs CENTER) as [t ->]. by intros <-.
Qed.

Example missed_ray : ray_enclosure_intersection (MkPoint (int 100) (int 100)) (int 1) (int 0) (int 0) = Some f32_MAX.
Proof. vm_compute. reflexivity. Qed.

(** An eye that is held shut fades away after a second and a half. *)
Example faded_eye :
  draw_eye (fun x => x) (fun x => x) (fun _ _ _ => int 1) (fun a => a) (fun a _ => a)
    (visual (fun x => x) (MkAnimation true 0 (Some 0%Z) (int 0) (from_millis 1480))) = [].
Proof. vm_compute. reflexivity. Qed.
