(* ===== verification/HostWindow.v ===== *)
(** * The host and its window

    A run of the host ([Runtime.v]) against the application that shows it
    ([Desktop.v]): which ends of a run close the window.  [src/main.rs] gives
    both the ends of one channel, and waits for the window before it looks at
    what became of the host. *)

From S2P Require Import Terminal Desktop Runtime.

Section HostWindow.
Context `{Display, DisplayLaws} `{VteParser, !VteIncremental} {Key : Type} `{Countable Key} `{Device}.

Notation op := (op (Key := Key)).

(** ** What a run tells the application *)

(** What the loop has told the application when it goes on, breaks or returns. *)
Definition told (r : option (result HostError ())) (evs : list HostEvent) : Prop :=
  match r with
  | None => evs = []
  | Some (Ok _) => ∃ reason, evs = [SessionEnded reason]
  | Some (Err e) => evs = [] ∨ ∃ error, e = Policy error ∧ evs = [SessionEnded ("policy error: " +:+ error)]
  end.

Lemma act_told s answer evs : events s = Some evs →
  let '(s', r) := act s answer in ∃ new, events s' = Some (evs ++ new) ∧ told r new.
Proof.
  intros He. destruct answer as [[[inputs|]|error]|e]; cbn [act].
  - destruct (write_inputs inputs (pty s)) as [w [[]|e]]; exists []; cbn; rewrite app_nil_r; auto.
  - exists []. by rewrite app_nil_r.
  - exists [SessionEnded ("policy error: " +:+ error)]. cbn. rewrite He. eauto.
  - exists []. rewrite app_nil_r. cbn. auto.
Qed.

Lemma on_tick_told has_agent s t evs : events s = Some evs →
  let '(s', r) := on_tick has_agent s t in ∃ new, events s' = Some (evs ++ new) ∧ told r new.
Proof.
  intros He. unfold on_tick. set (s1 := if shutdown_requested t then _ else _).
  assert (events s1 = Some evs) as He1 by (subst s1; by destruct (shutdown_requested t)). clearbody s1.
  destruct (if has_agent then agent_fatal t else None) as [m|]; [exists []; cbn; rewrite app_nil_r; auto|].
  destruct (shutdown s1); [eexists [_]; cbn; rewrite He1; cbn; eauto|].
  destruct (child_exited (child t)) as [[]|e].
  - eexists [_]. cbn. rewrite He1. cbn. eauto.
  - by apply act_told.
  - exists []. cbn. rewrite app_nil_r. auto.
Qed.

Lemma poll_loop_told has_agent ticks : ∀ s evs, events s = Some evs →
  let '(s', r) := poll_loop has_agent s ticks in ∃ new, events s' = Some (evs ++ new) ∧ told r new.
Proof.
  induction ticks as [|t ticks IH]; intros s evs He; cbn [poll_loop]; [exists []; by rewrite app_nil_r|].
  pose proof (on_tick_told has_agent s t evs He) as Ht. destruct (on_tick has_agent s t) as [s1 [r|]]; [done|].
  destruct Ht as (new & He1 & ->). rewrite app_nil_r in He1. by apply IH.
Qed.

(** A run that ends has told the application so, except when it failed other
    than by an error of the policy. *)
Lemma run_told options inst constr spawned w already ticks at_end s e :
  has_event_sender options = true →
  Runtime.run options inst constr spawned w already ticks at_end = (s, Some e) →
  ∃ evs, events s = Some evs ∧
    (evs = [] ∧ terminated e = false ∧ (∃ err, outcome e = Err err) ∨
     ∃ reason rest, evs = SessionEnded reason :: rest).
Proof.
  intros Hs. unfold Runtime.run. rewrite Hs. cbv zeta. destruct (_ ← inst; _ ← constr; spawned) as [[]|err].
  2: { intros [= <- <-]. exists []. cbn. eauto 6. }
  match goal with |- context [poll_loop ?a ?b ?c] =>
    pose proof (poll_loop_told a c b [] eq_refl) as Ht; destruct (poll_loop a b c) as [s1 [[[]|err]|]] end; cbn [app] in Ht; [| |done].
  - destruct Ht as (new & He & reason & ->). destruct (terminate at_end) as [killed r]. intros [= <- <-].
    exists [SessionEnded reason; Disconnected]. cbn. rewrite He. eauto 6.
  - destruct Ht as (new & He & Hn). intros [= <- <-]. exists new. split; [done|]. cbn.
    destruct Hn as [->|(error & -> & ->)]; eauto 6.
Qed.

(** C26. The window and the end of the host's run.  When the run told the
    application its end, the window closes, however its events interleave with
    output, user and player.  A run that failed otherwise has told it nothing
    but its output, and the window is still open when the channel closes; then
    it depends on the output alone: if the stream had received all of it, the
    window stays open, whatever the user and the player do; if some was still
    on its way, the window closes once the stream has received that and the
    messages are handled. *)
Theorem window_follows_run (options : HostOptions) inst constr spawned w already ticks at_end s e (av : Overlay.AvState) :
  has_event_sender options = true →
  Runtime.run options inst constr spawned w already ticks at_end = (s, Some e) →
  ∃ evs, events s = Some evs ∧
  (evs = [] ∧ terminated e = false ∧ (∃ err, outcome e = Err err) ∧
     (∀ (before : list op) d, HostDrops ∉ before → Forall is_output (sent false before) →
        run_steps desktop_step (desktop_new av) before = Some d →
        exited d = false ∧
        (settled d → ∀ after d', sent false after = [] → run_steps desktop_step d after = Some d' → exited d' = false) ∧
        (¬ settled d → ∀ n m, (4 * length (channel d) + 4 ≤ n)%nat → (length (inbox d) + n ≤ m)%nat →
           ∃ d', run_steps desktop_step d (HostDrops :: replicate n StreamStep ++ replicate m UiStep) = Some d' ∧
             exited d' = true)) ∨
   evs ≠ [] ∧ ∀ ops : list op, evs ⊆ sent false ops →
     ∃ d, run_steps desktop_step (desktop_new av) ops = Some d ∧
     ∀ n m, (4 * length (channel d) + 4 ≤ n)%nat → (length (inbox d) + n ≤ m)%nat →
     ∃ d', run_steps desktop_step (desktop_new av) (ops ++ replicate n StreamStep ++ replicate m UiStep) = Some d' ∧
       exited d' = true).
Proof.
  intros Hs Hr. destruct (run_told _ _ _ _ _ _ _ _ _ _ Hs Hr) as (evs & He & Hevs). exists evs. split; [done|].
  destruct Hevs as [(-> & Ht & Ho)|(reason & rest & ->)]; [left|right].
  - split_and!; [done..|]. intros before d. apply wordless_end.
  - split; [done|]. intros ops Hsub.
    destruct (end_drains av ops (SessionEnded reason)) as (d & Hd & Hn); [apply Hsub; left|done|].
    exists d. split; [done|]. intros n m Hnn Hm. destruct (Hn n m Hnn Hm) as (d' & ? & ? & _). eauto.
Qed.

End HostWindow.

(** ** At concrete inputs *)

#[local] Instance flat_display : Display := {|
  Color := bool;
  BLACK := false;
  WHITE := true;
  from_rgb _ _ _ := true;
  color_eqb := Bool.eqb;
  unicode_width _ := Some 1%nat;
|}.

#[local] Instance flat_display_laws : DisplayLaws.
Proof. split. reflexivity. Qed.

(** The policy component does not load, after the terminal has shown something:
    the run fails, and the window is none the wiser. *)
Definition shown_before : list (op (Key := Z)) :=
  [HostSends (TerminalOutput (str_bytes "$ ")); StreamStep; StreamStep; UiStep].

Lemma window_follows_run_witness :
  has_event_sender with_window = true ∧
  ∃ s e, @Runtime.run sink with_window (Err (Wasmtime "no component")) (Ok ()) (Ok ()) new_writer false []
    (TerminateAnswer gone (Ok ()) (Ok ()) (Ok (Ok ()))) = (s, Some e) ∧
  @events sink s = Some [] ∧
  ∃ d, run_steps desktop_step (desktop_new (Overlay.MkState None)) shown_before = Some d ∧
  ∀ (after : list (op (Key := Z))) d', sent false after = [] → run_steps desktop_step d after = Some d' → exited d' = false.
Proof.
  split; [reflexivity|].
  destruct (@Runtime.run sink with_window (Err (Wasmtime "no component")) (Ok ()) (Ok ()) new_writer false []
    (TerminateAnswer gone (Ok ()) (Ok ()) (Ok (Ok ())))) as [s [e|]] eqn:E; [|vm_compute in E; discriminate E].
  exists s, e. split; [reflexivity|].
  destruct (@window_follows_run flat_display flat_display_laws plain_parser plain_incremental Z _ _ sink
    with_window _ _ _ _ _ _ _ s e (Overlay.MkState None) eq_refl E) as (evs & He & [(-> & _ & _ & Hn)|(Hne & _)]).
  - split; [exact He|]. eexists. split; [vm_compute; reflexivity|].
    eapply (Hn shown_before).
    + unfold shown_before. set_solver.
    + repeat constructor.
    + vm_compute. reflexivity.
    + split; reflexivity.
  - exfalso. vm_compute in E. injection E as <- _. cbn in He. injection He as <-. by apply Hne.
Defined.
