(* ===== verification/Build.v ===== *)
(** * Building: [mitb-wit/src/lib.rs], [mitb-sdk/src/build_support.rs] and the
    build scripts

    The interface files written for the binding generators, the generators'
    invocations, and the files Cargo is told to watch.  The file system, the
    environment, the embedded texts and [cargo] itself are parameters. *)

From S2P Require Import Rust.

(** The file system of a build: an operation answers and may change it. *)
Class BuildFs : Type := {
  Fs : Type;
  create_dir_all : string → Fs → result string () * Fs;
  path_exists : string → Fs → bool;
  remove_file : string → Fs → result string () * Fs;
  write_file : string → string → Fs → result string () * Fs;
  copy_to : string → string → Fs → result string () * Fs;
}.

(** Operations in order, up to the first error. *)
Definition Io `{BuildFs} (E A : Type) : Type := Fs → result E A * Fs.

Definition io_ret `{BuildFs} {E A} (a : A) : Io E A := fun w => (Ok a, w).
Definition io_err `{BuildFs} {E A} (e : E) : Io E A := fun w => (Err e, w).
Definition io_bind `{BuildFs} {E A B} (m : Io E A) (k : A → Io E B) : Io E B := fun w =>
  match m w with (Ok a, w) => k a w | (Err e, w) => (Err e, w) end.
Definition io_map_err `{BuildFs} {E E' A} (f : E → E') (m : Io E A) : Io E' A := fun w =>
  let '(r, w) := m w in (map_err f r, w).
Definition io_lift `{BuildFs} {E A} (r : result E A) : Io E A := fun w => (r, w).

Declare Scope io_scope.
Delimit Scope io_scope with io.
Notation "x <- m ;; k" := (io_bind m (fun x => k)) (at level 100, m at next level, k at level 200, right associativity) : io_scope.
Notation "m ;; k" := (io_bind m (fun _ => k)) (at level 100, k at level 200, right associativity) : io_scope.

Section Build.
Context `{BuildFs}.
Local Open Scope io_scope.

(** The texts embedded in [mitb-wit], by the names they are written under. *)
Context (WORLD_WIT TREESITTER_WIT WASI_CLI_WIT WASI_CLOCKS_WIT WASI_FILESYSTEM_WIT WASI_HTTP_WIT WASI_RANDOM_WIT
  WASI_SOCKETS_WIT : string).

Definition write_wit_to (dir : string) : Io string () :=
  let deps := path_join dir "deps" in
  create_dir_all deps ;;
  let legacy_treesitter := path_join dir "treesitter.wit" in
  (fun w => if path_exists legacy_treesitter w then remove_file legacy_treesitter w else (Ok tt, w)) ;;
  write_file (path_join dir "world.wit") WORLD_WIT ;;
  write_file (path_join deps "treesitter.wit") TREESITTER_WIT ;;
  write_file (path_join deps "cli.wit") WASI_CLI_WIT ;;
  write_file (path_join deps "clocks.wit") WASI_CLOCKS_WIT ;;
  write_file (path_join deps "filesystem.wit") WASI_FILESYSTEM_WIT ;;
  write_file (path_join deps "http.wit") WASI_HTTP_WIT ;;
  write_file (path_join deps "random.wit") WASI_RANDOM_WIT ;;
  write_file (path_join deps "sockets.wit") WASI_SOCKETS_WIT ;;
  io_ret tt.

(** *** [build_support.rs] *)

Inductive BuildSupportError : Type :=
| ReadOutDir (source : string)
| WriteWit (path source : string)
| WriteBindgen (path source : string).

Definition quote : string := String (chr 34) EmptyString.
Definition quoted (s : string) : string := quote +:+ s +:+ quote.
Definition newline : string := String (chr 10) EmptyString.

Definition bindgen_source (wit_dir world : string) : string :=
  "wit_bindgen::generate!({" +:+ newline +:+ "    path: " +:+ quoted wit_dir +:+ "," +:+ newline +:+
  "    world: " +:+ quoted world +:+ "," +:+ newline +:+ "    generate_all," +:+ newline +:+ "});".

(** [out_dir]: the variable [OUT_DIR], or what reading it fails with. *)
Definition write_bindgen_for_world_named (out_dir : result string string) (world output_file : string)
    : Io BuildSupportError () :=
  out_dir <- io_lift (map_err ReadOutDir out_dir) ;;
  let wit_dir := path_join out_dir "mitb-wit" in
  io_map_err (WriteWit wit_dir) (write_wit_to wit_dir) ;;
  let bindgen := bindgen_source wit_dir world in
  let bindgen_path := path_join out_dir output_file in
  io_map_err (WriteBindgen bindgen_path) (write_file bindgen_path bindgen) ;;
  io_ret tt.

Definition write_policy_bindgen (out_dir : result string string) : Io BuildSupportError () :=
  write_bindgen_for_world_named out_dir "policy" "mitb_guest_bindgen.rs".

Definition write_policy_bindgen_named (out_dir : result string string) (output_file : string)
    : Io BuildSupportError () :=
  write_bindgen_for_world_named out_dir "policy" output_file.

Definition write_policy_bindgen_with_treesitter (out_dir : result string string) : Io BuildSupportError () :=
  write_bindgen_for_world_named out_dir "treesitter-policy" "mitb_guest_bindgen.rs".

(** The lines printed for Cargo. *)
Definition print_rerun_if_mitb_wit_changed_at (wit_root : string) : list string :=
  (fun f => "cargo:rerun-if-changed=" +:+ path_join wit_root f) <$>
    ["world.wit"; "deps/treesitter.wit"; "deps/cli.wit"; "deps/clocks.wit"; "deps/filesystem.wit"; "deps/http.wit";
     "deps/random.wit"; "deps/sockets.wit"].

Definition mitb_wit_source_root (manifest_dir : string) : string := path_join manifest_dir "../mitb-wit/wit".

Definition print_rerun_if_mitb_wit_changed (manifest_dir : string) : list string :=
  print_rerun_if_mitb_wit_changed_at (mitb_wit_source_root manifest_dir).

(** *** The build scripts *)

(** The scripts of [mitb-examples/number-game] and [always-wait], of
    [maintainability] and of the provider: the lines printed. *)
Definition policy_build (out_dir : result string string) (manifest_dir : string) : Io BuildSupportError (list string) :=
  write_policy_bindgen out_dir ;; io_ret (print_rerun_if_mitb_wit_changed manifest_dir).

Definition treesitter_policy_build (out_dir : result string string) (manifest_dir : string)
    : Io BuildSupportError (list string) :=
  write_policy_bindgen_with_treesitter out_dir ;; io_ret (print_rerun_if_mitb_wit_changed manifest_dir).

Definition provider_build (out_dir : result string string) (manifest_dir : string) : Io BuildSupportError (list string) :=
  write_bindgen_for_world_named out_dir "mitb:treesitter/provider" "treesitter_bindgen.rs" ;;
  io_ret (print_rerun_if_mitb_wit_changed manifest_dir).

(** [mitb-host/build.rs]; errors are texts. *)
Definition host_bindgen_source (wit_dir : string) : string :=
  foldr (fun l s => l +:+ newline +:+ s) "});"
    ["wasmtime::component::bindgen!({"; "    path: " +:+ quoted wit_dir +:+ ","; "    world: " +:+ quoted "policy" +:+ ",";
     "    imports: {"; "        default: async | trappable,"; "    },"; "    exports: {";
     "        default: async | store | task_exit,"; "    },"; "    require_store_data_send: true,"; "    with: {";
     "        " +:+ quoted "mitb:host/process.child" +:+ ": crate::ProcessChild,";
     "        " +:+ quoted "wasi" +:+ ": wasmtime_wasi::p3::bindings,";
     "        " +:+ quoted "wasi:http" +:+ ": wasmtime_wasi_http::p3::bindings::http,"; "    },"].

Definition host_build (out_dir : result string string) : Io string (list string) :=
  out_dir <- io_lift out_dir ;;
  let wit_dir := path_join out_dir "mitb-wit" in
  write_wit_to wit_dir ;;
  write_file (path_join out_dir "mitb_bindgen.rs") (host_bindgen_source wit_dir) ;;
  io_ret (print_rerun_if_mitb_wit_changed_at "../mitb-wit/wit").

(** [mitb-server/build.rs]; [cargo_build]: whether the build of the module
    succeeded in its directory, or the error of running it. *)
Definition build_pake_wasm (manifest_parent : option string) (manifest_dir cargo out_dir : result string string)
    (cargo_build : string → string → Io string bool) : Io string () :=
  manifest_dir <- io_lift manifest_dir ;;
  workspace_dir <- io_lift (ok_or "mitb-server must live inside the workspace root" manifest_parent) ;;
  cargo <- io_lift cargo ;;
  out_dir <- io_lift out_dir ;;
  let target_dir := path_join workspace_dir "target/mitb-pake-wasm" in
  success <- cargo_build cargo target_dir ;;
  if negb success then io_err "failed to build mitb-pake wasm module"
  else
    let wasm_path := path_join target_dir "wasm32-unknown-unknown/release/mitb_pake.wasm" in
    let output := path_join out_dir "mitb-pake.wasm" in
    io_map_err (fun error => "failed to copy wasm asset from " +:+ wasm_path +:+ " to " +:+ output +:+ ": " +:+ error)
      (copy_to wasm_path output) ;;
    io_ret tt.

End Build.

(** ** What is written *)

(** The files of a file system: what succeeds does what it says, a failure may
    have done anything. *)
Class BuildFsLaws `{BuildFs} (files : Fs → gmap string string) : Prop := {
  create_files : ∀ d w w', create_dir_all d w = (Ok tt, w') → files w' = files w;
  exists_files : ∀ p w, path_exists p w = false → files w !! p = None;
  remove_files : ∀ p w w', remove_file p w = (Ok tt, w') → files w' = delete p (files w);
  write_files : ∀ p s w w', write_file p s w = (Ok tt, w') → files w' = <[p := s]> (files w);
}.

Section Written.
Context `{BuildFsLaws}.
Context (world treesitter cli clocks filesystem http random sockets : string).

Notation write_wit := (write_wit_to world treesitter cli clocks filesystem http random sockets).

(** The names under the directory, with their texts; the last one written
    first. *)
Definition wit_files (dir : string) : gmap string string :=
  let deps := path_join dir "deps" in
  <[path_join deps "sockets.wit" := sockets]> (<[path_join deps "random.wit" := random]>
  (<[path_join deps "http.wit" := http]> (<[path_join deps "filesystem.wit" := filesystem]>
  (<[path_join deps "clocks.wit" := clocks]> (<[path_join deps "cli.wit" := cli]>
  (<[path_join deps "treesitter.wit" := treesitter]> (<[path_join dir "world.wit" := world]> ∅))))))).

Lemma io_bind_Ok {E A B} (m : Io E A) (k : A → Io E B) w b w' :
  io_bind m k w = (Ok b, w') → ∃ a w1, m w = (Ok a, w1) ∧ k a w1 = (Ok b, w').
Proof. unfold io_bind. destruct (m w) as [[a|e] w1]; [by eauto|done]. Qed.

Lemma io_map_err_Ok {E E' A} (f : E → E') (m : Io E A) w a w' : io_map_err f m w = (Ok a, w') ↔ m w = (Ok a, w').
Proof. unfold io_map_err. destruct (m w) as [[]]; cbn; split; congruence. Qed.

Ltac io_steps H := repeat (apply io_bind_Ok in H as ([] & ? & ?Hw & H)).

Lemma write_wit_files dir w w' : write_wit dir w = (Ok tt, w') →
  files w' = wit_files dir ∪ delete (path_join dir "treesitter.wit") (files w).
Proof.
  intros Hok. unfold write_wit_to in Hok. io_steps Hok. injection Hok as <-. apply create_files in Hw.
  assert (files x0 = delete (path_join dir "treesitter.wit") (files w)) as Hd.
  { destruct (path_exists _ x) eqn:E; [apply remove_files in Hw0; congruence|]. injection Hw0 as <-.
    rewrite <- Hw, delete_id; [done|by apply exists_files]. }
  repeat match goal with Hx : write_file _ _ _ = _ |- _ => apply write_files in Hx end.
  unfold wit_files. cbv zeta. rewrite <- !insert_union_l, (left_id ∅ (∪)). congruence.
Qed.

(** A build that succeeds leaves the interface files, the invocation of the
    generator that names their directory and the world, no stale interface, and
    the other files as they were. *)
Theorem bindgen_written (out_dir world_name output_file : string) (w w' : Fs) :
  write_bindgen_for_world_named world treesitter cli clocks filesystem http random sockets
    (Ok out_dir) world_name output_file w = (Ok tt, w') →
  let wit_dir := path_join out_dir "mitb-wit" in
  files w' = <[path_join out_dir output_file := bindgen_source wit_dir world_name]>
               (wit_files wit_dir ∪ delete (path_join wit_dir "treesitter.wit") (files w)).
Proof.
  unfold write_bindgen_for_world_named. intros Hok. apply io_bind_Ok in Hok as (d & w1 & [= <- <-] & Hok). cbv zeta in *.
  apply io_bind_Ok in Hok as ([] & w2 & Hw%io_map_err_Ok & Hok). apply io_bind_Ok in Hok as ([] & w3 & Hb%io_map_err_Ok & Hok).
  injection Hok as <-. apply write_files in Hb. apply write_wit_files in Hw. congruence.
Qed.

Lemma last_deps p : last (str_bytes (p +:+ "deps")) = Some "s"%char.
Proof.
  rewrite str_bytes_app. change (str_bytes "deps") with (str_bytes "dep" ++ ["s"%char]).
  rewrite app_assoc. apply last_snoc.
Qed.

Lemma string_app_assoc (a b c : string) : a +:+ (b +:+ c) = (a +:+ b) +:+ c.
Proof. induction a as [|x a IH]; [done|]. change (String x (a +:+ (b +:+ c)) = String x ((a +:+ b) +:+ c)). by rewrite IH. Qed.

Lemma join_deps dir f : match str_bytes f with b :: _ => code b ≠ 47 | [] => False end →
  path_join (path_join dir "deps") f = path_join dir ("deps/" +:+ f).
Proof.
  intros Hb. destruct (str_bytes f) as [|b l] eqn:Hf; [done|]. unfold path_join at 1 3. rewrite Hf, str_bytes_app. cbn [str_bytes String.list_ascii_of_string app head].
  rewrite bool_decide_eq_false_2 by done. rewrite (bool_decide_eq_false_2 (code "d" = 47)) by done.
  unfold path_join. cbn [str_bytes String.list_ascii_of_string head]. rewrite (bool_decide_eq_false_2 (code "d" = 47)) by done.
  destruct (last (str_bytes dir)) as [c|]; [|done].
  rewrite string_app_assoc, last_deps. rewrite (bool_decide_eq_false_2 (code "s" = 47)) by done.
  rewrite <- !string_app_assoc. done.
Qed.

(** Cargo is told to watch exactly the interface files that are written, where
    their sources are. *)
Theorem written_files_are_watched (dir root : string) : ∃ names,
  dom (wit_files dir) = list_to_set (path_join dir <$> names) ∧
  print_rerun_if_mitb_wit_changed_at root = (fun f => "cargo:rerun-if-changed=" +:+ path_join root f) <$> names.
Proof.
  eexists. split; [|unfold print_rerun_if_mitb_wit_changed_at; reflexivity]. unfold wit_files. cbv zeta.
  rewrite !join_deps by done. cbn [fmap list_fmap list_to_set String.app].
  rewrite !dom_insert_L, dom_empty_L. cbn. set_solver.
Qed.

(** Without [OUT_DIR] nothing is touched. *)
Theorem no_out_dir (e world_name output_file : string) (w : Fs) :
  write_bindgen_for_world_named world treesitter cli clocks filesystem http random sockets
    (Err e) world_name output_file w = (Err (ReadOutDir e), w).
Proof. done. Qed.

End Written.

(** A file system of files only, that never fails. *)
#[export] Instance map_fs : BuildFs := {|
  Fs := gmap string string;
  create_dir_all _ w := (Ok tt, w);
  path_exists p w := bool_decide (is_Some (w !! p));
  remove_file p w := (Ok tt, delete p w);
  write_file p s w := (Ok tt, <[p := s]> w);
  copy_to p q w := match w !! p with Some s => (Ok tt, <[q := s]> w) | None => (Err "No such file", w) end;
|}.

#[export] Instance map_fs_laws : BuildFsLaws (H := map_fs) id.
Proof.
  split; cbn; unfold id; [by intros ? ? ? [= <-]| |by intros ? ? ? [= <-]|by intros ? ? ? ? [= <-]].
  intros p w Hp%bool_decide_eq_false. by destruct (w !! p); [destruct Hp|].
Qed.

