(* ===== verification/PolicyHost.v ===== *)
(** * A policy on its terminal: the host's loop, its reader and the SDK's session

    [runtime.rs], [pty_io.rs] and [transcript.rs] of the host with the session
    that [policy_guest!] of the SDK builds around a policy: output that arrives
    between the polls, the snapshot a poll takes of it, what the policy is shown,
    and what the host types of its answer. *)

From S2P Require Import Sdk Runtime.

Section Loop.
Context `{Device} `{VteParser}.
Context {T : Type} (policy_act : T → string → T * result string action).

(** ** One host with one policy

    Reader and loop share the transcript.  They also share the terminal's writer;
    each is given its own record of what it wrote there. *)
Record session_state := SessionState {
  reader : reader_state;
  reading : bool;
  guest : PolicySessionState (T := T);
  loop : host;
}.

(** A round of the loop, but for the policy: what the agent, the application and
    the child say, and the clock. *)
Record round := Round {
  round_fatal : option string;
  round_shutdown : bool;
  round_child : child_answer;
  now_ns : Z;
}.

Inductive session_event : Type :=
| Arrives (read : read_outcome)
| Polls (r : round).

(** The tick of a round at which the policy answers [a]. *)
Definition tick_of (r : round) (a : result string action) : tick :=
  Tick (round_fatal r) (round_shutdown r) (round_child r) (Ok a).

Definition arrives (max_bytes : nat) (s : session_state) (read : read_outcome) : session_state :=
  if reading s then
    let '(reader, ended) := read_pty_output max_bytes (reader s) [read] in
    SessionState reader (match ended with None => true | Some _ => false end) (guest s) (loop s)
  else s.

(** [session.poll] of the guest takes a snapshot through the host. *)
Definition session_poll (s : session_state) (r : round) : PolicySessionState (T := T) * result string action :=
  Sdk.poll policy_act (guest s) (host_snapshot (transcript (reader s)) DEFAULT_TERMINAL_MAX_BYTES) (now_ns r).

(** The loop until it is left, as far as the events go. *)
Fixpoint session_run (max_bytes : nat) (has_agent : bool) (s : session_state) (evs : list session_event)
    : session_state * option (result HostError ()) :=
  match evs with
  | [] => (s, None)
  | Arrives read :: evs => session_run max_bytes has_agent (arrives max_bytes s read) evs
  | Polls r :: evs =>
    let '(guest, a) := session_poll s r in
    match on_tick has_agent (loop s) (tick_of r a) with
    | (loop, None) => session_run max_bytes has_agent (SessionState (reader s) (reading s) guest loop) evs
    | (loop, ended) => (SessionState (reader s) (reading s) guest loop, ended)
    end
  end.

(** ** What the policy should see and the host should type *)

Definition rounds (evs : list session_event) : list round :=
  omap (fun e => match e with Polls r => Some r | Arrives _ => None end) evs.

Definition output (evs : list session_event) : bytes :=
  concat (chunks_read (omap (fun e => match e with Arrives r => Some r | Polls _ => None end) evs)).

Definition chunk (r : read_outcome) : bytes := match r with ReadOk c => c | ReadErr _ => [] end.

(** At each poll: the end of all the output so far, and the time. *)
Fixpoint screens (size : nat) (stream : bytes) (evs : list session_event) : list (result string bytes * Z) :=
  match evs with
  | [] => []
  | Arrives r :: evs => screens size (stream ++ chunk r) evs
  | Polls r :: evs => (Ok (last_n size stream), now_ns r) :: screens size stream evs
  end.

(** What a session types for an answer. *)
Definition typed_for (a : result string action) : list effect :=
  match a with Ok (Perturb inputs) => plan None inputs | _ => [] end.

(** The terminal delivers output and is not closed; not more than can be counted. *)
Definition delivers (stream : bytes) (evs : list session_event) : Prop :=
  Forall (fun e => match e with Arrives r => benign r | Polls _ => True end) evs ∧
  len64 (stream ++ output evs) ≤ U64_MAX.

Definition visible_bytes (max_bytes : nat) : nat := Nat.min max_bytes (Z.to_nat DEFAULT_TERMINAL_MAX_BYTES).

(** ** The run *)

Section Spec.
Context `{!Reliable} (max_bytes : nat) (has_agent : bool).

Record live (s : session_state) (stream : bytes) (seen : list (string * Z)) (p : T) : Prop := {
  live_reading : reading s = true;
  live_writer : wpoisoned (pty_writer (reader s)) = false;
  live_lock : poisoned (transcript (reader s)) = false;
  live_window : window_of max_bytes stream (contents (transcript (reader s)));
  live_guest : guest s = Session (tracker_of seen) p;
  live_running : shutdown (loop s) = false;
  live_pty : wpoisoned (pty (loop s)) = false;
}.

Lemma arrives_live s stream seen p read :
  live s stream seen p → benign read → len64 (stream ++ chunk read) ≤ U64_MAX →
  live (arrives max_bytes s read) (stream ++ chunk read) seen p ∧ loop (arrives max_bytes s read) = loop s.
Proof.
  intros [Hr Hw Hl Hwin Hg Hrun Hp] Hb Hlen. unfold arrives. rewrite Hr.
  destruct read as [c|e]; cbn [chunk] in *; cbn [benign] in Hb; cbn [read_pty_output].
  - destruct c as [|b c]; [done|]. pose proof (handle_chunk_reliable max_bytes (reader s) (b :: c) Hw Hl) as Hc.
    destruct (feed _ _) as [t responses]. destruct Hc as (w & -> & _ & Hw'). cbn. split; [|done].
    split; try done. by apply append_chunk_window.
  - rewrite decide_True by done. rewrite app_nil_r. by split.
Qed.

(** The answers the history of the screen calls for, at the polls. *)
Notation answers p seen stream evs := (session_spec policy_act p seen (screens (visible_bytes max_bytes) stream evs)).

Lemma session_run_spec evs : ∀ s stream seen p,
  live s stream seen p → delivers stream evs →
  let '(s', r) := session_run max_bytes has_agent s evs in
  ∃ n, trace (pty (loop s')) = trace (pty (loop s)) ++ concat (typed_for <$> take n (answers p seen stream evs)) ∧
    (∀ k rd a, (k < n)%nat → rounds evs !! k = Some rd → answers p seen stream evs !! k = Some a →
       goes_on has_agent (tick_of rd a)) ∧
    match r with
    | None => n = length (rounds evs)
    | Some _ => ∃ rd a, rounds evs !! n = Some rd ∧ answers p seen stream evs !! n = Some a ∧
        ¬ goes_on has_agent (tick_of rd a)
    end.
Proof.
  induction evs as [|[read|rd] evs IH]; intros s stream seen p Hs [Hb Hlen]; cbn [session_run].
  - exists 0%nat. rewrite app_nil_r. split_and!; [done| |done]. intros; lia.
  - apply Forall_cons in Hb as [Hb Hbs].
    assert (stream ++ output (Arrives read :: evs) = (stream ++ chunk read) ++ output evs) as Eo.
    { rewrite <- (assoc_L (++)). f_equal. unfold output, chunks_read. cbn. by destruct read. }
    rewrite Eo in Hlen. destruct (arrives_live s stream seen p read Hs Hb) as [Hs' El].
    { unfold len64 in *. list_lia. }
    specialize (IH _ _ _ _ Hs' (conj Hbs Hlen)). rewrite El in IH. exact IH.
  - apply Forall_cons in Hb as [_ Hbs]. unfold session_poll. rewrite (live_guest _ _ _ _ Hs).
    assert (host_snapshot (transcript (reader s)) DEFAULT_TERMINAL_MAX_BYTES =
            Ok (last_n (visible_bytes max_bytes) stream)) as ->.
    { unfold host_snapshot. by rewrite (window_snapshot max_bytes stream) by apply Hs. }
    destruct (poll_history policy_act p seen (Ok (last_n (visible_bytes max_bytes) stream)) (now_ns rd))
      as (p' & seen' & a & -> & Hspec).
    cbn [screens rounds omap list_omap]. fold (rounds evs). rewrite Hspec.
    destruct (on_tick has_agent (loop s) (tick_of rd a)) as [h [e|]] eqn:Et.
    + destruct (on_tick_ends _ _ _ _ _ (live_running _ _ _ _ Hs) (live_pty _ _ _ _ Hs) Et) as (Hg & Ht & _).
      exists 0%nat. cbn. rewrite app_nil_r. split_and!; [done|intros; lia|]. by exists rd, a.
    + destruct (on_tick_goes_on _ _ _ _ (live_running _ _ _ _ Hs) Et) as (Hg & Hsh & _ & _ & Ht & Hw).
      specialize (IH (SessionState (reader s) (reading s) (Session (tracker_of seen') p') h) stream seen' p').
      destruct (session_run _ _ _ _) as [s' r]. destruct IH as (n & Htr & Hgo & Hr).
      { destruct Hs. split; cbn; congruence. }
      { by split. }
      exists (S n). cbn [loop] in *. cbn [take fmap list_fmap concat]. rewrite Htr, Ht, <- (assoc_L (++)). split_and!.
      * done.
      * intros [|k] rd' a' Hk; cbn; [by intros [= <-] [= <-]|]. apply Hgo. lia.
      * destruct r; [done|]. cbn. by f_equal.
Qed.

(** C16. What the host types is decided by the output alone: at each poll the policy is
    asked exactly when the end of everything output so far is what it was at the
    poll before and the start-up time is over, it is shown that end, and what it
    answers is typed, in order; until the first round at which agent,
    application, child or policy end the loop.  How the output was cut into
    reads, and what the transcript dropped, make no difference. *)
Theorem policy_types_on_settled_screen (p : T) (evs : list session_event) (w_reader w : writer)
    (window_events host_events : option (list HostEvent)) :
  wpoisoned w_reader = false → wpoisoned w = false → delivers [] evs →
  let start := SessionState (initial_reader w_reader (Shared false empty_transcript) window_events) true
                 (session_new p) (Host w false host_events 0) in
  let '(s, r) := session_run max_bytes has_agent start evs in
  let answers := session_spec policy_act p [] (screens (visible_bytes max_bytes) [] evs) in
  ∃ n, trace (pty (loop s)) = trace w ++ concat (typed_for <$> take n answers) ∧
    (∀ k rd a, (k < n)%nat → rounds evs !! k = Some rd → answers !! k = Some a → goes_on has_agent (tick_of rd a)) ∧
    match r with
    | None => n = length (rounds evs)
    | Some _ => ∃ rd a, rounds evs !! n = Some rd ∧ answers !! n = Some a ∧ ¬ goes_on has_agent (tick_of rd a)
    end.
Proof.
  intros Hr Hw Hd start. pose proof (session_run_spec evs start [] [] p) as Hs.
  destruct (session_run _ _ _ _) as [s r]. apply Hs; [|done]. by split.
Qed.

End Spec.
End Loop.

(** ** At concrete inputs *)

(** A policy that says yes, and counts. *)
Definition agrees (n : nat) (contents : string) : nat * result string action := (S n, Ok (Perturb [Text "y"; Key Enter])).

Definition goes (now : Z) : session_event := Polls (Round None false alive now).

(** A question in two pieces around a poll, then a pause. *)
Definition a_question : list session_event :=
  [goes 0; Arrives (ReadOk (str_bytes "rea")); goes (from_secs 1); Arrives (ReadOk (str_bytes "dy?")); goes (from_secs 5);
   goes (from_secs 6)].

Lemma policy_types_on_settled_screen_witness :
  delivers [] a_question ∧
  session_spec agrees 0%nat [] (screens 16 [] a_question) =
    [Ok Wait; Ok Wait; Ok Wait; Ok (Perturb [Text "y"; Key Enter])] ∧
  let '(s, r) := session_run (H := sink) (H0 := plain_parser) agrees 16 false
    (SessionState (initial_reader (H := sink) (H0 := plain_parser) new_writer (Shared false empty_transcript) None) true
       (session_new 0%nat) (Host (H := sink) new_writer false None 0)) a_question in
  match r with None => True | Some _ => False end → trace (pty (loop s)) = plan None [Text "y"; Key Enter].
Proof.
  assert (delivers [] a_question) as Hd.
  { split; [|by vm_compute]. unfold a_question. rewrite !Forall_cons. split_and!; try done. }
  split; [exact Hd|]. split; [vm_compute; reflexivity|].
  pose proof (policy_types_on_settled_screen (H := sink) (H0 := plain_parser) agrees 16 false 0%nat a_question
    new_writer new_writer None None eq_refl eq_refl Hd) as Hs.
  cbv zeta in Hs. destruct (session_run _ _ _ _ _) as [s r]. destruct Hs as (n & Ht & _ & Hr).
  destruct r; [intros []|intros _]. rewrite Hr in Ht. rewrite Ht.
  assert (visible_bytes 16 = 16%nat) as ->.
  { unfold visible_bytes. apply Nat.min_l. unfold DEFAULT_TERMINAL_MAX_BYTES. lia. }
  vm_compute. reflexivity.
Defined.
