(* ===== verification/HostTests.v ===== *)
(** * The unit tests of host, server and key exchange

    The [#[cfg(test)]] modules of [mitb-host/src/lib.rs], [mitb-host/src/agent.rs],
    [mitb-server/src/ws_auth.rs] and [mitb-pake/src/lib.rs], one definition a
    test, checked by evaluation.  A test of threads or processes is the sequence
    of steps it waits for. *)

From S2P Require Import PtyTerminal WsAuth Agent HostChild Pake.

(** ** [mitb-host/src/lib.rs] *)

Module Host.

(** [sleep 5], waited for with a short timeout: it is polled, found running and
    slept on until the timeout; then it is killed. *)
Definition wait_for_child_timeout_returns_none_when_process_runs_too_long : Prop :=
  match run_steps control_step control_new
          [NewWait true; WaitExitCheck 0; WaitPoll 0 (Ok None); WaitElapsed 0] with
  | Some child =>
    wait_answer <$> waiters child !! 0%nat = Some (Some (Ok None)) ∧
    killers <$> run_steps control_step child [NewKill; KillCheck 0; KillPollOp 0 (Ok None) (Ok ())] =
      Some [KillReturned (Ok ())]
  | None => False
  end.

(** [exit 0], which ends while the call sleeps between two polls. *)
Definition wait_for_child_timeout_returns_exit_status_when_process_finishes : Prop :=
  match run_steps control_step control_new
          [NewWait true; WaitExitCheck 0; WaitPoll 0 (Ok None); WaitWake 0; WaitExitCheck 0;
           WaitPoll 0 (Ok (Some (StdStatus true (Some 0)))); StoreExit 0] with
  | Some child =>
    match waiters child !! 0%nat ≫= wait_answer with
    | Some (Ok (Some status)) => success status = true ∧ status_code status = Some 0
    | _ => False
    end
  | None => False
  end.

(** The part of [vte] the tests need: printed bytes, controls, and control
    sequences with numbers separated by semicolons, unfinished ones kept. *)
Inductive csi_state : Type :=
| Ground
| Escape
| Params (done : list nat) (current : nat).

Definition csi_byte (s : csi_state) (b : byte) : csi_state * list vte_event :=
  match s with
  | Ground => if code b =? 27 then (Escape, []) else (Ground, [plain_event b])
  | Escape => if code b =? Vte.ch "[" then (Params [] 0, []) else (Ground, [EscDispatch [] false (code b)])
  | Params l n =>
    if (48 <=? code b) && (code b <=? 57) then (Params l (10 * n + Z.to_nat (code b - 48)), [])
    else if code b =? Vte.ch ";" then (Params (l ++ [n]) 0, [])
    else (Ground, [CsiDispatch ((fun n => [n]) <$> (l ++ [n])) [] false (code b)])
  end.

Fixpoint csi_advance (s : csi_state) (input : bytes) : csi_state * list vte_event :=
  match input with
  | [] => (s, [])
  | b :: input =>
    let '(s, events) := csi_byte s b in
    let '(s, more) := csi_advance s input in (s, events ++ more)
  end.

#[local] Instance csi_parser : VteParser | 0 := {|
  vte_state := csi_state; vte_new := Ground; vte_advance := csi_advance |}.

Definition esc (s : string) : bytes := chr 27 :: str_bytes s.

Definition pty_terminal_state_replies_to_cursor_position_requests : Prop :=
  let terminal := PtyTerminal.new 80 24 in
  (feed terminal (str_bytes "hello" ++ [chr 13; LF] ++ esc "[12;34H" ++ esc "[6n")).2 = [bytes_str (esc "[12;34R")].

Definition pty_terminal_state_handles_split_cursor_position_requests : Prop :=
  let terminal := PtyTerminal.new 80 24 in
  let '(terminal, responses) := feed terminal (esc "[4;9H" ++ esc "[") in
  responses = [] ∧ (feed terminal (str_bytes "6n")).2 = [bytes_str (esc "[4;9R")].

Definition spawn_disabled_error_is_permission_denied : Prop :=
  let error := spawn_disabled_error in
  spawn_kind error = SpawnPermissionDenied ∧ str_contains (spawn_message error) "disabled" = true.

Example host_tests_pass :
  wait_for_child_timeout_returns_none_when_process_runs_too_long ∧
  wait_for_child_timeout_returns_exit_status_when_process_finishes ∧
  pty_terminal_state_replies_to_cursor_position_requests ∧
  pty_terminal_state_handles_split_cursor_position_requests ∧ spawn_disabled_error_is_permission_denied.
Proof. vm_compute. repeat split; reflexivity. Qed.

End Host.

(** ** [mitb-host/src/agent.rs] *)

Module Reward.

(** How a number is shown in an error does not matter. *)
Definition accepts (reward : f64) : bool := is_ok (validate_reward (fun _ => "") reward).

Definition validate_reward_accepts_normalized_bounds : Prop :=
  accepts f_zero = true ∧ accepts (f64_lit 1 2) = true ∧ accepts f64_one = true.

Definition validate_reward_rejects_out_of_range_values : Prop :=
  accepts (f64_lit (-1) 10) = false ∧ accepts (f64_lit 11 10) = false.

Definition validate_reward_rejects_non_finite_values : Prop :=
  accepts S754_nan = false ∧ accepts (S754_infinity false) = false ∧ accepts (S754_infinity true) = false.

Example reward_tests_pass :
  validate_reward_accepts_normalized_bounds ∧ validate_reward_rejects_out_of_range_values ∧
  validate_reward_rejects_non_finite_values.
Proof. vm_compute. repeat split; reflexivity. Qed.

End Reward.

(** ** [mitb-server/src/ws_auth.rs] *)

Module Handle.

Definition normalize_room_handle_accepts_expected_format : Prop :=
  normalize_room_handle "room-abc123_DEF" = Ok "room-abc123_DEF".

Definition normalize_room_handle_rejects_empty_and_invalid_values : Prop :=
  is_ok (normalize_room_handle "   ") = false ∧ is_ok (normalize_room_handle "room with spaces") = false ∧
  is_ok (normalize_room_handle "room/slash") = false.

Example handle_tests_pass :
  normalize_room_handle_accepts_expected_format ∧ normalize_room_handle_rejects_empty_and_invalid_values.
Proof. vm_compute. repeat split; reflexivity. Qed.

End Handle.

(** ** [mitb-pake/src/lib.rs]

    Over any key exchange; the session after each call is the next one's.  The
    registration of a test, from its start to the stored password file. *)

Module Exchange.
Section Exchange.
Context `{Opaque} (e : entropy).

Definition register (server : ServerPake) (id : bytes) (client : ClientSession)
    : result string (ClientSession * bytes * bytes) :=
  let '(client, registration) := start_registration e client in
  registration_request ← registration;
  registration_response ← server_registration_response server id registration_request;
  let '(client, finish) := finish_registration e e client registration_response in
  '(registration_upload, credential_request) ← finish;
  password_file ← server_finish_registration server registration_upload;
  Ok (client, password_file, credential_request).

(** [start_login] of the server, [finish_login] and [finish]. *)
Definition log_in (server : ServerPake) (id password_file credential_request : bytes) (client : ClientSession)
    : ClientSession * result string () :=
  match server_start_login e server id password_file credential_request with
  | Err error => (client, Err error)
  | Ok (credential_response, login_session) =>
    let '(client, finish) := finish_login e client credential_response in
    (client, credential_finalization ← finish; server_session_finish login_session credential_finalization)
  end.

Definition registration_then_login_round_trip : result string () :=
  client ← client_new "my-shared-code";
  let server := server_new e in
  let id := str_bytes "room-handle" in
  let '(client, login) := start_login e client in
  _ ← login;
  '(client, password_file, credential_request) ← register server id client;
  (log_in server id password_file credential_request client).2.

Definition login_state_can_try_multiple_candidates : result string () :=
  client ← client_new "my-shared-code";
  wrong_client ← client_new "other-secret";
  let server := server_new e in
  let wrong_id := str_bytes "room-a" in
  let correct_id := str_bytes "room-b" in
  '(_, wrong_file, _) ← register server wrong_id wrong_client;
  '(client, correct_file, _) ← register server correct_id client;
  let '(client, login) := start_login e client in
  credential_request ← login;
  let '(client, wrong_login) := log_in server wrong_id wrong_file credential_request client in
  match wrong_login with
  | Err "invalid secret code" => (log_in server correct_id correct_file credential_request client).2
  | _ => Err "the wrong candidate was not refused"
  end.

End Exchange.

Example exchange_tests_pass :
  @registration_then_login_round_trip plain_opaque () = Ok () ∧
  @login_state_can_try_multiple_candidates plain_opaque () = Ok ().
Proof. vm_compute. split; reflexivity. Qed.

End Exchange.
